(** * The search-instruction compiler of cph-svr

    A shallow embedding of the three cooperating files
    [src/utils/parser.ts] (InstructionParser),
    [src/utils/searchBuilder.ts] (SearchPipelineBuilder) and
    [src/utils/pipeline_builder.ts] (ParserPipeline), together with the
    uniqueness constraint of [src/models/instruction.model.ts].

    JavaScript strings are modelled as [string]: a sequence of 8-bit code
    units, read as the Latin-1 range of UTF-16.  Every character class the
    source uses ([\w], [\d], [\s], [.], [A-Z0-9], the literals) is decided
    inside that range. *)

From Stdlib Require Import String Ascii List Bool Arith NArith Lia.
Import ListNotations.
Open Scope string_scope.
Open Scope bool_scope.
Set Warnings "-register-all".

(* ================================================================== *)
(** ** JavaScript string primitives *)
(* ================================================================== *)

Module JS.

Definition code (a : ascii) : N := N_of_ascii a.

Definition in_range (lo hi : N) (a : ascii) : bool :=
  (lo <=? code a)%N && (code a <=? hi)%N.

Definition is_digit (a : ascii) : bool := in_range 48 57 a.
Definition is_upper (a : ascii) : bool := in_range 65 90 a.
Definition is_lower (a : ascii) : bool := in_range 97 122 a.

(** [\w] : [A-Za-z0-9_] *)
Definition is_word (a : ascii) : bool :=
  is_upper a || is_lower a || is_digit a || Ascii.eqb a "_".

(** [[A-Z0-9]] *)
Definition is_upper_alnum (a : ascii) : bool := is_upper a || is_digit a.

(** [\s], and the characters removed by [String.prototype.trim]:
    TAB, LF, VT, FF, CR, SPACE and NO-BREAK SPACE. *)
Definition is_space (a : ascii) : bool :=
  in_range 9 13 a || (code a =? 32)%N || (code a =? 160)%N.

(** [.] without the [s] flag: anything but a line terminator. *)
Definition is_dot (a : ascii) : bool :=
  negb ((code a =? 10)%N || (code a =? 13)%N).

Definition lower_char (a : ascii) : ascii :=
  if is_upper a || in_range 192 214 a || in_range 216 222 a
  then ascii_of_N (code a + 32) else a.

Definition upper_char (a : ascii) : ascii :=
  if is_lower a then ascii_of_N (code a - 32) else a.

Fixpoint toLowerCase (s : string) : string :=
  match s with
  | EmptyString => EmptyString
  | String a s' => String (lower_char a) (toLowerCase s')
  end.

Fixpoint rev (s : string) : string :=
  match s with
  | EmptyString => EmptyString
  | String a s' => rev s' ++ String a EmptyString
  end.

Fixpoint trimStart (s : string) : string :=
  match s with
  | String a s' => if is_space a then trimStart s' else s
  | EmptyString => EmptyString
  end.

Definition trimEnd (s : string) : string := rev (trimStart (rev s)).

Definition trim (s : string) : string := trimEnd (trimStart s).

Definition startsWith (s : string) (a : ascii) : bool :=
  match s with
  | String b _ => Ascii.eqb a b
  | EmptyString => false
  end.

(** [s.slice(1)] / [s.substring(1)] *)
Definition slice1 (s : string) : string :=
  match s with
  | String _ s' => s'
  | EmptyString => EmptyString
  end.

Fixpoint take (n : nat) (s : string) : string :=
  match n, s with
  | S n', String a s' => String a (take n' s')
  | _, _ => EmptyString
  end.

Fixpoint repeat (a : ascii) (n : nat) : string :=
  match n with
  | O => EmptyString
  | S n' => String a (repeat a n')
  end.

(** [s.padStart(n, "0")] *)
Definition padStart (n : nat) (s : string) : string :=
  repeat "0" (n - String.length s) ++ s.

(** [s.includes(c)] for a one-character needle *)
Fixpoint includes (a : ascii) (s : string) : bool :=
  match s with
  | EmptyString => false
  | String b s' => Ascii.eqb a b || includes a s'
  end.

(** [parts.join(" ")] *)
Definition join (sep : string) (l : list string) : string :=
  String.concat sep l.

(** Truthiness of a string value. *)
Definition truthy (s : string) : bool :=
  match s with EmptyString => false | _ => true end.

End JS.

(* ================================================================== *)
(** ** Regular expressions: a backtracking matcher                      *)
(* ================================================================== *)

(** The regular-expression literals of the source are kept as syntax and
    run by one matcher that follows the ECMAScript algorithm: alternatives
    are tried left to right, quantifiers are greedy and give characters
    back one at a time, and a capture group records what its body
    consumed. *)

Module Regex.

Inductive regex : Type :=
| Chr (p : ascii -> bool)          (* one character of a class *)
| Eps                              (* the empty pattern *)
| Seq (r1 r2 : regex)
| Alt (r1 r2 : regex)              (* r1|r2 *)
| Star (r : regex)                 (* r*, greedy *)
| Group (n : nat) (r : regex)      (* the n-th capturing group *)
| Bol                              (* ^ *)
| Eol.                             (* $ *)

Definition captures := list (nat * string).

Fixpoint group (n : nat) (c : captures) : option string :=
  match c with
  | [] => None
  | (m, s) :: c' => if Nat.eqb n m then Some s else group n c'
  end.

Section Matcher.
Variable A : Type.
(** The whole input, against which [^] is decided. *)
Variable input : string.

(** The iterations of a greedy [r*]: one more turn of the body first,
    the continuation when that fails.  A turn that consumes nothing is
    refused, as in the ECMAScript algorithm. *)
Fixpoint star_loop
         (body : string -> captures ->
                 (string -> captures -> option A) -> option A)
         (k : string -> captures -> option A)
         (fuel : nat) (rest : string) (c : captures) : option A :=
  match fuel with
  | O => k rest c
  | S fuel' =>
      match body rest c
              (fun rest' c' =>
                 if Nat.ltb (String.length rest') (String.length rest)
                 then star_loop body k fuel' rest' c' else None) with
      | Some x => Some x
      | None => k rest c
      end
  end.

Fixpoint m (r : regex) (rest : string) (c : captures)
           (k : string -> captures -> option A) {struct r} : option A :=
  match r with
  | Chr p =>
      match rest with
      | String a rest' => if p a then k rest' c else None
      | EmptyString => None
      end
  | Eps => k rest c
  | Seq r1 r2 => m r1 rest c (fun rest1 c1 => m r2 rest1 c1 k)
  | Alt r1 r2 =>
      match m r1 rest c k with
      | Some x => Some x
      | None => m r2 rest c k
      end
  | Star r' => star_loop (m r') k (S (String.length rest)) rest c
  | Group n r' =>
      m r' rest c
        (fun rest' c' =>
           k rest'
             ((n, JS.take (String.length rest - String.length rest') rest)
                :: c'))
  | Bol =>
      if Nat.eqb (String.length rest) (String.length input)
      then k rest c else None
  | Eol =>
      match rest with
      | EmptyString => k rest c
      | _ => None
      end
  end.
End Matcher.

(** A match found at the current position: the text consumed, the
    captures, and what follows. *)
Record found := { matched : string; groups : captures; after : string }.

Definition match_here (input : string) (r : regex) (rest : string)
  : option found :=
  m found input r rest []
    (fun rest' c =>
       Some {| matched := JS.take (String.length rest - String.length rest') rest;
               groups := c; after := rest' |}).

(** [r.exec(s)] without the [g] flag: the leftmost position with a match. *)
Fixpoint search (input : string) (r : regex) (rest : string) : option found :=
  match match_here input r rest with
  | Some f => Some f
  | None =>
      match rest with
      | String _ rest' => search input r rest'
      | EmptyString => None
      end
  end.

Definition exec (r : regex) (s : string) : option found := search s r s.

(** [r.test(s)] *)
Definition test (r : regex) (s : string) : bool :=
  match exec r s with Some _ => true | None => false end.

(** [s.match(r)] with the [g] flag: every match, left to right, each
    search resuming where the previous match ended (one character
    further after an empty match). *)
Fixpoint match_all_from (fuel : nat) (input : string) (r : regex)
         (rest : string) : list string :=
  match fuel with
  | O => []
  | S fuel' =>
      match match_here input r rest with
      | Some f =>
          matched f ::
            (if Nat.ltb (String.length (after f)) (String.length rest)
             then match_all_from fuel' input r (after f)
             else match rest with
                  | String _ rest' => match_all_from fuel' input r rest'
                  | EmptyString => []
                  end)
      | None =>
          match rest with
          | String _ rest' => match_all_from fuel' input r rest'
          | EmptyString => []
          end
      end
  end.

Definition match_all (r : regex) (s : string) : list string :=
  match_all_from (S (String.length s)) s r s.

(** [s.replace(r, "")] with the [g] flag. *)
Fixpoint remove_all_from (fuel : nat) (input : string) (r : regex)
         (rest : string) : string :=
  match fuel with
  | O => rest
  | S fuel' =>
      match match_here input r rest with
      | Some f =>
          if Nat.ltb (String.length (after f)) (String.length rest)
          then remove_all_from fuel' input r (after f)
          else match rest with
               | String a rest' => String a (remove_all_from fuel' input r rest')
               | EmptyString => EmptyString
               end
      | None =>
          match rest with
          | String a rest' => String a (remove_all_from fuel' input r rest')
          | EmptyString => EmptyString
          end
      end
  end.

Definition remove_all (r : regex) (s : string) : string :=
  remove_all_from (S (String.length s)) s r s.

(** *** Derived forms *)

Definition lit (a : ascii) : regex := Chr (Ascii.eqb a).
(** a letter under the [i] flag *)
Definition liti (a : ascii) : regex :=
  Chr (fun b => Ascii.eqb (JS.upper_char a) (JS.upper_char b)).
Definition plus (r : regex) : regex := Seq r (Star r).
Definition opt (r : regex) : regex := Alt r Eps.

Fixpoint times (n : nat) (r : regex) : regex :=
  match n with
  | O => Eps
  | S n' => Seq r (times n' r)
  end.

(** at most [n] greedy repetitions *)
Fixpoint upto (n : nat) (r : regex) : regex :=
  match n with
  | O => Eps
  | S n' => opt (Seq r (upto n' r))
  end.

(** [r{lo,hi}] *)
Definition between (lo hi : nat) (r : regex) : regex :=
  Seq (times lo r) (upto (hi - lo) r).

Fixpoint seqs (l : list regex) : regex :=
  match l with
  | [] => Eps
  | [r] => r
  | r :: l' => Seq r (seqs l')
  end.

Fixpoint alts (l : list regex) : regex :=
  match l with
  | [] => Eps
  | [r] => r
  | r :: l' => Alt r (alts l')
  end.

(** a literal word, letter by letter *)
Fixpoint word (s : string) : regex :=
  match s with
  | EmptyString => Eps
  | String a s' => Seq (lit a) (word s')
  end.

Fixpoint wordi (s : string) : regex :=
  match s with
  | EmptyString => Eps
  | String a s' => Seq (liti a) (wordi s')
  end.

Definition w : regex := Chr JS.is_word.
Definition d : regex := Chr JS.is_digit.
Definition dot : regex := Chr JS.is_dot.
Definition nonspace : regex := Chr (fun a => negb (JS.is_space a)).
Definition space : regex := Chr JS.is_space.
Definition AZ09 : regex := Chr JS.is_upper_alnum.
Definition notc (a : ascii) : regex := Chr (fun b => negb (Ascii.eqb a b)).
Definition oneof (s : string) : regex := Chr (fun b => JS.includes b s).

End Regex.

(* ================================================================== *)
(** ** Data model ([parser.ts], [instruction.interface.ts])             *)
(* ================================================================== *)

(** The double quote, written by its code. *)
Definition dquote : ascii := ascii_of_N 34.
Definition squote : ascii := "'"%char.

(** [s] between two double quotes / two single quotes. *)
Definition dq (s : string) : string :=
  String dquote (s ++ String dquote EmptyString).
Definition sq (s : string) : string :=
  String squote (s ++ String squote EmptyString).

Inductive PatternField : Type := keys | items | lines | brands.

Inductive ComparisonOperator : Type := GT | LT | GTE | LTE.

Definition operator_text (op : ComparisonOperator) : string :=
  match op with GT => ">" | LT => "<" | GTE => ">=" | LTE => "<=" end.

(** [type Pattern = ValuePattern | RegexPattern | ComparisonPattern |
    RangePattern], each with its optional [keyPrefix]. *)
Inductive Pattern : Type :=
| ValuePattern (value : string) (keyPrefix : option string)
| RegexPattern (value : string) (keyPrefix : option string)
| ComparisonPattern (operator : ComparisonOperator) (value : string)
                    (keyPrefix : option string)
| RangePattern (start end_ : string) (keyPrefix : option string).

Definition keyPrefix_of (p : Pattern) : option string :=
  match p with
  | ValuePattern _ k | RegexPattern _ k
  | ComparisonPattern _ _ k | RangePattern _ _ k => k
  end.

Record ParsedFieldSet : Type :=
  { include : list Pattern; exclude : list Pattern }.

Record ParsedResult : Type :=
  { r_keys : ParsedFieldSet;
    r_items : ParsedFieldSet;
    r_lines : ParsedFieldSet;
    r_brands : ParsedFieldSet;
    desc : string }.

Definition emptySet : ParsedFieldSet := {| include := []; exclude := [] |}.

Definition emptyResult (d : string) : ParsedResult :=
  {| r_keys := emptySet; r_items := emptySet; r_lines := emptySet;
     r_brands := emptySet; desc := d |}.

Definition field_set (f : PatternField) (r : ParsedResult) : ParsedFieldSet :=
  match f with
  | keys => r_keys r | items => r_items r
  | lines => r_lines r | brands => r_brands r
  end.

(** [result[field][exclude ? "exclude" : "include"].push(pattern)] *)
Definition push (f : PatternField) (excl : bool) (p : Pattern)
           (r : ParsedResult) : ParsedResult :=
  let upd (s : ParsedFieldSet) :=
    if excl then {| include := include s; exclude := exclude s ++ [p] |}
    else {| include := include s ++ [p]; exclude := exclude s |} in
  match f with
  | keys => {| r_keys := upd (r_keys r); r_items := r_items r;
               r_lines := r_lines r; r_brands := r_brands r; desc := desc r |}
  | items => {| r_keys := r_keys r; r_items := upd (r_items r);
                r_lines := r_lines r; r_brands := r_brands r; desc := desc r |}
  | lines => {| r_keys := r_keys r; r_items := r_items r;
                r_lines := upd (r_lines r); r_brands := r_brands r;
                desc := desc r |}
  | brands => {| r_keys := r_keys r; r_items := r_items r;
                 r_lines := r_lines r; r_brands := upd (r_brands r);
                 desc := desc r |}
  end.

Definition set_desc (d : string) (r : ParsedResult) : ParsedResult :=
  {| r_keys := r_keys r; r_items := r_items r; r_lines := r_lines r;
     r_brands := r_brands r; desc := d |}.

(** What a property read [aliases[alias]] on the alias table yields: the
    field of one of its own keys, [undefined], or for the one lower-case
    name that every object literal inherits ([constructor]) a value that
    is truthy but is no field. *)
Inductive aliasLookup : Type :=
| Own (f : PatternField)
| Inherited
| Absent.

(** Latin-1 letters of the localized aliases. *)
Definition i_acute : ascii := ascii_of_N 237.

Definition aliasTable : list (string * PatternField) :=
  [ ("key", keys); ("keys", keys); ("item", items); ("items", items);
    ("brand", brands); ("brands", brands); ("line", lines); ("lines", lines);
    ("clave", keys); ("claves", keys);
    (String i_acute "tem", items); (String i_acute "tems", items);
    ("art" ++ String i_acute "culo", items); ("articulo", items);
    ("art" ++ String i_acute "culos", items); ("articulos", items);
    ("producto", items); ("productos", items);
    ("l" ++ String i_acute "nea", lines); ("linea", lines);
    ("l" ++ String i_acute "neas", lines); ("lineas", lines);
    ("marca", brands); ("marcas", brands) ].

Fixpoint assoc (k : string) (l : list (string * PatternField))
  : option PatternField :=
  match l with
  | [] => None
  | (k', v) :: l' => if String.eqb k k' then Some v else assoc k l'
  end.

Definition aliasMap (alias : string) : aliasLookup :=
  match assoc alias aliasTable with
  | Some f => Own f
  | None => if String.eqb alias "constructor" then Inherited else Absent
  end.

(** Exceptions and rejected promises. *)
Inductive error : Type :=
| TypeError          (* a property read on [undefined] *)
| DuplicateKey       (* E11000: the unique index on [token] *)
| NotAString.        (* the [Error] of the constructor of [InstructionParser] *)

Inductive Exc (A : Type) : Type :=
| Ok (a : A)
| Throw (e : error).
Arguments Ok {A} a.
Arguments Throw {A} e.

(** The shape regular expressions, shared by both parsers. *)
Module Shape.
Import Regex.
(** [/^[A-Z0-9]{5,6}$/] *)
Definition keys_re : regex := seqs [Bol; between 5 6 AZ09; Eol].
(** [/^([A-Z0-9]{6}|[A-Z0-9]{5}\s)[A-Z0-9]{4}$/] *)
Definition items_re : regex :=
  seqs [Bol; Group 1 (Alt (times 6 AZ09) (Seq (times 5 AZ09) space));
        times 4 AZ09; Eol].
(** [/^[A-Z0-9]{3}$/] *)
Definition lines_re : regex := seqs [Bol; times 3 AZ09; Eol].
(** [/^[A-Z0-9]{2,3}$/] *)
Definition brands_re : regex := seqs [Bol; between 2 3 AZ09; Eol].
(** [/^(\w+):["'](.+)["']$/] *)
Definition fieldQuoted_re : regex :=
  seqs [Bol; Group 1 (plus w); lit ":"; Alt (lit dquote) (lit squote);
        Group 2 (plus dot); Alt (lit dquote) (lit squote); Eol].
(** [/^(\w+):(.+)$/] *)
Definition field_re : regex :=
  seqs [Bol; Group 1 (plus w); lit ":"; Group 2 (plus dot); Eol].
(** [/^\[([^\]]+)\](.+)$/] *)
Definition keyPrefix_re : regex :=
  seqs [Bol; lit "["; Group 1 (plus (notc "]")); lit "]";
        Group 2 (plus dot); Eol].
(** [/^(.+)<>(.+)$/] *)
Definition range_re : regex :=
  seqs [Bol; Group 1 (plus dot); lit "<"; lit ">"; Group 2 (plus dot); Eol].
(** [/[*^$]/] *)
Definition meta_re : regex := oneof "*^$".
(** [/^".+"$/] and [/^'.+'$/] *)
Definition dquoted_re : regex := seqs [Bol; lit dquote; plus dot; lit dquote; Eol].
Definition squoted_re : regex := seqs [Bol; lit squote; plus dot; lit squote; Eol].
(** [/^"|"$/g] and [/^'|'$/g] *)
Definition dquote_ends_re : regex :=
  Alt (Seq Bol (lit dquote)) (Seq (lit dquote) Eol).
Definition squote_ends_re : regex :=
  Alt (Seq Bol (lit squote)) (Seq (lit squote) Eol).
(** [/\w+:Q[^Q]+Q|\w+:'[^']+'|\S+/g], where Q stands for the double quote *)
Definition token_re : regex :=
  alts [ seqs [plus w; lit ":"; lit dquote; plus (notc dquote); lit dquote];
         seqs [plus w; lit ":"; lit squote; plus (notc squote); lit squote];
         plus nonspace ].

(** [v.replace(/^"|"$/g, "").replace(/^'|'$/g, "")] *)
Definition stripQuotes (v : string) : string :=
  remove_all squote_ends_re (remove_all dquote_ends_re v).

(** [value.length < 4 ? value.padStart(4, "0") : value] *)
Definition pad4 (v : string) : string :=
  if Nat.ltb (String.length v) 4 then JS.padStart 4 v else v.

(** The captured groups [m[1]] and [m[2]] of a successful match. *)
Definition group1 (f : found) : string :=
  match group 1 (groups f) with Some s => s | None => EmptyString end.
Definition group2 (f : found) : string :=
  match group 2 (groups f) with Some s => s | None => EmptyString end.
End Shape.

(* ================================================================== *)
(** ** [parser.ts]: InstructionParser                                   *)
(* ================================================================== *)

Module InstructionParser.
Import Regex Shape.

(** [/(\w+):/i] *)
Definition prefix_re : regex := Seq (Group 1 (plus w)) (lit ":").
(** [/^(>=|<=|>|<).+/] *)
Definition isComparison_re : regex :=
  seqs [Bol; Group 1 (alts [word ">="; word "<="; word ">"; word "<"]);
        plus dot].
(** [/^(>=|<=|>|<)(.+)$/] *)
Definition comparison_re : regex :=
  seqs [Bol; Group 1 (alts [word ">="; word "<="; word ">"; word "<"]);
        Group 2 (plus dot); Eol].
(** [/^.+<>.+$/] *)
Definition isRange_re : regex :=
  seqs [Bol; plus dot; lit "<"; lit ">"; plus dot; Eol].

(** [fieldAliases] has the same keys as [ParserPipeline.aliasMap]. *)
Definition fieldAliases : string -> aliasLookup := aliasMap.

(** [fieldPatterns], in the order [Object.entries] lists it; the [desc]
    entry is skipped by its only reader. *)
Definition fieldPatterns : list (PatternField * regex) :=
  [ (keys, keys_re); (items, items_re); (lines, lines_re);
    (brands, brands_re) ].

Definition tokenize (instruction : string) : list string :=
  if negb (test prefix_re instruction) then [instruction]
  else match_all token_re instruction.

Definition isComparisonPattern (value : string) : bool :=
  test isComparison_re value.

Definition operatorMap (s : string) : option ComparisonOperator :=
  if String.eqb s ">" then Some GT
  else if String.eqb s "<" then Some LT
  else if String.eqb s ">=" then Some GTE
  else if String.eqb s "<=" then Some LTE
  else None.

Definition parseComparison (value : string)
  : option (ComparisonOperator * string) :=
  match exec comparison_re value with
  | Some f =>
      match operatorMap (group1 f) with
      | Some operator => Some (operator, pad4 (group2 f))
      | None => None
      end
  | None => None
  end.

Definition isRangePattern (value : string) : bool := test isRange_re value.

Definition parseRange (value : string) : option (string * string) :=
  match exec range_re value with
  | Some f => Some (pad4 (group1 f), pad4 (group2 f))
  | None => None
  end.

Definition isRegexPattern (value : string) : bool :=
  test meta_re value || test dquoted_re value || test squoted_re value.

Definition parseRegex (value : string) : string := stripQuotes value.

(** [...(keyPrefix ? { keyPrefix } : {})] *)
Definition spreadPrefix (keyPrefix : option string) : option string :=
  match keyPrefix with
  | Some k => if JS.truthy k then Some k else None
  | None => None
  end.

Definition extractPatterns (value : string) : list Pattern :=
  let keyPrefixMatch := exec keyPrefix_re value in
  let keyPrefix :=
    match keyPrefixMatch with Some f => Some (group1 f) | None => None end in
  let patternValue :=
    match keyPrefixMatch with Some f => group2 f | None => value end in
  if isComparisonPattern patternValue then
    match parseComparison patternValue with
    | Some (operator, v) =>
        [ComparisonPattern operator v (spreadPrefix keyPrefix)]
    | None => []
    end
  else if isRangePattern patternValue then
    match parseRange patternValue with
    | Some (s, e) => [RangePattern s e (spreadPrefix keyPrefix)]
    | None => []
    end
  else if isRegexPattern patternValue then
    let regex := parseRegex patternValue in
    if JS.truthy regex then [RegexPattern regex (spreadPrefix keyPrefix)]
    else []
  else
    [ValuePattern (stripQuotes patternValue) (spreadPrefix keyPrefix)].

(** The first loop of [determineField]: the first field whose shape the
    value has. *)
Fixpoint firstShape (l : list (PatternField * regex)) (value : string)
  : option PatternField :=
  match l with
  | [] => None
  | (f, re) :: l' => if test re value then Some f else firstShape l' value
  end.

(** The second loop: the default a pattern type gives. *)
Fixpoint byPatternType (patterns : list Pattern) (value : string)
  : option PatternField :=
  match patterns with
  | [] => None
  | ValuePattern _ _ :: rest =>
      if test items_re value then Some items
      else if test keys_re value then Some keys
      else if test lines_re value then Some lines
      else if test brands_re value then Some brands
      else byPatternType rest value
  | _ :: _ => Some items
  end.

Definition determineField (value : string) (patterns : list Pattern)
  : option PatternField :=
  match firstShape fieldPatterns value with
  | Some f => Some f
  | None => byPatternType patterns value
  end.

Definition assignPatterns (patterns : list Pattern) (field : PatternField)
           (excl : bool) (result : ParsedResult) : ParsedResult :=
  fold_left (fun r p => push field excl p r) patterns result.

(** [this.result.desc += token + " "] *)
Definition addDesc (token : string) (result : ParsedResult) : ParsedResult :=
  set_desc (desc result ++ token ++ " ") result.

(** The alias prefix of a token: the field it names and the value left.
    Both matches replace the value, also when the alias is unknown. *)
Definition splitAlias (value : string) : aliasLookup * string :=
  match exec fieldQuoted_re value with
  | Some f => (fieldAliases (JS.toLowerCase (group1 f)), group2 f)
  | None =>
      match exec field_re value with
      | Some f => (fieldAliases (JS.toLowerCase (group1 f)), group2 f)
      | None => (Absent, value)
      end
  end.

(** The loop of [parseInstruction].  An index put into
    [processedIndices] is always the next one, so skipping it is
    continuing two tokens further. *)
Fixpoint parseTokens (tokens : list string) (result : ParsedResult)
  : Exc ParsedResult :=
  match tokens with
  | [] => Ok result
  | token :: rest =>
      let excl := JS.startsWith token "-" in
      let value0 := if excl then JS.slice1 token else token in
      let field := fst (splitAlias value0) in
      let value := snd (splitAlias value0) in
      let single :=
        let patterns := extractPatterns value in
        match patterns with
        | _ :: _ =>
            match field with
            | Own f => parseTokens rest (assignPatterns patterns f excl result)
            | Inherited => Throw TypeError
            | Absent =>
                match determineField value patterns with
                | Some f =>
                    parseTokens rest (assignPatterns patterns f excl result)
                | None => parseTokens rest (addDesc token result)
                end
            end
        | [] =>
            match field with
            | Absent => parseTokens rest (addDesc token result)
            | _ => parseTokens rest result
            end
        end in
      match field, rest with
      | Absent, next :: rest' =>
          let combinedValue := value ++ " " ++ next in
          if test items_re combinedValue
          then parseTokens rest'
                 (assignPatterns (extractPatterns combinedValue) items excl
                    result)
          else single
      | _, _ => single
      end
  end.

Definition parseInstruction (instruction : string) : Exc ParsedResult :=
  match parseTokens (tokenize instruction) (emptyResult "") with
  | Ok r => Ok (set_desc (JS.trim (desc r)) r)
  | Throw e => Throw e
  end.

(** [new InstructionParser(instruction).result], for an [instruction]
    that is a string. *)
Definition parse (instruction : string) : Exc ParsedResult :=
  if String.eqb (JS.trim instruction) "" then Ok (emptyResult "")
  else parseInstruction instruction.

(** The constructor, on whatever it is handed: a string, or a value of
    another type ([None]: [undefined] when the argument is left out),
    for which [typeof instruction !== "string"] and it throws. *)
Definition construct (instruction : option string) : Exc ParsedResult :=
  match instruction with
  | Some s => parse s
  | None => Throw NotAString
  end.

End InstructionParser.

(* ================================================================== *)
(** ** The compiled filter expressions                                  *)
(* ================================================================== *)

(** What a leaf predicate is applied to: one field path, or the
    concatenation of several. *)
Inductive Operand : Type :=
| Path (p : string)
| Concat (ps : list string).

Inductive MongoOp : Type := op_gt | op_lt | op_gte | op_lte | op_eq.

(** The aggregation expression under [$expr]. *)
Inductive Expr : Type :=
| ExprAnd (es : list Expr)                            (* { $and: [...] } *)
| ExprCmp (op : MongoOp) (input : Operand) (v : string)
                                                      (* { $op: [input, v] } *)
| ExprRegexMatch (input : Operand) (regex options : string).
                                  (* { $regexMatch: { input, regex, options } } *)

(** A query document. *)
Inductive Filter : Type :=
| FExpr (e : Expr)                                    (* { $expr: e } *)
| FCond (or_ nor : option (list Filter))              (* { $or?: .., $nor?: .. } *)
| FAnd (fs : list Filter)                             (* { $and: [...] } *)
| FMatch (f : Filter)                                 (* { $match: f } *)
| FUndefined.                                         (* undefined *)

(** [{}] *)
Definition FEmpty : Filter := FCond None None.
(** [{ $nor: fs }] *)
Definition FNor (fs : list Filter) : Filter := FCond None (Some fs).

(** A pipeline stage [{ $match: f }]. *)
Inductive PipelineStage : Type :=
| Match (f : Filter).

Definition line_code : string := "$key.line.code".
Definition brand_code : string := "$key.brand.code".
Definition item_code : string := "$code".

Definition mapOperator (op : ComparisonOperator) : MongoOp :=
  match op with
  | GT => op_gt | LT => op_lt | GTE => op_gte | LTE => op_lte
  end.

(* ================================================================== *)
(** ** [searchBuilder.ts]: SearchPipelineBuilder                        *)
(* ================================================================== *)

Module SearchPipelineBuilder.

Definition buildExprWithoutPrefix (pattern : Pattern) (isItemFull : bool)
  : option Filter :=
  let input :=
    if isItemFull then [line_code; brand_code; item_code]
    else [line_code; brand_code] in
  match pattern with
  | ValuePattern value _ =>
      Some (FExpr (ExprCmp op_eq (Concat input) value))
  | RegexPattern value _ =>
      Some (FExpr (ExprRegexMatch (Concat input) value "i"))
  | ComparisonPattern operator value _ =>
      Some (FExpr (ExprCmp (mapOperator operator) (Concat input) value))
  | RangePattern start end_ _ =>
      Some (FExpr (ExprAnd [ExprCmp op_gte (Concat input) start;
                            ExprCmp op_lte (Concat input) end_]))
  end.

Definition buildPrefixExpr (prefixValue : string) : option Filter :=
  Some (FExpr (ExprRegexMatch (Concat [line_code; brand_code]) prefixValue "i")).

Definition buildSingleFieldExpr (pattern : Pattern) (fieldPath : string)
  : option Filter :=
  match pattern with
  | ValuePattern value _ =>
      Some (FExpr (ExprCmp op_eq (Path fieldPath) value))
  | RegexPattern value _ =>
      Some (FExpr (ExprRegexMatch (Path fieldPath) value "i"))
  | ComparisonPattern operator value _ =>
      Some (FExpr (ExprCmp (mapOperator operator) (Path fieldPath) value))
  | RangePattern start end_ _ =>
      Some (FExpr (ExprAnd [ExprCmp op_gte (Path fieldPath) start;
                            ExprCmp op_lte (Path fieldPath) end_]))
  end.

Definition buildMainExpr (pattern : Pattern) : option Filter :=
  buildSingleFieldExpr pattern item_code.

(** [f.$expr] *)
Definition expr_of (f : Filter) : option Expr :=
  match f with FExpr e => Some e | _ => None end.

Definition buildItemExpr (pattern : Pattern) : option Filter :=
  match keyPrefix_of pattern with
  | Some (String a p) =>
      let prefix := String a p in
      match buildPrefixExpr prefix, buildMainExpr pattern with
      | Some keyExpr, Some mainExpr =>
          match expr_of keyExpr, expr_of mainExpr with
          | Some keyPart, Some mainPart =>
              Some (FExpr (ExprAnd [keyPart; mainPart]))
          | _, _ => None
          end
      | _, _ => None
      end
  | _ =>
      match pattern with
      | ComparisonPattern _ _ _ | RangePattern _ _ _ => buildMainExpr pattern
      | ValuePattern _ _ | RegexPattern _ _ =>
          buildExprWithoutPrefix pattern true
      end
  end.

Definition buildKeyExpr (pattern : Pattern) : option Filter :=
  buildExprWithoutPrefix pattern false.
Definition buildLineExpr (pattern : Pattern) : option Filter :=
  buildSingleFieldExpr pattern line_code.
Definition buildBrandExpr (pattern : Pattern) : option Filter :=
  buildSingleFieldExpr pattern brand_code.

Definition buildExpr (pattern : Pattern) (fieldName : PatternField)
  : option Filter :=
  match fieldName with
  | items => buildItemExpr pattern
  | keys => buildKeyExpr pattern
  | lines => buildLineExpr pattern
  | brands => buildBrandExpr pattern
  end.

(** [l.map(build).filter(e => e !== null)] *)
Fixpoint clauses (l : list Pattern) (fieldName : PatternField) : list Filter :=
  match l with
  | [] => []
  | p :: l' =>
      match buildExpr p fieldName with
      | Some e => e :: clauses l' fieldName
      | None => clauses l' fieldName
      end
  end.

Definition nonEmpty {A : Type} (l : list A) : option (list A) :=
  match l with [] => None | _ => Some l end.

Definition buildFieldCondition (fieldPatterns : ParsedFieldSet)
           (fieldName : PatternField) : option Filter :=
  match include fieldPatterns, exclude fieldPatterns with
  | [], [] => None
  | inc, exc =>
      Some (FCond (nonEmpty (clauses inc fieldName))
                  (nonEmpty (clauses exc fieldName)))
  end.

Definition optList {A : Type} (o : option A) : list A :=
  match o with Some a => [a] | None => [] end.

Definition buildSearchPipeline (parsed : ParsedResult) : list PipelineStage :=
  let andConditions :=
    (optList (buildFieldCondition (r_keys parsed) keys) ++
     optList (buildFieldCondition (r_items parsed) items) ++
     optList (buildFieldCondition (r_lines parsed) lines) ++
     optList (buildFieldCondition (r_brands parsed) brands))%list in
  match andConditions with
  | [] => []
  | _ => [Match (FAnd andConditions)]
  end.

End SearchPipelineBuilder.

(* ================================================================== *)
(** ** [pipeline_builder.ts]: ParserPipeline, and the instruction cache *)
(* ================================================================== *)

(** [InstructionPatternData] *)
Inductive InstructionPatternData : Type :=
| PDComparison (keyPrefix : option string) (operator : ComparisonOperator)
               (value : string)
| PDRange (keyPrefix : option string) (start end_ : string)
| PDRegex (keyPrefix : option string) (value : string)
          (extractedValue : option string)
| PDValue (keyPrefix : option string) (value : string).

Inductive InstructionType : Type := t_include | t_exclude.

(** The value a [field] holds at run time: one of the four fields, or
    the value that a lookup of [constructor] in the alias table yields,
    which is truthy and is no field (the schema, which declares [field]
    a string, persists its text). *)
Inductive fieldRef : Type :=
| FieldOf (f : PatternField)
| FieldInherited.

Coercion FieldOf : PatternField >-> fieldRef.

(** A cache entry, [Instruction]; its [field] is declared a string. *)
Record Instruction : Type :=
  { token : string;
    field : fieldRef;
    type_ : InstructionType;
    patternData : InstructionPatternData;
    matchStage : PipelineStage }.

(** The collection behind [InstructionModel] ([instruction.model.ts]):
    the documents in insertion order.  The schema declares [token] with
    [unique: true]. *)
Definition Store : Type := list Instruction.

Module InstructionModel.

Definition has (store : Store) (tk : string) : bool :=
  existsb (fun d => String.eqb (token d) tk) store.

(** [InstructionModel.find({ token: { $in: tokenKeys } }).lean()] *)
Definition find (store : Store) (tokenKeys : list string) : list Instruction :=
  filter (fun d => existsb (String.eqb (token d)) tokenKeys) store.

(** [InstructionModel.create(doc)]: the unique index rejects a second
    document with the same [token]. *)
Definition create (store : Store) (doc : Instruction)
  : Exc Instruction * Store :=
  if has store (token doc) then (Throw DuplicateKey, store)
  else (Ok doc, (store ++ [doc])%list).

(** How many persisted entries have this exact token. *)
Definition entries (store : Store) (tk : string) : nat :=
  List.length (filter (fun d => String.eqb (token d) tk) store).

End InstructionModel.

Module ParserPipeline.
Import Regex Shape.

(** [/^\[(ITEMS?|KEYS?|BRANDS?|BRAND|LINES?|ACC)\]/i] *)
Definition reserved_re : regex :=
  seqs [Bol; lit "[";
        Group 1 (alts [Seq (wordi "ITEM") (opt (liti "S"));
                       Seq (wordi "KEY") (opt (liti "S"));
                       Seq (wordi "BRAND") (opt (liti "S"));
                       wordi "BRAND";
                       Seq (wordi "LINE") (opt (liti "S"));
                       wordi "ACC"]);
        lit "]"].
(** [/\[.+\]/] *)
Definition bracketed_re : regex := seqs [lit "["; plus dot; lit "]"].
(** [/^\[[^\]]+\].+$/] *)
Definition bracketThenMore_re : regex :=
  seqs [Bol; lit "["; plus (notc "]"); lit "]"; plus dot; Eol].
(** [/^\w+:\[([^\]]+)\]$/] (the test that precedes it has no group) *)
Definition aliasBracket_re : regex :=
  seqs [Bol; plus w; lit ":"; lit "["; Group 1 (plus (notc "]")); lit "]"; Eol].
(** [/^([><]=?\d+)$/] *)
Definition numComparison_re : regex :=
  seqs [Bol; Group 1 (seqs [oneof "><"; opt (lit "="); plus d]); Eol].
(** [/^\d+<>\d+$/] *)
Definition numRange_re : regex :=
  seqs [Bol; plus d; lit "<"; lit ">"; plus d; Eol].
(** [/^\d{1,4}$/] *)
Definition digits_re : regex := seqs [Bol; between 1 4 d; Eol].
(** [/[*^$\\.+?]/] *)
Definition regexMeta_re : regex := oneof "*^$\.+?".
(** [/^([><]=?)(.+)$/] *)
Definition comparison_re : regex :=
  seqs [Bol; Group 1 (Seq (oneof "><") (opt (lit "="))); Group 2 (plus dot); Eol].

Record Token : Type := { tokenStr : string; tk_exclude : bool }.

Definition isReserved (val : string) : bool := test reserved_re val.

(** The token without its exclusion marker. *)
Definition stripDash (token : string) : string :=
  if JS.startsWith token "-" then JS.slice1 token else token.

Definition isLikelyDynamic (val : string) : bool :=
  if isReserved val then false
  else if existsb (fun re => test re val) [keys_re; lines_re; brands_re]
  then true
  else JS.includes ":" val || test bracketed_re val.

(** One turn of the loop of [tokenizeInput], on the tokens pushed and
    the description accumulated so far. *)
Definition tokenizeStep (acc : list Token * string) (part : string)
  : list Token * string :=
  let excl := JS.startsWith part "-" in
  let val := stripDash part in
  if isReserved val then (fst acc, snd acc ++ part ++ " ")
  else if isLikelyDynamic val then
    ((fst acc ++ [{| tokenStr := if excl then String "-" val else val;
                     tk_exclude := excl |}])%list, snd acc)
  else (fst acc, snd acc ++ part ++ " ").

Definition tokenizeInput (input : string) : list Token * string :=
  let parts := match_all token_re input in
  let out := fold_left tokenizeStep parts ([], "") in
  (fst out, JS.toLowerCase (JS.trim (snd out))).

Definition determineField (value : string) : PatternField :=
  if test keys_re value then keys
  else if test lines_re value then lines
  else if test brands_re value then brands
  else items.

(** The value of the local [field] once it is resolved: a field, or the
    inherited non-field value of [aliasMap]. *)
Abbreviation fieldRef := fieldRef (only parsing).
Abbreviation FieldOf := FieldOf (only parsing).
Abbreviation FieldInherited := FieldInherited (only parsing).

Definition is_items (f : fieldRef) : bool :=
  match f with FieldOf items => true | _ => false end.
Definition is_keys (f : fieldRef) : bool :=
  match f with FieldOf keys => true | _ => false end.
Definition is_brands_lines_keys (f : fieldRef) : bool :=
  match f with
  | FieldOf brands | FieldOf lines | FieldOf keys => true
  | _ => false
  end.

(** The alias prefix: the quoted form replaces the body whatever the
    alias, the plain form only for an alias that is found. *)
Definition splitAlias (tokenStr : string) : aliasLookup * string :=
  match exec fieldQuoted_re tokenStr with
  | Some f => (aliasMap (JS.toLowerCase (group1 f)), group2 f)
  | None =>
      match exec field_re tokenStr with
      | Some f =>
          match aliasMap (JS.toLowerCase (group1 f)) with
          | Absent => (Absent, tokenStr)
          | found => (found, group2 f)
          end
      | None => (Absent, tokenStr)
      end
  end.

Definition operatorMap (s : string) : option ComparisonOperator :=
  InstructionParser.operatorMap s.

Definition parseSingleToken (tokenStr : string)
  : option (fieldRef * InstructionPatternData) :=
  let tokenBody := snd (splitAlias tokenStr) in
  let field :=
    match fst (splitAlias tokenStr) with
    | Own f => FieldOf f
    | Inherited => FieldInherited
    | Absent => FieldOf (determineField tokenBody)
    end in
  if negb (is_items field) && test bracketThenMore_re tokenBody then
    Some (field, PDRegex None tokenBody None)
  else
  match (if is_brands_lines_keys field then exec aliasBracket_re tokenStr
         else None) with
  | Some m1 => Some (field, PDRegex None (group1 m1) None)
  | None =>
  (* the key prefix, for items only *)
  let prefixMatch := exec keyPrefix_re tokenBody in
  let classify (keyPrefix : option string) (tokenBody : string) :=
    match exec comparison_re tokenBody with
    | Some compMatch =>
        match operatorMap (group1 compMatch) with
        | Some op =>
            Some (field, PDComparison keyPrefix op (pad4 (group2 compMatch)))
        | None => None
        end
    | None =>
    match exec range_re tokenBody with
    | Some rangeMatch =>
        Some (field, PDRange keyPrefix (pad4 (group1 rangeMatch))
                       (pad4 (group2 rangeMatch)))
    | None =>
    if test meta_re tokenBody || test dquoted_re tokenBody
       || test squoted_re tokenBody
    then Some (field, PDRegex keyPrefix (stripQuotes tokenBody) None)
    else
      let literal := stripQuotes tokenBody in
      if is_keys field && negb (test keys_re literal) then None
      else if is_items field && negb (test digits_re literal) then None
      else Some (field, PDValue keyPrefix literal)
    end
    end in
  match prefixMatch with
  | Some pm =>
      if negb (is_items field) then None
      else
        let keyPrefix := group1 pm in
        let extracted := group2 pm in
        if test numComparison_re extracted || test numRange_re extracted
           || test digits_re extracted
        then classify (Some keyPrefix) extracted
        else if test regexMeta_re extracted
        then Some (field, PDRegex None tokenStr (Some extracted))
        else None
  | None => classify None tokenBody
  end
  end.

(** [pd.keyPrefix ? ... : ...] *)
Definition truthyPrefix (keyPrefix : option string) : option string :=
  match keyPrefix with
  | Some (String a k) => Some (String a k)
  | _ => None
  end.

Definition pd_keyPrefix (pd : InstructionPatternData) : option string :=
  match pd with
  | PDComparison k _ _ | PDRange k _ _ | PDRegex k _ _ | PDValue k _ => k
  end.

Definition patternDataToPattern (pd : InstructionPatternData) : Pattern :=
  let base := truthyPrefix (pd_keyPrefix pd) in
  match pd with
  | PDComparison _ operator value => ComparisonPattern operator value base
  | PDRange _ start end_ => RangePattern start end_ base
  | PDRegex _ value _ => RegexPattern value base
  | PDValue _ value => ValuePattern value base
  end.

Definition buildExprWithoutPrefix (pattern : Pattern) (isItemFull : bool)
  : option Filter :=
  let input :=
    if isItemFull then [line_code; brand_code; item_code]
    else [line_code; brand_code] in
  match pattern with
  | ValuePattern value _ =>
      Some (FExpr (ExprCmp op_eq (Concat input) value))
  | RegexPattern value _ =>
      Some (FExpr (ExprRegexMatch (Concat input) value "i"))
  | ComparisonPattern operator value _ =>
      Some (FExpr (ExprCmp (mapOperator operator) (Concat input) value))
  | RangePattern start end_ _ =>
      Some (FExpr (ExprAnd [ExprCmp op_gte (Concat input) start;
                            ExprCmp op_lte (Concat input) end_]))
  end.

(** [buildExprWithoutPrefix(...)!] *)
Definition unwrap (o : option Filter) : Filter :=
  match o with Some f => f | None => FEmpty end.

Definition buildSingleFieldExpr (pd : InstructionPatternData) (path : string)
  : Filter :=
  match pd with
  | PDComparison _ operator value =>
      FExpr (ExprCmp (mapOperator operator) (Path path) value)
  | PDRange _ start end_ =>
      FExpr (ExprAnd [ExprCmp op_gte (Path path) start;
                      ExprCmp op_lte (Path path) end_])
  | PDRegex _ value _ => FExpr (ExprRegexMatch (Path path) value "i")
  | PDValue _ value => FExpr (ExprCmp op_eq (Path path) value)
  end.

Definition combinePrefixWithCode (prefixExpr : Expr)
           (pd : InstructionPatternData) (codeField : string) : Filter :=
  match pd with
  | PDRegex _ value _ =>
      FExpr (ExprAnd [prefixExpr; ExprRegexMatch (Path codeField) value "i"])
  | PDValue _ value =>
      FExpr (ExprAnd [prefixExpr; ExprCmp op_eq (Path codeField) value])
  | _ => FEmpty
  end.

Definition buildItemsExpr (pd : InstructionPatternData) : Filter :=
  match pd with
  | PDRegex _ _ (Some extractedValue) =>
      FMatch (FExpr (ExprRegexMatch (Path item_code) extractedValue "i"))
  | _ =>
      match truthyPrefix (pd_keyPrefix pd) with
      | Some keyPrefix =>
          let prefixExpr :=
            ExprRegexMatch (Concat [line_code; brand_code]) keyPrefix "i" in
          match pd with
          | PDComparison _ operator value =>
              FExpr (ExprAnd [prefixExpr;
                              ExprCmp (mapOperator operator) (Path item_code)
                                      value])
          | PDRange _ start end_ =>
              FExpr (ExprAnd [prefixExpr;
                              ExprCmp op_gte (Path item_code) start;
                              ExprCmp op_lte (Path item_code) end_])
          | PDRegex _ value _ =>
              FExpr (ExprAnd [prefixExpr;
                              ExprRegexMatch (Path item_code) value "i"])
          | PDValue _ _ => combinePrefixWithCode prefixExpr pd item_code
          end
      | None =>
          match pd with
          | PDComparison _ operator value =>
              FExpr (ExprCmp (mapOperator operator) (Path item_code) value)
          | PDRange _ start end_ =>
              FExpr (ExprAnd [ExprCmp op_gte (Path item_code) start;
                              ExprCmp op_lte (Path item_code) end_])
          | PDRegex _ _ _ | PDValue _ _ =>
              unwrap (buildExprWithoutPrefix (patternDataToPattern pd) true)
          end
      end
  end.

Definition buildKeysExpr (pd : InstructionPatternData) : Filter :=
  unwrap (buildExprWithoutPrefix (patternDataToPattern pd) false).
Definition buildLineExpr (pd : InstructionPatternData) : Filter :=
  buildSingleFieldExpr pd line_code.
Definition buildBrandExpr (pd : InstructionPatternData) : Filter :=
  buildSingleFieldExpr pd brand_code.

(** The [switch] has no [default]: for a [field] that is none of the
    four the function returns [undefined]. *)
Definition createPositiveExpr (field : fieldRef)
           (pd : InstructionPatternData) : Filter :=
  match field with
  | FieldOf items => buildItemsExpr pd
  | FieldOf keys => buildKeysExpr pd
  | FieldOf lines => buildLineExpr pd
  | FieldOf brands => buildBrandExpr pd
  | FieldInherited => FUndefined
  end.

Definition buildStageFromData (field : fieldRef)
           (patternData : InstructionPatternData) (excl : bool)
  : PipelineStage :=
  let posExpr := createPositiveExpr field patternData in
  if excl then Match (FNor [posExpr]) else Match posExpr.

(** [parseAndStoreToken], on the collection as it is when the write
    reaches it.  Whatever [parseSingleToken] returns as [field] is
    compiled and written. *)
Definition parseAndStoreToken (store : Store) (rawToken : string)
           (wasExclude : bool) : Exc (option Instruction) * Store :=
  let excl := if JS.startsWith rawToken "-" then true else wasExclude in
  let tokenBody := stripDash rawToken in
  match parseSingleToken tokenBody with
  | None => (Ok None, store)
  | Some (field, patternData) =>
      let matchStage := buildStageFromData field patternData excl in
      match InstructionModel.create store
              {| token := rawToken; field := field;
                 type_ := if excl then t_exclude else t_include;
                 patternData := patternData; matchStage := matchStage |} with
      | (Ok doc, store') => (Ok (Some doc), store')
      | (Throw e, store') => (Throw e, store')
      end
  end.

(** [docsMap.get(tokenKey)]: the map keeps the last document set for a
    key. *)
Definition docsMap_get (docs : list Instruction) (tokenKey : string)
  : option Instruction :=
  List.find (fun d => String.eqb (token d) tokenKey) (List.rev docs).

(** The per-token tasks of [Promise.all], their writes reaching the
    collection in token order. *)
Fixpoint parseAll (docs : list Instruction) (tokens : list Token)
         (store : Store) : list (Exc (option Instruction)) * Store :=
  match tokens with
  | [] => ([], store)
  | tk :: rest =>
      match docsMap_get docs (tokenStr tk) with
      | Some doc =>
          let out := parseAll docs rest store in
          (Ok (Some doc) :: fst out, snd out)
      | None =>
          let one := parseAndStoreToken store (tokenStr tk) (tk_exclude tk) in
          let out := parseAll docs rest (snd one) in
          (fst one :: fst out, snd out)
      end
  end.

(** [await Promise.all(...)]: every result, or the first rejection. *)
Fixpoint awaitAll {A : Type} (l : list (Exc A)) : Exc (list A) :=
  match l with
  | [] => Ok []
  | Ok a :: l' =>
      match awaitAll l' with
      | Ok r => Ok (a :: r)
      | Throw e => Throw e
      end
  | Throw e :: _ => Throw e
  end.

(** The tokens whose result was [null]. *)
Fixpoint nonDynamicTokens (tokens : list Token)
         (parseResults : list (option Instruction)) : list string :=
  match tokens, parseResults with
  | tk :: tokens', None :: results' =>
      tokenStr tk :: nonDynamicTokens tokens' results'
  | _ :: tokens', Some _ :: results' => nonDynamicTokens tokens' results'
  | _, _ => []
  end.

(** The entries of [parseArray]. *)
Fixpoint parseArray (parseResults : list (option Instruction))
  : list Instruction :=
  match parseResults with
  | [] => []
  | Some res :: results' => res :: parseArray results'
  | None :: results' => parseArray results'
  end.

Record ResultPipeline : Type :=
  { parseResult : ParsedResult; pipeline : list PipelineStage }.

(** The last loop, over [parseArray], on [finalParsed] and [pipeline]
    as they are so far.  For an entry whose [field] is none of the
    four, [finalParsed[field]] is [undefined] and reading its list
    throws. *)
Fixpoint collect (parseArray : list Instruction) (finalParsed : ParsedResult)
         (pipeline : list PipelineStage) : Exc ResultPipeline :=
  match parseArray with
  | [] => Ok {| parseResult := finalParsed; pipeline := pipeline |}
  | i :: rest =>
      match field i with
      | FieldOf f =>
          collect rest
            (push f
                  (match type_ i with t_exclude => true | t_include => false end)
                  (patternDataToPattern (patternData i)) finalParsed)
            (pipeline ++ [matchStage i])%list
      | FieldInherited => Throw TypeError
      end
  end.

(** From the results of the tasks to the answer. *)
Definition finish (desc0 : string) (tokens : list Token)
           (parseResults : list (option Instruction)) : Exc ResultPipeline :=
  let finalDesc :=
    JS.trim (desc0 ++ " " ++ JS.join " " (nonDynamicTokens tokens parseResults)) in
  collect (parseArray parseResults) (emptyResult finalDesc) [].

Definition getPipelineForInstruction (store : Store) (input : option string)
  : Exc ResultPipeline * Store :=
  match input with
  | None => (Ok {| parseResult := emptyResult ""; pipeline := [] |}, store)
  | Some input =>
      if negb (JS.truthy input) || negb (JS.truthy (JS.trim input)) then
        (Ok {| parseResult := emptyResult ""; pipeline := [] |}, store)
      else
        let tokens := fst (tokenizeInput input) in
        let desc0 := snd (tokenizeInput input) in
        let docs := InstructionModel.find store (map tokenStr tokens) in
        let out := parseAll docs tokens store in
        match awaitAll (fst out) with
        | Ok parseResults => (finish desc0 tokens parseResults, snd out)
        | Throw e => (Throw e, snd out)
        end
  end.

End ParserPipeline.

(* ================================================================== *)
(** ** What a compiled filter accepts                                   *)
(* ================================================================== *)

(** A reading of the filters above, leaf by leaf, on the three codes
    of an item document: what the filter asks of a document.  The two
    leaf tests (the ordering of strings and the regular-expression
    match) are parameters, taken as total: the reading says nothing of
    a pattern that is no regular expression. *)
Module Semantics.

Record Doc : Type :=
  { d_line : string;      (* key.line.code *)
    d_brand : string;     (* key.brand.code *)
    d_code : string }.    (* code *)

Section Eval.
Variable compare : MongoOp -> string -> string -> bool.
Variable regexMatch : string -> string -> string -> bool.

(** The compiled stages name no other path than these three. *)
Definition path_value (doc : Doc) (p : string) : string :=
  if String.eqb p line_code then d_line doc
  else if String.eqb p brand_code then d_brand doc
  else if String.eqb p item_code then d_code doc
  else EmptyString.

Definition operand_value (doc : Doc) (o : Operand) : string :=
  match o with
  | Path p => path_value doc p
  | Concat ps => String.concat "" (map (path_value doc) ps)
  end.

Fixpoint eval_expr (doc : Doc) (e : Expr) : bool :=
  match e with
  | ExprAnd es => forallb (eval_expr doc) es
  | ExprCmp op input v => compare op (operand_value doc input) v
  | ExprRegexMatch input regex options =>
      regexMatch (operand_value doc input) regex options
  end.

(** [None]: the reading has no answer (a key that is no operator of
    a query at this place, an empty array of clauses, or no filter at
    all). *)
Fixpoint eval_filter (doc : Doc) (f : Filter) : option bool :=
  let all :=
    fix all (l : list Filter) : option (list bool) :=
      match l with
      | [] => Some []
      | g :: l' =>
          match eval_filter doc g, all l' with
          | Some b, Some bs => Some (b :: bs)
          | _, _ => None
          end
      end in
  let clauses (l : list Filter) : option (list bool) :=
    match l with [] => None | _ => all l end in
  match f with
  | FExpr e => Some (eval_expr doc e)
  | FCond or_ nor =>
      match (match or_ with
             | None => Some true
             | Some l => option_map (existsb (fun b => b)) (clauses l)
             end),
            (match nor with
             | None => Some true
             | Some l =>
                 option_map (fun bs => negb (existsb (fun b => b) bs))
                            (clauses l)
             end) with
      | Some a, Some b => Some (a && b)
      | _, _ => None
      end
  | FAnd fs => option_map (forallb (fun b => b)) (clauses fs)
  | FMatch _ => None
  | FUndefined => None
  end.

Definition eval_stage (doc : Doc) (s : PipelineStage) : option bool :=
  match s with Match f => eval_filter doc f end.

(** A document passes a pipeline when it passes every stage. *)
Fixpoint eval_pipeline (doc : Doc) (l : list PipelineStage) : option bool :=
  match l with
  | [] => Some true
  | s :: l' =>
      match eval_stage doc s, eval_pipeline doc l' with
      | Some a, Some b => Some (a && b)
      | _, _ => None
      end
  end.
End Eval.

End Semantics.

(* ================================================================== *)
(** ** Reference definitions used in the statements                     *)
(* ================================================================== *)

Module Ref.

Fixpoint all_chars (p : ascii -> bool) (s : string) : bool :=
  match s with
  | EmptyString => true
  | String a s' => p a && all_chars p s'
  end.

Fixpoint take_while (p : ascii -> bool) (s : string) : string :=
  match s with
  | String a s' => if p a then String a (take_while p s') else EmptyString
  | EmptyString => EmptyString
  end.

Fixpoint drop_while (p : ascii -> bool) (s : string) : string :=
  match s with
  | String a s' => if p a then drop_while p s' else s
  | EmptyString => EmptyString
  end.

(** A greedy run of [p]-characters followed by [k], giving characters
    back one at a time. *)
Fixpoint star_chr {A : Type} (p : ascii -> bool)
         (k : string -> Regex.captures -> option A)
         (rest : string) (c : Regex.captures) : option A :=
  match rest with
  | String a rest' =>
      if p a then
        match star_chr p k rest' c with
        | Some x => Some x
        | None => k rest c
        end
      else k rest c
  | EmptyString => k rest c
  end.

Definition nonspace (a : ascii) : bool := negb (JS.is_space a).

Definition cons_head (a : ascii) (l : list string) : list string :=
  match l with
  | [] => [String a EmptyString]
  | w :: l' => String a w :: l'
  end.

(** The maximal runs of non-blank characters of a string. *)
Fixpoint words (s : string) : list string :=
  match s with
  | EmptyString => []
  | String a s' =>
      if JS.is_space a then words s'
      else match s' with
           | String b _ =>
               if JS.is_space b then String a EmptyString :: words s'
               else cons_head a (words s')
           | EmptyString => [String a EmptyString]
           end
  end.

(** What the matcher computes, as a relation: [Matches input r rest c
    rest' c'] when [r] can consume the text between [rest] and its
    suffix [rest'], turning the captures [c] into [c']. *)
Inductive Matches (input : string)
  : Regex.regex -> string -> Regex.captures -> string -> Regex.captures -> Prop :=
| M_chr p a rest c :
    p a = true -> Matches input (Regex.Chr p) (String a rest) c rest c
| M_eps rest c : Matches input Regex.Eps rest c rest c
| M_seq r1 r2 rest c rest1 c1 rest2 c2 :
    Matches input r1 rest c rest1 c1 ->
    Matches input r2 rest1 c1 rest2 c2 ->
    Matches input (Regex.Seq r1 r2) rest c rest2 c2
| M_alt_l r1 r2 rest c rest' c' :
    Matches input r1 rest c rest' c' ->
    Matches input (Regex.Alt r1 r2) rest c rest' c'
| M_alt_r r1 r2 rest c rest' c' :
    Matches input r2 rest c rest' c' ->
    Matches input (Regex.Alt r1 r2) rest c rest' c'
| M_star_stop r rest c : Matches input (Regex.Star r) rest c rest c
| M_star_step r rest c rest1 c1 rest2 c2 :
    Matches input r rest c rest1 c1 ->
    String.length rest1 < String.length rest ->
    Matches input (Regex.Star r) rest1 c1 rest2 c2 ->
    Matches input (Regex.Star r) rest c rest2 c2
| M_group n r rest c rest' c' :
    Matches input r rest c rest' c' ->
    Matches input (Regex.Group n r) rest c rest'
            ((n, JS.take (String.length rest - String.length rest') rest) :: c')
| M_bol rest c :
    String.length rest = String.length input ->
    Matches input Regex.Bol rest c rest c
| M_eol c : Matches input Regex.Eol EmptyString c EmptyString c.

(** The cache entry [parseAndStoreToken] builds for a token that
    compiles. *)
Definition compiled (rawToken : string) (wasExclude : bool)
           (f : fieldRef) (pd : InstructionPatternData) : Instruction :=
  let excl := if JS.startsWith rawToken "-" then true else wasExclude in
  {| token := rawToken; field := f;
     type_ := if excl then t_exclude else t_include;
     patternData := pd;
     matchStage := ParserPipeline.buildStageFromData f pd excl |}.

(** The parts the cached path cuts an instruction into; those it makes
    tokens of, and those it appends to the description at once. *)
Definition parts (input : string) : list string :=
  Regex.match_all Shape.token_re input.

Definition dynamicPart (part : string) : bool :=
  ParserPipeline.isLikelyDynamic (ParserPipeline.stripDash part).

Definition staticPart (part : string) : bool := negb (dynamicPart part).

Definition toToken (part : string) : ParserPipeline.Token :=
  {| ParserPipeline.tokenStr := part;
     ParserPipeline.tk_exclude := JS.startsWith part "-" |}.

(** [p1 + " " + p2 + " " + ...], every part followed by a blank. *)
Fixpoint spaced (l : list string) : string :=
  match l with
  | [] => EmptyString
  | p :: l' => p ++ " " ++ spaced l'
  end.

(** The words the cached path reserves between brackets. *)
Definition reservedWords : list string :=
  ["ITEM"; "ITEMS"; "KEY"; "KEYS"; "BRAND"; "BRANDS"; "LINE"; "LINES"; "ACC"].

Fixpoint toUpperCase (s : string) : string :=
  match s with
  | EmptyString => EmptyString
  | String a s' => String (JS.upper_char a) (toUpperCase s')
  end.

(** What the task of one token resolves to, given the documents read
    at the start: the cached document, [null] for a token that does not
    compile, the new entry, or the error of the write. *)
Definition outcome_of (docs : list Instruction) (tk : ParserPipeline.Token)
           (res : Exc (option Instruction)) : Prop :=
  match ParserPipeline.docsMap_get docs (ParserPipeline.tokenStr tk) with
  | Some d => res = Ok (Some d)
  | None =>
      match ParserPipeline.parseSingleToken
              (ParserPipeline.stripDash (ParserPipeline.tokenStr tk)) with
      | None => res = Ok None
      | Some (f, pd) =>
          res = Throw DuplicateKey \/
          res = Ok (Some (compiled (ParserPipeline.tokenStr tk)
                                   (ParserPipeline.tk_exclude tk) f pd))
      end
  end.

(** A text with no blank at either end. *)
Definition starts_solid (s : string) : bool :=
  match s with
  | String a _ => negb (JS.is_space a)
  | EmptyString => false
  end.

Definition solid (s : string) : bool :=
  starts_solid s && starts_solid (JS.rev s).

(** The leaf predicate of a pattern over the item code alone, and over
    a concatenation of codes. *)
Definition leafOver (input : Operand) (p : Pattern) : Expr :=
  match p with
  | ValuePattern value _ => ExprCmp op_eq input value
  | RegexPattern value _ => ExprRegexMatch input value "i"
  | ComparisonPattern operator value _ =>
      ExprCmp (mapOperator operator) input value
  | RangePattern start end_ _ =>
      ExprAnd [ExprCmp op_gte input start; ExprCmp op_lte input end_]
  end.

Definition codeLeaf (p : Pattern) : Expr := leafOver (Path item_code) p.

Definition fullCode : Operand := Concat [line_code; brand_code; item_code].
Definition keyCode : Operand := Concat [line_code; brand_code].

(** The case-insensitive match of a key prefix against line and brand. *)
Definition prefixMatch (keyPrefix : string) : Expr :=
  ExprRegexMatch keyCode keyPrefix "i".

Definition pd_extracted (pd : InstructionPatternData) : option string :=
  match pd with
  | PDRegex _ _ e => e
  | _ => None
  end.

(** The expression [SearchPipelineBuilder] compiles a pattern to under
    a field. *)
Definition compiledExpr (field : PatternField) (p : Pattern) : Expr :=
  match SearchPipelineBuilder.buildExpr p field with
  | Some (FExpr e) => e
  | _ => ExprAnd []
  end.

(** The members of a conjunction. *)
Definition conjuncts (e : Expr) : list Expr :=
  match e with
  | ExprAnd es => es
  | _ => [e]
  end.

(** The leaf predicates of an expression and of a filter, whatever
    connects or wraps them. *)
Fixpoint expr_leaves (e : Expr) : list Expr :=
  match e with
  | ExprAnd es => flat_map expr_leaves es
  | _ => [e]
  end.

Fixpoint filter_leaves (f : Filter) : list Expr :=
  let many (o : option (list Filter)) :=
    match o with
    | Some l => flat_map filter_leaves l
    | None => []
    end in
  match f with
  | FExpr e => expr_leaves e
  | FCond or_ nor => (many or_ ++ many nor)%list
  | FAnd fs => flat_map filter_leaves fs
  | FMatch g => filter_leaves g
  | FUndefined => []
  end.

(** A text with the shape of a code: upper-case alphanumeric, of two,
    three, five or six characters. *)
Definition codeShaped (v : string) : bool :=
  all_chars JS.is_upper_alnum v
  && existsb (Nat.eqb (String.length v)) [2; 3; 5; 6].

(** A character that a quoted phrase can hold and stay one regex: no
    line break, no quote and no [<]. *)
Definition phraseChar (a : ascii) : bool :=
  JS.is_dot a
  && negb (Ascii.eqb a dquote || Ascii.eqb a squote || Ascii.eqb a "<").

(** [q] followed by [s] followed by [q]. *)
Definition quoted (q : ascii) (s : string) : string :=
  String q (s ++ String q EmptyString).

(** [/^q|q$/g], for a quote [q]. *)
Definition ends_re (q : ascii) : Regex.regex :=
  Regex.Alt (Regex.Seq Regex.Bol (Regex.lit q))
            (Regex.Seq (Regex.lit q) Regex.Eol).

(** [/^q.+q$/], for a quote [q]. *)
Definition quoted_re (q : ascii) : Regex.regex :=
  Regex.seqs [Regex.Bol; Regex.lit q; Regex.plus Regex.dot; Regex.lit q;
              Regex.Eol].

(** A character of an item identifier: upper-case alphanumeric, or the
    blank between its two halves. *)
Definition codeChar (a : ascii) : bool :=
  JS.is_upper_alnum a || JS.is_space a.

(** Whether the loop of [InstructionParser] joins a bare value with the
    token that follows into one item identifier. *)
Definition merged (field : aliasLookup) (value : string) (rest : list string)
  : bool :=
  match field, rest with
  | Absent, next :: _ => Regex.test Shape.items_re (value ++ " " ++ next)
  | _, _ => false
  end.

(** What a token compiles to, whatever the cache holds: the entry
    [parseAndStoreToken] builds for it under a field, or nothing. *)
Definition compileToken (t : string) : option Instruction :=
  match ParserPipeline.parseSingleToken (ParserPipeline.stripDash t) with
  | Some (ParserPipeline.FieldOf f, pd) =>
      Some (compiled t (JS.startsWith t "-") f pd)
  | _ => None
  end.

(** Whether a token compiles. *)
Definition compiles (t : string) : bool :=
  match compileToken t with Some _ => true | None => false end.

(** A cache entry that is the compilation of its own token. *)
Definition consistent (d : Instruction) : Prop :=
  compileToken (token d) = Some d.

(** What the last loop does with an entry whose [field] is a field:
    the push of its pattern. *)
Definition pushInstruction (r : ParsedResult) (i : Instruction) : ParsedResult :=
  match field i with
  | FieldOf f =>
      push f (match type_ i with t_exclude => true | t_include => false end)
           (ParserPipeline.patternDataToPattern (patternData i)) r
  | FieldInherited => r
  end.

(** The answer put together from results whose fields are fields. *)
Definition assemble (desc0 : string) (tokens : list ParserPipeline.Token)
           (parseResults : list (option Instruction))
  : ParserPipeline.ResultPipeline :=
  let finalDesc :=
    JS.trim (desc0 ++ " "
             ++ JS.join " " (ParserPipeline.nonDynamicTokens tokens parseResults)) in
  {| ParserPipeline.parseResult :=
       fold_left pushInstruction (ParserPipeline.parseArray parseResults)
                 (emptyResult finalDesc);
     ParserPipeline.pipeline :=
       map matchStage (ParserPipeline.parseArray parseResults) |}.

(** The answer to a request as its text alone determines it. *)
Definition pureResult (input : string) : ParserPipeline.ResultPipeline :=
  let tokens := fst (ParserPipeline.tokenizeInput input) in
  assemble
    (snd (ParserPipeline.tokenizeInput input)) tokens
    (map (fun tk => compileToken (ParserPipeline.tokenStr tk)) tokens).

(** Whether a document passes the patterns of one field: one of the
    included ones accepts it, when there is any, and none of the
    excluded ones does. *)
Definition passes (accepts : Pattern -> bool) (fs : ParsedFieldSet) : bool :=
  (match include fs with
   | [] => true
   | inc => existsb accepts inc
   end)
  && negb (existsb accepts (exclude fs)).

(** Whether an entry is an excluding one. *)
Definition excluding (i : Instruction) : bool :=
  match type_ i with t_exclude => true | t_include => false end.

(** A cache entry whose stage is the one built from its own field,
    data and type. *)
Definition wellStaged (i : Instruction) : Prop :=
  matchStage i
  = ParserPipeline.buildStageFromData (field i) (patternData i) (excluding i).

(** A pattern of type [value]. *)
Definition valuePattern (p : Pattern) : bool :=
  match p with ValuePattern _ _ => true | _ => false end.

(** A text without its blanks. *)
Fixpoint unspaced (s : string) : string :=
  match s with
  | EmptyString => EmptyString
  | String a s' => if JS.is_space a then unspaced s' else String a (unspaced s')
  end.

(** The filter of a stage. *)
Definition stageFilter (s : PipelineStage) : Filter :=
  match s with Match f => f end.

(** Whether a filter holds a [$match] key, at whatever depth. *)
Fixpoint hasMatchKey (f : Filter) : bool :=
  let some (o : option (list Filter)) :=
    match o with
    | Some l => existsb hasMatchKey l
    | None => false
    end in
  match f with
  | FExpr _ => false
  | FCond or_ nor => some or_ || some nor
  | FAnd fs => existsb hasMatchKey fs
  | FMatch _ => true
  | FUndefined => false
  end.

(** A character of a literal value: no line break, none of [<], [*],
    [^] and [$], and no quote. *)
Definition literalChar (a : ascii) : bool :=
  JS.is_dot a
  && negb (JS.includes a "<*^$" || Ascii.eqb a dquote || Ascii.eqb a squote).

(** A literal value: not empty, made of such characters, and beginning
    with neither an opening bracket nor [>]. *)
Definition literal (v : string) : bool :=
  match v with
  | String a _ =>
      negb (Ascii.eqb a "[" || Ascii.eqb a ">") && all_chars literalChar v
  | EmptyString => false
  end.

(** The number of patterns a result holds, over the eight lists. *)
Definition set_size (s : ParsedFieldSet) : nat :=
  List.length (include s) + List.length (exclude s).

Definition patterns_in (r : ParsedResult) : nat :=
  set_size (r_keys r) + set_size (r_items r) + set_size (r_lines r)
  + set_size (r_brands r).

End Ref.

(* ================================================================== *)
(** * Properties                                                        *)
(* ================================================================== *)

(** ** Strings *)

Section StringFacts.

Lemma append_nil_r (s : string) : s ++ "" = s.
Proof. induction s as [|a s IH]; simpl; [reflexivity | now rewrite IH]. Qed.

Lemma append_assoc (s t u : string) : (s ++ t) ++ u = s ++ (t ++ u).
Proof. induction s as [|a s IH]; simpl; [reflexivity | now rewrite IH]. Qed.

Lemma length_append (s t : string) :
String.length (s ++ t) = String.length s + String.length t.
Proof. induction s as [|a s IH]; simpl; [reflexivity | now rewrite IH]. Qed.

Lemma take_app_length (s t : string) : JS.take (String.length s) (s ++ t) = s.
Proof. induction s as [|a s IH]; simpl; [now destruct t | now rewrite IH]. Qed.

Lemma take_consumed (s t : string) :
JS.take (String.length (s ++ t) - String.length t) (s ++ t) = s.
Proof.
rewrite length_append.
replace (String.length s + String.length t - String.length t)
  with (String.length s) by lia.
apply take_app_length.
Qed.

Lemma take_drop_while (p : ascii -> bool) (s : string) :
Ref.take_while p s ++ Ref.drop_while p s = s.
Proof.
induction s as [|a s IH]; simpl; [reflexivity|].
destruct (p a); simpl; [now rewrite IH | reflexivity].
Qed.

Lemma all_take_while (p : ascii -> bool) (s : string) :
Ref.all_chars p (Ref.take_while p s) = true.
Proof.
induction s as [|a s IH]; simpl; [reflexivity|].
destruct (p a) eqn:E; simpl; [now rewrite E | reflexivity].
Qed.

Lemma all_chars_app (p : ascii -> bool) (s t : string) :
Ref.all_chars p (s ++ t) = Ref.all_chars p s && Ref.all_chars p t.
Proof.
induction s as [|a s IH]; simpl; [reflexivity|].
now rewrite IH, andb_assoc.
Qed.

Lemma drop_while_all (p : ascii -> bool) (s : string) :
Ref.all_chars p s = true -> Ref.drop_while p s = "".
Proof.
induction s as [|a s IH]; simpl; [reflexivity|].
destruct (p a); simpl; [exact IH | discriminate].
Qed.

Lemma includes_app (a : ascii) (s t : string) :
JS.includes a (s ++ t) = JS.includes a s || JS.includes a t.
Proof.
induction s as [|b s IH]; simpl; [reflexivity|].
now rewrite IH, orb_assoc.
Qed.

End StringFacts.

(** ** The matcher *)

Section MatcherFacts.
Context {A : Type} (input : string).

Lemma star_loop_chr (p : ascii -> bool) k :
  forall rest fuel c,
    String.length rest < fuel ->
    Regex.star_loop A (Regex.m A input (Regex.Chr p)) k fuel rest c
    = Ref.star_chr p k rest c.
Proof.
  induction rest as [|a rest IH]; intros fuel c Hf;
    (destruct fuel as [|fuel]; [inversion Hf|]); simpl.
  - reflexivity.
  - destruct (p a); [|reflexivity].
    assert (Hlt : Nat.ltb (String.length rest) (S (String.length rest)) = true)
      by (apply Nat.ltb_lt; lia).
    rewrite Hlt, IH by (simpl in Hf; lia).
    reflexivity.
Qed.

(** A starred character class is its greedy run. *)
Lemma m_star_chr (p : ascii -> bool) rest c k :
  Regex.m A input (Regex.Star (Regex.Chr p)) rest c k
  = Ref.star_chr p k rest c.
Proof.
  change (Regex.star_loop A (Regex.m A input (Regex.Chr p)) k
            (S (String.length rest)) rest c = Ref.star_chr p k rest c).
  apply star_loop_chr. lia.
Qed.

(** Whatever a run followed by [k] returns, [k] returned it on a
    suffix reached through [p]-characters only. *)
Lemma star_chr_sound (p : ascii -> bool) (k : string -> Regex.captures -> option A) :
  forall rest c x,
    Ref.star_chr p k rest c = Some x ->
    exists pre post,
      rest = pre ++ post /\ Ref.all_chars p pre = true /\ k post c = Some x.
Proof.
  induction rest as [|a rest IH]; intros c x H; simpl in H.
  - exists "", "". auto.
  - destruct (p a) eqn:E.
    + destruct (Ref.star_chr p k rest c) eqn:E'.
      * inversion H; subst.
        destruct (IH _ _ E') as (pre & post & -> & Hp & Hk).
        exists (String a pre), post. simpl. rewrite E. auto.
      * exists "", (String a rest). auto.
    + exists "", (String a rest). auto.
Qed.

(** When [k] never fails the run is as long as it can be. *)
Lemma star_chr_greedy (p : ascii -> bool) (k : string -> Regex.captures -> option A) :
  (forall r c, k r c <> None) ->
  forall rest c, Ref.star_chr p k rest c = k (Ref.drop_while p rest) c.
Proof.
  intros Hk. induction rest as [|a rest IH]; intros c; simpl; [reflexivity|].
  destruct (p a); [|reflexivity].
  rewrite IH. destruct (k (Ref.drop_while p rest) c) eqn:E; [reflexivity|].
  now apply Hk in E.
Qed.

(** When [k] refuses what starts with a [p]-character, nothing is
    given back. *)
Lemma star_chr_stop (p : ascii -> bool) (k : string -> Regex.captures -> option A) :
  (forall a r c, p a = true -> k (String a r) c = None) ->
  forall rest c, Ref.star_chr p k rest c = k (Ref.drop_while p rest) c.
Proof.
  intros Hk. induction rest as [|a rest IH]; intros c; simpl; [reflexivity|].
  destruct (p a) eqn:E; [|reflexivity].
  rewrite IH. destruct (k (Ref.drop_while p rest) c) eqn:E'; [reflexivity|].
  now rewrite Hk.
Qed.

(** When [k] fails on every suffix, so does the run. *)
Lemma star_chr_none (p : ascii -> bool) (k : string -> Regex.captures -> option A) :
  forall rest c,
    (forall pre post, rest = pre ++ post -> k post c = None) ->
    Ref.star_chr p k rest c = None.
Proof.
  induction rest as [|a rest IH]; intros c H; simpl.
  - apply (H "" ""). reflexivity.
  - assert (H0 : k (String a rest) c = None) by (apply (H ""); reflexivity).
    destruct (p a); [|exact H0].
    rewrite IH; [exact H0|].
    intros pre post ->. apply (H (String a pre)). reflexivity.
Qed.

(** A run that already succeeds further on is not shortened. *)
Lemma star_chr_app (p : ascii -> bool) (k : string -> Regex.captures -> option A) :
  forall pre post c x,
    Ref.all_chars p pre = true ->
    Ref.star_chr p k post c = Some x ->
    Ref.star_chr p k (pre ++ post) c = Some x.
Proof.
  induction pre as [|a pre IH]; intros post c x Hp H; simpl; [exact H|].
  simpl in Hp. apply andb_prop in Hp as [Ha Hp].
  rewrite Ha, (IH _ _ _ Hp H). reflexivity.
Qed.

(** Equal continuations give equal results. *)
Lemma m_ext (r : Regex.regex) :
  forall rest c k k',
    (forall s c', k s c' = k' s c') ->
    Regex.m A input r rest c k = Regex.m A input r rest c k'.
Proof.
  induction r as [p| |r1 IH1 r2 IH2|r1 IH1 r2 IH2|r IH|n r IH| |];
    intros rest c k k' E; simpl.
  - destruct rest as [|a rest]; [reflexivity|]. destruct (p a); auto.
  - apply E.
  - apply IH1. intros s c'. apply IH2. exact E.
  - rewrite (IH1 _ _ _ _ E), (IH2 _ _ _ _ E). reflexivity.
  - change (Regex.star_loop A (Regex.m A input r) k
              (S (String.length rest)) rest c
            = Regex.star_loop A (Regex.m A input r) k'
                (S (String.length rest)) rest c).
    generalize (S (String.length rest)) as fuel. intros fuel.
    revert rest c. induction fuel as [|fuel IHf]; intros rest c; simpl.
    + apply E.
    + rewrite E.
      erewrite IH; [reflexivity|].
      intros s c'. simpl. destruct (Nat.ltb _ _); [apply IHf | reflexivity].
  - apply IH. intros s c'. apply E.
  - destruct (Nat.eqb _ _); auto.
  - destruct rest; auto.
Qed.
End MatcherFacts.

(** The defining equations of the matcher. *)
Section MatcherEquations.
Context {A : Type} (input : string).
Import Regex.
Implicit Types (k : string -> captures -> option A).

Lemma m_chr p rest c k :
  m A input (Chr p) rest c k
  = match rest with
    | String a rest' => if p a then k rest' c else None
    | EmptyString => None
    end.
Proof. reflexivity. Qed.

Lemma m_eps rest c k : m A input Eps rest c k = k rest c.
Proof. reflexivity. Qed.

Lemma m_seq r1 r2 rest c k :
  m A input (Seq r1 r2) rest c k
  = m A input r1 rest c (fun rest1 c1 => m A input r2 rest1 c1 k).
Proof. reflexivity. Qed.

Lemma m_alt r1 r2 rest c k :
  m A input (Alt r1 r2) rest c k
  = match m A input r1 rest c k with
    | Some x => Some x
    | None => m A input r2 rest c k
    end.
Proof. reflexivity. Qed.

Lemma m_group n r rest c k :
  m A input (Group n r) rest c k
  = m A input r rest c
      (fun rest' c' =>
         k rest' ((n, JS.take (String.length rest - String.length rest') rest)
                    :: c')).
Proof. reflexivity. Qed.

Lemma m_bol rest c k :
  m A input Bol rest c k
  = if Nat.eqb (String.length rest) (String.length input)
    then k rest c else None.
Proof. reflexivity. Qed.

Lemma m_eol rest c k :
  m A input Eol rest c k
  = match rest with EmptyString => k rest c | _ => None end.
Proof. reflexivity. Qed.
End MatcherEquations.

(** The anchored expressions match at the first position or nowhere. *)
Lemma search_bol (input : string) (r : Regex.regex) :
  forall rest,
    String.length rest < String.length input ->
    Regex.search input (Regex.Seq Regex.Bol r) rest = None.
Proof.
  assert (Hm : forall rest, String.length rest < String.length input ->
             Regex.match_here input (Regex.Seq Regex.Bol r) rest = None).
  { intros rest H. unfold Regex.match_here. rewrite m_seq, m_bol.
    assert (E : Nat.eqb (String.length rest) (String.length input) = false)
      by (apply Nat.eqb_neq; lia).
    now rewrite E. }
  induction rest as [|a rest IH]; intros H.
  - cbn [Regex.search]. now rewrite Hm.
  - cbn [Regex.search]. rewrite Hm by exact H.
    apply IH. simpl in H. lia.
Qed.

Lemma exec_bol (r : Regex.regex) (s : string) :
  Regex.exec (Regex.Seq Regex.Bol r) s
  = Regex.match_here s (Regex.Seq Regex.Bol r) s.
Proof.
  unfold Regex.exec. destruct s as [|a s]; cbn [Regex.search].
  - destruct (Regex.match_here "" _ ""); reflexivity.
  - destruct (Regex.match_here (String a s) _ (String a s)); [reflexivity|].
    apply search_bol. simpl. lia.
Qed.


(* ------------------------------------------------------------------ *)
(** ** Field resolution by shape                                        *)
(* ------------------------------------------------------------------ *)

(** Splits the hypothesis that every character of a string of known
    length is in a class into one fact per character. *)
Ltac split_all H :=
  repeat (simpl in H;
          match type of H with
          | (_ && _) = true =>
              let Ha := fresh "Ha" in apply andb_prop in H as [Ha H]
          end).

Ltac by_shape :=
  cbv -[JS.is_upper_alnum];
  repeat match goal with
         | E : JS.is_upper_alnum _ = true |- _ => rewrite E; clear E
         end;
  reflexivity.

Lemma shape_of_three (v : string) :
  Ref.all_chars JS.is_upper_alnum v = true -> String.length v = 3 ->
  Regex.test Shape.keys_re v = false /\ Regex.test Shape.items_re v = false
  /\ Regex.test Shape.lines_re v = true.
Proof.
  intros H L.
  destruct v as [|a [|b [|c [|d v]]]]; try discriminate L.
  split_all H. repeat split; by_shape.
Qed.

Lemma shape_of_two (v : string) :
  Ref.all_chars JS.is_upper_alnum v = true -> String.length v = 2 ->
  Regex.test Shape.keys_re v = false /\ Regex.test Shape.items_re v = false
  /\ Regex.test Shape.lines_re v = false /\ Regex.test Shape.brands_re v = true.
Proof.
  intros H L.
  destruct v as [|a [|b [|c v]]]; try discriminate L.
  split_all H. repeat split; by_shape.
Qed.

Lemma shape_of_five_six (v : string) :
  Ref.all_chars JS.is_upper_alnum v = true ->
  String.length v = 5 \/ String.length v = 6 ->
  Regex.test Shape.keys_re v = true.
Proof.
  intros H [L|L].
  - destruct v as [|a [|b [|c [|d [|e [|f v]]]]]]; try discriminate L.
    split_all H. by_shape.
  - destruct v as [|a [|b [|c [|d [|e [|f [|g v]]]]]]]; try discriminate L.
    split_all H. by_shape.
Qed.

(** C7. A bare token of exactly three upper-case alphanumeric characters
    is resolved to lines by both shape resolvers (the lines shape is
    tried before the brands shape, which it also has); one of exactly
    two such characters is resolved to brands, and one of five or six to
    keys. *)
Theorem C7_shape_field_resolution :
  forall v : string,
    Ref.all_chars JS.is_upper_alnum v = true ->
    (String.length v = 3 ->
       ParserPipeline.determineField v = lines /\
       Regex.test Shape.brands_re v = true /\
       forall patterns,
         InstructionParser.determineField v patterns = Some lines) /\
    (String.length v = 2 ->
       ParserPipeline.determineField v = brands /\
       forall patterns,
         InstructionParser.determineField v patterns = Some brands) /\
    (String.length v = 5 \/ String.length v = 6 ->
       ParserPipeline.determineField v = keys /\
       forall patterns,
         InstructionParser.determineField v patterns = Some keys).
Proof.
  intros v H. repeat split.
  - destruct (shape_of_three v H H0) as (K & _ & Ln).
    unfold ParserPipeline.determineField. now rewrite K, Ln.
  - destruct v as [|a [|b [|c [|d v]]]]; try discriminate H0.
    split_all H. by_shape.
  - intros patterns. destruct (shape_of_three v H H0) as (K & I & Ln).
    unfold InstructionParser.determineField, InstructionParser.fieldPatterns.
    cbn [InstructionParser.firstShape]. now rewrite K, I, Ln.
  - destruct (shape_of_two v H H0) as (K & _ & Ln & B).
    unfold ParserPipeline.determineField. now rewrite K, Ln, B.
  - intros patterns. destruct (shape_of_two v H H0) as (K & I & Ln & B).
    unfold InstructionParser.determineField, InstructionParser.fieldPatterns.
    cbn [InstructionParser.firstShape]. now rewrite K, I, Ln, B.
  - unfold ParserPipeline.determineField.
    now rewrite (shape_of_five_six v H H0).
  - intros patterns.
    unfold InstructionParser.determineField, InstructionParser.fieldPatterns.
    cbn [InstructionParser.firstShape].
    now rewrite (shape_of_five_six v H H0).
Qed.

Lemma C7_witness :
  (ParserPipeline.determineField "ABC" = lines /\
   InstructionParser.determineField "ABC" [] = Some lines) /\
  (ParserPipeline.determineField "A1" = brands /\
   InstructionParser.determineField "A1" [] = Some brands) /\
  (ParserPipeline.determineField "GRAPVH" = keys /\
   InstructionParser.determineField "12345" [] = Some keys).
Proof.
  destruct (C7_shape_field_resolution "ABC" eq_refl) as (H3 & _ & _).
  destruct (C7_shape_field_resolution "A1" eq_refl) as (_ & H2 & _).
  destruct (C7_shape_field_resolution "GRAPVH" eq_refl) as (_ & _ & H6).
  destruct (C7_shape_field_resolution "12345" eq_refl) as (_ & _ & H5).
  destruct (H3 eq_refl) as (A & _ & B).
  destruct (H2 eq_refl) as (C & D).
  destruct (H6 (or_intror eq_refl)) as (E & _).
  destruct (H5 (or_introl eq_refl)) as (_ & F).
  exact (conj (conj A (B [])) (conj (conj C (D [])) (conj E (F [])))).
Defined.

(* ------------------------------------------------------------------ *)
(** ** Literal values in the cached path                                *)
(* ------------------------------------------------------------------ *)

Ltac case_scrutinee H :=
  match type of H with
  | context [match ?x with _ => _ end] =>
      lazymatch x with
      | context [match _ with _ => _ end] => fail
      | _ => destruct x eqn:?
      end
  end.


(** An anchored test is one attempt at the first position. *)
Lemma test_bol (r : Regex.regex) (s : string) :
  Regex.test (Regex.Seq Regex.Bol r) s
  = match Regex.m Regex.found s r s [] (fun rest' c => Some
        {| Regex.matched := JS.take (String.length s - String.length rest') s;
           Regex.groups := c; Regex.after := rest' |}) with
    | Some _ => true
    | None => false
    end.
Proof.
  unfold Regex.test. rewrite exec_bol. unfold Regex.match_here.
  now rewrite m_seq, m_bol, Nat.eqb_refl.
Qed.

Lemma digits_re_spec (v : string) :
  Regex.test ParserPipeline.digits_re v = true <->
  (1 <= String.length v <= 4 /\ Ref.all_chars JS.is_digit v = true).
Proof.
  unfold ParserPipeline.digits_re, Regex.seqs. rewrite test_bol.
  destruct v as [|a [|b [|c [|d [|e v]]]]].
  all: cbv -[JS.is_digit Nat.le String.length].
  all: repeat match goal with
              | |- context [JS.is_digit ?x] => destruct (JS.is_digit x)
              end.
  all: simpl; split;
    [ intros H; first [discriminate H | split; [lia | reflexivity]]
    | intros [H1 H2]; first [discriminate H2 | reflexivity | lia] ].
Qed.

Lemma keys_re_spec (v : string) :
  Regex.test Shape.keys_re v = true <->
  (5 <= String.length v <= 6 /\ Ref.all_chars JS.is_upper_alnum v = true).
Proof.
  unfold Shape.keys_re, Regex.seqs. rewrite test_bol.
  destruct v as [|a [|b [|c [|d [|e [|f [|g v]]]]]]].
  all: cbv -[JS.is_upper_alnum Nat.le String.length].
  all: repeat match goal with
              | |- context [JS.is_upper_alnum ?x] => destruct (JS.is_upper_alnum x)
              end.
  all: simpl; split;
    [ intros H; first [discriminate H | split; [lia | reflexivity]]
    | intros [H1 H2]; first [discriminate H2 | reflexivity | lia] ].
Qed.

(* ------------------------------------------------------------------ *)
(** ** The matcher is sound for the relation [Matches]                  *)
(* ------------------------------------------------------------------ *)

Section Soundness.
Context {A : Type} (input : string).
Import Regex.

Lemma star_loop_sound (r : regex)
      (IH : forall rest c (k : string -> captures -> option A) x,
          m A input r rest c k = Some x ->
          exists rest' c', Ref.Matches input r rest c rest' c'
                           /\ k rest' c' = Some x) :
  forall fuel rest c (k : string -> captures -> option A) x,
    star_loop A (m A input r) k fuel rest c = Some x ->
    exists rest' c', Ref.Matches input (Star r) rest c rest' c'
                     /\ k rest' c' = Some x.
Proof.
  induction fuel as [|fuel IHf]; intros rest c k x H; simpl in H.
  - exists rest, c. split; [constructor | exact H].
  - destruct (m A input r rest c _) eqn:E.
    + inversion H; subst a. apply IH in E as (rest1 & c1 & M1 & K1).
      destruct (Nat.ltb (String.length rest1) (String.length rest)) eqn:L;
        [|discriminate K1].
      apply IHf in K1 as (rest2 & c2 & M2 & K2).
      exists rest2, c2. split; [|exact K2].
      eapply Ref.M_star_step; eauto. now apply Nat.ltb_lt.
    + exists rest, c. split; [constructor | exact H].
Qed.

Theorem m_sound (r : regex) :
  forall rest c (k : string -> captures -> option A) x,
    m A input r rest c k = Some x ->
    exists rest' c', Ref.Matches input r rest c rest' c'
                     /\ k rest' c' = Some x.
Proof.
  induction r as [p| |r1 IH1 r2 IH2|r1 IH1 r2 IH2|r IH|n r IH| |];
    intros rest c k x H.
  - rewrite m_chr in H. destruct rest as [|a rest]; [discriminate|].
    destruct (p a) eqn:E; [|discriminate].
    exists rest, c. split; [now constructor | exact H].
  - exists rest, c. split; [constructor | exact H].
  - rewrite m_seq in H. apply IH1 in H as (rest1 & c1 & M1 & H).
    apply IH2 in H as (rest2 & c2 & M2 & H).
    exists rest2, c2. split; [econstructor; eauto | exact H].
  - rewrite m_alt in H. destruct (m A input r1 rest c k) eqn:E.
    + inversion H; subst a. apply IH1 in E as (rest' & c' & M1 & K).
      exists rest', c'. split; [now apply Ref.M_alt_l | exact K].
    + apply IH2 in H as (rest' & c' & M2 & K).
      exists rest', c'. split; [now apply Ref.M_alt_r | exact K].
  - apply (star_loop_sound r IH) in H. exact H.
  - rewrite m_group in H. apply IH in H as (rest' & c' & M1 & K).
    eexists rest', _. split; [constructor; exact M1 | exact K].
  - rewrite m_bol in H.
    destruct (Nat.eqb (String.length rest) (String.length input)) eqn:E;
      [|discriminate].
    exists rest, c. split; [constructor; now apply Nat.eqb_eq | exact H].
  - rewrite m_eol in H. destruct rest; [|discriminate].
    exists "", c. split; [constructor | exact H].
Qed.
End Soundness.

(** What is matched is a prefix of what was there. *)
Lemma Matches_suffix input r rest c rest' c' :
  Ref.Matches input r rest c rest' c' -> exists w, rest = w ++ rest'.
Proof.
  induction 1.
  - exists (String a ""). reflexivity.
  - exists "". reflexivity.
  - destruct IHMatches1 as [w1 ->]. destruct IHMatches2 as [w2 ->].
    exists (w1 ++ w2). now rewrite append_assoc.
  - assumption.
  - assumption.
  - exists "". reflexivity.
  - destruct IHMatches1 as [w1 ->]. destruct IHMatches2 as [w2 ->].
    exists (w1 ++ w2). now rewrite append_assoc.
  - assumption.
  - exists "". reflexivity.
  - exists "". reflexivity.
Qed.

(** A starred class consumes characters of the class and captures
    nothing. *)
Lemma Matches_star_chr input p rest c rest' c' :
  Ref.Matches input (Regex.Star (Regex.Chr p)) rest c rest' c' ->
  c' = c /\ exists w, rest = w ++ rest' /\ Ref.all_chars p w = true.
Proof.
  remember (Regex.Star (Regex.Chr p)) as r eqn:Er.
  induction 1; try discriminate Er.
  - split; [reflexivity|]. exists "". auto.
  - inversion Er; subst r. clear IHMatches1.
    destruct (IHMatches2 eq_refl) as (-> & w & -> & Hw).
    inversion H; subst.
    split; [reflexivity|].
    exists (String a w). simpl.
    match goal with E : p a = true |- _ => rewrite E end. auto.
Qed.

Lemma Matches_plus_chr input p rest c rest' c' :
  Ref.Matches input (Regex.plus (Regex.Chr p)) rest c rest' c' ->
  c' = c /\ exists w, rest = w ++ rest' /\ Ref.all_chars p w = true /\ w <> "".
Proof.
  intros H. inversion H as [| |? ? ? ? ? ? ? ? H1 H2| | | | | | |]; subst.
  inversion H1; subst.
  apply Matches_star_chr in H2 as (-> & w & -> & Hw).
  split; [reflexivity|].
  exists (String a w). simpl.
  match goal with E : p a = true |- _ => rewrite E end.
  repeat split; auto. discriminate.
Qed.

Lemma Matches_lit input a rest c rest' c' :
  Ref.Matches input (Regex.lit a) rest c rest' c' ->
  c' = c /\ rest = String a rest'.
Proof.
  intros H. inversion H; subst.
  match goal with E : Ascii.eqb _ _ = true |- _ => apply Ascii.eqb_eq in E end.
  subst. auto.
Qed.

(** Inversion of [Matches], one lemma per form of expression. *)
Section Inversion.
Context (input : string).
Import Regex.

Lemma Matches_chr_inv p rest c rest' c' :
  Ref.Matches input (Chr p) rest c rest' c' ->
  exists a, rest = String a rest' /\ p a = true /\ c' = c.
Proof. intros H. inversion H; subst. eauto. Qed.

Lemma Matches_eps_inv rest c rest' c' :
  Ref.Matches input Eps rest c rest' c' -> rest' = rest /\ c' = c.
Proof. intros H. inversion H; subst. auto. Qed.

Lemma Matches_seq_inv r1 r2 rest c rest' c' :
  Ref.Matches input (Seq r1 r2) rest c rest' c' ->
  exists rest1 c1,
    Ref.Matches input r1 rest c rest1 c1 /\
    Ref.Matches input r2 rest1 c1 rest' c'.
Proof. intros H. inversion H; subst. eauto. Qed.

Lemma Matches_alt_inv r1 r2 rest c rest' c' :
  Ref.Matches input (Alt r1 r2) rest c rest' c' ->
  Ref.Matches input r1 rest c rest' c' \/
  Ref.Matches input r2 rest c rest' c'.
Proof. intros H. inversion H; subst; auto. Qed.

Lemma Matches_group_inv n r rest c rest' c' :
  Ref.Matches input (Group n r) rest c rest' c' ->
  exists c1,
    Ref.Matches input r rest c rest' c1 /\
    c' = (n, JS.take (String.length rest - String.length rest') rest) :: c1.
Proof. intros H. inversion H; subst. eauto. Qed.

Lemma Matches_bol_inv rest c rest' c' :
  Ref.Matches input Bol rest c rest' c' ->
  rest' = rest /\ c' = c /\ String.length rest = String.length input.
Proof. intros H. inversion H; subst. auto. Qed.

Lemma Matches_eol_inv rest c rest' c' :
  Ref.Matches input Eol rest c rest' c' ->
  rest = "" /\ rest' = "" /\ c' = c.
Proof. intros H. inversion H; subst. auto. Qed.
End Inversion.

(** Inverts a derivation of [Matches] along the syntax of the
    expression. *)
Ltac inv_matches :=
  repeat match goal with
         | H : Ref.Matches _ (Regex.Star (Regex.Chr _)) _ _ _ _ |- _ =>
             let w := fresh "w" in
             let Hw := fresh "Hw" in
             apply Matches_star_chr in H as (? & w & ? & Hw); subst
         | H : Ref.Matches _ (Regex.Seq _ _) _ _ _ _ |- _ =>
             let M1 := fresh "M" in
             apply Matches_seq_inv in H as (? & ? & M1 & H)
         | H : Ref.Matches _ (Regex.Alt _ _) _ _ _ _ |- _ =>
             apply Matches_alt_inv in H as [H|H]
         | H : Ref.Matches _ (Regex.Group _ _) _ _ _ _ |- _ =>
             let E := fresh "E" in
             apply Matches_group_inv in H as (? & H & E)
         | H : Ref.Matches _ (Regex.Chr _) _ _ _ _ |- _ =>
             let Hc := fresh "Hc" in
             apply Matches_chr_inv in H as (? & ? & Hc & ?); subst
         | H : Ref.Matches _ Regex.Eps _ _ _ _ |- _ =>
             apply Matches_eps_inv in H as (? & ?); subst
         | H : Ref.Matches _ Regex.Bol _ _ _ _ |- _ =>
             apply Matches_bol_inv in H as (? & ? & _); subst
         | H : Ref.Matches _ Regex.Eol _ _ _ _ |- _ =>
             apply Matches_eol_inv in H as (? & ? & ?); subst
         | H : Ascii.eqb _ _ = true |- _ =>
             apply Ascii.eqb_eq in H; subst
         end;
  subst.

(** Spells out the derived forms of an expression. *)
Ltac open_re H :=
  cbn [Regex.seqs Regex.alts Regex.word Regex.wordi Regex.times Regex.upto] in H;
  unfold Regex.between, Regex.plus, Regex.opt in H;
  cbn [Regex.seqs Regex.alts Regex.word Regex.wordi Regex.times Regex.upto
       Nat.sub] in H;
  unfold Regex.plus, Regex.opt, Regex.lit, Regex.liti, Regex.notc,
    Regex.oneof, Regex.w, Regex.d, Regex.dot, Regex.nonspace, Regex.space,
    Regex.AZ09 in H.

Lemma exec_bol_sound (r : Regex.regex) (s : string) (f : Regex.found) :
  Regex.exec (Regex.Seq Regex.Bol r) s = Some f ->
  exists rest' c',
    Ref.Matches s r s [] rest' c' /\
    f = {| Regex.matched := JS.take (String.length s - String.length rest') s;
           Regex.groups := c'; Regex.after := rest' |}.
Proof.
  rewrite exec_bol. unfold Regex.match_here.
  rewrite m_seq, m_bol, Nat.eqb_refl. intros H.
  apply m_sound in H as (rest' & c' & M & K).
  exists rest', c'. split; [exact M | now inversion K].
Qed.


Lemma take_full (s : string) : JS.take (String.length s) s = s.
Proof. induction s as [|a s IH]; simpl; [reflexivity | now rewrite IH]. Qed.

Lemma take_all (s : string) :
  JS.take (String.length s - String.length "") s = s.
Proof. simpl. rewrite Nat.sub_0_r. apply take_full. Qed.

Lemma take_consumed1 a (t : string) :
  JS.take (String.length (String a t) - String.length t) (String a t)
  = String a "".
Proof. apply (take_consumed (String a "") t). Qed.

Lemma take_consumed2 a b (t : string) :
  JS.take (String.length (String a (String b t)) - String.length t)
          (String a (String b t))
  = String a (String b "").
Proof. apply (take_consumed (String a (String b "")) t). Qed.

Lemma take_consumed_cons a (w t : string) :
  JS.take (String.length (String a (w ++ t)) - String.length t)
          (String a (w ++ t))
  = String a w.
Proof. apply (take_consumed (String a w) t). Qed.

(** The text a capture group holds, once the derivation is known. *)
Ltac take_norm :=
  rewrite ?append_nil_r in *;
  repeat first [ rewrite take_all | rewrite take_consumed2
               | rewrite take_consumed1 | rewrite take_consumed_cons
               | rewrite take_consumed ].

(* ------------------------------------------------------------------ *)
(** ** Zero padding of comparison and range values                     *)
(* ------------------------------------------------------------------ *)

Lemma pad4_spec (raw : string) :
  (String.length raw < 4 ->
     Shape.pad4 raw = JS.repeat "0" (4 - String.length raw) ++ raw /\
     String.length (Shape.pad4 raw) = 4) /\
  (4 <= String.length raw -> Shape.pad4 raw = raw).
Proof.
  unfold Shape.pad4, JS.padStart. split; intros H.
  - assert (E : Nat.ltb (String.length raw) 4 = true) by now apply Nat.ltb_lt.
    rewrite E. split; [reflexivity|].
    destruct raw as [|a [|b [|c [|d raw]]]]; simpl in *; try reflexivity; lia.
  - assert (E : Nat.ltb (String.length raw) 4 = false) by (apply Nat.ltb_ge; lia).
    now rewrite E.
Qed.

Lemma parseComparison_sound (v : string) op val :
  InstructionParser.parseComparison v = Some (op, val) ->
  exists raw, v = operator_text op ++ raw /\ val = Shape.pad4 raw /\ raw <> "".
Proof.
  unfold InstructionParser.parseComparison.
  destruct (Regex.exec InstructionParser.comparison_re v) as [f|] eqn:E;
    [|discriminate].
  apply exec_bol_sound in E as (rest' & c' & M & ->).
  unfold InstructionParser.comparison_re in M. open_re M.
  inv_matches.
  all: cbn [Shape.group1 Shape.group2 Regex.group Regex.groups Nat.eqb].
  all: take_norm.
  all: intros H; cbv [InstructionParser.operatorMap String.eqb Ascii.eqb Bool.eqb] in H;
    inversion H; subst; clear H.
  all: eexists; repeat split; try reflexivity; discriminate.
Qed.

Lemma parseRange_sound (v : string) s e :
  InstructionParser.parseRange v = Some (s, e) ->
  exists a b, v = a ++ "<>" ++ b /\ s = Shape.pad4 a /\ e = Shape.pad4 b
              /\ a <> "" /\ b <> "".
Proof.
  unfold InstructionParser.parseRange.
  destruct (Regex.exec Shape.range_re v) as [f|] eqn:E; [|discriminate].
  apply exec_bol_sound in E as (rest' & c' & M & ->).
  unfold Shape.range_re in M. open_re M.
  inv_matches.
  cbn [Shape.group1 Shape.group2 Regex.group Regex.groups Nat.eqb].
  take_norm. intros H; inversion H; subst; clear H.
  do 2 eexists. repeat split; try reflexivity; discriminate.
Qed.

Lemma pad4_length (raw : string) : 4 <= String.length (Shape.pad4 raw).
Proof.
  destruct (pad4_spec raw) as [H1 H2].
  destruct (Nat.lt_ge_cases (String.length raw) 4) as [L|L].
  - destruct (H1 L) as [_ E]. rewrite E. lia.
  - now rewrite (H2 L).
Qed.

(** Splits the membership of a character in a small set. *)
Ltac char_cases :=
  repeat match goal with
         | H : (_ || _) = true |- _ => apply orb_prop in H as [H|H]
         | H : false = true |- _ => discriminate H
         | H : Ascii.eqb _ _ = true |- _ => apply Ascii.eqb_eq in H; subst
         | H : JS.includes _ _ = true |- _ => simpl in H
         end.

Lemma pipeline_comparison_sound (body : string) (f : Regex.found) op :
  Regex.exec ParserPipeline.comparison_re body = Some f ->
  ParserPipeline.operatorMap (Shape.group1 f) = Some op ->
  body = operator_text op ++ Shape.group2 f /\ Shape.group2 f <> "".
Proof.
  intros E. apply exec_bol_sound in E as (rest' & c' & M & ->).
  unfold ParserPipeline.comparison_re in M. open_re M.
  inv_matches.
  all: cbn [Shape.group1 Shape.group2 Regex.group Regex.groups Nat.eqb].
  all: take_norm.
  all: char_cases.
  all: unfold ParserPipeline.operatorMap;
    cbv [InstructionParser.operatorMap String.eqb Ascii.eqb Bool.eqb].
  all: intros H; inversion H; subst; clear H.
  all: split; [reflexivity | discriminate].
Qed.

Lemma range_sound (body : string) (f : Regex.found) :
  Regex.exec Shape.range_re body = Some f ->
  body = Shape.group1 f ++ "<>" ++ Shape.group2 f
  /\ Shape.group1 f <> "" /\ Shape.group2 f <> "".
Proof.
  intros E. apply exec_bol_sound in E as (rest' & c' & M & ->).
  unfold Shape.range_re in M. open_re M.
  inv_matches.
  cbn [Shape.group1 Shape.group2 Regex.group Regex.groups Nat.eqb].
  take_norm. repeat split; discriminate.
Qed.

Lemma keyPrefix_sound (body : string) (f : Regex.found) :
  Regex.exec Shape.keyPrefix_re body = Some f ->
  body = "[" ++ Shape.group1 f ++ "]" ++ Shape.group2 f
  /\ Shape.group1 f <> "" /\ Shape.group2 f <> "".
Proof.
  intros E. apply exec_bol_sound in E as (rest' & c' & M & ->).
  unfold Shape.keyPrefix_re in M. open_re M.
  inv_matches.
  cbn [Shape.group1 Shape.group2 Regex.group Regex.groups Nat.eqb].
  take_norm. repeat split; discriminate.
Qed.

Lemma fieldQuoted_sound (tok : string) (f : Regex.found) :
  Regex.exec Shape.fieldQuoted_re tok = Some f ->
  exists q q' : ascii,
    tok = Shape.group1 f ++ ":" ++ String q (Shape.group2 f ++ String q' "")
    /\ Ref.all_chars JS.is_word (Shape.group1 f) = true
    /\ Shape.group1 f <> "" /\ Shape.group2 f <> "".
Proof.
  intros E. apply exec_bol_sound in E as (rest' & c' & M & ->).
  unfold Shape.fieldQuoted_re in M. open_re M.
  inv_matches.
  all: cbn [Shape.group1 Shape.group2 Regex.group Regex.groups Nat.eqb].
  all: take_norm.
  all: do 2 eexists; repeat split; try discriminate.
  all: try (simpl; rewrite append_assoc; reflexivity).
  all: simpl;
    repeat match goal with E : JS.is_word _ = true |- _ => rewrite E; clear E end;
    assumption.
Qed.

Lemma field_sound (tok : string) (f : Regex.found) :
  Regex.exec Shape.field_re tok = Some f ->
  tok = Shape.group1 f ++ ":" ++ Shape.group2 f
  /\ Ref.all_chars JS.is_word (Shape.group1 f) = true
  /\ Shape.group1 f <> "" /\ Shape.group2 f <> "".
Proof.
  intros E. apply exec_bol_sound in E as (rest' & c' & M & ->).
  unfold Shape.field_re in M. open_re M.
  inv_matches.
  cbn [Shape.group1 Shape.group2 Regex.group Regex.groups Nat.eqb].
  take_norm. repeat split; try discriminate.
  simpl.
  repeat match goal with E : JS.is_word _ = true |- _ => rewrite E; clear E end.
  assumption.
Qed.

(** The body left by the alias prefix is a part of the token. *)
Lemma splitAlias_sub (tok : string) :
  exists pre post, tok = pre ++ snd (ParserPipeline.splitAlias tok) ++ post.
Proof.
  unfold ParserPipeline.splitAlias.
  destruct (Regex.exec Shape.fieldQuoted_re tok) as [f|] eqn:E.
  - apply fieldQuoted_sound in E as (q & q' & E & _). cbn [snd].
    exists (Shape.group1 f ++ ":" ++ String q ""), (String q' "").
    rewrite E at 1. rewrite !append_assoc. reflexivity.
  - destruct (Regex.exec Shape.field_re tok) as [f|] eqn:E'.
    + apply field_sound in E' as (E' & _).
      destruct (aliasMap _); cbn [snd].
      * exists (Shape.group1 f ++ ":"), "". rewrite E' at 1.
        now rewrite append_nil_r, !append_assoc.
      * exists (Shape.group1 f ++ ":"), "". rewrite E' at 1.
        now rewrite append_nil_r, !append_assoc.
      * exists "", "". now rewrite append_nil_r.
    + exists "", "". cbn [snd]. now rewrite append_nil_r.
Qed.

Lemma parseSingleToken_comparison tok f kp op val :
  ParserPipeline.parseSingleToken tok = Some (f, PDComparison kp op val) ->
  exists pre raw post,
    tok = pre ++ (operator_text op ++ raw) ++ post /\ val = Shape.pad4 raw.
Proof.
  unfold ParserPipeline.parseSingleToken.
  destruct (splitAlias_sub tok) as (pre & post & Htok).
  set (body := snd (ParserPipeline.splitAlias tok)) in *.
  set (field := match fst (ParserPipeline.splitAlias tok) with
                | Own f0 => ParserPipeline.FieldOf f0
                | Inherited => ParserPipeline.FieldInherited
                | Absent => ParserPipeline.FieldOf
                              (ParserPipeline.determineField body)
                end).
  intros H.
  repeat (case_scrutinee H; try discriminate H).
  all: inversion H; subst f kp op val; clear H.
  all: match goal with
       | Ek : Regex.exec Shape.keyPrefix_re _ = Some ?pm,
         Ec : Regex.exec ParserPipeline.comparison_re (Shape.group2 ?pm)
              = Some ?cm,
         O : ParserPipeline.operatorMap _ = Some _ |- _ =>
           destruct (pipeline_comparison_sound _ _ _ Ec O) as [Hb _];
           destruct (keyPrefix_sound _ _ Ek) as (Hk & _);
           exists (pre ++ "[" ++ Shape.group1 pm ++ "]"), (Shape.group2 cm), post;
           split; [|reflexivity];
           rewrite Htok at 1; rewrite Hk, Hb; now rewrite !append_assoc
       | Ec : Regex.exec ParserPipeline.comparison_re _ = Some ?cm,
         O : ParserPipeline.operatorMap _ = Some _ |- _ =>
           destruct (pipeline_comparison_sound _ _ _ Ec O) as [Hb _];
           exists pre, (Shape.group2 cm), post; split; [|reflexivity];
           rewrite Htok at 1; now rewrite Hb
       end.
Qed.

Lemma parseSingleToken_range tok f kp s e :
  ParserPipeline.parseSingleToken tok = Some (f, PDRange kp s e) ->
  exists pre a b post,
    tok = pre ++ (a ++ "<>" ++ b) ++ post
    /\ s = Shape.pad4 a /\ e = Shape.pad4 b.
Proof.
  unfold ParserPipeline.parseSingleToken.
  destruct (splitAlias_sub tok) as (pre & post & Htok).
  set (body := snd (ParserPipeline.splitAlias tok)) in *.
  set (field := match fst (ParserPipeline.splitAlias tok) with
                | Own f0 => ParserPipeline.FieldOf f0
                | Inherited => ParserPipeline.FieldInherited
                | Absent => ParserPipeline.FieldOf
                              (ParserPipeline.determineField body)
                end).
  intros H.
  repeat (case_scrutinee H; try discriminate H).
  all: inversion H; subst f kp s e; clear H.
  all: match goal with
       | Ek : Regex.exec Shape.keyPrefix_re _ = Some ?pm,
         Ec : Regex.exec Shape.range_re (Shape.group2 ?pm) = Some ?cm |- _ =>
           destruct (range_sound _ _ Ec) as [Hb _];
           destruct (keyPrefix_sound _ _ Ek) as (Hk & _);
           exists (pre ++ "[" ++ Shape.group1 pm ++ "]"),
             (Shape.group1 cm), (Shape.group2 cm), post;
           split; [|split; reflexivity];
           rewrite Htok at 1; rewrite Hk; rewrite Hb at 1;
           now rewrite !append_assoc
       | Ec : Regex.exec Shape.range_re _ = Some ?cm |- _ =>
           destruct (range_sound _ _ Ec) as [Hb _];
           exists pre, (Shape.group1 cm), (Shape.group2 cm), post;
           split; [|split; reflexivity];
           rewrite Htok at 1; now rewrite Hb at 1
       end.
Qed.

(** ** Running the matcher by its equations *)

Section Running.
Context {A : Type} (input : string).

(** When [k] refuses every non-empty rest, the run must reach the
    end. *)
Lemma star_chr_eol (p : ascii -> bool)
      (k : string -> Regex.captures -> option A) :
  (forall a r c, k (String a r) c = None) ->
  forall rest c,
    Ref.star_chr p k rest c
    = if Ref.all_chars p rest then k "" c else None.
Proof.
  intros Hk rest c. rewrite star_chr_stop by (intros; apply Hk).
  induction rest as [|a rest IH]; simpl; [reflexivity|].
  destruct (p a); simpl; [exact IH | apply Hk].
Qed.

(** [(p+)$] as a group: the whole rest, when it is a non-empty run. *)
Lemma m_group_plus_eol (n : nat) (p : ascii -> bool) rest c
      (k : string -> Regex.captures -> option A) :
  Regex.m A input
          (Regex.Seq (Regex.Group n (Regex.plus (Regex.Chr p))) Regex.Eol)
          rest c k
  = if JS.truthy rest && Ref.all_chars p rest
    then k "" ((n, rest) :: c) else None.
Proof.
  rewrite m_seq, m_group. unfold Regex.plus. rewrite m_seq, m_chr.
  destruct rest as [|a w]; [reflexivity|].
  cbn [JS.truthy Ref.all_chars andb].
  destruct (p a); [|reflexivity].
  rewrite m_star_chr, star_chr_eol.
  - destruct (Ref.all_chars p w); [|reflexivity].
    rewrite m_eol. now rewrite take_all.
  - intros a' r c'. reflexivity.
Qed.
End Running.

Ltac close_chars :=
  repeat match goal with
         | |- context [Ascii.eqb ?a ?b] =>
             let v := eval vm_compute in (Ascii.eqb a b) in
             match v with
             | true => change (Ascii.eqb a b) with true
             | false => change (Ascii.eqb a b) with false
             end
         end.

(** Runs the matcher on what is known of the text. *)
Ltac run_m :=
  repeat (first [ rewrite m_group_plus_eol | rewrite m_seq | rewrite m_alt
                | rewrite m_group | rewrite m_chr | rewrite m_eps
                | rewrite m_bol | rewrite m_eol | rewrite m_star_chr ];
          cbv beta; close_chars; cbv iota).

Lemma parseComparison_complete (op : ComparisonOperator) (raw : string) :
  raw <> "" ->
  Ref.all_chars JS.is_dot raw = true ->
  (op = GT \/ op = LT -> JS.startsWith raw "=" = false) ->
  InstructionParser.parseComparison (operator_text op ++ raw)
  = Some (op, Shape.pad4 raw).
Proof.
  intros Hne Hdot Heq.
  unfold InstructionParser.parseComparison, InstructionParser.comparison_re.
  cbn [Regex.seqs Regex.alts Regex.word]. unfold Regex.lit, Regex.dot.
  rewrite exec_bol. unfold Regex.match_here.
  destruct raw as [|a w]; [contradiction|].
  assert (Ht : JS.truthy (String a w) = true) by reflexivity.
  destruct op; cbn [operator_text append]; run_m;
    rewrite Nat.eqb_refl, ?Ht, ?Hdot; cbn [andb].
  - assert (Ea : Ascii.eqb "=" a = false) by (apply Heq; auto).
    rewrite Ea.
    cbn [Shape.group1 Shape.group2 Regex.group Regex.groups Nat.eqb].
    take_norm. reflexivity.
  - assert (Ea : Ascii.eqb "=" a = false) by (apply Heq; auto).
    rewrite Ea.
    cbn [Shape.group1 Shape.group2 Regex.group Regex.groups Nat.eqb].
    take_norm. reflexivity.
  - cbn [Shape.group1 Shape.group2 Regex.group Regex.groups Nat.eqb].
    take_norm. reflexivity.
  - cbn [Shape.group1 Shape.group2 Regex.group Regex.groups Nat.eqb].
    take_norm. reflexivity.
Qed.

Lemma no_char_suffix (x : ascii) (s pre post : string) :
  JS.includes x s = false -> s = pre ++ post -> JS.startsWith post x = false.
Proof.
  intros H ->. rewrite includes_app in H. apply orb_false_elim in H as [_ H].
  destruct post as [|b post]; [reflexivity|].
  simpl in H. apply orb_false_elim in H as [H _]. exact H.
Qed.

Lemma parseRange_complete (a b : string) :
  a <> "" -> b <> "" ->
  Ref.all_chars JS.is_dot a = true -> Ref.all_chars JS.is_dot b = true ->
  JS.includes "<" b = false ->
  InstructionParser.parseRange (a ++ "<>" ++ b)
  = Some (Shape.pad4 a, Shape.pad4 b).
Proof.
  intros Ha Hb Da Db Hlt.
  unfold InstructionParser.parseRange, Shape.range_re.
  cbn [Regex.seqs]. unfold Regex.lit, Regex.dot.
  rewrite exec_bol. unfold Regex.match_here.
  destruct a as [|x a]; [contradiction|]. clear Ha.
  simpl in Da. apply andb_prop in Da as [Dx Da].
  cbn [append].
  rewrite m_seq, m_bol, Nat.eqb_refl. cbv beta.
  rewrite m_seq, m_group. unfold Regex.plus at 1.
  rewrite m_seq, m_chr, Dx, m_star_chr.
  match goal with
  | |- context [Ref.star_chr ?p ?k ?r ?c] => set (K := k)
  end.
  assert (HK : Ref.star_chr JS.is_dot K ("<>" ++ b) []
               = Some {| Regex.matched := String x (a ++ "<>" ++ b);
                         Regex.groups := [(2, b); (1, String x a)];
                         Regex.after := "" |}).
  { cbn [append Ref.star_chr].
    change (JS.is_dot "<") with true. cbv iota.
    rewrite star_chr_none.
    - subst K. cbv beta. run_m.
      assert (Ht : JS.truthy b = true) by (destruct b; [contradiction|reflexivity]).
      rewrite Ht, Db. cbn [andb]. take_norm.
      now destruct (JS.is_dot ">").
    - intros pre post E. subst K. cbv beta. rewrite m_seq, m_chr.
      destruct post as [|y post]; [reflexivity|].
      pose proof (no_char_suffix "<" _ pre (String y post) Hlt E) as N.
      cbn [JS.startsWith] in N. now rewrite N. }
  pose proof (star_chr_app JS.is_dot K a ("<>" ++ b) [] _ Da HK) as R.
  cbn [append] in R. rewrite R.
  reflexivity.
Qed.


(* ------------------------------------------------------------------ *)
(** ** The instruction cache                                            *)
(* ------------------------------------------------------------------ *)

Section Cache.
Import ParserPipeline.

Lemma has_app (store : Store) (d : Instruction) (tk : string) :
  InstructionModel.has (store ++ [d])%list tk
  = InstructionModel.has store tk || String.eqb (token d) tk.
Proof.
  unfold InstructionModel.has. rewrite existsb_app. simpl.
  now rewrite orb_false_r.
Qed.

Lemma has_In (store : Store) (tk : string) :
  InstructionModel.has store tk = true <-> In tk (map token store).
Proof.
  unfold InstructionModel.has. rewrite existsb_exists, in_map_iff.
  split; intros (d & H1 & H2).
  - apply String.eqb_eq in H2. eauto.
  - exists d. split; [exact H2 | now apply String.eqb_eq].
Qed.

Lemma has_false (store : Store) (tk : string) :
  InstructionModel.has store tk = false <-> ~ In tk (map token store).
Proof.
  rewrite <- has_In. destruct (InstructionModel.has store tk); split;
    intros H; try reflexivity; try discriminate.
  exfalso. now apply H.
Qed.

(** Under the unique index the entries of a token are one or none. *)
Lemma entries_unique (store : Store) (tk : string) :
  NoDup (map token store) ->
  InstructionModel.entries store tk
  = if InstructionModel.has store tk then 1 else 0.
Proof.
  unfold InstructionModel.entries, InstructionModel.has.
  induction store as [|d store IH]; simpl; intros N; [reflexivity|].
  inversion N as [|? ? Hn N']; subst.
  destruct (String.eqb (token d) tk) eqn:E; simpl.
  - apply String.eqb_eq in E. subst tk.
    rewrite (IH N').
    apply has_false in Hn. unfold InstructionModel.has in Hn.
    now rewrite Hn.
  - apply IH, N'.
Qed.

Lemma NoDup_snoc (l : list string) (x : string) :
  NoDup l -> ~ In x l -> NoDup (l ++ [x])%list.
Proof.
  intros N H. apply NoDup_app; [exact N | repeat constructor; auto |].
  intros a Ha [<-|[]]. contradiction.
Qed.

(** The three outcomes of [parseAndStoreToken]. *)
Lemma parseAndStoreToken_null store rawToken wasExclude :
  parseSingleToken (stripDash rawToken) = None ->
  parseAndStoreToken store rawToken wasExclude = (Ok None, store).
Proof. intros H. unfold parseAndStoreToken. now rewrite H. Qed.

Lemma parseAndStoreToken_duplicate store rawToken wasExclude f pd :
  parseSingleToken (stripDash rawToken) = Some (f, pd) ->
  InstructionModel.has store rawToken = true ->
  parseAndStoreToken store rawToken wasExclude = (Throw DuplicateKey, store).
Proof.
  intros H E. unfold parseAndStoreToken, InstructionModel.create.
  rewrite H. cbn [token]. now rewrite E.
Qed.

Lemma parseAndStoreToken_fresh store rawToken wasExclude f pd :
  parseSingleToken (stripDash rawToken) = Some (f, pd) ->
  InstructionModel.has store rawToken = false ->
  parseAndStoreToken store rawToken wasExclude
  = (Ok (Some (Ref.compiled rawToken wasExclude f pd)),
     (store ++ [Ref.compiled rawToken wasExclude f pd])%list).
Proof.
  intros H E. unfold parseAndStoreToken, InstructionModel.create.
  rewrite H. cbn [token]. now rewrite E.
Qed.
End Cache.

(** C1 (as the code has it). [parseAndStoreToken] hands a token that
    compiles to [InstructionModel.create] and does not catch what the
    write raises.  When the exact token is already persisted (the other
    of two simultaneous requests came first) the unique index refuses
    the insert, the duplicate-key error reaches the caller in place of
    the compiled Instruction, and the collection is left as it was;
    when it is not, the compiled entry is inserted and returned.  Either
    way the index is kept, and exactly one persisted entry keyed by the
    exact token string exists afterwards. *)
Theorem C1_duplicate_key_propagates :
  forall (store : Store) (rawToken : string) (wasExclude : bool)
         (f : PatternField) (pd : InstructionPatternData),
    NoDup (map token store) ->
    ParserPipeline.parseSingleToken (ParserPipeline.stripDash rawToken)
    = Some (ParserPipeline.FieldOf f, pd) ->
    (InstructionModel.has store rawToken = true ->
       ParserPipeline.parseAndStoreToken store rawToken wasExclude
       = (Throw DuplicateKey, store)) /\
    (InstructionModel.has store rawToken = false ->
       ParserPipeline.parseAndStoreToken store rawToken wasExclude
       = (Ok (Some (Ref.compiled rawToken wasExclude f pd)),
          (store ++ [Ref.compiled rawToken wasExclude f pd])%list)) /\
    NoDup (map token
               (snd (ParserPipeline.parseAndStoreToken store rawToken
                       wasExclude))) /\
    InstructionModel.entries
      (snd (ParserPipeline.parseAndStoreToken store rawToken wasExclude))
      rawToken = 1.
Proof.
  intros store rawToken wasExclude f pd N H.
  split; [now apply parseAndStoreToken_duplicate with (FieldOf f) pd|].
  split; [now apply parseAndStoreToken_fresh|].
  destruct (InstructionModel.has store rawToken) eqn:E.
  - rewrite (parseAndStoreToken_duplicate _ _ _ _ _ H E). cbn [snd].
    split; [exact N|]. now rewrite entries_unique, E.
  - rewrite (parseAndStoreToken_fresh _ _ _ _ _ H E). cbn [snd].
    assert (N' : NoDup (map token
                  (store ++ [Ref.compiled rawToken wasExclude f pd])%list)).
    { rewrite map_app. cbn [map Ref.compiled token].
      apply NoDup_snoc; [exact N | now apply has_false]. }
    split; [exact N'|].
    rewrite entries_unique by exact N'.
    rewrite has_app, E. cbn [Ref.compiled token orb].
    now rewrite String.eqb_refl.
Qed.

Lemma C1_witness :
  ParserPipeline.parseAndStoreToken
    (snd (ParserPipeline.parseAndStoreToken [] "ABC" false)) "ABC" false
  = (Throw DuplicateKey, snd (ParserPipeline.parseAndStoreToken [] "ABC" false))
  /\ InstructionModel.entries
       (snd (ParserPipeline.parseAndStoreToken [] "-items:0050" false))
       "-items:0050" = 1.
Proof.
  split.
  - apply (proj1 (C1_duplicate_key_propagates
                    (snd (ParserPipeline.parseAndStoreToken [] "ABC" false))
                    "ABC" false lines (PDValue None "ABC")
                    ltac:(vm_compute; repeat constructor; intros [])
                    ltac:(vm_compute; reflexivity))).
    vm_compute; reflexivity.
  - apply (C1_duplicate_key_propagates [] "-items:0050" false items
             (PDValue None "0050") (NoDup_nil _)).
    vm_compute; reflexivity.
Defined.

(** Two requests compile the unseen token [ABC]; the one whose write
    arrives second gets the storage error, not the Instruction. *)
Lemma C1_counterexample :
  let first := ParserPipeline.parseAndStoreToken [] "ABC" false in
  let second := ParserPipeline.parseAndStoreToken (snd first) "ABC" false in
  ParserPipeline.parseSingleToken "ABC"
  = Some (ParserPipeline.FieldOf lines, PDValue None "ABC") /\
  fst first = Ok (Some (Ref.compiled "ABC" false lines (PDValue None "ABC"))) /\
  fst second = Throw DuplicateKey /\
  (forall doc, fst second <> Ok (Some doc)).
Proof.
  vm_compute. repeat split; intros; discriminate.
Qed.

(* ------------------------------------------------------------------ *)
(** ** The cached path, token by token                                  *)
(* ------------------------------------------------------------------ *)

Section Tokenizing.
Import ParserPipeline.

(** Putting the marker back gives the part again. *)
Lemma restore_dash (part : string) :
  (if JS.startsWith part "-" then String "-" (stripDash part)
   else stripDash part) = part.
Proof.
  unfold stripDash. destruct part as [|a part]; [reflexivity|].
  cbn [JS.startsWith]. destruct (Ascii.eqb "-" a) eqn:E; [|reflexivity].
  apply Ascii.eqb_eq in E. now subst a.
Qed.

Lemma tokenizeStep_cases (acc : list Token * string) (part : string) :
  tokenizeStep acc part
  = if Ref.dynamicPart part
    then ((fst acc ++ [Ref.toToken part])%list, snd acc)
    else (fst acc, snd acc ++ part ++ " ").
Proof.
  unfold tokenizeStep, Ref.dynamicPart, Ref.toToken. rewrite restore_dash.
  unfold isLikelyDynamic.
  destruct (isReserved (stripDash part)); reflexivity.
Qed.

Lemma tokenize_fold (l : list string) :
  forall acc,
    fold_left tokenizeStep l acc
    = ((fst acc ++ map Ref.toToken (filter Ref.dynamicPart l))%list,
       snd acc ++ Ref.spaced (filter Ref.staticPart l)).
Proof.
  induction l as [|p l IH]; intros [tks d]; cbn [fold_left].
  - cbn. now rewrite app_nil_r, append_nil_r.
  - rewrite IH, tokenizeStep_cases. unfold Ref.staticPart.
    cbn [filter]. destruct (Ref.dynamicPart p); cbn [negb fst snd map].
    + now rewrite <- app_assoc.
    + cbn [Ref.spaced]. now rewrite !append_assoc.
Qed.

(** [tokenizeInput], part by part. *)
Lemma tokenizeInput_spec (input : string) :
  tokenizeInput input
  = (map Ref.toToken (filter Ref.dynamicPart (Ref.parts input)),
     JS.toLowerCase
       (JS.trim (Ref.spaced (filter Ref.staticPart (Ref.parts input))))).
Proof.
  unfold tokenizeInput. fold (Ref.parts input). now rewrite tokenize_fold.
Qed.

Lemma reserved_static (part : string) :
  isReserved (stripDash part) = true -> Ref.staticPart part = true.
Proof.
  intros H. unfold Ref.staticPart, Ref.dynamicPart, isLikelyDynamic.
  now rewrite H.
Qed.
End Tokenizing.

Section Pipeline.
Import ParserPipeline.

Lemma parseAndStoreToken_outcome docs store tk :
  docsMap_get docs (tokenStr tk) = None ->
  Ref.outcome_of docs tk
    (fst (parseAndStoreToken store (tokenStr tk) (tk_exclude tk))).
Proof.
  intros Hd. unfold Ref.outcome_of. rewrite Hd.
  destruct (parseSingleToken (stripDash (tokenStr tk)))
    as [[f pd]|] eqn:E.
  - destruct (InstructionModel.has store (tokenStr tk)) eqn:Hh.
    + rewrite (parseAndStoreToken_duplicate _ _ _ _ _ E Hh). now left.
    + rewrite (parseAndStoreToken_fresh _ _ _ _ _ E Hh). now right.
  - now rewrite parseAndStoreToken_null.
Qed.

Lemma parseAll_outcomes docs tokens :
  forall store,
    Forall2 (Ref.outcome_of docs) tokens (fst (parseAll docs tokens store)).
Proof.
  induction tokens as [|tk tokens IH]; intros store; cbn [parseAll].
  - constructor.
  - destruct (docsMap_get docs (tokenStr tk)) as [d|] eqn:Hd; cbn [fst].
    + constructor; [|apply IH]. unfold Ref.outcome_of. now rewrite Hd.
    + constructor; [|apply IH]. now apply parseAndStoreToken_outcome.
Qed.

(** The writes of one token: nothing, or the compiled entry. *)
Lemma parseAndStoreToken_store store rawToken wasExclude :
  snd (parseAndStoreToken store rawToken wasExclude) = store \/
  exists f pd,
    parseSingleToken (stripDash rawToken) = Some (f, pd) /\
    InstructionModel.has store rawToken = false /\
    snd (parseAndStoreToken store rawToken wasExclude)
    = (store ++ [Ref.compiled rawToken wasExclude f pd])%list.
Proof.
  destruct (parseSingleToken (stripDash rawToken)) as [[f pd]|] eqn:E.
  - destruct (InstructionModel.has store rawToken) eqn:Hh.
    + left. now rewrite (parseAndStoreToken_duplicate _ _ _ _ _ E Hh).
    + right. exists f, pd.
      now rewrite (parseAndStoreToken_fresh _ _ _ _ _ E Hh).
  - left. now rewrite parseAndStoreToken_null.
Qed.

Lemma parseAll_store docs tokens :
  forall store d,
    In d (snd (parseAll docs tokens store)) ->
    In d store \/
    exists tk f pd,
      In tk tokens /\
      parseSingleToken (stripDash (tokenStr tk)) = Some (f, pd) /\
      d = Ref.compiled (tokenStr tk) (tk_exclude tk) f pd.
Proof.
  induction tokens as [|tk tokens IH]; intros store d H; cbn [parseAll] in H.
  - now left.
  - destruct (docsMap_get docs (tokenStr tk)) as [d0|]; cbn [snd] in H.
    + apply IH in H as [H|(tk' & f & pd & H1 & H2)]; [now left|].
      right. exists tk', f, pd. split; [now right | exact H2].
    + apply IH in H as [H|(tk' & f & pd & H1 & H2)].
      * destruct (parseAndStoreToken_store store (tokenStr tk) (tk_exclude tk))
          as [E|(f & pd & E1 & _ & E2)].
        -- rewrite E in H. now left.
        -- rewrite E2 in H. apply in_app_or in H as [H|[<-|[]]]; [now left|].
           right. exists tk, f, pd. split; [now left | auto].
      * right. exists tk', f, pd. split; [now right | exact H2].
Qed.

Lemma parseAll_keeps docs tokens :
  forall store d, In d store -> In d (snd (parseAll docs tokens store)).
Proof.
  induction tokens as [|tk tokens IH]; intros store d H; cbn [parseAll].
  - exact H.
  - destruct (docsMap_get docs (tokenStr tk)); cbn [snd]; apply IH;
      [exact H|].
    destruct (parseAndStoreToken_store store (tokenStr tk) (tk_exclude tk))
      as [E|(f & pd & _ & _ & E)]; rewrite E; [exact H|].
    apply in_or_app. now left.
Qed.

(** The unique index survives a whole request. *)
Lemma parseAll_unique docs tokens :
  forall store,
    NoDup (map token store) ->
    NoDup (map token (snd (parseAll docs tokens store))).
Proof.
  induction tokens as [|tk tokens IH]; intros store N; cbn [parseAll].
  - exact N.
  - destruct (docsMap_get docs (tokenStr tk)); cbn [snd]; apply IH;
      [exact N|].
    destruct (parseAndStoreToken_store store (tokenStr tk) (tk_exclude tk))
      as [E|(f & pd & _ & Hh & E)]; rewrite E; [exact N|].
    rewrite map_app. cbn [map Ref.compiled token].
    apply NoDup_snoc; [exact N | now apply has_false].
Qed.

Lemma awaitAll_ok {A : Type} (l : list (Exc A)) (r : list A) :
  awaitAll l = Ok r -> l = map Ok r.
Proof.
  revert r. induction l as [|[a|e] l IH]; intros r H; cbn [awaitAll] in H.
  - now inversion H.
  - destruct (awaitAll l) as [r'|e]; [|discriminate].
    inversion H; subst. cbn [map]. now rewrite (IH r').
  - discriminate.
Qed.

(** Every token is either among the results that carry an entry or
    among the non-dynamic ones. *)
Lemma results_partition (tokens : list Token)
      (results : list (option Instruction)) :
  List.length results = List.length tokens ->
  List.length (parseArray results)
  + List.length (nonDynamicTokens tokens results)
  = List.length tokens.
Proof.
  revert results. induction tokens as [|tk tokens IH];
    intros [|[d|] results] H; try discriminate H; cbn in *;
    try reflexivity.
  - rewrite IH by lia. reflexivity.
  - rewrite Nat.add_succ_r, IH by lia. reflexivity.
Qed.

Lemma push_patterns f excl p r :
  Ref.patterns_in (push f excl p r) = S (Ref.patterns_in r).
Proof.
  unfold Ref.patterns_in, Ref.set_size.
  destruct f, excl; cbn; rewrite ?length_app; cbn; lia.
Qed.

Lemma push_desc f excl p r : desc (push f excl p r) = desc r.
Proof. destruct f; reflexivity. Qed.

Lemma pushAll_patterns (arr : list Instruction) :
  Forall (fun i => field i <> FieldInherited) arr ->
  forall r,
    Ref.patterns_in (fold_left Ref.pushInstruction arr r)
    = Ref.patterns_in r + List.length arr.
Proof.
  induction 1 as [|i arr Hi F IH]; intros r; cbn [fold_left List.length].
  - lia.
  - rewrite IH. unfold Ref.pushInstruction.
    destruct (field i) as [f|]; [|now elim Hi].
    rewrite push_patterns. lia.
Qed.

Lemma pushAll_desc (arr : list Instruction) :
  forall r, desc (fold_left Ref.pushInstruction arr r) = desc r.
Proof.
  induction arr as [|i arr IH]; intros r; cbn [fold_left]; [reflexivity|].
  rewrite IH. unfold Ref.pushInstruction.
  destruct (field i); [apply push_desc | reflexivity].
Qed.

(** The last loop returns exactly when every entry has a field that is
    one, and then it has pushed every pattern and every stage in
    turn. *)
Lemma collect_Ok (arr : list Instruction) :
  forall r p rp,
    collect arr r p = Ok rp ->
    rp = {| parseResult := fold_left Ref.pushInstruction arr r;
            pipeline := (p ++ map matchStage arr)%list |} /\
    Forall (fun i => field i <> FieldInherited) arr.
Proof.
  induction arr as [|i arr IH]; intros r p rp H; cbn [collect] in H.
  - injection H as <-. cbn [fold_left map]. now rewrite app_nil_r.
  - cbn [fold_left map]. unfold Ref.pushInstruction at 2.
    destruct (field i) as [f|] eqn:Ef; [|discriminate H].
    apply IH in H as [-> F]. rewrite <- app_assoc. cbn [app].
    split; [reflexivity|]. constructor; [|exact F].
    rewrite Ef. discriminate.
Qed.

Lemma collect_proper (arr : list Instruction) :
  Forall (fun i => field i <> FieldInherited) arr ->
  forall r p,
    collect arr r p
    = Ok {| parseResult := fold_left Ref.pushInstruction arr r;
            pipeline := (p ++ map matchStage arr)%list |}.
Proof.
  induction 1 as [|i arr Hi F IH]; intros r p; cbn [collect fold_left map].
  - now rewrite app_nil_r.
  - unfold Ref.pushInstruction at 2.
    destruct (field i) as [f|]; [|now elim Hi].
    rewrite IH, <- app_assoc. reflexivity.
Qed.

Lemma collect_Throw (arr : list Instruction) :
  forall r p e,
    collect arr r p = Throw e ->
    e = TypeError /\ Exists (fun i => field i = FieldInherited) arr.
Proof.
  induction arr as [|i arr IH]; intros r p e H; cbn [collect] in H;
    [discriminate H|].
  destruct (field i) as [f|] eqn:Ef.
  - apply IH in H as [-> X]. split; [reflexivity | now right].
  - injection H as <-. split; [reflexivity | now left].
Qed.

Lemma finish_Ok desc0 tokens results rp :
  finish desc0 tokens results = Ok rp ->
  rp = Ref.assemble desc0 tokens results /\
  Forall (fun i => field i <> FieldInherited) (parseArray results).
Proof. unfold finish. intros H. now apply collect_Ok in H. Qed.

Lemma finish_proper desc0 tokens results :
  Forall (fun i => field i <> FieldInherited) (parseArray results) ->
  finish desc0 tokens results = Ok (Ref.assemble desc0 tokens results).
Proof. intros F. unfold finish. now rewrite collect_proper. Qed.
End Pipeline.

(** From a request that returned to the results of its tasks. *)
Ltac returned H :=
  let Hf := fresh "Hf" in
  let Hs := fresh "Hs" in
  injection H as Hf Hs;
  apply finish_Ok in Hf as [Hf ?];
  subst.

Section Lookup.
Import ParserPipeline.

Lemma docsMap_get_hit docs t d :
  docsMap_get docs t = Some d -> In d docs /\ token d = t.
Proof.
  unfold docsMap_get. intros H. apply find_some in H as [H1 H2].
  split; [now apply in_rev in H1 | now apply String.eqb_eq].
Qed.

Lemma find_In store keys d :
  In d (InstructionModel.find store keys) -> In d store.
Proof. unfold InstructionModel.find. intros H. now apply filter_In in H. Qed.

(** A token that was asked for and is not in the map was not in the
    collection. *)
Lemma docsMap_get_miss store keys t :
  In t keys ->
  docsMap_get (InstructionModel.find store keys) t = None ->
  InstructionModel.has store t = false.
Proof.
  intros Hk H. unfold docsMap_get in H.
  destruct (InstructionModel.has store t) eqn:E; [|reflexivity].
  unfold InstructionModel.has in E. apply existsb_exists in E as (d & Hd & Ht).
  assert (Hin : In d (rev (InstructionModel.find store keys))).
  { apply -> in_rev. unfold InstructionModel.find. apply filter_In.
    split; [exact Hd|]. apply existsb_exists. exists t.
    split; [exact Hk | exact Ht]. }
  pose proof (find_none _ _ H d Hin) as F. cbv beta in F. congruence.
Qed.

Lemma docsMap_get_cold store keys t :
  InstructionModel.has store t = false ->
  docsMap_get (InstructionModel.find store keys) t = None.
Proof.
  intros H. destruct (docsMap_get _ t) as [d|] eqn:E; [|reflexivity].
  apply docsMap_get_hit in E as [Hin Ht]. apply find_In in Hin.
  apply has_false in H. exfalso. apply H. rewrite <- Ht.
  now apply in_map.
Qed.

(** The tasks of a request all resolve when its tokens are pairwise
    distinct. *)
Lemma parseAll_succeeds docs tokens :
  NoDup (map tokenStr tokens) ->
  (forall tk pd, In tk tokens ->
      parseSingleToken (stripDash (tokenStr tk)) <> Some (FieldInherited, pd)) ->
  forall store,
    (forall tk, In tk tokens -> docsMap_get docs (tokenStr tk) = None ->
                InstructionModel.has store (tokenStr tk) = false) ->
    exists results, awaitAll (fst (parseAll docs tokens store)) = Ok results.
Proof.
  induction tokens as [|tk tokens IH]; intros N Hi store Hs; cbn [parseAll].
  - exists []. reflexivity.
  - inversion N as [|? ? Hn N']; subst.
    assert (Hi' : forall tk0 pd, In tk0 tokens ->
               parseSingleToken (stripDash (tokenStr tk0))
               <> Some (FieldInherited, pd))
      by (intros; apply Hi; now right).
    destruct (docsMap_get docs (tokenStr tk)) as [d|] eqn:Hd; cbn [fst].
    + destruct (IH N' Hi' store) as [results E].
      { intros; apply Hs; [now right | assumption]. }
      exists (Some d :: results). cbn [awaitAll]. now rewrite E.
    + assert (Hh : InstructionModel.has store (tokenStr tk) = false)
        by (apply Hs; [now left | exact Hd]).
      destruct (parseSingleToken (stripDash (tokenStr tk)))
        as [[[f|] pd]|] eqn:E.
      * rewrite (parseAndStoreToken_fresh _ _ _ _ _ E Hh). cbn [fst snd].
        destruct (IH N' Hi' (store ++ [Ref.compiled (tokenStr tk)
                                         (tk_exclude tk) f pd])%list)
          as [results Er].
        { intros tk0 H0 Hd0. rewrite has_app.
          rewrite (Hs tk0 (or_intror H0) Hd0). cbn [orb Ref.compiled token].
          apply String.eqb_neq. intros Heq. apply Hn. rewrite Heq.
          now apply in_map. }
        eexists. cbn [awaitAll]. now rewrite Er.
      * exfalso. now apply (Hi tk pd (or_introl eq_refl)).
      * rewrite (parseAndStoreToken_null _ _ _ E). cbn [fst snd].
        destruct (IH N' Hi' store) as [results Er].
        { intros; apply Hs; [now right | assumption]. }
        eexists. cbn [awaitAll]. now rewrite Er.
Qed.

Lemma getPipeline_unfold store input :
  JS.truthy (JS.trim input) = true ->
  getPipelineForInstruction store (Some input)
  = let tokens := fst (tokenizeInput input) in
    let out := parseAll (InstructionModel.find store (map tokenStr tokens))
                        tokens store in
    match awaitAll (fst out) with
    | Ok parseResults =>
        (finish (snd (tokenizeInput input)) tokens parseResults, snd out)
    | Throw e => (Throw e, snd out)
    end.
Proof.
  intros H. unfold getPipelineForInstruction. rewrite H.
  assert (Ht : JS.truthy input = true).
  { destruct input; [discriminate H | reflexivity]. }
  now rewrite Ht.
Qed.

Lemma assemble_desc desc0 tokens results :
  desc (parseResult (Ref.assemble desc0 tokens results))
  = JS.trim (desc0 ++ " " ++ JS.join " " (nonDynamicTokens tokens results)).
Proof. unfold Ref.assemble. cbn [parseResult]. now rewrite pushAll_desc. Qed.

Lemma assemble_patterns desc0 tokens results :
  Forall (fun i => field i <> FieldInherited) (parseArray results) ->
  Ref.patterns_in (parseResult (Ref.assemble desc0 tokens results))
  = List.length (parseArray results).
Proof.
  intros F. unfold Ref.assemble. cbn [parseResult].
  now rewrite pushAll_patterns.
Qed.

End Lookup.



(* ------------------------------------------------------------------ *)
(** ** Bracketed reserved words                                         *)
(* ------------------------------------------------------------------ *)

Lemma test_true_exec (r : Regex.regex) (s : string) :
  Regex.test r s = true -> exists f, Regex.exec r s = Some f.
Proof. unfold Regex.test. destruct (Regex.exec r s); [eauto | discriminate]. Qed.

Ltac split_bracket s :=
  lazymatch s with
  | String "]" ?r => constr:((EmptyString, r))
  | String ?a ?s' =>
      let p := split_bracket s' in
      lazymatch p with
      | (?w, ?r) => constr:((String a w, r))
      end
  end.

(** A value is reserved exactly when it begins with one of the reserved
    words between brackets, in whatever case. *)
Lemma isReserved_sound (val : string) :
  ParserPipeline.isReserved val = true ->
  exists w rest,
    val = "[" ++ w ++ "]" ++ rest /\ In (Ref.toUpperCase w) Ref.reservedWords.
Proof.
  intros H. apply test_true_exec in H as [f H].
  apply exec_bol_sound in H as (rest' & c' & M & _).
  unfold ParserPipeline.reserved_re in M. open_re M.
  inv_matches.
  all: match goal with
       | |- exists w rest, String "[" ?s = _ /\ _ =>
           let p := split_bracket s in
           lazymatch p with
           | (?w, ?r) => exists w, r
           end
       end.
  all: split; [reflexivity|].
  all: cbn [Ref.toUpperCase].
  all: repeat match goal with
              | E : JS.upper_char _ = JS.upper_char ?x |- _ =>
                  rewrite <- E; clear E
              end.
  all: vm_compute; tauto.
Qed.

Ltac run_reserved :=
  repeat (first [ rewrite m_seq | rewrite m_alt | rewrite m_group
                | rewrite m_chr | rewrite m_eps ];
          cbv beta;
          repeat match goal with
                 | E : _ = JS.upper_char ?x |- context [JS.upper_char ?x] =>
                     rewrite <- E
                 end;
          close_chars; cbv iota).

Lemma isReserved_complete (w rest : string) :
  In (Ref.toUpperCase w) Ref.reservedWords ->
  ParserPipeline.isReserved ("[" ++ w ++ "]" ++ rest) = true.
Proof.
  intros H. unfold ParserPipeline.isReserved, ParserPipeline.reserved_re.
  cbn [Regex.seqs Regex.alts Regex.wordi]. unfold Regex.opt, Regex.lit, Regex.liti.
  rewrite test_bol.
  cbn [Ref.reservedWords In] in H.
  repeat (destruct H as [H|H]); try contradiction.
  all: repeat (destruct w as [|? w]; cbn [Ref.toUpperCase] in H;
               try discriminate H).
  all: injection H as H; repeat match goal with
                                | E : String _ _ = String _ _ |- _ =>
                                    injection E as ? E
                                end.
  all: cbn [append].
  all: run_reserved; reflexivity.
Qed.

(* ------------------------------------------------------------------ *)
(** ** Trimming keeps what is solid                                     *)
(* ------------------------------------------------------------------ *)

Section Trimming.

Lemma rev_app (s t : string) : JS.rev (s ++ t) = JS.rev t ++ JS.rev s.
Proof.
  induction s as [|a s IH]; simpl.
  - now rewrite append_nil_r.
  - now rewrite IH, append_assoc.
Qed.

Lemma rev_involutive (s : string) : JS.rev (JS.rev s) = s.
Proof.
  induction s as [|a s IH]; simpl; [reflexivity|].
  rewrite rev_app, IH. reflexivity.
Qed.

Lemma trimStart_keeps (a p b : string) :
  Ref.starts_solid p = true ->
  exists a', JS.trimStart (a ++ p ++ b) = a' ++ p ++ b.
Proof.
  intros H. induction a as [|x a IH].
  - exists "". destruct p as [|y p]; [discriminate H|].
    cbn in *. apply negb_true_iff in H. now rewrite H.
  - cbn [append JS.trimStart]. destruct (JS.is_space x).
    + exact IH.
    + now exists (String x a).
Qed.

Lemma trimEnd_keeps (a p b : string) :
  Ref.starts_solid (JS.rev p) = true ->
  exists b', JS.trimEnd (a ++ p ++ b) = a ++ p ++ b'.
Proof.
  intros H. unfold JS.trimEnd.
  rewrite !rev_app, append_assoc.
  destruct (trimStart_keeps (JS.rev b) (JS.rev p) (JS.rev a) H) as [b' E].
  rewrite E. exists (JS.rev b').
  now rewrite !rev_app, !rev_involutive, append_assoc.
Qed.

(** A solid text survives [trim] wherever it stands. *)
Lemma trim_keeps (a p b : string) :
  Ref.solid p = true ->
  exists a' b', JS.trim (a ++ p ++ b) = a' ++ p ++ b'.
Proof.
  unfold Ref.solid. intros H. apply andb_prop in H as [H1 H2].
  unfold JS.trim.
  destruct (trimStart_keeps a p b H1) as [a' E]. rewrite E.
  destruct (trimEnd_keeps a' p b H2) as [b' E']. rewrite E'.
  now exists a', b'.
Qed.

Lemma toLowerCase_app (s t : string) :
  JS.toLowerCase (s ++ t) = JS.toLowerCase s ++ JS.toLowerCase t.
Proof. induction s as [|a s IH]; simpl; [reflexivity | now rewrite IH]. Qed.

Lemma toLowerCase_rev (s : string) :
  JS.toLowerCase (JS.rev s) = JS.rev (JS.toLowerCase s).
Proof.
  induction s as [|a s IH]; simpl; [reflexivity|].
  now rewrite toLowerCase_app, IH.
Qed.

Lemma lower_char_space (a : ascii) :
  JS.is_space (JS.lower_char a) = JS.is_space a.
Proof.
  destruct a as [[] [] [] [] [] [] [] []]; vm_compute; reflexivity.
Qed.

Lemma toLowerCase_solid (s : string) :
  Ref.solid s = true -> Ref.solid (JS.toLowerCase s) = true.
Proof.
  unfold Ref.solid. rewrite <- toLowerCase_rev.
  assert (H : forall t, Ref.starts_solid (JS.toLowerCase t)
                        = Ref.starts_solid t).
  { intros [|a t]; [reflexivity|]. cbn. now rewrite lower_char_space. }
  now rewrite !H.
Qed.

(** A part appended to the description is inside [spaced]. *)
Lemma spaced_In (l : list string) (p : string) :
  In p l -> exists a b, Ref.spaced l = a ++ p ++ b.
Proof.
  induction l as [|q l IH]; intros H; [destruct H|].
  destruct H as [->|H]; cbn [Ref.spaced].
  - exists "", (" " ++ Ref.spaced l). reflexivity.
  - destruct (IH H) as (a & b & E). rewrite E.
    exists (q ++ " " ++ a), b. now rewrite !append_assoc.
Qed.
End Trimming.

(* ------------------------------------------------------------------ *)
(** ** The parts of an instruction                                      *)
(* ------------------------------------------------------------------ *)

Lemma append_inv_tail (a b t : string) : a ++ t = b ++ t -> a = b.
Proof.
  revert b. induction a as [|x a IH]; intros [|y b] H.
  - reflexivity.
  - exfalso. apply (f_equal String.length) in H.
    simpl in H. rewrite length_append in H. lia.
  - exfalso. apply (f_equal String.length) in H.
    simpl in H. rewrite length_append in H. lia.
  - simpl in H. inversion H; subst. f_equal. now apply IH.
Qed.

Lemma match_here_sound input r rest f :
  Regex.match_here input r rest = Some f ->
  Ref.Matches input r rest [] (Regex.after f) (Regex.groups f) /\
  rest = Regex.matched f ++ Regex.after f.
Proof.
  unfold Regex.match_here. intros H.
  apply m_sound in H as (rest' & c' & M & K). inversion K; subst f; clear K.
  cbn [Regex.after Regex.groups Regex.matched]. split; [exact M|].
  destruct (Matches_suffix _ _ _ _ _ _ M) as [w ->].
  now rewrite take_consumed.
Qed.

Lemma match_all_In input r p :
  forall fuel rest,
    In p (Regex.match_all_from fuel input r rest) ->
    exists rest0 f, Regex.match_here input r rest0 = Some f
                    /\ p = Regex.matched f.
Proof.
  induction fuel as [|fuel IH]; intros rest H; cbn [Regex.match_all_from] in H;
    [destruct H|].
  destruct (Regex.match_here input r rest) as [f|] eqn:E.
  - destruct H as [<-|H]; [eauto|].
    destruct (Nat.ltb _ _); [now apply IH in H|].
    destruct rest; [destruct H | now apply IH in H].
  - destruct rest; [destruct H | now apply IH in H].
Qed.

Lemma starts_solid_rev_app (s t : string) (a : ascii) :
  Ref.starts_solid (JS.rev (s ++ String a t))
  = Ref.starts_solid (JS.rev (String a t)).
Proof.
  rewrite rev_app. cbn [JS.rev].
  destruct (JS.rev t) as [|z u]; reflexivity.
Qed.

Lemma starts_solid_rev_cons (a b : ascii) (t : string) :
  Ref.starts_solid (JS.rev (String a (String b t)))
  = Ref.starts_solid (JS.rev (String b t)).
Proof. apply (starts_solid_rev_app (String a "") t b). Qed.

Lemma starts_solid_rev_cons_app (a b : ascii) (s t : string) :
  Ref.starts_solid (JS.rev (String a (s ++ String b t)))
  = Ref.starts_solid (JS.rev (String b t)).
Proof. apply (starts_solid_rev_app (String a s) t b). Qed.

Lemma run_solid_rev (x : ascii) (w : string) :
  JS.is_space x = false ->
  Ref.all_chars (fun a => negb (JS.is_space a)) w = true ->
  Ref.starts_solid (JS.rev (String x w)) = true.
Proof.
  revert x. induction w as [|y w IH]; intros x Hx Hw.
  - cbn. now rewrite Hx.
  - rewrite starts_solid_rev_cons. cbn in Hw.
    apply andb_prop in Hw as [Hy Hw]. apply negb_true_iff in Hy.
    now apply IH.
Qed.

Lemma word_not_space (a : ascii) : JS.is_word a = true -> JS.is_space a = false.
Proof.
  destruct a as [[] [] [] [] [] [] [] []]; vm_compute; intros H;
    first [reflexivity | discriminate H].
Qed.

(** Every part begins and ends with a character that is no blank. *)
Lemma token_solid input rest f :
  Regex.match_here input Shape.token_re rest = Some f ->
  Ref.solid (Regex.matched f) = true.
Proof.
  intros H. apply match_here_sound in H as [M E].
  unfold Shape.token_re in M. open_re M.
  destruct f as [mt gs af]. cbn [Regex.after Regex.groups Regex.matched] in *.
  inv_matches.
  all: match goal with
       | H : ?m ++ ?t = ?R |- _ =>
           let F := eval pattern t in R in
           lazymatch F with
           | ?G t =>
               let S := eval cbv beta in (G EmptyString) in
               assert (ES : R = S ++ t)
                 by (repeat (cbn [append]; rewrite ?append_assoc);
                     reflexivity);
               rewrite ES in H; apply append_inv_tail in H; subst m;
               clear ES
           end
       end.
  all: unfold Ref.solid; apply andb_true_intro; split.
  all: try (cbn [Ref.starts_solid]; apply negb_true_iff;
            first [ now apply word_not_space
                  | now apply negb_true_iff ]).
  - repeat first [ rewrite starts_solid_rev_cons_app
                   | rewrite starts_solid_rev_cons ].
    reflexivity.
  - repeat first [ rewrite starts_solid_rev_cons_app
                   | rewrite starts_solid_rev_cons ].
    reflexivity.
  - rewrite append_nil_r.
    apply run_solid_rev; [now apply negb_true_iff | assumption].
Qed.

Lemma parts_solid (input p : string) :
  In p (Ref.parts input) -> Ref.solid p = true.
Proof.
  unfold Ref.parts, Regex.match_all. intros H.
  apply match_all_In in H as (rest0 & f & H & ->).
  now apply token_solid in H.
Qed.

Lemma match_all_suffix input r p :
  forall fuel rest,
    In p (Regex.match_all_from fuel input r rest) ->
    exists pre rest0 f,
      rest = pre ++ rest0 /\
      Regex.match_here input r rest0 = Some f /\ p = Regex.matched f.
Proof.
  induction fuel as [|fuel IH]; intros rest H; cbn [Regex.match_all_from] in H;
    [destruct H|].
  assert (Hskip : forall a rest',
             rest = String a rest' ->
             In p (Regex.match_all_from fuel input r rest') ->
             exists pre rest0 f,
               rest = pre ++ rest0 /\
               Regex.match_here input r rest0 = Some f /\ p = Regex.matched f).
  { intros a rest' -> H'. apply IH in H' as (pre & rest0 & f & -> & H1 & H2).
    exists (String a pre), rest0, f. auto. }
  destruct (Regex.match_here input r rest) as [f|] eqn:E.
  - destruct H as [<-|H]; [exists "", rest, f; auto|].
    destruct (Nat.ltb _ _).
    + apply IH in H as (pre & rest0 & f' & E' & H1 & H2).
      apply match_here_sound in E as [_ E].
      exists (Regex.matched f ++ pre), rest0, f'.
      rewrite E at 1. rewrite E', append_assoc. auto.
    + destruct rest as [|a rest']; [destruct H | now apply (Hskip a rest')].
  - destruct rest as [|a rest']; [destruct H | now apply (Hskip a rest')].
Qed.

Lemma solid_truthy (p : string) : Ref.solid p = true -> JS.truthy p = true.
Proof. destruct p; [discriminate | reflexivity]. Qed.

(** An instruction that has a part is not blank. *)
Lemma parts_nonblank (input p : string) :
  In p (Ref.parts input) -> JS.truthy (JS.trim input) = true.
Proof.
  unfold Ref.parts, Regex.match_all. intros H.
  apply match_all_suffix in H as (pre & rest0 & f & E & H & ->).
  pose proof (token_solid _ _ _ H) as S.
  apply match_here_sound in H as [_ E']. rewrite E' in E.
  destruct (trim_keeps pre (Regex.matched f) (Regex.after f) S)
    as (a' & b' & T).
  rewrite E, T. apply solid_truthy in S.
  destruct a'; [|reflexivity].
  destruct (Regex.matched f); [discriminate S | reflexivity].
Qed.

(** A part that is not made a token is found, in lower case, in the
    final description. *)
Lemma static_part_in_desc store input rp store' part :
  ParserPipeline.getPipelineForInstruction store (Some input) = (Ok rp, store') ->
  In part (Ref.parts input) ->
  Ref.staticPart part = true ->
  exists pre post,
    desc (ParserPipeline.parseResult rp) = pre ++ JS.toLowerCase part ++ post.
Proof.
  intros H Hin Hst.
  pose proof (parts_nonblank _ _ Hin) as Hb.
  pose proof (parts_solid _ _ Hin) as Hs.
  rewrite getPipeline_unfold in H by exact Hb.
  rewrite tokenizeInput_spec in H. cbv zeta in H. cbn [fst snd] in H.
  destruct (ParserPipeline.awaitAll _) as [results|e]; [|discriminate H].
  returned H.
  rewrite assemble_desc.
  assert (Hf : In part (filter Ref.staticPart (Ref.parts input)))
    by (apply filter_In; auto).
  destruct (spaced_In _ _ Hf) as (a & b & E). rewrite E.
  destruct (trim_keeps a part b Hs) as (a' & b' & T). rewrite T.
  rewrite !toLowerCase_app, !append_assoc.
  apply trim_keeps. now apply toLowerCase_solid.
Qed.

Lemma dynamic_not_reserved (val : string) :
  ParserPipeline.isLikelyDynamic val = true ->
  ParserPipeline.isReserved val = false.
Proof.
  unfold ParserPipeline.isLikelyDynamic.
  destruct (ParserPipeline.isReserved val); [discriminate | reflexivity].
Qed.

Lemma tokens_dynamic input tk :
  In tk (fst (ParserPipeline.tokenizeInput input)) ->
  In (ParserPipeline.tokenStr tk) (Ref.parts input) /\
  Ref.dynamicPart (ParserPipeline.tokenStr tk) = true.
Proof.
  rewrite tokenizeInput_spec. cbn [fst]. intros H.
  apply in_map_iff in H as (p & <- & H). apply filter_In in H.
  exact H.
Qed.

(** Whatever a request writes to the cache is the entry of one of its
    tokens. *)
Lemma written_is_token store input d :
  In d (snd (ParserPipeline.getPipelineForInstruction store (Some input))) ->
  In d store \/
  exists tk, In tk (fst (ParserPipeline.tokenizeInput input))
             /\ token d = ParserPipeline.tokenStr tk.
Proof.
  destruct (JS.truthy (JS.trim input)) eqn:Hb.
  - rewrite getPipeline_unfold by exact Hb. cbv zeta.
    destruct (ParserPipeline.awaitAll _); cbn [snd]; intros H.
    all: apply parseAll_store in H as [H|(tk & f & pd & H1 & _ & ->)];
      [now left | right; exists tk; auto].
  - unfold ParserPipeline.getPipelineForInstruction. rewrite Hb.
    rewrite orb_true_r. cbn [snd]. now left.
Qed.

(** C9. In the cached path a part that begins (after the exclusion
    marker, if any) with one of the reserved words ITEM, ITEMS, KEY,
    KEYS, BRAND, BRANDS, LINE, LINES or ACC between brackets, in
    whatever case, is not likely dynamic: the tokenizer appends it to
    the description and pushes no token for it, so that it is never
    handed to the compiler, no cache entry is ever written for it, and
    it is found in the description of the result. *)
Theorem C9_reserved_words_go_to_description :
  (forall val,
      ParserPipeline.isReserved val = true <->
      exists w rest,
        val = "[" ++ w ++ "]" ++ rest /\
        In (Ref.toUpperCase w) Ref.reservedWords) /\
  (forall val,
      ParserPipeline.isReserved val = true ->
      ParserPipeline.isLikelyDynamic val = false) /\
  (forall acc part,
      ParserPipeline.isReserved (ParserPipeline.stripDash part) = true ->
      ParserPipeline.tokenizeStep acc part
      = (fst acc, snd acc ++ part ++ " ")) /\
  (forall input tk,
      In tk (fst (ParserPipeline.tokenizeInput input)) ->
      ParserPipeline.isReserved
        (ParserPipeline.stripDash (ParserPipeline.tokenStr tk)) = false) /\
  (forall store input d,
      In d (snd (ParserPipeline.getPipelineForInstruction store (Some input))) ->
      In d store \/
      ParserPipeline.isReserved (ParserPipeline.stripDash (token d)) = false) /\
  (forall store input rp store' part,
      ParserPipeline.getPipelineForInstruction store (Some input)
      = (Ok rp, store') ->
      In part (Ref.parts input) ->
      ParserPipeline.isReserved (ParserPipeline.stripDash part) = true ->
      exists pre post,
        desc (ParserPipeline.parseResult rp)
        = pre ++ JS.toLowerCase part ++ post).
Proof.
  split.
  { intros val. split; [apply isReserved_sound|].
    intros (w & rest & -> & H). now apply isReserved_complete. }
  split.
  { intros val H. unfold ParserPipeline.isLikelyDynamic. now rewrite H. }
  split.
  { intros acc part H. unfold ParserPipeline.tokenizeStep. now rewrite H. }
  split.
  { intros input tk H. apply tokens_dynamic in H as [_ H].
    now apply dynamic_not_reserved. }
  split.
  { intros store input d H.
    apply written_is_token in H as [H|(tk & H & E)]; [now left|].
    right. rewrite E. apply tokens_dynamic in H as [_ H].
    now apply dynamic_not_reserved. }
  intros store input rp store' part H Hin Hr.
  apply (static_part_in_desc store input rp store' part H Hin).
  now apply reserved_static.
Qed.

Lemma C9_witness :
  ParserPipeline.isReserved "[Items]A1B2<>C3D4" = true /\
  ParserPipeline.isLikelyDynamic "[acc]x" = false /\
  ParserPipeline.tokenizeStep ([], "") "-[KEY]^Z.*" = ([], "-[KEY]^Z.* ") /\
  ParserPipeline.isReserved "AB:[ITEM]5" = false /\
  (exists pre post,
      "[items]a1b2<>c3d4 -[key]^z.*" = pre ++ JS.toLowerCase "-[KEY]^Z.*" ++ post).
Proof.
  destruct C9_reserved_words_go_to_description as (R & D & S & T & _ & I).
  split.
  { apply (proj2 (R "[Items]A1B2<>C3D4")).
    exists "Items", "A1B2<>C3D4". split; [reflexivity|].
    vm_compute. tauto. }
  split; [apply D; vm_compute; reflexivity|].
  split; [apply (S ([], "") "-[KEY]^Z.*"); vm_compute; reflexivity|].
  split.
  { apply (T "AB:[ITEM]5 x"
             {| ParserPipeline.tokenStr := "AB:[ITEM]5";
                ParserPipeline.tk_exclude := false |}).
    vm_compute. auto. }
  apply (I [] "[ITEMS]A1B2<>C3D4 ABC -[KEY]^Z.*"
           {| ParserPipeline.parseResult :=
                push lines false (ValuePattern "ABC" None)
                     (emptyResult "[items]a1b2<>c3d4 -[key]^z.*");
              ParserPipeline.pipeline :=
                [Match (FExpr (ExprCmp op_eq (Path line_code) "ABC"))] |}
           [Ref.compiled "ABC" false lines (PDValue None "ABC")]
           "-[KEY]^Z.*").
  - vm_compute. reflexivity.
  - vm_compute. auto.
  - vm_compute. reflexivity.
Defined.

(* ------------------------------------------------------------------ *)
(** ** Compilation under the items field                                *)
(* ------------------------------------------------------------------ *)

Section ItemsCompilation.
Variable compare : MongoOp -> string -> string -> bool.
Variable regexMatch : string -> string -> string -> bool.
Let eval_expr := Semantics.eval_expr compare regexMatch.
Let eval_filter := Semantics.eval_filter compare regexMatch.

Lemma buildItemExpr_prefixed (p : Pattern) (a : ascii) (k : string) :
  keyPrefix_of p = Some (String a k) ->
  SearchPipelineBuilder.buildItemExpr p
  = Some (FExpr (ExprAnd [Ref.prefixMatch (String a k); Ref.codeLeaf p])).
Proof.
  intros H. unfold SearchPipelineBuilder.buildItemExpr. rewrite H.
  destruct p; reflexivity.
Qed.

Lemma buildItemExpr_plain (p : Pattern) :
  keyPrefix_of p = None \/ keyPrefix_of p = Some "" ->
  SearchPipelineBuilder.buildItemExpr p
  = Some (FExpr match p with
                | ComparisonPattern _ _ _ | RangePattern _ _ _ =>
                    Ref.codeLeaf p
                | ValuePattern _ _ | RegexPattern _ _ =>
                    Ref.leafOver Ref.fullCode p
                end).
Proof.
  intros [H|H]; unfold SearchPipelineBuilder.buildItemExpr; rewrite H;
    destruct p; reflexivity.
Qed.

Lemma buildItemsExpr_prefixed (pd : InstructionPatternData)
      (a : ascii) (k : string) :
  Ref.pd_extracted pd = None ->
  ParserPipeline.pd_keyPrefix pd = Some (String a k) ->
  ParserPipeline.buildItemsExpr pd
  = FExpr (ExprAnd (Ref.prefixMatch (String a k)
                      :: Ref.conjuncts
                           (Ref.codeLeaf
                              (ParserPipeline.patternDataToPattern pd)))).
Proof.
  intros He H. destruct pd; cbn in He, H; subst; reflexivity.
Qed.

Lemma buildItemsExpr_plain (pd : InstructionPatternData) :
  Ref.pd_extracted pd = None ->
  ParserPipeline.pd_keyPrefix pd = None \/
  ParserPipeline.pd_keyPrefix pd = Some "" ->
  ParserPipeline.buildItemsExpr pd
  = FExpr match pd with
          | PDComparison _ _ _ | PDRange _ _ _ =>
              Ref.codeLeaf (ParserPipeline.patternDataToPattern pd)
          | PDRegex _ _ _ | PDValue _ _ =>
              Ref.leafOver Ref.fullCode
                           (ParserPipeline.patternDataToPattern pd)
          end.
Proof.
  intros He [H|H]; destruct pd; cbn in He, H; subst; reflexivity.
Qed.

Lemma buildItemsExpr_extracted kp v ev :
  Ref.filter_leaves (ParserPipeline.buildItemsExpr (PDRegex kp v (Some ev)))
  = [ExprRegexMatch (Path item_code) ev "i"].
Proof. reflexivity. Qed.

(** Both compilers give the same reading to a prefixed pattern: the
    prefix matches line and brand, and the leaf holds of the code. *)
Lemma prefixed_reading (doc : Semantics.Doc) (pd : InstructionPatternData)
      (a : ascii) (k : string) :
  Ref.pd_extracted pd = None ->
  ParserPipeline.pd_keyPrefix pd = Some (String a k) ->
  let p := ParserPipeline.patternDataToPattern pd in
  eval_filter doc (ParserPipeline.buildItemsExpr pd)
  = Some (regexMatch (Semantics.d_line doc ++ Semantics.d_brand doc)
                     (String a k) "i"
          && eval_expr doc (Ref.codeLeaf p)) /\
  option_map (eval_filter doc) (SearchPipelineBuilder.buildItemExpr p)
  = Some (eval_filter doc (ParserPipeline.buildItemsExpr pd)).
Proof.
  intros He H p.
  rewrite (buildItemsExpr_prefixed pd a k He H).
  assert (Hp : keyPrefix_of p = Some (String a k))
    by (subst p; destruct pd; cbn in H |- *; now rewrite H).
  rewrite (buildItemExpr_prefixed p a k Hp).
  fold p. destruct p; cbn; rewrite ?andb_true_r; auto.
Qed.
End ItemsCompilation.

(** C3 (as the code has it). Under the items field a pattern with a
    key prefix compiles, in both compilers, to the conjunction of the
    case-insensitive match of the prefix against line code and brand
    code and of the leaf predicate over the item code alone (equality
    for a value; regex, comparison or range otherwise; ParserPipeline
    lists the two bounds of a range as further members of the same
    conjunction, which reads the same).  Without a key prefix,
    comparison and range compile to the leaf over the item code alone,
    value and regex to the leaf over the concatenation of line, brand
    and item code.  The exception is a regex that carries an extracted
    value, which [parseSingleToken] records, without a key prefix, for
    a bracketed prefix followed by a non-numeric regex suffix: its only
    predicate is the case-insensitive regex of the extracted suffix
    over the item code alone, with no prefix conjunct. *)
Theorem C3_items_compilation :
  forall (compare : MongoOp -> string -> string -> bool)
         (regexMatch : string -> string -> string -> bool),
    (forall p a k,
        keyPrefix_of p = Some (String a k) ->
        SearchPipelineBuilder.buildItemExpr p
        = Some (FExpr (ExprAnd [Ref.prefixMatch (String a k);
                                Ref.codeLeaf p]))) /\
    (forall p,
        keyPrefix_of p = None \/ keyPrefix_of p = Some "" ->
        SearchPipelineBuilder.buildItemExpr p
        = Some (FExpr match p with
                      | ComparisonPattern _ _ _ | RangePattern _ _ _ =>
                          Ref.codeLeaf p
                      | ValuePattern _ _ | RegexPattern _ _ =>
                          Ref.leafOver Ref.fullCode p
                      end)) /\
    (forall pd a k,
        Ref.pd_extracted pd = None ->
        ParserPipeline.pd_keyPrefix pd = Some (String a k) ->
        ParserPipeline.buildItemsExpr pd
        = FExpr (ExprAnd (Ref.prefixMatch (String a k)
                            :: Ref.conjuncts
                                 (Ref.codeLeaf
                                    (ParserPipeline.patternDataToPattern pd))))
        /\
        forall doc,
          Semantics.eval_filter compare regexMatch doc
                                (ParserPipeline.buildItemsExpr pd)
          = Some (regexMatch (Semantics.d_line doc ++ Semantics.d_brand doc)
                             (String a k) "i"
                  && Semantics.eval_expr compare regexMatch doc
                       (Ref.codeLeaf (ParserPipeline.patternDataToPattern pd))))
    /\
    (forall pd,
        Ref.pd_extracted pd = None ->
        ParserPipeline.pd_keyPrefix pd = None \/
        ParserPipeline.pd_keyPrefix pd = Some "" ->
        ParserPipeline.buildItemsExpr pd
        = FExpr match pd with
                | PDComparison _ _ _ | PDRange _ _ _ =>
                    Ref.codeLeaf (ParserPipeline.patternDataToPattern pd)
                | PDRegex _ _ _ | PDValue _ _ =>
                    Ref.leafOver Ref.fullCode
                                 (ParserPipeline.patternDataToPattern pd)
                end) /\
    (forall kp v ev,
        Ref.filter_leaves
          (ParserPipeline.buildItemsExpr (PDRegex kp v (Some ev)))
        = [ExprRegexMatch (Path item_code) ev "i"]).
Proof.
  intros compare regexMatch.
  split; [exact buildItemExpr_prefixed|].
  split; [exact buildItemExpr_plain|].
  split.
  { intros pd a k He H. split; [now apply buildItemsExpr_prefixed|].
    intros doc. apply (prefixed_reading compare regexMatch doc pd a k He H). }
  split; [exact buildItemsExpr_plain|].
  exact buildItemsExpr_extracted.
Qed.

Lemma C3_witness :
  SearchPipelineBuilder.buildItemExpr
    (ComparisonPattern GT "0050" (Some "GRAPVH"))
  = Some (FExpr (ExprAnd [ExprRegexMatch
                            (Concat ["$key.line.code"; "$key.brand.code"])
                            "GRAPVH" "i";
                          ExprCmp op_gt (Path "$code") "0050"])) /\
  SearchPipelineBuilder.buildItemExpr (ValuePattern "0050" None)
  = Some (FExpr (ExprCmp op_eq
                   (Concat ["$key.line.code"; "$key.brand.code"; "$code"])
                   "0050")) /\
  ParserPipeline.buildItemsExpr (PDRange (Some "RC$") "0020" "0050")
  = FExpr (ExprAnd [ExprRegexMatch
                      (Concat ["$key.line.code"; "$key.brand.code"])
                      "RC$" "i";
                    ExprCmp op_gte (Path "$code") "0020";
                    ExprCmp op_lte (Path "$code") "0050"]) /\
  ParserPipeline.buildItemsExpr (PDComparison None LT "1000")
  = FExpr (ExprCmp op_lt (Path "$code") "1000").
Proof.
  destruct (C3_items_compilation (fun _ _ _ => true) (fun _ _ _ => true))
    as (A & B & C & D & _).
  split; [apply (A (ComparisonPattern GT "0050" (Some "GRAPVH")) "G"%char "RAPVH");
          reflexivity|].
  split; [apply (B (ValuePattern "0050" None)); left; reflexivity|].
  split; [apply (C (PDRange (Some "RC$") "0020" "0050") "R"%char "C$");
          reflexivity|].
  apply (D (PDComparison None LT "1000")); [reflexivity | left; reflexivity].
Defined.

(** [[XYZ]^AB.*] is resolved to items and classified as a regex with no
    key prefix; its stage is neither a conjunction with a prefix match
    nor a regex over the concatenation of the three codes. *)
Lemma C3_counterexample :
  ParserPipeline.parseSingleToken "[XYZ]^AB.*"
  = Some (ParserPipeline.FieldOf items,
          PDRegex None "[XYZ]^AB.*" (Some "^AB.*")) /\
  ParserPipeline.buildItemsExpr (PDRegex None "[XYZ]^AB.*" (Some "^AB.*"))
  = FMatch (FExpr (ExprRegexMatch (Path "$code") "^AB.*" "i")) /\
  ParserPipeline.buildItemsExpr (PDRegex None "[XYZ]^AB.*" (Some "^AB.*"))
  <> FExpr (Ref.leafOver Ref.fullCode (RegexPattern "[XYZ]^AB.*" None)) /\
  (forall leaf,
      ParserPipeline.buildItemsExpr (PDRegex None "[XYZ]^AB.*" (Some "^AB.*"))
      <> FExpr (ExprAnd [Ref.prefixMatch "XYZ"; leaf])).
Proof.
  repeat split; try (vm_compute; reflexivity); intros; discriminate.
Qed.

(* ------------------------------------------------------------------ *)
(** ** Exclusion                                                        *)
(* ------------------------------------------------------------------ *)

Section Exclusion.
Variable compare : MongoOp -> string -> string -> bool.
Variable regexMatch : string -> string -> string -> bool.
Let eval_expr := Semantics.eval_expr compare regexMatch.
Let eval_filter := Semantics.eval_filter compare regexMatch.
Let eval_stage := Semantics.eval_stage compare regexMatch.
Let eval_pipeline := Semantics.eval_pipeline compare regexMatch.

(** Every pattern compiles, under every field. *)
Lemma buildExpr_total (field : PatternField) (p : Pattern) :
  SearchPipelineBuilder.buildExpr p field
  = Some (FExpr (Ref.compiledExpr field p)).
Proof.
  unfold Ref.compiledExpr.
  destruct field, p as [v [[|a k]|]|v [[|a k]|]|o v [[|a k]|]|s e [[|a k]|]];
    reflexivity.
Qed.

Lemma clauses_all (field : PatternField) (l : list Pattern) :
  SearchPipelineBuilder.clauses l field
  = map (fun p => FExpr (Ref.compiledExpr field p)) l.
Proof.
  induction l as [|p l IH]; cbn [SearchPipelineBuilder.clauses map];
    [reflexivity|].
  now rewrite buildExpr_total, IH.
Qed.

Lemma buildFieldCondition_exclude (fs : ParsedFieldSet)
      (field : PatternField) :
  exclude fs <> [] ->
  SearchPipelineBuilder.buildFieldCondition fs field
  = Some (FCond
            (SearchPipelineBuilder.nonEmpty
               (map (fun p => FExpr (Ref.compiledExpr field p)) (include fs)))
            (Some (map (fun p => FExpr (Ref.compiledExpr field p))
                       (exclude fs)))).
Proof.
  intros H. unfold SearchPipelineBuilder.buildFieldCondition.
  destruct (exclude fs) as [|p l]; [contradiction|].
  destruct (include fs); rewrite !clauses_all; reflexivity.
Qed.

Lemma eval_all_leaves (doc : Semantics.Doc) (es : list Expr) :
  (fix all (l : list Filter) : option (list bool) :=
     match l with
     | [] => Some []
     | g :: l' =>
         match eval_filter doc g, all l' with
         | Some b, Some bs => Some (b :: bs)
         | _, _ => None
         end
     end) (map FExpr es)
  = Some (map (eval_expr doc) es).
Proof.
  induction es as [|e es IH]; cbn [map]; [reflexivity|].
  rewrite IH. reflexivity.
Qed.

Lemma existsb_id_map {A : Type} (f : A -> bool) (l : list A) :
  existsb (fun b => b) (map f l) = existsb f l.
Proof. induction l as [|a l IH]; cbn; [reflexivity | now rewrite IH]. Qed.

(** A [$nor] over compiled leaves accepts the documents none of them
    accepts. *)
Lemma eval_nor (doc : Semantics.Doc) (e : Expr) (es : list Expr) :
  eval_filter doc (FNor (map FExpr (e :: es)))
  = Some (negb (existsb (eval_expr doc) (e :: es))).
Proof.
  unfold FNor, eval_filter. cbn [Semantics.eval_filter map].
  change (Semantics.eval_filter compare regexMatch) with eval_filter.
  rewrite eval_all_leaves.
  change (eval_filter doc (FExpr e)) with (Some (eval_expr doc e)).
  cbn [option_map andb existsb]. now rewrite existsb_id_map.
Qed.

Lemma eval_or (doc : Semantics.Doc) (e : Expr) (es : list Expr) :
  eval_filter doc (FCond (Some (map FExpr (e :: es))) None)
  = Some (existsb (eval_expr doc) (e :: es)).
Proof.
  unfold eval_filter. cbn [Semantics.eval_filter map].
  change (Semantics.eval_filter compare regexMatch) with eval_filter.
  rewrite eval_all_leaves.
  change (eval_filter doc (FExpr e)) with (Some (eval_expr doc e)).
  cbn [option_map andb existsb]. now rewrite existsb_id_map, andb_true_r.
Qed.

Lemma eval_or_nor (doc : Semantics.Doc) (i e : Expr) (is_ es : list Expr) :
  eval_filter doc (FCond (Some (map FExpr (i :: is_)))
                         (Some (map FExpr (e :: es))))
  = Some (existsb (eval_expr doc) (i :: is_)
          && negb (existsb (eval_expr doc) (e :: es))).
Proof.
  unfold eval_filter. cbn [Semantics.eval_filter map].
  change (Semantics.eval_filter compare regexMatch) with eval_filter.
  rewrite !eval_all_leaves.
  change (eval_filter doc (FExpr e)) with (Some (eval_expr doc e)).
  change (eval_filter doc (FExpr i)) with (Some (eval_expr doc i)).
  cbn [option_map andb existsb]. now rewrite !existsb_id_map.
Qed.

Lemma existsb_map {A B : Type} (f : B -> bool) (g : A -> B) (l : list A) :
  existsb f (map g l) = existsb (fun a => f (g a)) l.
Proof. induction l as [|a l IH]; cbn; [reflexivity | now rewrite IH]. Qed.

(** The filter of a field with excluded patterns: some included
    pattern, if there is any, and none of the excluded ones. *)
Lemma eval_field_condition (doc : Semantics.Doc) (fs : ParsedFieldSet)
      (field : PatternField) :
  exclude fs <> [] ->
  option_map (eval_filter doc)
             (SearchPipelineBuilder.buildFieldCondition fs field)
  = Some (Some
            ((match include fs with
              | [] => true
              | inc =>
                  existsb (fun p => eval_expr doc (Ref.compiledExpr field p))
                          inc
              end)
             && negb (existsb
                        (fun p => eval_expr doc (Ref.compiledExpr field p))
                        (exclude fs)))).
Proof.
  intros H. rewrite (buildFieldCondition_exclude fs field H).
  cbn [option_map]. f_equal.
  destruct (exclude fs) as [|x xs]; [contradiction|].
  rewrite <- !(map_map (Ref.compiledExpr field) FExpr).
  destruct (include fs) as [|i is_];
    cbn [SearchPipelineBuilder.nonEmpty map].
  - change (FExpr (Ref.compiledExpr field x)
              :: map FExpr (map (Ref.compiledExpr field) xs))
      with (map FExpr (Ref.compiledExpr field x
                         :: map (Ref.compiledExpr field) xs)).
    change (FCond None (Some ?l)) with (FNor l).
    rewrite eval_nor. cbn [andb].
    change (Ref.compiledExpr field x :: map (Ref.compiledExpr field) xs)
      with (map (Ref.compiledExpr field) (x :: xs)).
    now rewrite existsb_map.
  - change (FExpr (Ref.compiledExpr field x)
              :: map FExpr (map (Ref.compiledExpr field) xs))
      with (map FExpr (Ref.compiledExpr field x
                         :: map (Ref.compiledExpr field) xs)).
    change (FExpr (Ref.compiledExpr field i)
              :: map FExpr (map (Ref.compiledExpr field) is_))
      with (map FExpr (Ref.compiledExpr field i
                         :: map (Ref.compiledExpr field) is_)).
    rewrite eval_or_nor.
    change (Ref.compiledExpr field x :: map (Ref.compiledExpr field) xs)
      with (map (Ref.compiledExpr field) (x :: xs)).
    change (Ref.compiledExpr field i :: map (Ref.compiledExpr field) is_)
      with (map (Ref.compiledExpr field) (i :: is_)).
    now rewrite !existsb_map.
Qed.

(** In the cached path every excluded token has a stage of its own. *)
Lemma eval_exclude_stage (doc : Semantics.Doc) (field : fieldRef)
      (pd : InstructionPatternData) :
  ParserPipeline.buildStageFromData field pd true
  = Match (FNor [ParserPipeline.createPositiveExpr field pd]) /\
  eval_stage doc (ParserPipeline.buildStageFromData field pd true)
  = option_map negb
      (eval_filter doc (ParserPipeline.createPositiveExpr field pd)).
Proof.
  split; [reflexivity|].
  unfold eval_stage, eval_filter, ParserPipeline.buildStageFromData.
  generalize (ParserPipeline.createPositiveExpr field pd). intros e. cbn.
  destruct (Semantics.eval_filter compare regexMatch doc e) as [[]|];
    reflexivity.
Qed.

Lemma eval_exclude_stages (doc : Semantics.Doc) (field : fieldRef)
      (pds : list InstructionPatternData) (bs : list bool) :
  Forall2 (fun pd b =>
             eval_filter doc (ParserPipeline.createPositiveExpr field pd)
             = Some b) pds bs ->
  eval_pipeline doc
    (map (fun pd => ParserPipeline.buildStageFromData field pd true) pds)
  = Some (negb (existsb (fun b => b) bs)).
Proof.
  induction 1 as [|pd b pds bs H F IH]; [reflexivity|].
  cbn [map]. unfold eval_pipeline in *. cbn [Semantics.eval_pipeline].
  rewrite IH.
  destruct (eval_exclude_stage doc field pd) as [_ E].
  unfold eval_stage in E. rewrite E, H. cbn.
  now rewrite negb_orb.
Qed.
End Exclusion.

(** C4. For a field whose exclude list is not empty,
    [SearchPipelineBuilder] puts the compiled expression of every
    excluded pattern, as it is, under one [$nor]; the cached path wraps
    the expression of every excluded token in a [$nor] stage of its
    own.  Either way a document passes only if none of the excluded
    patterns accepts it, and no leaf is negated.  In particular
    [-items:0050] gives the entry [0050] in [items.exclude], and its
    stage rejects the documents whose line, brand and item code put
    together are [0050], and lets the others pass. *)
Theorem C4_exclusion_by_nor :
  forall (compare : MongoOp -> string -> string -> bool)
         (regexMatch : string -> string -> string -> bool),
    (forall fs field,
        exclude fs <> [] ->
        SearchPipelineBuilder.buildFieldCondition fs field
        = Some (FCond
                  (SearchPipelineBuilder.nonEmpty
                     (map (fun p => FExpr (Ref.compiledExpr field p))
                          (include fs)))
                  (Some (map (fun p => FExpr (Ref.compiledExpr field p))
                             (exclude fs)))) /\
        forall doc,
          option_map (Semantics.eval_filter compare regexMatch doc)
                     (SearchPipelineBuilder.buildFieldCondition fs field)
          = Some (Some
                    ((match include fs with
                      | [] => true
                      | inc =>
                          existsb
                            (fun p => Semantics.eval_expr compare regexMatch doc
                                        (Ref.compiledExpr field p)) inc
                      end)
                     && negb (existsb
                                (fun p =>
                                   Semantics.eval_expr compare regexMatch doc
                                     (Ref.compiledExpr field p))
                                (exclude fs))))) /\
    (forall field pd doc,
        ParserPipeline.buildStageFromData field pd true
        = Match (FNor [ParserPipeline.createPositiveExpr field pd]) /\
        Semantics.eval_stage compare regexMatch doc
          (ParserPipeline.buildStageFromData field pd true)
        = option_map negb
            (Semantics.eval_filter compare regexMatch doc
               (ParserPipeline.createPositiveExpr field pd))) /\
    (forall field pds bs doc,
        Forall2 (fun pd b =>
                   Semantics.eval_filter compare regexMatch doc
                     (ParserPipeline.createPositiveExpr field pd) = Some b)
                pds bs ->
        Semantics.eval_pipeline compare regexMatch doc
          (map (fun pd => ParserPipeline.buildStageFromData field pd true) pds)
        = Some (negb (existsb (fun b => b) bs))) /\
    InstructionParser.parse "-items:0050"
    = Ok (push items true (ValuePattern "0050" None) (emptyResult "")) /\
    SearchPipelineBuilder.buildSearchPipeline
      (push items true (ValuePattern "0050" None) (emptyResult ""))
    = [Match (FAnd [FNor [FExpr (ExprCmp op_eq Ref.fullCode "0050")]])] /\
    fst (ParserPipeline.getPipelineForInstruction [] (Some "-items:0050"))
    = Ok {| ParserPipeline.parseResult :=
              push items true (ValuePattern "0050" None) (emptyResult "");
            ParserPipeline.pipeline :=
              [Match (FNor [FExpr (ExprCmp op_eq Ref.fullCode "0050")])] |} /\
    (forall doc,
        Semantics.eval_pipeline compare regexMatch doc
          [Match (FNor [FExpr (ExprCmp op_eq Ref.fullCode "0050")])]
        = Some (negb (compare op_eq
                        (Semantics.d_line doc ++ Semantics.d_brand doc
                         ++ Semantics.d_code doc) "0050"))).
Proof.
  intros compare regexMatch.
  split.
  { intros fs field H. split; [now apply buildFieldCondition_exclude|].
    intros doc. now apply eval_field_condition. }
  split; [intros; apply eval_exclude_stage|].
  split; [intros; now apply eval_exclude_stages|].
  split; [vm_compute; reflexivity|].
  split; [vm_compute; reflexivity|].
  split; [vm_compute; reflexivity|].
  intros doc. cbn. now rewrite orb_false_r, andb_true_r.
Qed.

Lemma C4_witness :
  SearchPipelineBuilder.buildFieldCondition
    {| include := []; exclude := [ValuePattern "0050" None;
                                  RegexPattern "^A1.*" None] |} items
  = Some (FNor [FExpr (ExprCmp op_eq Ref.fullCode "0050");
                FExpr (ExprRegexMatch Ref.fullCode "^A1.*" "i")]) /\
  Semantics.eval_pipeline (fun _ a b => String.eqb a b) (fun _ _ _ => false)
    {| Semantics.d_line := "GRA"; Semantics.d_brand := "PVH";
       Semantics.d_code := "0077" |}
    (map (fun pd => ParserPipeline.buildStageFromData items pd true)
         [PDValue None "0050"; PDValue None "0051"])
  = Some true.
Proof.
  destruct (C4_exclusion_by_nor (fun _ a b => String.eqb a b)
                                (fun _ _ _ => false)) as (A & _ & B & _).
  split.
  - apply (A {| include := [];
                exclude := [ValuePattern "0050" None;
                            RegexPattern "^A1.*" None] |} items).
    discriminate.
  - apply (B items [PDValue None "0050"; PDValue None "0051"] [false; false]).
    repeat constructor.
Defined.

(* ------------------------------------------------------------------ *)
(** ** The alias prefix and the tokenizer of InstructionParser          *)
(* ------------------------------------------------------------------ *)

Lemma search_sound input r :
  forall rest f,
    Regex.search input r rest = Some f ->
    exists pre rest0,
      rest = pre ++ rest0 /\ Regex.match_here input r rest0 = Some f.
Proof.
  induction rest as [|a rest IH]; intros f H; cbn [Regex.search] in H.
  - destruct (Regex.match_here input r "") eqn:E; [|discriminate].
    inversion H; subst. exists "", "". auto.
  - destruct (Regex.match_here input r (String a rest)) eqn:E.
    + inversion H; subst. exists "", (String a rest). auto.
    + apply IH in H as (pre & rest0 & -> & H).
      exists (String a pre), rest0. auto.
Qed.

Lemma search_complete input r :
  forall pre rest0 f,
    Regex.match_here input r rest0 = Some f ->
    exists f', Regex.search input r (pre ++ rest0) = Some f'.
Proof.
  induction pre as [|a pre IH]; intros rest0 f H; cbn [append].
  - destruct rest0; cbn [Regex.search]; rewrite H; eauto.
  - cbn [Regex.search].
    destruct (Regex.match_here input r (String a (pre ++ rest0))); eauto.
Qed.

Lemma run_last (p : ascii -> bool) (x : ascii) (w : string) :
  p x = true -> Ref.all_chars p w = true ->
  exists u a, String x w = u ++ String a "" /\ p a = true.
Proof.
  revert x. induction w as [|y w IH]; intros x Hx Hw.
  - exists "", x. auto.
  - cbn in Hw. apply andb_prop in Hw as [Hy Hw].
    destruct (IH y Hy Hw) as (u & a & E & Ha).
    exists (String x u), a. cbn. now rewrite E.
Qed.

(** The test of [tokenize]: a word character right before a colon. *)
Lemma prefix_re_spec (s : string) :
  Regex.test InstructionParser.prefix_re s = true <->
  exists pre a post, s = pre ++ String a (":" ++ post) /\ JS.is_word a = true.
Proof.
  split.
  - intros H. apply test_true_exec in H as [f H].
    apply search_sound in H as (pre & rest0 & -> & H).
    apply match_here_sound in H as [M _].
    unfold InstructionParser.prefix_re in M. open_re M.
    inv_matches.
    match goal with
    | Hc : JS.is_word ?x = true, Hw : Ref.all_chars JS.is_word ?w = true |- _ =>
        destruct (run_last JS.is_word x w Hc Hw) as (u & a & E & Ha)
    end.
    exists (pre ++ u), a, (Regex.after f). split; [|exact Ha].
    match goal with
    | |- _ ++ String ?x (?w ++ ?t) = _ =>
        change (String x (w ++ t)) with (String x w ++ t)
    end.
    rewrite E, !append_assoc. reflexivity.
  - intros (pre & a & post & -> & Ha).
    unfold Regex.test, Regex.exec.
    assert (H : exists f,
               Regex.match_here (pre ++ String a (":" ++ post))
                 InstructionParser.prefix_re (String a (":" ++ post)) = Some f).
    { unfold Regex.match_here, InstructionParser.prefix_re.
      unfold Regex.plus, Regex.w, Regex.lit. cbn [append].
      run_m. rewrite Ha. cbn [Ref.star_chr].
      change (JS.is_word ":") with false. cbv iota. run_m. eauto. }
    destruct H as [f H].
    destruct (search_complete _ _ pre _ _ H) as [f' E]. now rewrite E.
Qed.

(* ------------------------------------------------------------------ *)
(** ** Parts of a text without a colon                                  *)
(* ------------------------------------------------------------------ *)

Lemma words_cons2 (a b : ascii) (r : string) :
  Ref.words (String a (String b r))
  = if JS.is_space a then Ref.words (String b r)
    else if JS.is_space b then String a "" :: Ref.words (String b r)
         else Ref.cons_head a (Ref.words (String b r)).
Proof. reflexivity. Qed.

Lemma words_run (a : ascii) (r : string) :
  JS.is_space a = false ->
  Ref.words (String a r)
  = String a (Ref.take_while Ref.nonspace r)
      :: Ref.words (Ref.drop_while Ref.nonspace r).
Proof.
  revert a. induction r as [|b r IH]; intros a Ha.
  - cbn. now rewrite Ha.
  - rewrite words_cons2, Ha.
    cbn [Ref.take_while Ref.drop_while]. unfold Ref.nonspace at 1 3.
    destruct (JS.is_space b) eqn:Hb; cbn [negb].
    + reflexivity.
    + rewrite (IH b Hb). reflexivity.
Qed.

Lemma take_take_while (p : ascii -> bool) (s : string) :
  JS.take (String.length s - String.length (Ref.drop_while p s)) s
  = Ref.take_while p s.
Proof.
  rewrite <- (take_drop_while p s) at 1 3.
  apply take_consumed.
Qed.

Lemma drop_while_length (p : ascii -> bool) (s : string) :
  String.length (Ref.drop_while p s) <= String.length s.
Proof.
  induction s as [|a s IH]; cbn; [lia|]. destruct (p a); cbn; lia.
Qed.

Lemma includes_drop_while (x : ascii) (p : ascii -> bool) (s : string) :
  JS.includes x s = false -> JS.includes x (Ref.drop_while p s) = false.
Proof.
  intros H. rewrite <- (take_drop_while p s), includes_app in H.
  now apply orb_false_elim in H.
Qed.

(** An alternative that needs a colon fails where there is none. *)
Lemma aliased_part_fails input (q : ascii) rest c
      (k : string -> Regex.captures -> option Regex.found) :
  JS.includes ":" rest = false ->
  Regex.m Regex.found input
          (Regex.seqs [Regex.plus Regex.w; Regex.lit ":"; Regex.lit q;
                       Regex.plus (Regex.notc q); Regex.lit q]) rest c k
  = None.
Proof.
  intros H. cbn [Regex.seqs]. unfold Regex.plus at 1, Regex.w.
  rewrite m_seq, m_seq, m_chr.
  destruct rest as [|a r]; [reflexivity|].
  destruct (JS.is_word a); [|reflexivity].
  rewrite m_star_chr.
  match goal with
  | |- Ref.star_chr ?p ?K r c = None =>
      destruct (Ref.star_chr p K r c) eqn:E; [|reflexivity]
  end.
  apply star_chr_sound in E as (pre & post & -> & _ & E).
  rewrite m_seq in E. unfold Regex.lit in E. rewrite m_chr in E.
  destruct post as [|b post]; [discriminate E|].
  destruct (Ascii.eqb ":" b) eqn:Eb; [|discriminate E].
  cbn [JS.includes] in H. apply orb_false_elim in H as [_ H].
  rewrite includes_app in H. apply orb_false_elim in H as [_ H].
  cbn [JS.includes] in H. rewrite Eb in H. discriminate H.
Qed.

Lemma token_here_blank input (a : ascii) (r : string) :
  JS.is_space a = true ->
  Regex.match_here input Shape.token_re (String a r) = None.
Proof.
  intros Ha. unfold Regex.match_here, Shape.token_re. cbn [Regex.alts].
  assert (Hw : JS.is_word a = false).
  { destruct (JS.is_word a) eqn:E; [|reflexivity].
    apply word_not_space in E. congruence. }
  rewrite m_alt. cbn [Regex.seqs]. unfold Regex.plus at 1, Regex.w.
  rewrite m_seq, m_seq, m_chr, Hw.
  rewrite m_alt. unfold Regex.plus at 1.
  rewrite m_seq, m_seq, m_chr, Hw.
  unfold Regex.plus, Regex.nonspace. rewrite m_seq, m_chr, Ha.
  reflexivity.
Qed.

Lemma token_here_word input (a : ascii) (r : string) :
  JS.is_space a = false ->
  JS.includes ":" (String a r) = false ->
  Regex.match_here input Shape.token_re (String a r)
  = Some {| Regex.matched := String a (Ref.take_while Ref.nonspace r);
            Regex.groups := [];
            Regex.after := Ref.drop_while Ref.nonspace r |}.
Proof.
  intros Ha Hc. unfold Regex.match_here, Shape.token_re. cbn [Regex.alts].
  rewrite m_alt, aliased_part_fails by exact Hc.
  rewrite m_alt, aliased_part_fails by exact Hc.
  unfold Regex.plus, Regex.nonspace. rewrite m_seq, m_chr, Ha. cbn [negb].
  rewrite m_star_chr, star_chr_greedy by discriminate.
  f_equal. f_equal.
  change (fun a0 => negb (JS.is_space a0)) with Ref.nonspace.
  pose proof (drop_while_length Ref.nonspace r) as L.
  replace (String.length (String a r)
           - String.length (Ref.drop_while Ref.nonspace r))
    with (S (String.length r - String.length (Ref.drop_while Ref.nonspace r)))
    by (cbn [String.length]; lia).
  cbn [JS.take]. now rewrite take_take_while.
Qed.

Lemma match_all_words input :
  forall fuel rest,
    String.length rest < fuel ->
    JS.includes ":" rest = false ->
    Regex.match_all_from fuel input Shape.token_re rest = Ref.words rest.
Proof.
  induction fuel as [|fuel IH]; intros rest Hf Hc; [lia|].
  cbn [Regex.match_all_from].
  destruct rest as [|a r].
  - reflexivity.
  - destruct (JS.is_space a) eqn:Ha.
    + rewrite token_here_blank by exact Ha.
      cbn [Ref.words]. rewrite Ha. apply IH; [cbn [String.length] in Hf; lia|].
      cbn [JS.includes] in Hc. now apply orb_false_elim in Hc.
    + rewrite token_here_word by assumption.
      cbn [Regex.matched Regex.after].
      pose proof (drop_while_length Ref.nonspace r) as L.
      assert (Hlt : Nat.ltb (String.length (Ref.drop_while Ref.nonspace r))
                            (String.length (String a r)) = true)
        by (apply Nat.ltb_lt; cbn [String.length]; lia).
      rewrite Hlt, words_run by exact Ha. f_equal.
      apply IH; [cbn [String.length] in Hf; lia|].
      apply includes_drop_while. cbn [JS.includes] in Hc.
      now apply orb_false_elim in Hc.
Qed.

(** Without a colon the parts are the blank-separated words. *)
Lemma parts_words (s : string) :
  JS.includes ":" s = false -> Ref.parts s = Ref.words s.
Proof.
  intros H. unfold Ref.parts, Regex.match_all. apply match_all_words; [lia|].
  exact H.
Qed.

(* ------------------------------------------------------------------ *)
(** ** An instruction without an alias prefix                           *)
(* ------------------------------------------------------------------ *)

Lemma prefixed_has_prefix (pre g1 rest : string) :
  g1 <> "" -> Ref.all_chars JS.is_word g1 = true ->
  Regex.test InstructionParser.prefix_re (pre ++ g1 ++ ":" ++ rest) = true.
Proof.
  intros Hne Hw. apply prefix_re_spec.
  destruct g1 as [|x w]; [contradiction|].
  cbn in Hw. apply andb_prop in Hw as [Hx Hw].
  destruct (run_last JS.is_word x w Hx Hw) as (u & a & E & Ha).
  exists (pre ++ u), a, rest. split; [|exact Ha].
  rewrite E, !append_assoc. reflexivity.
Qed.

(** Where the instruction has no alias prefix, neither has the token,
    with or without its exclusion marker. *)
Lemma no_prefix_splitAlias (pre v : string) :
  Regex.test InstructionParser.prefix_re (pre ++ v) = false ->
  InstructionParser.splitAlias v = (Absent, v).
Proof.
  intros H. unfold InstructionParser.splitAlias.
  destruct (Regex.exec Shape.fieldQuoted_re v) as [f|] eqn:E.
  - apply fieldQuoted_sound in E as (q & q' & E & Hw & Hne & _).
    rewrite E in H. rewrite prefixed_has_prefix in H by assumption.
    discriminate H.
  - destruct (Regex.exec Shape.field_re v) as [f|] eqn:E'; [|reflexivity].
    apply field_sound in E' as (E' & Hw & Hne & _).
    rewrite E' in H. rewrite prefixed_has_prefix in H by assumption.
    discriminate H.
Qed.

Lemma trimStart_space (s : string) :
  JS.trimStart (String " " s) = JS.trimStart s.
Proof. reflexivity. Qed.

Lemma trimEnd_app_space (s : string) : JS.trimEnd (s ++ " ") = JS.trimEnd s.
Proof. unfold JS.trimEnd. rewrite rev_app. reflexivity. Qed.

Lemma trimStart_app (s t : string) :
  JS.trimStart (s ++ t)
  = if JS.truthy (JS.trimStart s) then JS.trimStart s ++ t
    else JS.trimStart t.
Proof.
  induction s as [|a s IH]; cbn [append JS.trimStart]; [reflexivity|].
  destruct (JS.is_space a); [exact IH | reflexivity].
Qed.

(** The blank that follows a part in the description does not
    count. *)
Lemma trim_app_space (s : string) : JS.trim (s ++ " ") = JS.trim s.
Proof.
  unfold JS.trim. rewrite trimStart_app.
  destruct (JS.trimStart s) as [|a t] eqn:E; cbn [JS.truthy].
  - reflexivity.
  - apply trimEnd_app_space.
Qed.

Lemma set_desc_same (r : ParsedResult) : set_desc (desc r) r = r.
Proof. now destruct r. Qed.

Lemma assignPatterns_desc l f excl r :
  desc (InstructionParser.assignPatterns l f excl r) = desc r.
Proof.
  unfold InstructionParser.assignPatterns. revert r.
  induction l as [|p l IH]; intros r; cbn [fold_left]; [reflexivity|].
  rewrite IH. apply push_desc.
Qed.

(** What [InstructionParser] makes of an instruction with no alias
    prefix: its only token is classified, and goes to the description
    only when no field is found for it. *)
Lemma parse_single (s : string) :
  JS.truthy (JS.trim s) = true ->
  Regex.test InstructionParser.prefix_re s = false ->
  let excl := JS.startsWith s "-" in
  let v := if excl then JS.slice1 s else s in
  let patterns := InstructionParser.extractPatterns v in
  InstructionParser.tokenize s = [s] /\
  InstructionParser.parse s
  = match patterns, InstructionParser.determineField v patterns with
    | _ :: _, Some f =>
        Ok (InstructionParser.assignPatterns patterns f excl (emptyResult ""))
    | _, _ => Ok (emptyResult (JS.trim s))
    end.
Proof.
  intros Hb Hp excl v patterns.
  assert (Ht : InstructionParser.tokenize s = [s]).
  { unfold InstructionParser.tokenize. now rewrite Hp. }
  split; [exact Ht|].
  unfold InstructionParser.parse.
  assert (Hne : String.eqb (JS.trim s) "" = false).
  { destruct (JS.trim s); [discriminate Hb | reflexivity]. }
  rewrite Hne. unfold InstructionParser.parseInstruction. rewrite Ht.
  cbn [InstructionParser.parseTokens].
  fold excl. fold v.
  assert (Hs : InstructionParser.splitAlias v = (Absent, v)).
  { subst v excl. destruct (JS.startsWith s "-") eqn:E.
    - apply (no_prefix_splitAlias "-").
      destruct s as [|a s]; [discriminate E|]. cbn [JS.startsWith] in E.
      apply Ascii.eqb_eq in E. now subst a.
    - now apply (no_prefix_splitAlias ""). }
  rewrite Hs. cbn [fst snd]. fold patterns.
  destruct patterns as [|p ps] eqn:Ep.
  - cbn [InstructionParser.addDesc set_desc desc emptyResult].
    unfold emptyResult. cbn [append]. now rewrite trim_app_space.
  - destruct (InstructionParser.determineField v (p :: ps)) as [f|].
    + assert (Hd : desc (InstructionParser.assignPatterns (p :: ps) f excl
                           (emptyResult "")) = "")
        by now rewrite assignPatterns_desc.
      transitivity
        (Ok (set_desc (desc (InstructionParser.assignPatterns (p :: ps) f excl
                               (emptyResult "")))
                      (InstructionParser.assignPatterns (p :: ps) f excl
                         (emptyResult "")))).
      * rewrite Hd. reflexivity.
      * now rewrite set_desc_same.
    + cbn [InstructionParser.addDesc set_desc desc emptyResult].
      unfold emptyResult. cbn [append]. now rewrite trim_app_space.
Qed.

(** C6 (as the code has it). For every instruction that contains no
    alias prefix anywhere (no word character right before a colon),
    [InstructionParser.tokenize] returns the whole string, unchanged,
    as a single token, and it returns several tokens only when such a
    prefix is present.  That token is then classified like any other:
    the trimmed instruction becomes the description only when no
    pattern or no field is found for it, and otherwise it enters the
    include or exclude list of the field that its shape or its pattern
    type gives.  [ParserPipeline.tokenizeInput] has no such short cut:
    it always cuts the instruction into its parts, which without a
    colon are the blank-separated words. *)
Theorem C6_tokenizer_without_prefix :
  (forall s,
      Regex.test InstructionParser.prefix_re s = true <->
      exists pre a post,
        s = pre ++ String a (":" ++ post) /\ JS.is_word a = true) /\
  (forall s,
      Regex.test InstructionParser.prefix_re s = false ->
      InstructionParser.tokenize s = [s]) /\
  (forall s,
      1 < List.length (InstructionParser.tokenize s) ->
      Regex.test InstructionParser.prefix_re s = true) /\
  (forall s,
      JS.truthy (JS.trim s) = true ->
      Regex.test InstructionParser.prefix_re s = false ->
      InstructionParser.parse s
      = match InstructionParser.extractPatterns
                (if JS.startsWith s "-" then JS.slice1 s else s),
              InstructionParser.determineField
                (if JS.startsWith s "-" then JS.slice1 s else s)
                (InstructionParser.extractPatterns
                   (if JS.startsWith s "-" then JS.slice1 s else s)) with
        | _ :: _, Some f =>
            Ok (InstructionParser.assignPatterns
                  (InstructionParser.extractPatterns
                     (if JS.startsWith s "-" then JS.slice1 s else s))
                  f (JS.startsWith s "-") (emptyResult ""))
        | _, _ => Ok (emptyResult (JS.trim s))
        end) /\
  (forall s,
      ParserPipeline.tokenizeInput s
      = (map Ref.toToken (filter Ref.dynamicPart (Ref.parts s)),
         JS.toLowerCase
           (JS.trim (Ref.spaced (filter Ref.staticPart (Ref.parts s)))))) /\
  (forall s, JS.includes ":" s = false -> Ref.parts s = Ref.words s).
Proof.
  split; [exact prefix_re_spec|].
  split.
  { intros s H. unfold InstructionParser.tokenize. now rewrite H. }
  split.
  { intros s H. unfold InstructionParser.tokenize in H.
    destruct (Regex.test InstructionParser.prefix_re s); [reflexivity|].
    cbn in H. lia. }
  split.
  { intros s Hb Hp. rewrite (proj2 (parse_single s Hb Hp)).
    destruct (InstructionParser.extractPatterns
                (if JS.startsWith s "-" then JS.slice1 s else s));
      reflexivity. }
  split; [exact tokenizeInput_spec | exact parts_words].
Qed.

Lemma C6_witness :
  InstructionParser.tokenize "molduras rojas" = ["molduras rojas"] /\
  Regex.test InstructionParser.prefix_re "line:MEX brand:H$" = true /\
  InstructionParser.parse "molduras rojas"
  = Ok (emptyResult "molduras rojas") /\
  Ref.parts "molduras  rojas" = ["molduras"; "rojas"].
Proof.
  destruct C6_tokenizer_without_prefix as (_ & T & M & P & _ & W).
  split; [apply T; vm_compute; reflexivity|].
  split; [apply M; vm_compute; lia|].
  split.
  - rewrite (P "molduras rojas"); vm_compute; reflexivity.
  - rewrite (W "molduras  rojas"); vm_compute; reflexivity.
Defined.

(** Neither [ABC] nor [AB CD] has an alias prefix.  The single token
    [ABC] is not free text, it is the line [ABC]; and the cached path
    cuts [AB CD] in two. *)
Lemma C6_counterexample :
  Regex.test InstructionParser.prefix_re "ABC" = false /\
  InstructionParser.tokenize "ABC" = ["ABC"] /\
  InstructionParser.parse "ABC"
  = Ok (push lines false (ValuePattern "ABC" None) (emptyResult "")) /\
  Regex.test InstructionParser.prefix_re "AB CD" = false /\
  ParserPipeline.tokenizeInput "AB CD"
  = ([Ref.toToken "AB"; Ref.toToken "CD"], "").
Proof. vm_compute. repeat split. Qed.

(* ------------------------------------------------------------------ *)
(** ** Free text in the cached path                                     *)
(* ------------------------------------------------------------------ *)

Lemma trimStart_solid (s : string) :
  Ref.starts_solid s = true -> JS.trimStart s = s.
Proof.
  destruct s as [|a s]; [discriminate|]. cbn. intros H.
  apply negb_true_iff in H. now rewrite H.
Qed.

Lemma trim_solid (s : string) : Ref.solid s = true -> JS.trim s = s.
Proof.
  unfold Ref.solid. intros H. apply andb_prop in H as [H1 H2].
  unfold JS.trim, JS.trimEnd. rewrite (trimStart_solid s H1).
  rewrite (trimStart_solid _ H2). apply rev_involutive.
Qed.

Lemma spaced_join (p : string) (l : list string) :
  Ref.spaced (p :: l) = JS.join " " (p :: l) ++ " ".
Proof.
  revert p. induction l as [|q l IH]; intros p.
  - reflexivity.
  - change (Ref.spaced (p :: q :: l)) with (p ++ " " ++ Ref.spaced (q :: l)).
    change (JS.join " " (p :: q :: l)) with (p ++ " " ++ JS.join " " (q :: l)).
    rewrite IH, !append_assoc. reflexivity.
Qed.

Lemma join_solid (p : string) (l : list string) :
  Forall (fun x => Ref.solid x = true) (p :: l) ->
  Ref.solid (JS.join " " (p :: l)) = true.
Proof.
  revert p. induction l as [|q l IH]; intros p H.
  - inversion H; subst. assumption.
  - inversion H as [|? ? Hp Hl]; subst.
    specialize (IH q Hl).
    change (JS.join " " (p :: q :: l)) with (p ++ " " ++ JS.join " " (q :: l)).
    unfold Ref.solid in *.
    apply andb_prop in Hp as [Hp1 Hp2]. apply andb_prop in IH as [J1 J2].
    destruct (JS.join " " (q :: l)) as [|b t] eqn:E; [discriminate J1|].
    apply andb_true_intro. split.
    + destruct p as [|a p]; [discriminate Hp1 | exact Hp1].
    + rewrite <- append_assoc, starts_solid_rev_app. exact J2.
Qed.

(** The description collected from parts: the parts joined by single
    blanks. *)
Lemma trim_spaced (l : list string) :
  Forall (fun x => Ref.solid x = true) l ->
  JS.trim (Ref.spaced l) = JS.join " " l.
Proof.
  destruct l as [|p l]; intros H; [reflexivity|].
  rewrite spaced_join, trim_app_space. apply trim_solid.
  now apply join_solid.
Qed.

Lemma filter_all {A : Type} (f : A -> bool) (l : list A) :
  forallb f l = true -> filter f l = l.
Proof.
  induction l as [|a l IH]; cbn; [reflexivity|]. intros H.
  apply andb_prop in H as [Ha Hl]. now rewrite Ha, IH.
Qed.

Lemma filter_none {A : Type} (f : A -> bool) (l : list A) :
  forallb (fun a => negb (f a)) l = true -> filter f l = [].
Proof.
  induction l as [|a l IH]; cbn; [reflexivity|]. intros H.
  apply andb_prop in H as [Ha Hl]. apply negb_true_iff in Ha.
  now rewrite Ha, IH.
Qed.

Lemma parts_all_solid (input : string) :
  Forall (fun x => Ref.solid x = true) (Ref.parts input).
Proof. apply Forall_forall. intros p. apply parts_solid. Qed.

(** What is not blank begins, after blanks, with a character that is
    none. *)
Lemma nonblank_split (s : string) :
  JS.truthy (JS.trim s) = true ->
  exists pre a post,
    s = pre ++ String a post /\ Ref.all_chars JS.is_space pre = true /\
    JS.is_space a = false.
Proof.
  induction s as [|a s IH]; intros H; [discriminate H|].
  destruct (JS.is_space a) eqn:Ha.
  - unfold JS.trim in H. cbn [JS.trimStart] in H. rewrite Ha in H.
    destruct (IH H) as (pre & b & post & -> & Hp & Hb).
    exists (String a pre), b, post. cbn. now rewrite Ha, Hp.
  - now exists "", a, s.
Qed.

Lemma token_here_some input (a : ascii) (r : string) :
  JS.is_space a = false ->
  exists f, Regex.match_here input Shape.token_re (String a r) = Some f.
Proof.
  intros Ha. unfold Regex.match_here, Shape.token_re. cbn [Regex.alts].
  rewrite m_alt.
  match goal with
  | |- exists f, match ?x with _ => _ end = _ => destruct x; [eauto|]
  end.
  rewrite m_alt.
  match goal with
  | |- exists f, match ?x with _ => _ end = _ => destruct x; [eauto|]
  end.
  unfold Regex.plus, Regex.nonspace. rewrite m_seq, m_chr, Ha. cbn [negb].
  rewrite m_star_chr, star_chr_greedy by discriminate. eauto.
Qed.

Lemma match_all_some input :
  forall pre a post fuel,
    Ref.all_chars JS.is_space pre = true -> JS.is_space a = false ->
    String.length (pre ++ String a post) < fuel ->
    Regex.match_all_from fuel input Shape.token_re (pre ++ String a post)
    <> [].
Proof.
  induction pre as [|b pre IH]; intros a post fuel Hp Ha Hf;
    (destruct fuel as [|fuel]; [inversion Hf|]);
    cbn [append Regex.match_all_from].
  - destruct (token_here_some input a post Ha) as [f E]. rewrite E.
    discriminate.
  - cbn in Hp. apply andb_prop in Hp as [Hb Hp].
    rewrite token_here_blank by exact Hb.
    apply IH; try assumption. cbn [append String.length] in Hf. lia.
Qed.

(** An instruction that is not blank has a part. *)
Lemma parts_nonempty (input : string) :
  JS.truthy (JS.trim input) = true -> Ref.parts input <> [].
Proof.
  intros H. destruct (nonblank_split input H) as (pre & a & post & -> & Hp & Ha).
  unfold Ref.parts, Regex.match_all. apply match_all_some; auto.
Qed.

(** An instruction none of whose parts is dynamic is free text: no
    token is compiled or stored, and the description is its parts,
    joined by single blanks, in lower case. *)
Lemma all_static_pipeline store (input : string) :
  JS.truthy (JS.trim input) = true ->
  forallb Ref.staticPart (Ref.parts input) = true ->
  ParserPipeline.getPipelineForInstruction store (Some input)
  = (Ok {| ParserPipeline.parseResult :=
             emptyResult (JS.toLowerCase (JS.join " " (Ref.parts input)));
           ParserPipeline.pipeline := [] |}, store) /\
  JS.truthy (JS.toLowerCase (JS.join " " (Ref.parts input))) = true.
Proof.
  intros Hb Hs.
  pose proof (parts_nonempty input Hb) as Hne.
  pose proof (parts_all_solid input) as Hsol.
  assert (HJ : Ref.solid (JS.toLowerCase (JS.join " " (Ref.parts input))) = true).
  { apply toLowerCase_solid. destruct (Ref.parts input) as [|p l];
      [contradiction | now apply join_solid]. }
  split; [|now apply solid_truthy].
  rewrite getPipeline_unfold by exact Hb.
  rewrite tokenizeInput_spec. cbn [fst snd].
  rewrite (filter_all _ _ Hs).
  rewrite (filter_none Ref.dynamicPart (Ref.parts input)) by exact Hs.
  cbn [map ParserPipeline.parseAll ParserPipeline.awaitAll fst snd].
  unfold ParserPipeline.finish.
  cbn [ParserPipeline.nonDynamicTokens ParserPipeline.parseArray
       ParserPipeline.collect].
  rewrite trim_spaced by exact Hsol.
  rewrite trim_app_space, trim_solid by exact HJ. reflexivity.
Qed.

(* ------------------------------------------------------------------ *)
(** ** Parts that are not dynamic                                       *)
(* ------------------------------------------------------------------ *)

Lemma lines_re_spec (v : string) :
  Regex.test Shape.lines_re v = true <->
  (String.length v = 3 /\ Ref.all_chars JS.is_upper_alnum v = true).
Proof.
  unfold Shape.lines_re, Regex.seqs. rewrite test_bol.
  destruct v as [|a [|b [|c [|d v]]]].
  all: cbv -[JS.is_upper_alnum String.length].
  all: repeat match goal with
              | |- context [JS.is_upper_alnum ?x] => destruct (JS.is_upper_alnum x)
              end.
  all: simpl; split;
    [ intros H; first [discriminate H | split; [lia | reflexivity]]
    | intros [H1 H2]; first [discriminate H2 | reflexivity | discriminate H1] ].
Qed.

Lemma brands_re_spec (v : string) :
  Regex.test Shape.brands_re v = true <->
  (2 <= String.length v <= 3 /\ Ref.all_chars JS.is_upper_alnum v = true).
Proof.
  unfold Shape.brands_re, Regex.seqs. rewrite test_bol.
  destruct v as [|a [|b [|c [|d v]]]].
  all: cbv -[JS.is_upper_alnum Nat.le String.length].
  all: repeat match goal with
              | |- context [JS.is_upper_alnum ?x] => destruct (JS.is_upper_alnum x)
              end.
  all: simpl; split;
    [ intros H; first [discriminate H | split; [lia | reflexivity]]
    | intros [H1 H2]; first [discriminate H2 | reflexivity | lia] ].
Qed.

(** What has the shape of keys, lines or brands is code-shaped. *)
Lemma shapes_codeShaped (v : string) :
  existsb (fun re => Regex.test re v)
          [Shape.keys_re; Shape.lines_re; Shape.brands_re]
  = Ref.codeShaped v.
Proof.
  apply eq_true_iff_eq. cbn [existsb]. rewrite !orb_true_iff.
  rewrite keys_re_spec, lines_re_spec, brands_re_spec.
  unfold Ref.codeShaped. rewrite andb_true_iff. cbn [existsb].
  rewrite !orb_true_iff, !Nat.eqb_eq.
  split.
  - intros [[L H]|[[L H]|[[L H]|F]]]; try discriminate F;
      (split; [exact H|]); lia.
  - intros [H [L|[L|[L|[L|F]]]]]; try discriminate F.
    + right. right. left. split; [lia | exact H].
    + right. left. split; [lia | exact H].
    + left. split; [lia | exact H].
    + left. split; [lia | exact H].
Qed.

Lemma bracketed_sound (v : string) :
  Regex.test ParserPipeline.bracketed_re v = true ->
  JS.includes "[" v = true.
Proof.
  intros H. apply test_true_exec in H as [f H].
  apply search_sound in H as (pre & rest0 & -> & H).
  apply match_here_sound in H as [M _].
  unfold ParserPipeline.bracketed_re in M. open_re M.
  apply Matches_seq_inv in M as (r1 & c1 & M & _).
  apply Matches_chr_inv in M as (a & -> & Ha & _).
  apply Ascii.eqb_eq in Ha. subst a.
  rewrite includes_app. cbn [JS.includes]. rewrite Ascii.eqb_refl.
  apply orb_true_r.
Qed.

(** [isLikelyDynamic] spelled out. *)
Lemma isLikelyDynamic_spec (val : string) :
  ParserPipeline.isLikelyDynamic val
  = negb (ParserPipeline.isReserved val)
    && (Ref.codeShaped val || JS.includes ":" val
        || Regex.test ParserPipeline.bracketed_re val).
Proof.
  unfold ParserPipeline.isLikelyDynamic. rewrite shapes_codeShaped.
  destruct (ParserPipeline.isReserved val); [reflexivity|].
  destruct (Ref.codeShaped val); reflexivity.
Qed.

Lemma includes_slice1 (x : ascii) (s : string) :
  JS.includes x s = false -> JS.includes x (JS.slice1 s) = false.
Proof.
  destruct s as [|a s]; [auto|]. cbn. intros H.
  now apply orb_false_elim in H.
Qed.

(** A part with no colon and no bracket that is not code-shaped, with
    or without its exclusion marker, is not dynamic. *)
Lemma plain_part_static (part : string) :
  JS.includes ":" part = false ->
  JS.includes "[" part = false ->
  Ref.codeShaped (ParserPipeline.stripDash part) = false ->
  Ref.staticPart part = true.
Proof.
  intros Hc Hb Hs. unfold Ref.staticPart, Ref.dynamicPart.
  rewrite isLikelyDynamic_spec, Hs.
  assert (Hc' : JS.includes ":" (ParserPipeline.stripDash part) = false).
  { unfold ParserPipeline.stripDash.
    destruct (JS.startsWith part "-"); [now apply includes_slice1 | exact Hc]. }
  assert (Hb' : JS.includes "[" (ParserPipeline.stripDash part) = false).
  { unfold ParserPipeline.stripDash.
    destruct (JS.startsWith part "-"); [now apply includes_slice1 | exact Hb]. }
  rewrite Hc'.
  destruct (Regex.test ParserPipeline.bracketed_re _) eqn:E.
  - apply bracketed_sound in E. congruence.
  - cbn. now rewrite andb_false_r.
Qed.

(* ------------------------------------------------------------------ *)
(** ** A quoted phrase in InstructionParser                             *)
(* ------------------------------------------------------------------ *)

Section QuoteEnds.
Variable q : ascii.

Lemma ends_here_other input (a : ascii) (rest : string) :
  Ascii.eqb q a = false ->
  Regex.match_here input (Ref.ends_re q) (String a rest) = None.
Proof.
  intros H. unfold Regex.match_here, Ref.ends_re, Regex.lit.
  rewrite m_alt, m_seq, m_bol.
  destruct (Nat.eqb _ _); rewrite ?m_chr, ?H, m_seq, m_chr, H; reflexivity.
Qed.

Lemma ends_here_empty input :
  Regex.match_here input (Ref.ends_re q) "" = None.
Proof.
  unfold Regex.match_here, Ref.ends_re, Regex.lit.
  rewrite m_alt, m_seq, m_bol.
  destruct (Nat.eqb _ _); rewrite ?m_chr, m_seq, m_chr; reflexivity.
Qed.

(** Where there is no quote nothing is removed. *)
Lemma remove_ends_none input :
  forall fuel rest,
    JS.includes q rest = false ->
    Regex.remove_all_from fuel input (Ref.ends_re q) rest = rest.
Proof.
  induction fuel as [|fuel IH]; intros rest H; [reflexivity|].
  cbn [Regex.remove_all_from]. destruct rest as [|a rest].
  - now rewrite ends_here_empty.
  - cbn [JS.includes] in H. apply orb_false_elim in H as [Ha H].
    rewrite ends_here_other by exact Ha. now rewrite IH.
Qed.

Lemma ends_here_last input :
  1 < String.length input ->
  Regex.match_here input (Ref.ends_re q) (String q "")
  = Some {| Regex.matched := String q ""; Regex.groups := [];
            Regex.after := "" |}.
Proof.
  intros H. unfold Regex.match_here, Ref.ends_re, Regex.lit.
  rewrite m_alt, m_seq, m_bol.
  assert (E : Nat.eqb (String.length (String q "")) (String.length input) = false)
    by (apply Nat.eqb_neq; cbn; lia).
  rewrite E, m_seq, m_chr, Ascii.eqb_refl, m_eol. reflexivity.
Qed.

(** The closing quote is removed. *)
Lemma remove_ends_tail input :
  forall body fuel,
    JS.includes q body = false ->
    1 < String.length input ->
    String.length (body ++ String q "") < fuel ->
    Regex.remove_all_from fuel input (Ref.ends_re q) (body ++ String q "")
    = body.
Proof.
  induction body as [|a body IH]; intros fuel H Hi Hf;
    (destruct fuel as [|fuel]; [inversion Hf|]);
    cbn [append Regex.remove_all_from].
  - rewrite ends_here_last by exact Hi. cbn [Regex.after String.length].
    change (Nat.ltb 0 1) with true. cbv iota.
    destruct fuel; [reflexivity|]. cbn [Regex.remove_all_from].
    now rewrite ends_here_empty.
  - cbn [JS.includes] in H. apply orb_false_elim in H as [Ha H].
    rewrite ends_here_other by exact Ha. f_equal.
    apply IH; try assumption. cbn [append String.length] in Hf. lia.
Qed.

Lemma ends_here_first (t : string) :
  Regex.match_here (String q t) (Ref.ends_re q) (String q t)
  = Some {| Regex.matched := String q ""; Regex.groups := [];
            Regex.after := t |}.
Proof.
  unfold Regex.match_here, Ref.ends_re, Regex.lit.
  rewrite m_alt, m_seq, m_bol, Nat.eqb_refl, m_chr, Ascii.eqb_refl.
  now rewrite take_consumed1.
Qed.

(** Both quotes of a quoted text are removed. *)
Lemma remove_ends_quoted (body : string) :
  JS.includes q body = false ->
  Regex.remove_all (Ref.ends_re q) (Ref.quoted q body) = body.
Proof.
  intros H. unfold Regex.remove_all, Ref.quoted.
  cbn [Regex.remove_all_from]. rewrite ends_here_first.
  cbn [Regex.after].
  assert (L : Nat.ltb (String.length (body ++ String q ""))
                      (String.length (String q (body ++ String q ""))) = true)
    by (apply Nat.ltb_lt; cbn [String.length]; lia).
  rewrite L. apply remove_ends_tail;
    [exact H | | cbn [String.length]; lia].
  cbn [String.length]. rewrite length_append. cbn. lia.
Qed.

(** [/^q.+q$/] holds of a quoted line. *)
Lemma quoted_re_holds (body : string) :
  body <> "" -> Ref.all_chars JS.is_dot body = true -> JS.is_dot q = true ->
  Regex.test (Ref.quoted_re q) (Ref.quoted q body) = true.
Proof.
  intros Hne Hd Hq. unfold Ref.quoted_re, Ref.quoted. cbn [Regex.seqs].
  rewrite test_bol. unfold Regex.lit at 1.
  rewrite m_seq, m_chr, Ascii.eqb_refl.
  destruct body as [|a body]; [contradiction|].
  cbn in Hd. apply andb_prop in Hd as [Ha Hd].
  unfold Regex.plus, Regex.dot. cbn [append].
  rewrite m_seq, m_seq, m_chr, Ha, m_star_chr.
  match goal with
  | |- match Ref.star_chr ?p ?K _ ?c with _ => _ end = true =>
      assert (E : exists x, Ref.star_chr p K (String q "") c = Some x)
  end.
  { cbn [Ref.star_chr]. rewrite Hq. unfold Regex.lit.
    rewrite !m_seq, !m_chr, Ascii.eqb_refl, m_eol. eauto. }
  destruct E as [x E].
  now rewrite (star_chr_app _ _ _ _ _ _ Hd E).
Qed.
End QuoteEnds.

Lemma isRange_sound (v : string) :
  Regex.test InstructionParser.isRange_re v = true ->
  JS.includes "<" v = true.
Proof.
  intros H. apply test_true_exec in H as [f H].
  apply exec_bol_sound in H as (rest' & c' & M & _).
  open_re M. inv_matches.
  cbn [JS.includes]. rewrite includes_app. cbn [JS.includes].
  rewrite Ascii.eqb_refl, !orb_true_r. reflexivity.
Qed.

Lemma phrase_chars (body : string) :
  Ref.all_chars Ref.phraseChar body = true ->
  Ref.all_chars JS.is_dot body = true /\
  JS.includes dquote body = false /\ JS.includes squote body = false /\
  JS.includes "<" body = false.
Proof.
  induction body as [|a body IH]; cbn [Ref.all_chars JS.includes]; [auto|].
  intros H. apply andb_prop in H as [Ha H].
  destruct (IH H) as (I1 & I2 & I3 & I4). rewrite I1, I2, I3, I4.
  unfold Ref.phraseChar in Ha. apply andb_prop in Ha as [Hd Ha].
  apply negb_true_iff in Ha.
  apply orb_false_elim in Ha as [Ha H3]. apply orb_false_elim in Ha as [H1 H2].
  rewrite Hd. rewrite (Ascii.eqb_sym dquote), (Ascii.eqb_sym squote),
    (Ascii.eqb_sym "<"%char), H1, H2, H3. auto.
Qed.

Lemma includes_quoted (x q : ascii) (body : string) :
  Ascii.eqb x q = false -> JS.includes x body = false ->
  JS.includes x (Ref.quoted q body) = false.
Proof.
  intros Hq Hb. unfold Ref.quoted. cbn [JS.includes].
  rewrite Hq, includes_app, Hb. cbn [JS.includes]. now rewrite Hq.
Qed.

(** The quotes of a quoted phrase are stripped, whichever they are. *)
Lemma stripQuotes_quoted (q : ascii) (body : string) :
  q = dquote \/ q = squote ->
  JS.includes dquote body = false -> JS.includes squote body = false ->
  Shape.stripQuotes (Ref.quoted q body) = body.
Proof.
  intros Hq H1 H2. unfold Shape.stripQuotes.
  change Shape.dquote_ends_re with (Ref.ends_re dquote).
  change Shape.squote_ends_re with (Ref.ends_re squote).
  destruct Hq as [->| ->].
  - rewrite remove_ends_quoted by exact H1.
    unfold Regex.remove_all. now apply remove_ends_none.
  - unfold Regex.remove_all at 2.
    rewrite remove_ends_none by (apply includes_quoted; [reflexivity | exact H1]).
    now apply remove_ends_quoted.
Qed.

Lemma quoted_solid (q : ascii) (body : string) :
  JS.is_space q = false -> Ref.solid (Ref.quoted q body) = true.
Proof.
  intros H. unfold Ref.solid, Ref.quoted. apply andb_true_intro. split.
  - cbn. now rewrite H.
  - rewrite starts_solid_rev_cons_app. cbn. now rewrite H.
Qed.

(** The only pattern of a quoted phrase is the regex of what is
    between its quotes. *)
Lemma quoted_patterns (q : ascii) (body : string) :
  q = dquote \/ q = squote ->
  body <> "" -> Ref.all_chars Ref.phraseChar body = true ->
  InstructionParser.extractPatterns (Ref.quoted q body)
  = [RegexPattern body None].
Proof.
  intros Hq Hne Hp. destruct (phrase_chars body Hp) as (Hd & H1 & H2 & H3).
  unfold InstructionParser.extractPatterns.
  assert (Ek : Regex.exec Shape.keyPrefix_re (Ref.quoted q body) = None).
  { unfold Shape.keyPrefix_re. cbn [Regex.seqs]. rewrite exec_bol.
    unfold Regex.match_here, Regex.lit. rewrite m_seq, m_bol, Nat.eqb_refl.
    rewrite m_seq, m_chr. unfold Ref.quoted.
    destruct Hq as [->| ->]; reflexivity. }
  rewrite Ek.
  assert (Ec : InstructionParser.isComparisonPattern (Ref.quoted q body) = false).
  { unfold InstructionParser.isComparisonPattern, InstructionParser.isComparison_re.
    cbn [Regex.seqs Regex.alts Regex.word]. rewrite test_bol.
    unfold Regex.lit, Ref.quoted.
    rewrite m_seq, m_group, !m_alt, !m_seq, !m_chr.
    destruct Hq as [->| ->]; reflexivity. }
  rewrite Ec.
  assert (Er : InstructionParser.isRangePattern (Ref.quoted q body) = false).
  { unfold InstructionParser.isRangePattern.
    destruct (Regex.test _ _) eqn:E; [|reflexivity].
    apply isRange_sound in E.
    rewrite includes_quoted in E; [discriminate E | | exact H3].
    destruct Hq as [->| ->]; reflexivity. }
  rewrite Er.
  assert (Eg : InstructionParser.isRegexPattern (Ref.quoted q body) = true).
  { unfold InstructionParser.isRegexPattern.
    change Shape.dquoted_re with (Ref.quoted_re dquote).
    change Shape.squoted_re with (Ref.quoted_re squote).
    destruct Hq as [->| ->].
    - rewrite (quoted_re_holds dquote body Hne Hd eq_refl).
      now rewrite orb_true_r.
    - rewrite (quoted_re_holds squote body Hne Hd eq_refl).
      now rewrite orb_true_r. }
  rewrite Eg. unfold InstructionParser.parseRegex.
  rewrite stripQuotes_quoted by assumption.
  destruct body as [|a body]; [contradiction | reflexivity].
Qed.

Lemma quoted_no_shape (q : ascii) (body : string) :
  q = dquote \/ q = squote ->
  InstructionParser.firstShape InstructionParser.fieldPatterns
                               (Ref.quoted q body) = None.
Proof.
  intros Hq. unfold InstructionParser.fieldPatterns.
  cbn [InstructionParser.firstShape].
  unfold Shape.keys_re, Shape.items_re, Shape.lines_re, Shape.brands_re.
  cbn [Regex.seqs]. rewrite !test_bol. unfold Ref.quoted.
  destruct Hq as [->| ->]; reflexivity.
Qed.

(** [InstructionParser] makes an items regex of a quoted phrase, and
    leaves the description empty. *)
Lemma quoted_parse (q : ascii) (body : string) :
  q = dquote \/ q = squote ->
  body <> "" -> Ref.all_chars Ref.phraseChar body = true ->
  Regex.test InstructionParser.prefix_re (Ref.quoted q body) = false ->
  InstructionParser.parse (Ref.quoted q body)
  = Ok (push items false (RegexPattern body None) (emptyResult "")).
Proof.
  intros Hq Hne Hp Hx.
  assert (Hsp : JS.is_space q = false) by (destruct Hq as [->| ->]; reflexivity).
  assert (Hb : JS.truthy (JS.trim (Ref.quoted q body)) = true).
  { rewrite trim_solid by now apply quoted_solid. reflexivity. }
  destruct (parse_single _ Hb Hx) as [_ E]. cbv zeta in E.
  assert (Hd : JS.startsWith (Ref.quoted q body) "-" = false)
    by (destruct Hq as [->| ->]; reflexivity).
  rewrite Hd in E. rewrite (quoted_patterns q body Hq Hne Hp) in E.
  unfold InstructionParser.determineField in E.
  rewrite (quoted_no_shape q body Hq) in E.
  exact E.
Qed.

(** C5 (as the code has it). An instruction that consists solely of a
    quoted phrase, with no alias prefix, is not free text for
    [InstructionParser]: what stands between the quotes (one line, with
    no further quote and no [<]) becomes the one regex pattern of
    items.include, every other list stays empty and the description is
    empty.  In the cached path a quote means nothing without an alias:
    the instruction is cut into its parts, the blank-separated words
    when it has no colon, and when none of them is dynamic (as is a
    part with no colon and no bracket that is not code-shaped) nothing
    is compiled or stored, the four fields are empty and the
    description is the parts, quotes included, joined by single blanks
    and lower-cased, which is not empty. *)
Theorem C5_quoted_phrase :
  (forall q body,
      q = dquote \/ q = squote ->
      body <> "" -> Ref.all_chars Ref.phraseChar body = true ->
      Regex.test InstructionParser.prefix_re (Ref.quoted q body) = false ->
      InstructionParser.parse (Ref.quoted q body)
      = Ok (push items false (RegexPattern body None) (emptyResult ""))) /\
  (forall store input,
      JS.truthy (JS.trim input) = true ->
      forallb Ref.staticPart (Ref.parts input) = true ->
      ParserPipeline.getPipelineForInstruction store (Some input)
      = (Ok {| ParserPipeline.parseResult :=
                 emptyResult (JS.toLowerCase (JS.join " " (Ref.parts input)));
               ParserPipeline.pipeline := [] |}, store) /\
      JS.truthy (JS.toLowerCase (JS.join " " (Ref.parts input))) = true) /\
  (forall part,
      JS.includes ":" part = false ->
      JS.includes "[" part = false ->
      Ref.codeShaped (ParserPipeline.stripDash part) = false ->
      Ref.staticPart part = true) /\
  (forall input,
      JS.includes ":" input = false -> Ref.parts input = Ref.words input).
Proof.
  split; [exact quoted_parse|].
  split; [exact all_static_pipeline|].
  split; [exact plain_part_static | exact parts_words].
Qed.

Lemma C5_witness :
  InstructionParser.parse (Ref.quoted squote "molduras de madera")
  = Ok (push items false (RegexPattern "molduras de madera" None)
             (emptyResult "")) /\
  ParserPipeline.getPipelineForInstruction
    [] (Some (Ref.quoted squote "Molduras   de madera"))
  = (Ok {| ParserPipeline.parseResult :=
             emptyResult (Ref.quoted squote "molduras de madera");
           ParserPipeline.pipeline := [] |}, []) /\
  Ref.staticPart "madera'" = true /\
  Ref.parts "'Molduras   de madera'" = ["'Molduras"; "de"; "madera'"].
Proof.
  destruct C5_quoted_phrase as (P & Q & S & W).
  split.
  - apply (P squote "molduras de madera");
      [right; reflexivity | discriminate | reflexivity
      | vm_compute; reflexivity].
  - split.
    + apply (Q [] (Ref.quoted squote "Molduras   de madera"));
        vm_compute; reflexivity.
    + split.
      * apply (S "madera'"); vm_compute; reflexivity.
      * rewrite (W "'Molduras   de madera'"); vm_compute; reflexivity.
Defined.

(** The quoted phrase [hello world] is no free text for
    [InstructionParser]: it is an items regex and the description is
    empty.  In the cached path the quoted phrase [big USB cable] loses
    its middle word to the lines field. *)
Lemma C5_counterexample :
  Regex.test InstructionParser.prefix_re (Ref.quoted dquote "hello world")
  = false /\
  InstructionParser.parse (Ref.quoted dquote "hello world")
  = Ok (push items false (RegexPattern "hello world" None) (emptyResult "")) /\
  (forall d, d <> "" ->
     InstructionParser.parse (Ref.quoted dquote "hello world")
     <> Ok (emptyResult d)) /\
  fst (ParserPipeline.getPipelineForInstruction
         [] (Some (Ref.quoted dquote "big USB cable")))
  = Ok {| ParserPipeline.parseResult :=
            push lines false (ValuePattern "USB" None)
                 (emptyResult (Ref.quoted dquote "big cable"));
          ParserPipeline.pipeline :=
            [Match (FExpr (ExprCmp op_eq (Path line_code) "USB"))] |}.
Proof.
  repeat split; try (vm_compute; reflexivity).
  intros d Hd H. vm_compute in H. discriminate H.
Qed.

(* ------------------------------------------------------------------ *)
(** ** Every part of a request is counted once                          *)
(* ------------------------------------------------------------------ *)

Lemma parseAll_length docs tokens :
  forall store,
    List.length (fst (ParserPipeline.parseAll docs tokens store))
    = List.length tokens.
Proof.
  induction tokens as [|tk tokens IH]; intros store;
    cbn [ParserPipeline.parseAll]; [reflexivity|].
  destruct (ParserPipeline.docsMap_get docs (ParserPipeline.tokenStr tk));
    cbn [fst List.length]; now rewrite IH.
Qed.

Lemma filter_partition (l : list string) :
  List.length (filter Ref.dynamicPart l)
  + List.length (filter Ref.staticPart l)
  = List.length l.
Proof.
  induction l as [|p l IH]; [reflexivity|]. unfold Ref.staticPart in *.
  cbn [filter]. destruct (Ref.dynamicPart p); cbn [negb List.length]; lia.
Qed.

(** A token joined to the description is one that did not compile. *)
Lemma nonDynamic_null docs tokens :
  forall results t,
    Forall2 (Ref.outcome_of docs) tokens (map Ok results) ->
    In t (ParserPipeline.nonDynamicTokens tokens results) ->
    In t (map ParserPipeline.tokenStr tokens) /\
    ParserPipeline.parseSingleToken (ParserPipeline.stripDash t) = None.
Proof.
  induction tokens as [|tk tokens IH]; intros results t F H;
    [destruct H|].
  destruct results as [|res results]; [destruct H|].
  cbn [map] in F. inversion F as [|? ? ? ? H0 F']; subst.
  destruct res as [d|]; cbn [ParserPipeline.nonDynamicTokens] in H.
  - destruct (IH _ _ F' H) as [H1 H2]. split; [now right | exact H2].
  - destruct H as [<-|H].
    + split; [now left|]. unfold Ref.outcome_of in H0.
      destruct (ParserPipeline.docsMap_get docs (ParserPipeline.tokenStr tk));
        [discriminate H0|].
      destruct (ParserPipeline.parseSingleToken _) as [[f pd]|];
        [destruct H0 as [H0|H0]; discriminate H0 | reflexivity].
    + destruct (IH _ _ F' H) as [H1 H2]. split; [now right | exact H2].
Qed.

(** A request that returns has put every part in one place: a pattern
    of a field, the tokens joined to the description, or the
    description collected while tokenizing. *)
Lemma cached_path_counts store input rp store' :
  JS.truthy (JS.trim input) = true ->
  ParserPipeline.getPipelineForInstruction store (Some input) = (Ok rp, store') ->
  exists nonDynamic,
    (forall t, In t nonDynamic ->
       In t (filter Ref.dynamicPart (Ref.parts input)) /\
       ParserPipeline.parseSingleToken (ParserPipeline.stripDash t) = None) /\
    desc (ParserPipeline.parseResult rp)
    = JS.trim (JS.toLowerCase
                 (JS.trim (Ref.spaced (filter Ref.staticPart (Ref.parts input))))
               ++ " " ++ JS.join " " nonDynamic) /\
    List.length (ParserPipeline.pipeline rp)
    = Ref.patterns_in (ParserPipeline.parseResult rp) /\
    Ref.patterns_in (ParserPipeline.parseResult rp)
    + List.length nonDynamic
    + List.length (filter Ref.staticPart (Ref.parts input))
    = List.length (Ref.parts input).
Proof.
  intros Hb H. rewrite getPipeline_unfold in H by exact Hb.
  cbv zeta in H.
  set (tokens := fst (ParserPipeline.tokenizeInput input)) in *.
  set (docs := InstructionModel.find store
                 (map ParserPipeline.tokenStr tokens)) in *.
  destruct (ParserPipeline.awaitAll
              (fst (ParserPipeline.parseAll docs tokens store)))
    as [results|e] eqn:E; [|discriminate H].
  returned H.
  pose proof (awaitAll_ok _ _ E) as Er.
  pose proof (parseAll_outcomes docs tokens store) as F. rewrite Er in F.
  assert (Hl : List.length results = List.length tokens).
  { rewrite <- (parseAll_length docs tokens store), Er. now rewrite length_map. }
  assert (Ht : map ParserPipeline.tokenStr tokens
               = filter Ref.dynamicPart (Ref.parts input)).
  { subst tokens. rewrite tokenizeInput_spec. cbn [fst].
    rewrite map_map. cbn [Ref.toToken ParserPipeline.tokenStr].
    apply map_id. }
  exists (ParserPipeline.nonDynamicTokens tokens results).
  split; [|split; [|split]].
  - intros t Hin. rewrite <- Ht. now apply (nonDynamic_null docs tokens results).
  - rewrite assemble_desc. fold (Ref.parts input).
    rewrite tokenize_fold. reflexivity.
  - rewrite assemble_patterns by assumption. unfold Ref.assemble.
    cbn [ParserPipeline.pipeline]. apply length_map.
  - rewrite assemble_patterns by assumption.
    rewrite (results_partition tokens results Hl).
    rewrite <- (filter_partition (Ref.parts input)), <- Ht.
    now rewrite length_map.
Qed.

(* ------------------------------------------------------------------ *)
(** ** One turn of the loop of InstructionParser                        *)
(* ------------------------------------------------------------------ *)

(** A value yields one pattern at most. *)
Lemma extractPatterns_one (v : string) :
  InstructionParser.extractPatterns v = [] \/
  exists p, InstructionParser.extractPatterns v = [p].
Proof.
  unfold InstructionParser.extractPatterns.
  repeat match goal with
         | |- context [match ?x with _ => _ end] =>
             lazymatch x with
             | context [match _ with _ => _ end] => fail
             | _ => destruct x
             end
         | |- context [if ?x then _ else _] =>
             lazymatch x with
             | context [if _ then _ else _] => fail
             | _ => destruct x
             end
         end; eauto.
Qed.

Lemma codeChar_plain (a : ascii) :
  Ref.codeChar a = true ->
  Ascii.eqb "[" a = false /\ Ascii.eqb ">" a = false /\
  Ascii.eqb "<" a = false /\ JS.includes a "*^$" = false /\
  Ascii.eqb dquote a = false /\ Ascii.eqb squote a = false.
Proof.
  destruct a as [[] [] [] [] [] [] [] []]; vm_compute; intros H;
    first [discriminate H | repeat split; reflexivity].
Qed.

Lemma includes_cons (x a : ascii) (v : string) :
  JS.includes x (String a v) = Ascii.eqb x a || JS.includes x v.
Proof. reflexivity. Qed.

Lemma codeChars_plain (v : string) :
  Ref.all_chars Ref.codeChar v = true ->
  JS.includes "<" v = false /\ JS.includes dquote v = false /\
  JS.includes squote v = false /\
  Ref.all_chars (fun a => negb (JS.includes a "*^$")) v = true.
Proof.
  induction v as [|a v IH]; [cbn; auto|].
  cbn [Ref.all_chars]. intros H. apply andb_prop in H as [Ha H].
  destruct (IH H) as (I1 & I2 & I3 & I4).
  destruct (codeChar_plain a Ha) as (_ & _ & C3 & C4 & C5 & C6).
  rewrite (includes_cons "<"), (includes_cons dquote), (includes_cons squote).
  rewrite I1, I2, I3, I4, C3, C4, C5, C6. auto.
Qed.

(** A one-character class that no character of the text is in matches
    nowhere. *)
Lemma search_chr_none input (p : ascii -> bool) :
  forall rest,
    Ref.all_chars (fun a => negb (p a)) rest = true ->
    Regex.search input (Regex.Chr p) rest = None.
Proof.
  induction rest as [|a rest IH]; cbn [Ref.all_chars Regex.search];
    unfold Regex.match_here; rewrite m_chr; [reflexivity|].
  intros H. apply andb_prop in H as [Ha H]. apply negb_true_iff in Ha.
  rewrite Ha. now apply IH.
Qed.

(** A value made of the characters of an item identifier is a literal
    value, kept as it is. *)
Lemma code_value_patterns (v : string) :
  Ref.all_chars Ref.codeChar v = true ->
  InstructionParser.extractPatterns v = [ValuePattern v None].
Proof.
  intros H. destruct (codeChars_plain v H) as (H1 & H2 & H3 & H4).
  assert (Hf : match v with
               | String a _ =>
                   Ascii.eqb "[" a = false /\ Ascii.eqb ">" a = false /\
                   Ascii.eqb "<" a = false /\
                   Ascii.eqb dquote a = false /\ Ascii.eqb squote a = false
               | EmptyString => True
               end).
  { destruct v as [|a v]; [exact I|]. cbn in H.
    apply andb_prop in H as [Ha _].
    destruct (codeChar_plain a Ha) as (C1 & C2 & C3 & _ & C5 & C6). auto. }
  unfold InstructionParser.extractPatterns.
  assert (Ek : Regex.exec Shape.keyPrefix_re v = None).
  { unfold Shape.keyPrefix_re. cbn [Regex.seqs]. rewrite exec_bol.
    unfold Regex.match_here, Regex.lit. rewrite m_seq, m_bol, Nat.eqb_refl.
    rewrite m_seq, m_chr. destruct v as [|a v]; [reflexivity|].
    destruct Hf as (C1 & _). now rewrite C1. }
  rewrite Ek.
  assert (Ec : InstructionParser.isComparisonPattern v = false).
  { unfold InstructionParser.isComparisonPattern, InstructionParser.isComparison_re.
    cbn [Regex.seqs Regex.alts Regex.word]. rewrite test_bol.
    unfold Regex.lit.
    rewrite m_seq, m_group, !m_alt, !m_seq, !m_chr.
    destruct v as [|a v]; [reflexivity|].
    destruct Hf as (_ & C2 & C3 & _). now rewrite C2, C3. }
  rewrite Ec.
  assert (Er : InstructionParser.isRangePattern v = false).
  { unfold InstructionParser.isRangePattern.
    destruct (Regex.test _ _) eqn:E; [|reflexivity].
    apply isRange_sound in E. congruence. }
  rewrite Er.
  assert (Eg : InstructionParser.isRegexPattern v = false).
  { unfold InstructionParser.isRegexPattern.
    assert (E1 : Regex.test Shape.meta_re v = false).
    { unfold Regex.test, Regex.exec, Shape.meta_re, Regex.oneof.
      now rewrite search_chr_none. }
    assert (E2 : Regex.test Shape.dquoted_re v = false).
    { unfold Shape.dquoted_re. cbn [Regex.seqs]. rewrite test_bol.
      unfold Regex.lit at 1. rewrite m_seq, m_chr.
      destruct v as [|a v]; [reflexivity|].
      destruct Hf as (_ & _ & _ & C5 & _). now rewrite C5. }
    assert (E3 : Regex.test Shape.squoted_re v = false).
    { unfold Shape.squoted_re. cbn [Regex.seqs]. rewrite test_bol.
      unfold Regex.lit at 1. rewrite m_seq, m_chr.
      destruct v as [|a v]; [reflexivity|].
      destruct Hf as (_ & _ & _ & _ & C6). now rewrite C6. }
    now rewrite E1, E2, E3. }
  rewrite Eg. unfold Shape.stripQuotes.
  change Shape.dquote_ends_re with (Ref.ends_re dquote).
  change Shape.squote_ends_re with (Ref.ends_re squote).
  unfold Regex.remove_all.
  rewrite (remove_ends_none dquote v _ v H2).
  rewrite (remove_ends_none squote v _ v H3). reflexivity.
Qed.

(** What has the shape of an item identifier is made of its
    characters. *)
Lemma items_re_sound (v : string) :
  Regex.test Shape.items_re v = true ->
  Ref.all_chars Ref.codeChar v = true.
Proof.
  intros H. apply test_true_exec in H as [f H].
  apply exec_bol_sound in H as (rest' & c' & M & _).
  open_re M. inv_matches.
  all: cbn [Ref.all_chars]; unfold Ref.codeChar;
    repeat match goal with
           | E : _ = true |- _ => rewrite E; clear E
           end;
    rewrite ?orb_true_r; reflexivity.
Qed.

Lemma parseTokens_cons (token : string) (rest : list string)
      (r : ParsedResult) :
  InstructionParser.parseTokens (token :: rest) r
  = let excl := JS.startsWith token "-" in
    let value0 := if excl then JS.slice1 token else token in
    let field := fst (InstructionParser.splitAlias value0) in
    let value := snd (InstructionParser.splitAlias value0) in
    let patterns := InstructionParser.extractPatterns value in
    let single :=
      match patterns with
      | _ :: _ =>
          match field with
          | Own f =>
              InstructionParser.parseTokens rest
                (InstructionParser.assignPatterns patterns f excl r)
          | Inherited => Throw TypeError
          | Absent =>
              match InstructionParser.determineField value patterns with
              | Some f =>
                  InstructionParser.parseTokens rest
                    (InstructionParser.assignPatterns patterns f excl r)
              | None =>
                  InstructionParser.parseTokens rest
                    (InstructionParser.addDesc token r)
              end
          end
      | [] =>
          match field with
          | Absent =>
              InstructionParser.parseTokens rest
                (InstructionParser.addDesc token r)
          | _ => InstructionParser.parseTokens rest r
          end
      end in
    match field, rest with
    | Absent, next :: rest' =>
        if Regex.test Shape.items_re (value ++ " " ++ next)
        then InstructionParser.parseTokens rest'
               (InstructionParser.assignPatterns
                  (InstructionParser.extractPatterns (value ++ " " ++ next))
                  items excl r)
        else single
    | _, _ => single
    end.
Proof. reflexivity. Qed.

(** One turn of the loop: the token is joined with the next one into a
    single items entry, or gives exactly one entry of one list, or is
    appended to the description, or is dropped (an alias with a value
    that yields no pattern), or stops the parser (the inherited
    alias). *)
Lemma parseTokens_turn (token : string) (rest : list string)
      (r : ParsedResult) :
  let excl := JS.startsWith token "-" in
  let value0 := if excl then JS.slice1 token else token in
  let field := fst (InstructionParser.splitAlias value0) in
  let value := snd (InstructionParser.splitAlias value0) in
  let patterns := InstructionParser.extractPatterns value in
  if Ref.merged field value rest then
    exists next rest',
      rest = next :: rest' /\
      InstructionParser.parseTokens (token :: rest) r
      = InstructionParser.parseTokens rest'
          (push items excl (ValuePattern (value ++ " " ++ next) None) r)
  else
    (exists f p,
        patterns = [p] /\
        (field = Own f \/
         field = Absent /\
         InstructionParser.determineField value patterns = Some f) /\
        InstructionParser.parseTokens (token :: rest) r
        = InstructionParser.parseTokens rest (push f excl p r)) \/
    (field = Absent /\
     (patterns = [] \/
      InstructionParser.determineField value patterns = None) /\
     InstructionParser.parseTokens (token :: rest) r
     = InstructionParser.parseTokens rest
         (InstructionParser.addDesc token r)) \/
    (field <> Absent /\ patterns = [] /\
     InstructionParser.parseTokens (token :: rest) r
     = InstructionParser.parseTokens rest r) \/
    (field = Inherited /\ patterns <> [] /\
     InstructionParser.parseTokens (token :: rest) r = Throw TypeError).
Proof.
  intros excl value0 field value patterns.
  rewrite parseTokens_cons. cbv zeta.
  fold excl. fold value0. fold field. fold value. fold patterns.
  assert (Hsingle :
    Ref.merged field value rest = false ->
    forall single,
      single
      = match patterns with
        | _ :: _ =>
            match field with
            | Own f =>
                InstructionParser.parseTokens rest
                  (InstructionParser.assignPatterns patterns f excl r)
            | Inherited => Throw TypeError
            | Absent =>
                match InstructionParser.determineField value patterns with
                | Some f =>
                    InstructionParser.parseTokens rest
                      (InstructionParser.assignPatterns patterns f excl r)
                | None =>
                    InstructionParser.parseTokens rest
                      (InstructionParser.addDesc token r)
                end
            end
        | [] =>
            match field with
            | Absent =>
                InstructionParser.parseTokens rest
                  (InstructionParser.addDesc token r)
            | _ => InstructionParser.parseTokens rest r
            end
        end ->
      (exists f p,
          patterns = [p] /\
          (field = Own f \/
           field = Absent /\
           InstructionParser.determineField value patterns = Some f) /\
          single = InstructionParser.parseTokens rest (push f excl p r)) \/
      (field = Absent /\
       (patterns = [] \/
        InstructionParser.determineField value patterns = None) /\
       single = InstructionParser.parseTokens rest
                  (InstructionParser.addDesc token r)) \/
      (field <> Absent /\ patterns = [] /\
       single = InstructionParser.parseTokens rest r) \/
      (field = Inherited /\ patterns <> [] /\ single = Throw TypeError)).
  { intros _ single ->.
    destruct (extractPatterns_one value) as [E|[p E]]; fold patterns in E;
      rewrite E.
    - destruct field as [f| |].
      + right. right. left. repeat split; discriminate.
      + right. right. left. repeat split; discriminate.
      + right. left. auto.
    - destruct field as [f| |].
      + left. exists f, p. auto.
      + right. right. right. repeat split; discriminate.
      + destruct (InstructionParser.determineField value [p]) as [f|] eqn:D.
        * left. exists f, p. auto.
        * right. left. auto. }
  destruct field as [f| |] eqn:Ef.
  - cbn [Ref.merged]. now apply Hsingle.
  - cbn [Ref.merged]. now apply Hsingle.
  - destruct rest as [|next rest'].
    + cbn [Ref.merged]. now apply Hsingle.
    + cbn [Ref.merged].
      destruct (Regex.test Shape.items_re (value ++ " " ++ next)) eqn:Ei.
      * exists next, rest'. split; [reflexivity|].
        rewrite (code_value_patterns _ (items_re_sound _ Ei)). reflexivity.
      * apply Hsingle; [|reflexivity]. cbn [Ref.merged]. exact Ei.
Qed.

Lemma addDesc_patterns (token : string) (r : ParsedResult) :
  Ref.patterns_in (InstructionParser.addDesc token r) = Ref.patterns_in r /\
  desc (InstructionParser.addDesc token r) = desc r ++ token ++ " ".
Proof. split; reflexivity. Qed.

(** C8 (as the code has it). In every turn of the loop of
    [InstructionParser], for a token whose alias is a field or is not
    found, exactly one thing happens: the token is joined with the next
    bare token into one item identifier that becomes a single items
    entry; or it yields exactly one pattern, pushed to the include or
    the exclude list of exactly one field; or it is appended to the
    description; or it is dropped, which happens to a token whose alias
    is found and whose value yields no pattern.  A push adds one
    pattern and leaves the description, an append leaves the patterns.
    In the cached path, whenever a request of a non-blank instruction
    returns, every part is counted once: the patterns of the result,
    one per stage, the tokens that did not compile and are joined to
    the description, and the parts that were never tokens add up to
    the parts of the instruction. *)
Theorem C8_every_token_once :
  (forall (token : string) (rest : list string) (r : ParsedResult),
      let excl := JS.startsWith token "-" in
      let value0 := if excl then JS.slice1 token else token in
      let field := fst (InstructionParser.splitAlias value0) in
      let value := snd (InstructionParser.splitAlias value0) in
      let patterns := InstructionParser.extractPatterns value in
      field <> Inherited ->
      if Ref.merged field value rest then
        exists next rest',
          rest = next :: rest' /\
          InstructionParser.parseTokens (token :: rest) r
          = InstructionParser.parseTokens rest'
              (push items excl (ValuePattern (value ++ " " ++ next) None) r)
      else
        (exists f p,
            patterns = [p] /\
            (field = Own f \/
             field = Absent /\
             InstructionParser.determineField value patterns = Some f) /\
            InstructionParser.parseTokens (token :: rest) r
            = InstructionParser.parseTokens rest (push f excl p r)) \/
        (field = Absent /\
         (patterns = [] \/
          InstructionParser.determineField value patterns = None) /\
         InstructionParser.parseTokens (token :: rest) r
         = InstructionParser.parseTokens rest
             (InstructionParser.addDesc token r)) \/
        (exists f,
            field = Own f /\ patterns = [] /\
            InstructionParser.parseTokens (token :: rest) r
            = InstructionParser.parseTokens rest r)) /\
  (forall f excl p r,
      Ref.patterns_in (push f excl p r) = S (Ref.patterns_in r) /\
      desc (push f excl p r) = desc r) /\
  (forall token r,
      Ref.patterns_in (InstructionParser.addDesc token r) = Ref.patterns_in r /\
      desc (InstructionParser.addDesc token r) = desc r ++ token ++ " ") /\
  (forall store input rp store',
      JS.truthy (JS.trim input) = true ->
      ParserPipeline.getPipelineForInstruction store (Some input)
      = (Ok rp, store') ->
      exists nonDynamic,
        (forall t, In t nonDynamic ->
           In t (filter Ref.dynamicPart (Ref.parts input)) /\
           ParserPipeline.parseSingleToken (ParserPipeline.stripDash t) = None) /\
        desc (ParserPipeline.parseResult rp)
        = JS.trim (JS.toLowerCase
                     (JS.trim (Ref.spaced
                                 (filter Ref.staticPart (Ref.parts input))))
                   ++ " " ++ JS.join " " nonDynamic) /\
        List.length (ParserPipeline.pipeline rp)
        = Ref.patterns_in (ParserPipeline.parseResult rp) /\
        Ref.patterns_in (ParserPipeline.parseResult rp)
        + List.length nonDynamic
        + List.length (filter Ref.staticPart (Ref.parts input))
        = List.length (Ref.parts input)).
Proof.
  split.
  { intros token rest r excl value0 field value patterns Hf.
    pose proof (parseTokens_turn token rest r) as T. cbv zeta in T.
    fold excl in T. fold value0 in T. fold field in T. fold value in T.
    fold patterns in T.
    destruct (Ref.merged field value rest); [exact T|].
    destruct T as [T|[T|[(Hn & Hp & T)|(Hi & _)]]].
    - now left.
    - right. now left.
    - right. right. destruct field as [f| |].
      + now exists f.
      + contradiction.
      + contradiction.
    - contradiction. }
  split; [intros f excl p r; split; [apply push_patterns | apply push_desc]|].
  split; [exact addDesc_patterns | exact cached_path_counts].
Qed.

Lemma C8_witness :
  (exists next rest',
      ["1234"] = next :: rest' /\
      InstructionParser.parseTokens ["-ABCDE"; "1234"] (emptyResult "")
      = InstructionParser.parseTokens rest'
          (push items true (ValuePattern ("ABCDE" ++ " " ++ next) None)
                (emptyResult ""))) /\
  exists rp store',
    ParserPipeline.getPipelineForInstruction
      [] (Some "line:ABC items:abc hola") = (Ok rp, store') /\
    exists nonDynamic,
      (forall t, In t nonDynamic ->
         In t (filter Ref.dynamicPart (Ref.parts "line:ABC items:abc hola")) /\
         ParserPipeline.parseSingleToken (ParserPipeline.stripDash t) = None) /\
      desc (ParserPipeline.parseResult rp)
      = JS.trim (JS.toLowerCase
                   (JS.trim (Ref.spaced
                               (filter Ref.staticPart
                                  (Ref.parts "line:ABC items:abc hola"))))
                 ++ " " ++ JS.join " " nonDynamic) /\
      List.length (ParserPipeline.pipeline rp)
      = Ref.patterns_in (ParserPipeline.parseResult rp) /\
      Ref.patterns_in (ParserPipeline.parseResult rp)
      + List.length nonDynamic
      + List.length (filter Ref.staticPart
                       (Ref.parts "line:ABC items:abc hola"))
      = List.length (Ref.parts "line:ABC items:abc hola").
Proof.
  destruct C8_every_token_once as (P & _ & _ & Q).
  split.
  - assert (Hf : fst (InstructionParser.splitAlias "ABCDE") <> Inherited)
      by (vm_compute; discriminate).
    exact (P "-ABCDE" ["1234"] (emptyResult "") Hf).
  - eexists. eexists. split; [vm_compute; reflexivity|].
    eapply (Q [] "line:ABC items:abc hola"); vm_compute; reflexivity.
Defined.

(** The instruction whose only token is the alias [item] with the
    quoted value [Q'Q] (Q the double quote) is parsed without error;
    the alias is found, the value is a regex that is empty once its
    quotes are stripped, and the token is in no list and not in the
    description. *)
Lemma C8_counterexample :
  let token := "item:" ++ Ref.quoted dquote (Ref.quoted dquote "'") in
  InstructionParser.tokenize token = [token] /\
  InstructionParser.splitAlias token
  = (Own items, Ref.quoted dquote "'") /\
  InstructionParser.extractPatterns (Ref.quoted dquote "'") = [] /\
  InstructionParser.parse token = Ok (emptyResult "") /\
  Ref.patterns_in (emptyResult "") = 0.
Proof. vm_compute. repeat split. Qed.

(* ================================================================== *)
(** * Further properties of the code                                    *)
(* ================================================================== *)

(* ------------------------------------------------------------------ *)
(** ** The instruction cache over a whole request                       *)
(* ------------------------------------------------------------------ *)

Section CacheRequests.
Import ParserPipeline.

Lemma NoDup_map_inj {A B : Type} (f : A -> B) (l : list A) (a b : A) :
  NoDup (map f l) -> In a l -> In b l -> f a = f b -> a = b.
Proof.
  induction l as [|x l IH]; intros N Ha Hb E; [destruct Ha|].
  cbn [map] in N. inversion N as [|? ? Hn N']; subst.
  destruct Ha as [->|Ha], Hb as [->|Hb].
  - reflexivity.
  - exfalso. apply Hn. rewrite E. now apply in_map.
  - exfalso. apply Hn. rewrite <- E. now apply in_map.
  - now apply IH.
Qed.

(** Under the unique index, the lookup of a token that was asked for
    gives the one entry that has it. *)
Lemma docsMap_get_stored store keys d :
  NoDup (map token store) -> In d store -> In (token d) keys ->
  docsMap_get (InstructionModel.find store keys) (token d) = Some d.
Proof.
  intros N Hd Hk.
  assert (Hin : In d (rev (InstructionModel.find store keys))).
  { apply -> in_rev. unfold InstructionModel.find. apply filter_In.
    split; [exact Hd|]. apply existsb_exists. exists (token d).
    split; [exact Hk | apply String.eqb_refl]. }
  unfold docsMap_get.
  destruct (List.find _ _) as [d'|] eqn:E.
  - apply find_some in E as [H1 H2]. apply String.eqb_eq in H2.
    apply in_rev in H1. apply find_In in H1.
    f_equal. now apply (NoDup_map_inj token store).
  - pose proof (find_none _ _ E d Hin) as F. cbv beta in F.
    rewrite String.eqb_refl in F. discriminate F.
Qed.

(** Every entry a task resolves to is in the collection afterwards, under
    the token of the task. *)
Lemma parseAll_results_stored docs tokens :
  forall store,
    (forall d, In d docs -> In d store) ->
    Forall2 (fun tk res =>
               forall d, res = Ok (Some d) ->
                 In d (snd (parseAll docs tokens store)) /\
                 token d = tokenStr tk)
            tokens (fst (parseAll docs tokens store)).
Proof.
  induction tokens as [|tk tokens IH]; intros store Hs;
    cbn [parseAll]; [constructor|].
  destruct (docsMap_get docs (tokenStr tk)) as [d0|] eqn:Hd; cbn [fst snd].
  - constructor.
    + intros d E. inversion E; subst d0. clear E.
      apply docsMap_get_hit in Hd as [Hin Ht]. split; [|exact Ht].
      apply parseAll_keeps. now apply Hs.
    + now apply IH.
  - assert (Hs' : forall d, In d docs ->
                   In d (snd (parseAndStoreToken store (tokenStr tk)
                                (tk_exclude tk)))).
    { intros d Hin.
      destruct (parseAndStoreToken_store store (tokenStr tk) (tk_exclude tk))
        as [E|(f & pd & _ & _ & E)]; rewrite E; [now apply Hs|].
      apply in_or_app. left. now apply Hs. }
    constructor; [|now apply IH].
    intros d E. split.
    + apply parseAll_keeps.
      destruct (parseSingleToken (stripDash (tokenStr tk)))
        as [[f pd]|] eqn:P.
      * destruct (InstructionModel.has store (tokenStr tk)) eqn:Hh.
        -- rewrite (parseAndStoreToken_duplicate _ _ _ _ _ P Hh) in E.
           discriminate E.
        -- rewrite (parseAndStoreToken_fresh _ _ _ _ _ P Hh) in E |- *.
           cbn [fst snd] in *. inversion E; subst d.
           apply in_or_app. right. now left.
      * rewrite (parseAndStoreToken_null _ _ _ P) in E. discriminate E.
    + destruct (parseSingleToken (stripDash (tokenStr tk)))
        as [[f pd]|] eqn:P.
      * destruct (InstructionModel.has store (tokenStr tk)) eqn:Hh.
        -- rewrite (parseAndStoreToken_duplicate _ _ _ _ _ P Hh) in E.
           discriminate E.
        -- rewrite (parseAndStoreToken_fresh _ _ _ _ _ P Hh) in E.
           cbn [fst] in E. inversion E; subst d. reflexivity.
      * rewrite (parseAndStoreToken_null _ _ _ P) in E. discriminate E.
Qed.
End CacheRequests.

Section CacheTheorems.
Import ParserPipeline.

Lemma awaitAll_map_Ok {A : Type} (r : list A) : awaitAll (map Ok r) = Ok r.
Proof.
  induction r as [|a r IH]; cbn [map awaitAll]; [reflexivity|].
  now rewrite IH.
Qed.

Lemma Forall2_and {A B : Type} (P Q : A -> B -> Prop) l1 l2 :
  Forall2 P l1 l2 -> Forall2 Q l1 l2 ->
  Forall2 (fun a b => P a b /\ Q a b) l1 l2.
Proof.
  intros H. induction H; intros H'; inversion H'; subst; constructor; auto.
Qed.

Lemma Forall2_map_r {A B C : Type} (P : A -> C -> Prop) (f : B -> C) l1 l2 :
  Forall2 P l1 (map f l2) -> Forall2 (fun a b => P a (f b)) l1 l2.
Proof.
  revert l1. induction l2 as [|b l2 IH]; intros l1 H; cbn [map] in H;
    inversion H; subst; constructor; auto.
Qed.

Lemma Forall2_impl_In {A B : Type} (P Q : A -> B -> Prop) l1 l2 :
  (forall a b, In a l1 -> P a b -> Q a b) ->
  Forall2 P l1 l2 -> Forall2 Q l1 l2.
Proof.
  intros H F. induction F as [|a b l1 l2 Hab F IH]; constructor.
  - apply H; [now left | exact Hab].
  - apply IH. intros a' b' Hin. apply H. now right.
Qed.

(** The exclusion flag of a token is its marker. *)
Lemma tokens_flag input tk :
  In tk (fst (tokenizeInput input)) ->
  tk_exclude tk = JS.startsWith (tokenStr tk) "-".
Proof.
  rewrite tokenizeInput_spec. cbn [fst]. intros H.
  apply in_map_iff in H as (p & <- & _). reflexivity.
Qed.

Lemma compileToken_compiled t w f pd :
  parseSingleToken (stripDash t) = Some (FieldOf f, pd) ->
  w = JS.startsWith t "-" ->
  Ref.compileToken t = Some (Ref.compiled t w f pd).
Proof. intros H ->. unfold Ref.compileToken. now rewrite H. Qed.

(** What the tasks of a request that goes through resolved to: an
    entry that is now in the collection under the token, or nothing for
    a token that does not compile and has no entry. *)
Lemma first_run_facts store keys tokens results :
  (forall tk, In tk tokens -> In (tokenStr tk) keys) ->
  awaitAll (fst (parseAll (InstructionModel.find store keys) tokens store))
  = Ok results ->
  Forall2 (fun tk r =>
             match r with
             | Some d =>
                 In d (snd (parseAll (InstructionModel.find store keys)
                                     tokens store)) /\
                 token d = tokenStr tk
             | None =>
                 parseSingleToken (stripDash (tokenStr tk)) = None /\
                 InstructionModel.has
                   (snd (parseAll (InstructionModel.find store keys)
                                  tokens store)) (tokenStr tk) = false
             end) tokens results.
Proof.
  intros Hk E. apply awaitAll_ok in E.
  set (docs := InstructionModel.find store keys) in *.
  assert (Hs : forall d, In d docs -> In d store)
    by (intros d; apply find_In).
  pose proof (Forall2_and _ _ _ _
                (parseAll_results_stored docs tokens store Hs)
                (parseAll_outcomes docs tokens store)) as F.
  rewrite E in F. apply Forall2_map_r in F.
  assert (Hall : forall tk, In tk tokens ->
            parseSingleToken (stripDash (tokenStr tk)) = None ->
            docsMap_get docs (tokenStr tk) = None ->
            InstructionModel.has (snd (parseAll docs tokens store)) (tokenStr tk)
            = false).
  { intros tk Hin Hp Hd.
    destruct (InstructionModel.has _ (tokenStr tk)) eqn:Hh; [|reflexivity].
    apply has_In in Hh. apply in_map_iff in Hh as (d & Ht & Hd').
    apply parseAll_store in Hd' as [Hd'|(tk' & f & pd & _ & Hp' & ->)].
    - pose proof (docsMap_get_miss store keys (tokenStr tk) (Hk tk Hin) Hd) as M.
      apply has_false in M. exfalso. apply M. rewrite <- Ht. now apply in_map.
    - cbn [Ref.compiled token] in Ht. rewrite Ht in Hp'. congruence. }
  refine (Forall2_impl_In _ _ _ _ _ F).
  intros tk r Hin [H1 H2]. destruct r as [d|].
  - now apply H1.
  - unfold Ref.outcome_of in H2.
    destruct (docsMap_get docs (tokenStr tk)) eqn:Hd; [discriminate H2|].
    destruct (parseSingleToken (stripDash (tokenStr tk)))
      as [[f pd]|] eqn:P;
      [destruct H2 as [H2|H2]; discriminate H2 |].
    split; [reflexivity|]. now apply Hall.
Qed.

(** With every entry in place a request is answered from the cache
    alone. *)
Lemma second_run store' keys :
  NoDup (map token store') ->
  forall tokens results,
    (forall tk, In tk tokens -> In (tokenStr tk) keys) ->
    Forall2 (fun tk r =>
               match r with
               | Some d => In d store' /\ token d = tokenStr tk
               | None =>
                   parseSingleToken (stripDash (tokenStr tk)) = None /\
                   InstructionModel.has store' (tokenStr tk) = false
               end) tokens results ->
    parseAll (InstructionModel.find store' keys) tokens store'
    = (map Ok results, store').
Proof.
  intros N tokens results Hk F. induction F as [|tk r l rs H F IH];
    [reflexivity|].
  assert (Hk' : forall tk0, In tk0 l -> In (tokenStr tk0) keys)
    by (intros; apply Hk; now right).
  specialize (IH Hk'). cbn [parseAll map].
  destruct r as [d|].
  - destruct H as [Hd Ht]. rewrite <- Ht.
    rewrite (docsMap_get_stored store' keys d N Hd)
      by (rewrite Ht; apply Hk; now left).
    now rewrite IH.
  - destruct H as [Hp Hh].
    rewrite (docsMap_get_cold store' keys _ Hh).
    rewrite (parseAndStoreToken_null _ _ _ Hp). cbn [fst snd].
    now rewrite IH.
Qed.

(** The entries a request writes while it goes on to return have a
    field that is one. *)
Lemma written_fielded docs tokens :
  forall store results,
    awaitAll (fst (parseAll docs tokens store)) = Ok results ->
    Forall (fun i => field i <> FieldInherited) (parseArray results) ->
    forall d,
      In d (snd (parseAll docs tokens store)) ->
      In d store \/ field d <> FieldInherited.
Proof.
  induction tokens as [|tk tokens IH]; intros store results E F d H;
    cbn [parseAll] in *; [now left|].
  destruct (docsMap_get docs (tokenStr tk)) as [d0|]; cbn [fst snd] in *.
  - cbn [awaitAll] in E.
    destruct (awaitAll (fst (parseAll docs tokens store))) as [rs|e] eqn:Er;
      [|discriminate E].
    injection E as <-. cbn [parseArray] in F. inversion F; subst.
    now apply (IH store rs).
  - destruct (parseSingleToken (stripDash (tokenStr tk))) as [[f pd]|] eqn:P.
    + destruct (InstructionModel.has store (tokenStr tk)) eqn:Hh.
      * rewrite (parseAndStoreToken_duplicate _ _ _ _ _ P Hh) in E.
        discriminate E.
      * rewrite (parseAndStoreToken_fresh _ _ _ _ _ P Hh) in E, H.
        cbn [fst snd awaitAll] in E, H.
        destruct (awaitAll (fst (parseAll docs tokens _))) as [rs|e] eqn:Er;
          [|discriminate E].
        injection E as <-. cbn [parseArray] in F. inversion F; subst.
        destruct (IH _ rs Er H3 d H) as [Hi|Hi]; [|now right].
        apply in_app_or in Hi as [Hi|[<-|[]]]; [now left | now right].
    + rewrite (parseAndStoreToken_null _ _ _ P) in E, H.
      cbn [fst snd awaitAll] in E, H.
      destruct (awaitAll (fst (parseAll docs tokens store))) as [rs|e] eqn:Er;
        [|discriminate E].
      injection E as <-. cbn [parseArray] in F.
      now apply (IH store rs).
Qed.
End CacheTheorems.

(** X1. A request, whether it returns or throws, only adds to the
    cache: every entry that was there is still there, the tokens of the
    entries stay pairwise distinct, and an entry that was not there is
    what [parseSingleToken] makes of a dynamic part of the instruction,
    under that part as its token.  An added entry can have a [field]
    that is no field, as the one of a part with the alias
    [constructor]; the request that adds such an entry throws. *)
Theorem X1_request_only_adds (store : Store) (input : option string) :
  NoDup (map token store) ->
  (forall d, In d store ->
     In d (snd (ParserPipeline.getPipelineForInstruction store input))) /\
  NoDup (map token
             (snd (ParserPipeline.getPipelineForInstruction store input))) /\
  (forall d,
     In d (snd (ParserPipeline.getPipelineForInstruction store input)) ->
     In d store \/
     exists text part f pd,
       input = Some text /\
       In part (filter Ref.dynamicPart (Ref.parts text)) /\
       ParserPipeline.parseSingleToken (ParserPipeline.stripDash part)
       = Some (f, pd) /\
       d = Ref.compiled part (JS.startsWith part "-") f pd) /\
  (forall d rp,
     In d (snd (ParserPipeline.getPipelineForInstruction store input)) ->
     fst (ParserPipeline.getPipelineForInstruction store input) = Ok rp ->
     In d store \/ field d <> ParserPipeline.FieldInherited).
Proof.
  intros N. destruct input as [input|]; [|cbn; auto].
  destruct (JS.truthy (JS.trim input)) eqn:Hb.
  - rewrite getPipeline_unfold by exact Hb. cbv zeta.
    set (tokens := fst (ParserPipeline.tokenizeInput input)).
    set (docs := InstructionModel.find store
                   (map ParserPipeline.tokenStr tokens)).
    assert (E : snd (match ParserPipeline.awaitAll
                             (fst (ParserPipeline.parseAll docs tokens store))
                     with
                     | Ok parseResults =>
                         (ParserPipeline.finish
                            (snd (ParserPipeline.tokenizeInput input))
                            tokens parseResults,
                          snd (ParserPipeline.parseAll docs tokens store))
                     | Throw e =>
                         (Throw e, snd (ParserPipeline.parseAll docs tokens store))
                     end)
                = snd (ParserPipeline.parseAll docs tokens store))
      by (destruct (ParserPipeline.awaitAll _); reflexivity).
    rewrite E. split; [|split; [|split]].
    + intros d. apply parseAll_keeps.
    + now apply parseAll_unique.
    + intros d H.
      apply parseAll_store in H as [H|(tk & f & pd & Hin & Hp & ->)];
        [now left|].
      right. exists input, (ParserPipeline.tokenStr tk), f, pd.
      split; [reflexivity|]. split; [|split; [exact Hp|]].
      * apply tokens_dynamic in Hin as [H1 H2]. now apply filter_In.
      * now rewrite (tokens_flag input tk Hin).
    + intros d rp H R.
      destruct (ParserPipeline.awaitAll
                  (fst (ParserPipeline.parseAll docs tokens store)))
        as [results|e] eqn:Ea; [|discriminate R].
      cbn [fst] in R. apply finish_Ok in R as [_ F].
      exact (written_fielded docs tokens store results Ea F d H).
  - unfold ParserPipeline.getPipelineForInstruction. rewrite Hb.
    rewrite orb_true_r. cbn [snd]. auto.
Qed.

Lemma X1_witness :
  let store := snd (ParserPipeline.getPipelineForInstruction [] (Some "line:ABC")) in
  let store' := snd (ParserPipeline.getPipelineForInstruction
                       store (Some "line:ABC -brand:H$ constructor:x")) in
  (forall d, In d store -> In d store') /\
  NoDup (map token store') /\
  (forall d, In d store' ->
     In d store \/
     exists text part f pd,
       Some "line:ABC -brand:H$ constructor:x" = Some text /\
       In part (filter Ref.dynamicPart (Ref.parts text)) /\
       ParserPipeline.parseSingleToken (ParserPipeline.stripDash part)
       = Some (f, pd) /\
       d = Ref.compiled part (JS.startsWith part "-") f pd).
Proof.
  intros store store'.
  destruct (X1_request_only_adds store (Some "line:ABC -brand:H$ constructor:x"))
    as (A & B & C & _).
  - vm_compute. repeat constructor; intros H; simpl in H; tauto.
  - exact (conj A (conj B C)).
Defined.

(** No part of a blank text. *)
Lemma blank_all_space (s : string) :
  JS.truthy (JS.trim s) = false -> Ref.all_chars JS.is_space s = true.
Proof.
  induction s as [|a s IH]; intros H; [reflexivity|].
  cbn [Ref.all_chars]. destruct (JS.is_space a) eqn:Ha.
  - apply IH. unfold JS.trim in H |- *. cbn [JS.trimStart] in H.
    now rewrite Ha in H.
  - exfalso.
    assert (S : Ref.solid (String a "") = true)
      by (unfold Ref.solid; cbn; now rewrite Ha).
    destruct (trim_keeps "" (String a "") s S) as (a' & b' & T).
    cbn [append] in T. rewrite T in H.
    destruct a'; discriminate H.
Qed.

Lemma match_all_blank input :
  forall fuel rest,
    Ref.all_chars JS.is_space rest = true ->
    Regex.match_all_from fuel input Shape.token_re rest = [].
Proof.
  induction fuel as [|fuel IH]; intros rest H; [reflexivity|].
  cbn [Regex.match_all_from]. destruct rest as [|a rest].
  - assert (E : Regex.match_here input Shape.token_re "" = None).
    { unfold Regex.match_here, Shape.token_re. cbn [Regex.alts Regex.seqs].
      unfold Regex.plus, Regex.w, Regex.nonspace.
      rewrite !m_alt, !m_seq, !m_chr. reflexivity. }
    now rewrite E.
  - cbn in H. apply andb_prop in H as [Ha H].
    rewrite token_here_blank by exact Ha. now apply IH.
Qed.

Lemma blank_parts (input : string) :
  JS.truthy (JS.trim input) = false -> Ref.parts input = [].
Proof.
  intros H. unfold Ref.parts, Regex.match_all.
  apply match_all_blank. now apply blank_all_space.
Qed.

Lemma pureResult_blank (input : string) :
  JS.truthy (JS.trim input) = false ->
  Ref.pureResult input
  = {| ParserPipeline.parseResult := emptyResult "";
       ParserPipeline.pipeline := [] |}.
Proof.
  intros H. unfold Ref.pureResult. rewrite tokenizeInput_spec.
  now rewrite (blank_parts input H).
Qed.

(** Over consistent documents the results of the tasks are the fresh
    compilations. *)
Lemma results_pure docs (l : list ParserPipeline.Token)
      (rs : list (option Instruction)) :
  (forall d, In d docs -> Ref.consistent d) ->
  (forall tk, In tk l ->
     ParserPipeline.tk_exclude tk
     = JS.startsWith (ParserPipeline.tokenStr tk) "-") ->
  Forall2 (Ref.outcome_of docs) l (map Ok rs) ->
  Forall (fun i => field i <> FieldInherited)
         (ParserPipeline.parseArray rs) ->
  rs = map (fun tk => Ref.compileToken (ParserPipeline.tokenStr tk)) l.
Proof.
  intros Hc Hfl F. apply Forall2_map_r in F.
  induction F as [|tk r l rs H F IH]; intros P; [reflexivity|].
  cbn [map]. f_equal.
  - cbv beta in H. unfold Ref.outcome_of in H.
    destruct (ParserPipeline.docsMap_get docs (ParserPipeline.tokenStr tk))
      as [d|] eqn:Hd.
    + inversion H; subst r.
      apply docsMap_get_hit in Hd as [Hin Ht].
      specialize (Hc d Hin). unfold Ref.consistent in Hc.
      now rewrite <- Ht, Hc.
    + unfold Ref.compileToken.
      destruct (ParserPipeline.parseSingleToken _) as [[f pd]|] eqn:P'.
      * destruct H as [H|H]; [discriminate H|]. inversion H; subst r.
        cbn [ParserPipeline.parseArray] in P. inversion P as [|? ? Hf _].
        cbn [Ref.compiled field] in Hf.
        destruct f as [f|]; [|now elim Hf].
        now rewrite (Hfl tk (or_introl eq_refl)).
      * now inversion H.
  - apply IH; [intros tk' Hin; apply Hfl; now right|].
    destruct r; cbn [ParserPipeline.parseArray] in P;
      [now inversion P | exact P].
Qed.

(** Over consistent entries a request that returns gives what the
    text alone decides, and leaves consistent entries. *)
Lemma cache_transparent (store : Store) (input : string)
      (rp : ParserPipeline.ResultPipeline) (store' : Store) :
  Forall Ref.consistent store ->
  ParserPipeline.getPipelineForInstruction store (Some input) = (Ok rp, store') ->
  rp = Ref.pureResult input /\ Forall Ref.consistent store'.
Proof.
  intros Hc H.
  destruct (JS.truthy (JS.trim input)) eqn:Hb.
  - rewrite getPipeline_unfold in H by exact Hb. cbv zeta in H.
    set (tokens := fst (ParserPipeline.tokenizeInput input)) in *.
    set (docs := InstructionModel.find store
                   (map ParserPipeline.tokenStr tokens)) in *.
    destruct (ParserPipeline.awaitAll
                (fst (ParserPipeline.parseAll docs tokens store)))
      as [results|e] eqn:E; [|discriminate H].
    returned H.
    split.
    + unfold Ref.pureResult. fold tokens. f_equal.
      apply awaitAll_ok in E.
      pose proof (parseAll_outcomes docs tokens store) as F.
      rewrite E in F.
      apply (results_pure docs tokens results); [| |exact F|assumption].
      * intros d Hin. apply find_In in Hin.
        rewrite Forall_forall in Hc. now apply Hc.
      * intros tk. apply tokens_flag.
    + apply Forall_forall. intros d Hd.
      destruct (written_fielded docs tokens store results E ltac:(assumption)
                                d Hd) as [Hs|Hf];
        [rewrite Forall_forall in Hc; now apply Hc|].
      apply parseAll_store in Hd as [Hd|(tk & f & pd & Hin & Hp & ->)].
      * rewrite Forall_forall in Hc. now apply Hc.
      * cbn [Ref.compiled field] in Hf. destruct f as [f|]; [|now elim Hf].
        unfold Ref.consistent. cbn [Ref.compiled token].
        apply compileToken_compiled; [exact Hp | now apply (tokens_flag input)].
  - unfold ParserPipeline.getPipelineForInstruction in H. rewrite Hb in H.
    rewrite orb_true_r in H. inversion H; subst rp store'.
    split; [now rewrite pureResult_blank | exact Hc].
Qed.

(** X2. Over a cache whose entries are each the compilation of their
    own token, the answer to a request that returns is decided by the
    text of the instruction alone: it is what compiling every token
    afresh gives, whatever the cache held; and the cache is left with
    such entries only. *)
Theorem X2_cache_is_transparent (store : Store) (input : string)
        (rp : ParserPipeline.ResultPipeline) (store' : Store) :
  Forall Ref.consistent store ->
  ParserPipeline.getPipelineForInstruction store (Some input) = (Ok rp, store') ->
  rp = Ref.pureResult input /\ Forall Ref.consistent store'.
Proof. exact (cache_transparent store input rp store'). Qed.

Lemma X2_witness :
  let store := snd (ParserPipeline.getPipelineForInstruction
                      [] (Some "line:ABC -items:>50")) in
  fst (ParserPipeline.getPipelineForInstruction
         store (Some "-items:>50 brand:H$ line:ABC"))
  = Ok (Ref.pureResult "-items:>50 brand:H$ line:ABC").
Proof.
  intros store.
  assert (E : exists rp store',
             ParserPipeline.getPipelineForInstruction
               store (Some "-items:>50 brand:H$ line:ABC") = (Ok rp, store'))
    by (eexists; eexists; vm_compute; reflexivity).
  destruct E as (rp & store' & E). rewrite E. cbn [fst]. f_equal.
  apply (X2_cache_is_transparent store "-items:>50 brand:H$ line:ABC" rp store');
    [|exact E].
  repeat constructor; vm_compute; reflexivity.
Defined.

(** X3. A request that has returned can be repeated: on the cache it
    left, the same instruction gets the same answer and the cache is
    not written again. *)
Theorem X3_request_is_repeatable (store : Store) (input : string)
        (rp : ParserPipeline.ResultPipeline) (store' : Store) :
  NoDup (map token store) ->
  ParserPipeline.getPipelineForInstruction store (Some input) = (Ok rp, store') ->
  ParserPipeline.getPipelineForInstruction store' (Some input) = (Ok rp, store').
Proof.
  intros N H.
  destruct (JS.truthy (JS.trim input)) eqn:Hb.
  - rewrite getPipeline_unfold in H |- * by exact Hb. cbv zeta in H |- *.
    set (tokens := fst (ParserPipeline.tokenizeInput input)) in *.
    set (keys_ := map ParserPipeline.tokenStr tokens) in *.
    destruct (ParserPipeline.awaitAll
                (fst (ParserPipeline.parseAll
                        (InstructionModel.find store keys_) tokens store)))
      as [results|e] eqn:E; [|discriminate H].
    injection H as Hr Hs.
    assert (Hk : forall tk, In tk tokens ->
                In (ParserPipeline.tokenStr tk) keys_)
      by (intros tk Hin; now apply in_map).
    pose proof (first_run_facts store keys_ tokens results Hk E) as F.
    rewrite Hs in F.
    assert (N' : NoDup (map token store'))
      by (rewrite <- Hs; now apply parseAll_unique).
    rewrite (second_run store' keys_ N' tokens results Hk F).
    cbn [fst snd]. rewrite awaitAll_map_Ok, <- Hr. reflexivity.
  - unfold ParserPipeline.getPipelineForInstruction in H |- *.
    rewrite Hb in H |- *. rewrite orb_true_r in H |- *.
    now inversion H; subst.
Qed.

Lemma X3_witness :
  let first := ParserPipeline.getPipelineForInstruction
                 [] (Some "line:ABC -items:>50 items:abc hola") in
  ParserPipeline.getPipelineForInstruction
    (snd first) (Some "line:ABC -items:>50 items:abc hola") = first.
Proof.
  intros first.
  assert (E : exists rp store', first = (Ok rp, store'))
    by (eexists; eexists; vm_compute; reflexivity).
  destruct E as (rp & store' & E). rewrite E. cbn [snd].
  apply (X3_request_is_repeatable [] _ rp store'); [constructor | exact E].
Defined.

(* ------------------------------------------------------------------ *)
(** ** The field of a compiled token                                    *)
(* ------------------------------------------------------------------ *)

(** Whatever [parseSingleToken] returns carries the field that was
    resolved first: the one of the alias, or the one of the shape. *)
Lemma parseSingleToken_field tok fr pd :
  ParserPipeline.parseSingleToken tok = Some (fr, pd) ->
  fr = match fst (ParserPipeline.splitAlias tok) with
       | Own f => ParserPipeline.FieldOf f
       | Inherited => ParserPipeline.FieldInherited
       | Absent =>
           ParserPipeline.FieldOf
             (ParserPipeline.determineField
                (snd (ParserPipeline.splitAlias tok)))
       end.
Proof.
  unfold ParserPipeline.parseSingleToken.
  set (field := match fst (ParserPipeline.splitAlias tok) with
                | Own f0 => ParserPipeline.FieldOf f0
                | Inherited => ParserPipeline.FieldInherited
                | Absent => ParserPipeline.FieldOf
                              (ParserPipeline.determineField
                                 (snd (ParserPipeline.splitAlias tok)))
                end).
  intros H.
  repeat (case_scrutinee H; try discriminate H).
  all: inversion H; subst; reflexivity.
Qed.

(** The entries that carry the results of the tasks have a field that
    is one, when those read from the cache have one and no token
    resolves to the value that is no field. *)
Lemma results_fielded docs tokens results :
  (forall d, In d docs ->
     In (token d) (map ParserPipeline.tokenStr tokens) ->
     field d <> ParserPipeline.FieldInherited) ->
  (forall tk pd, In tk tokens ->
     ParserPipeline.parseSingleToken
       (ParserPipeline.stripDash (ParserPipeline.tokenStr tk))
     <> Some (ParserPipeline.FieldInherited, pd)) ->
  Forall2 (Ref.outcome_of docs) tokens (map Ok results) ->
  Forall (fun i => field i <> ParserPipeline.FieldInherited)
         (ParserPipeline.parseArray results).
Proof.
  intros Hd Hp F. apply Forall2_map_r in F.
  induction F as [|tk r l rs H F IH]; [constructor|].
  assert (IH' : Forall (fun i => field i <> ParserPipeline.FieldInherited)
                       (ParserPipeline.parseArray rs)).
  { apply IH.
    - intros d Hin Ht. apply Hd; [exact Hin | now right].
    - intros tk' pd Hin. apply Hp. now right. }
  destruct r as [d|]; cbn [ParserPipeline.parseArray]; [|exact IH'].
  constructor; [|exact IH'].
  cbv beta in H. unfold Ref.outcome_of in H.
  destruct (ParserPipeline.docsMap_get docs (ParserPipeline.tokenStr tk))
    as [d0|] eqn:Eg.
  - injection H as <-. apply docsMap_get_hit in Eg as [Hin Ht].
    apply Hd; [exact Hin | left; now rewrite Ht].
  - destruct (ParserPipeline.parseSingleToken _) as [[f pd]|] eqn:P;
      [|discriminate H].
    destruct H as [H|H]; [discriminate H|]. injection H as ->.
    cbn [Ref.compiled field]. intros ->.
    exact (Hp tk pd (or_introl eq_refl) P).
Qed.

(** X4. A request returns an answer when the dynamic parts of its
    instruction are pairwise distinct and none of them carries the
    alias that is no field, on whatever cache holds, under those parts,
    only entries whose field is a field. *)
Theorem X4_request_returns (store : Store) (input : string) :
  (forall d, In d store ->
     In (token d) (filter Ref.dynamicPart (Ref.parts input)) ->
     field d <> ParserPipeline.FieldInherited) ->
  NoDup (filter Ref.dynamicPart (Ref.parts input)) ->
  (forall part, In part (filter Ref.dynamicPart (Ref.parts input)) ->
     fst (ParserPipeline.splitAlias (ParserPipeline.stripDash part))
     <> Inherited) ->
  exists rp store',
    ParserPipeline.getPipelineForInstruction store (Some input)
    = (Ok rp, store').
Proof.
  intros Hst N Hi.
  destruct (JS.truthy (JS.trim input)) eqn:Hb.
  - rewrite getPipeline_unfold by exact Hb. cbv zeta.
    set (tokens := fst (ParserPipeline.tokenizeInput input)).
    assert (Ht : map ParserPipeline.tokenStr tokens
                 = filter Ref.dynamicPart (Ref.parts input)).
    { subst tokens. rewrite tokenizeInput_spec. cbn [fst].
      rewrite map_map. cbn [Ref.toToken ParserPipeline.tokenStr].
      apply map_id. }
    destruct (parseAll_succeeds
                (InstructionModel.find store
                   (map ParserPipeline.tokenStr tokens)) tokens)
      with (store := store) as [results E].
    + now rewrite Ht.
    + intros tk pd Hin P. apply parseSingleToken_field in P.
      apply (Hi (ParserPipeline.tokenStr tk)).
      * rewrite <- Ht. now apply in_map.
      * destruct (fst (ParserPipeline.splitAlias _));
          [discriminate P | reflexivity | discriminate P].
    + intros tk Hin Hd.
      apply (docsMap_get_miss store (map ParserPipeline.tokenStr tokens));
        [now apply in_map | exact Hd].
    + rewrite E. rewrite finish_proper; [eauto|].
      apply (results_fielded
               (InstructionModel.find store
                  (map ParserPipeline.tokenStr tokens)) tokens).
      * intros d Hin Hk. apply find_In in Hin. apply Hst; [exact Hin|].
        now rewrite <- Ht.
      * intros tk pd Hin P. apply parseSingleToken_field in P.
        apply (Hi (ParserPipeline.tokenStr tk)).
        -- rewrite <- Ht. now apply in_map.
        -- destruct (fst (ParserPipeline.splitAlias _));
             [discriminate P | reflexivity | discriminate P].
      * rewrite <- (awaitAll_ok _ _ E). apply parseAll_outcomes.
  - unfold ParserPipeline.getPipelineForInstruction. rewrite Hb.
    rewrite orb_true_r. eauto.
Qed.

Lemma X4_witness :
  exists rp store',
    ParserPipeline.getPipelineForInstruction
      [] (Some "line:ABC -items:>50 items:abc hola") = (Ok rp, store').
Proof.
  apply (X4_request_returns [] "line:ABC -items:>50 items:abc hola").
  - intros d [].
  - vm_compute. repeat constructor; intros H; simpl in H;
      repeat (destruct H as [H|H]; [discriminate H|]); exact H.
  - intros part H. vm_compute in H.
    repeat (destruct H as [<-|H]; [vm_compute; discriminate|]).
    destruct H.
Defined.

(* ------------------------------------------------------------------ *)
(** ** The alias of a token                                             *)
(* ------------------------------------------------------------------ *)

Lemma word_prefix_unique (a b x y : string) :
  Ref.all_chars JS.is_word a = true -> Ref.all_chars JS.is_word b = true ->
  a ++ ":" ++ x = b ++ ":" ++ y -> a = b.
Proof.
  revert b. induction a as [|c a IH]; intros [|e b] Ha Hb E;
    cbn [append] in E.
  - reflexivity.
  - inversion E; subst. cbn in Hb. discriminate Hb.
  - inversion E; subst. cbn in Ha. discriminate Ha.
  - inversion E; subst. cbn in Ha, Hb.
    apply andb_prop in Ha as [_ Ha]. apply andb_prop in Hb as [_ Hb].
    f_equal. now apply IH.
Qed.

Lemma field_re_complete (alias body : string) :
  alias <> "" -> Ref.all_chars JS.is_word alias = true ->
  body <> "" -> Ref.all_chars JS.is_dot body = true ->
  exists f, Regex.exec Shape.field_re (alias ++ ":" ++ body) = Some f.
Proof.
  intros Ha Wa Hb Db. unfold Shape.field_re. cbn [Regex.seqs].
  rewrite exec_bol. unfold Regex.match_here.
  rewrite m_seq, m_bol, Nat.eqb_refl. cbv beta.
  destruct alias as [|x alias]; [contradiction|].
  cbn in Wa. apply andb_prop in Wa as [Wx Wa]. cbn [append].
  rewrite m_seq, m_group. unfold Regex.plus at 1, Regex.w.
  rewrite m_seq, m_chr, Wx, m_star_chr.
  match goal with
  | |- exists f, Ref.star_chr ?p ?k ?r ?c = _ => set (K := k)
  end.
  assert (HK : exists f, Ref.star_chr JS.is_word K (":" ++ body) [] = Some f).
  { cbn [append Ref.star_chr]. change (JS.is_word ":") with false. cbv iota.
    subst K. cbv beta. unfold Regex.lit, Regex.dot.
    rewrite m_seq, m_chr. change (Ascii.eqb ":" ":") with true. cbv iota.
    rewrite m_group_plus_eol.
    assert (Ht : JS.truthy body = true)
      by (destruct body; [contradiction | reflexivity]).
    rewrite Ht, Db. cbn [andb]. eauto. }
  destruct HK as [f HK].
  exists f. now apply star_chr_app.
Qed.

Lemma lower_char_word (a : ascii) :
  JS.is_word a = true -> JS.is_word (JS.lower_char a) = true.
Proof.
  destruct a as [[] [] [] [] [] [] [] []]; vm_compute; intros H;
    first [reflexivity | discriminate H].
Qed.

Lemma toLowerCase_word (s : string) :
  Ref.all_chars JS.is_word s = true ->
  Ref.all_chars JS.is_word (JS.toLowerCase s) = true.
Proof.
  induction s as [|a s IH]; cbn; [reflexivity|]. intros H.
  apply andb_prop in H as [Ha H]. now rewrite lower_char_word, IH.
Qed.

Lemma assoc_In k l v : assoc k l = Some v -> In (k, v) l.
Proof.
  induction l as [|[k' v'] l IH]; cbn; [discriminate|].
  destruct (String.eqb k k') eqn:E.
  - apply String.eqb_eq in E. intros H. inversion H; subst. now left.
  - intros H. right. now apply IH.
Qed.

Lemma aliasMap_Own alias f : aliasMap alias = Own f -> In (alias, f) aliasTable.
Proof.
  unfold aliasMap. destruct (assoc alias aliasTable) eqn:E.
  - intros H. inversion H; subst. now apply assoc_In.
  - destruct (String.eqb alias "constructor"); discriminate.
Qed.

(** Both parsers read the alias the same way. *)
Lemma splitAlias_fst (tok : string) :
  fst (InstructionParser.splitAlias tok) = fst (ParserPipeline.splitAlias tok).
Proof.
  unfold InstructionParser.splitAlias, ParserPipeline.splitAlias,
    InstructionParser.fieldAliases.
  destruct (Regex.exec Shape.fieldQuoted_re tok); [reflexivity|].
  destruct (Regex.exec Shape.field_re tok); [|reflexivity].
  destruct (aliasMap _); reflexivity.
Qed.

Lemma splitAlias_found (tok : string) :
  fst (ParserPipeline.splitAlias tok) <> Absent ->
  exists alias rest,
    tok = alias ++ ":" ++ rest /\ alias <> "" /\
    Ref.all_chars JS.is_word alias = true /\
    fst (ParserPipeline.splitAlias tok) = aliasMap (JS.toLowerCase alias).
Proof.
  unfold ParserPipeline.splitAlias.
  destruct (Regex.exec Shape.fieldQuoted_re tok) as [f|] eqn:E.
  - apply fieldQuoted_sound in E as (q & q' & E & Hw & Hne & _).
    cbn [fst]. intros _. eauto 8.
  - destruct (Regex.exec Shape.field_re tok) as [f|] eqn:E';
      [|intros H; now elim H].
    apply field_sound in E' as (E' & Hw & Hne & _).
    destruct (aliasMap (JS.toLowerCase (Shape.group1 f))) eqn:A; cbn [fst];
      intros H; try (now elim H); rewrite <- A; eauto 8.
Qed.

Lemma splitAlias_complete (alias body : string) :
  alias <> "" -> Ref.all_chars JS.is_word alias = true ->
  body <> "" -> Ref.all_chars JS.is_dot body = true ->
  fst (ParserPipeline.splitAlias (alias ++ ":" ++ body))
  = aliasMap (JS.toLowerCase alias).
Proof.
  intros Ha Wa Hb Db. unfold ParserPipeline.splitAlias.
  destruct (Regex.exec Shape.fieldQuoted_re _) as [f|] eqn:E.
  - apply fieldQuoted_sound in E as (q & q' & E & Hw & _).
    cbn [fst]. now rewrite <- (word_prefix_unique _ _ _ _ Wa Hw E).
  - destruct (field_re_complete alias body Ha Wa Hb Db) as [f E'].
    rewrite E'. apply field_sound in E' as (E' & Hw & _).
    rewrite <- (word_prefix_unique _ _ _ _ Wa Hw E').
    destruct (aliasMap (JS.toLowerCase alias)); reflexivity.
Qed.

(** X5. Both parsers resolve the alias of a token in the same way: a
    non-empty run of word characters before a colon and a value of one
    line is looked up in lower case, whatever its case; and an alias is
    only ever found for a token of that form, under a table key made of
    word characters, so that the keys written with an accented letter
    are never found. *)
Theorem X5_alias_resolution :
  (forall tok,
      fst (InstructionParser.splitAlias tok)
      = fst (ParserPipeline.splitAlias tok)) /\
  (forall alias body,
      alias <> "" -> Ref.all_chars JS.is_word alias = true ->
      body <> "" -> Ref.all_chars JS.is_dot body = true ->
      fst (ParserPipeline.splitAlias (alias ++ ":" ++ body))
      = aliasMap (JS.toLowerCase alias)) /\
  (forall tok f,
      fst (ParserPipeline.splitAlias tok) = Own f ->
      exists alias rest,
        tok = alias ++ ":" ++ rest /\ alias <> "" /\
        Ref.all_chars JS.is_word alias = true /\
        In (JS.toLowerCase alias, f) aliasTable /\
        Ref.all_chars JS.is_word (JS.toLowerCase alias) = true) /\
  (forall key f,
      In (key, f) aliasTable ->
      Ref.all_chars JS.is_word key = false <-> JS.includes i_acute key = true).
Proof.
  split; [exact splitAlias_fst|].
  split; [exact splitAlias_complete|].
  split.
  - intros tok f H.
    destruct (splitAlias_found tok) as (alias & rest & E & Hne & Hw & A).
    { rewrite H. discriminate. }
    exists alias, rest. repeat split; try assumption.
    + apply aliasMap_Own. now rewrite <- A.
    + now apply toLowerCase_word.
  - intros key f H. unfold aliasTable in H.
    repeat (destruct H as [H|H];
            [inversion H; subst; vm_compute; split; intros; congruence|]).
    destruct H.
Qed.

Lemma X5_witness :
  fst (ParserPipeline.splitAlias "LiNeA:^ABC.*") = Own lines /\
  fst (InstructionParser.splitAlias "Brand:H$") = Own brands.
Proof.
  destruct X5_alias_resolution as (S & C & _).
  split.
  - refine (eq_trans (C "LiNeA" "^ABC.*" _ eq_refl _ eq_refl) eq_refl);
      discriminate.
  - rewrite S.
    refine (eq_trans (C "Brand" "H$" _ eq_refl _ eq_refl) eq_refl);
      discriminate.
Defined.

(* ------------------------------------------------------------------ *)
(** ** What follows a key prefix in the cached path                     *)
(* ------------------------------------------------------------------ *)

Lemma numComparison_sound (e : string) :
  Regex.test ParserPipeline.numComparison_re e = true ->
  exists (c : ascii) (ds : string),
    (c = ">"%char \/ c = "<"%char) /\ ds <> "" /\
    Ref.all_chars JS.is_digit ds = true /\
    (e = String c ds \/ e = String c (String "=" ds)).
Proof.
  intros H. apply test_true_exec in H as [f H].
  apply exec_bol_sound in H as (rest' & c' & M & _).
  unfold ParserPipeline.numComparison_re in M. open_re M.
  inv_matches.
  all: rewrite ?append_nil_r.
  all: match goal with
       | Hc : JS.includes ?x "><" = true |- _ =>
           assert (Hx : x = ">"%char \/ x = "<"%char)
             by (cbn in Hc; apply orb_prop in Hc as [Hc|Hc];
                 [left; now apply Ascii.eqb_eq in Hc |
                  apply orb_prop in Hc as [Hc|Hc];
                  [right; now apply Ascii.eqb_eq in Hc | discriminate Hc]])
       end.
  all: match goal with
       | Hd : JS.is_digit ?d = true, Hw : Ref.all_chars JS.is_digit ?w = true
         |- exists c ds, _ /\ _ /\ _ /\ (String ?x _ = _ \/ _) =>
           exists x, (String d w); split; [exact Hx|]; split; [discriminate|];
           split; [cbn; now rewrite Hd, Hw | auto]
       end.
Qed.

Lemma numRange_sound (e : string) :
  Regex.test ParserPipeline.numRange_re e = true ->
  exists a b,
    e = a ++ "<>" ++ b /\ a <> "" /\ b <> "" /\
    Ref.all_chars JS.is_digit a = true /\ Ref.all_chars JS.is_digit b = true.
Proof.
  intros H. apply test_true_exec in H as [f H].
  apply exec_bol_sound in H as (rest' & c' & M & _).
  unfold ParserPipeline.numRange_re in M. open_re M.
  inv_matches. rewrite ?append_nil_r.
  match goal with
  | H1 : JS.is_digit ?d1 = true, W1 : Ref.all_chars JS.is_digit ?w1 = true,
    H2 : JS.is_digit ?d2 = true, W2 : Ref.all_chars JS.is_digit ?w2 = true
    |- exists a b, String ?d1' (?w1' ++ _) = _ /\ _ =>
      exists (String d1' w1')
  end.
  eexists (String _ _). split; [reflexivity|].
  repeat split; try discriminate; cbn;
    repeat match goal with E : _ = true |- _ => rewrite E; clear E end;
    reflexivity.
Qed.

Lemma digit_is_dot (a : ascii) : JS.is_digit a = true -> JS.is_dot a = true.
Proof.
  destruct a as [[] [] [] [] [] [] [] []]; vm_compute; intros H;
    first [reflexivity | discriminate H].
Qed.

Lemma digit_is_code (a : ascii) : JS.is_digit a = true -> Ref.codeChar a = true.
Proof.
  destruct a as [[] [] [] [] [] [] [] []]; vm_compute; intros H;
    first [reflexivity | discriminate H].
Qed.

Lemma all_chars_impl (p q : ascii -> bool) (s : string) :
  (forall a, p a = true -> q a = true) ->
  Ref.all_chars p s = true -> Ref.all_chars q s = true.
Proof.
  intros H. induction s as [|a s IH]; cbn; [reflexivity|]. intros E.
  apply andb_prop in E as [Ea E]. now rewrite (H a Ea), IH.
Qed.

Lemma digit_not_marks (a : ascii) :
  JS.is_digit a = true ->
  Ascii.eqb "=" a = false /\ JS.includes a "><" = false.
Proof.
  destruct a as [[] [] [] [] [] [] [] []]; vm_compute; intros H;
    first [discriminate H | split; reflexivity].
Qed.

(** A numeric comparison is read as a comparison, and its value is the
    run of digits. *)
Lemma comparison_exec_num (c : ascii) (ds e : string) :
  c = ">"%char \/ c = "<"%char -> ds <> "" ->
  Ref.all_chars JS.is_digit ds = true ->
  e = String c ds \/ e = String c (String "=" ds) ->
  exists f,
    Regex.exec ParserPipeline.comparison_re e = Some f /\
    Shape.group2 f = ds.
Proof.
  intros Hc Hne Hd He.
  assert (Hdot : Ref.all_chars JS.is_dot ds = true)
    by (apply (all_chars_impl JS.is_digit); [apply digit_is_dot | exact Hd]).
  assert (Ht : JS.truthy ds = true) by (destruct ds; [contradiction|reflexivity]).
  unfold ParserPipeline.comparison_re. cbn [Regex.seqs].
  unfold Regex.oneof, Regex.opt, Regex.lit, Regex.dot.
  rewrite exec_bol. unfold Regex.match_here.
  assert (Hin : JS.includes c "><" = true)
    by (destruct Hc as [->| ->]; reflexivity).
  destruct He as [->| ->].
  - destruct ds as [|d ds]; [contradiction|].
    cbn in Hd. apply andb_prop in Hd as [Hd0 Hd].
    destruct (digit_not_marks d Hd0) as [Heq _].
    rewrite m_seq, m_bol, Nat.eqb_refl. cbv beta.
    rewrite m_seq, m_group, m_seq, m_chr, Hin, m_alt, m_chr, Heq, m_eps.
    rewrite m_group_plus_eol, Ht, Hdot. cbn [andb].
    eexists. split; [reflexivity|].
    cbn [Shape.group2 Regex.group Regex.groups Nat.eqb]. reflexivity.
  - rewrite m_seq, m_bol, Nat.eqb_refl. cbv beta.
    rewrite m_seq, m_group, m_seq, m_chr, Hin, m_alt, m_chr.
    change (Ascii.eqb "=" "=") with true. cbv iota.
    rewrite m_group_plus_eol, Ht, Hdot. cbn [andb].
    eexists. split; [reflexivity|].
    cbn [Shape.group2 Regex.group Regex.groups Nat.eqb]. reflexivity.
Qed.

(** What begins with a digit is no comparison. *)
Lemma comparison_exec_digit (d : ascii) (rest : string) :
  JS.is_digit d = true ->
  Regex.exec ParserPipeline.comparison_re (String d rest) = None.
Proof.
  intros Hd. destruct (digit_not_marks d Hd) as [_ Hm].
  unfold ParserPipeline.comparison_re. cbn [Regex.seqs].
  unfold Regex.oneof. rewrite exec_bol. unfold Regex.match_here.
  rewrite m_seq, m_bol, Nat.eqb_refl. cbv beta.
  now rewrite m_seq, m_group, m_seq, m_chr, Hm.
Qed.

Lemma digits_no_lt (s : string) :
  Ref.all_chars JS.is_digit s = true -> JS.includes "<" s = false.
Proof.
  intros H. apply (all_chars_impl _ _ _ digit_is_code) in H.
  now destruct (codeChars_plain s H).
Qed.

Lemma code_not_regex (v : string) :
  Ref.all_chars Ref.codeChar v = true ->
  (Regex.test Shape.meta_re v || Regex.test Shape.dquoted_re v
   || Regex.test Shape.squoted_re v) = false.
Proof.
  intros H. pose proof (code_value_patterns v H) as E.
  unfold InstructionParser.extractPatterns in E.
  destruct (Regex.exec Shape.keyPrefix_re v) as [f|] eqn:Ek.
  - exfalso. apply keyPrefix_sound in Ek as (Ek & _).
    destruct v as [|a v]; [discriminate Ek|]. cbn [append] in Ek.
    inversion Ek; subst a. cbn in H. discriminate H.
  - destruct (InstructionParser.isComparisonPattern v).
    + destruct (InstructionParser.parseComparison v) as [[op x]|];
        discriminate E.
    + destruct (InstructionParser.isRangePattern v).
      * destruct (InstructionParser.parseRange v) as [[s e]|]; discriminate E.
      * unfold InstructionParser.isRegexPattern in E.
        destruct (_ || _ || _); [|reflexivity].
        destruct (JS.truthy _); discriminate E.
Qed.

Lemma repeat_digits (n : nat) : Ref.all_chars JS.is_digit (JS.repeat "0" n) = true.
Proof. induction n as [|n IH]; cbn; [reflexivity | exact IH]. Qed.

(** Padding keeps digits digits. *)
Lemma pad4_digits (s : string) :
  Ref.all_chars JS.is_digit s = true ->
  Ref.all_chars JS.is_digit (Shape.pad4 s) = true.
Proof.
  intros H. unfold Shape.pad4, JS.padStart.
  destruct (Nat.ltb _ _); [|exact H].
  now rewrite all_chars_app, repeat_digits, H.
Qed.

(** The three numeric forms a key prefix may be followed by, as the
    classification reads them. *)
Lemma numeric_cases (e : string) :
  (Regex.test ParserPipeline.numComparison_re e
   || Regex.test ParserPipeline.numRange_re e
   || Regex.test ParserPipeline.digits_re e) = true ->
  (exists f,
      Regex.exec ParserPipeline.comparison_re e = Some f /\
      Ref.all_chars JS.is_digit (Shape.group2 f) = true) \/
  (Regex.exec ParserPipeline.comparison_re e = None /\
   exists f,
     Regex.exec Shape.range_re e = Some f /\
     Ref.all_chars JS.is_digit (Shape.pad4 (Shape.group1 f)) = true /\
     Ref.all_chars JS.is_digit (Shape.pad4 (Shape.group2 f)) = true) \/
  (Regex.exec ParserPipeline.comparison_re e = None /\
   Regex.exec Shape.range_re e = None /\
   (Regex.test Shape.meta_re e || Regex.test Shape.dquoted_re e
    || Regex.test Shape.squoted_re e) = false).
Proof.
  intros H. apply orb_prop in H as [H|H]; [apply orb_prop in H as [H|H]|].
  - left. apply numComparison_sound in H as (c & ds & Hc & Hne & Hd & He).
    destruct (comparison_exec_num c ds e Hc Hne Hd He) as (f & E & G).
    exists f. now rewrite G.
  - right. left.
    apply numRange_sound in H as (a & b & -> & Ha & Hb & Da & Db).
    split.
    + destruct a as [|x a]; [contradiction|]. cbn in Da.
      apply andb_prop in Da as [Dx _]. now apply comparison_exec_digit.
    + pose proof (parseRange_complete a b Ha Hb
                    (all_chars_impl _ _ _ digit_is_dot Da)
                    (all_chars_impl _ _ _ digit_is_dot Db)
                    (digits_no_lt b Db)) as R.
      unfold InstructionParser.parseRange in R.
      destruct (Regex.exec Shape.range_re _) as [f|]; [|discriminate R].
      inversion R as [[R1 R2]]. exists f. rewrite R1, R2.
      split; [reflexivity|]. split.
      * apply pad4_digits; exact Da.
      * apply pad4_digits; exact Db.
  - right. right. apply digits_re_spec in H as [L D].
    destruct e as [|d e]; [cbn in L; lia|].
    split; [|split].
    + cbn in D. apply andb_prop in D as [D0 _].
      now apply comparison_exec_digit.
    + destruct (Regex.exec Shape.range_re _) as [f|] eqn:E; [|reflexivity].
      apply range_sound in E as (E & _).
      pose proof (digits_no_lt _ D) as N. rewrite E in N.
      rewrite includes_app in N. apply orb_false_elim in N as [_ N].
      cbn in N. discriminate N.
    + apply code_not_regex.
      apply (all_chars_impl JS.is_digit); [apply digit_is_code | exact D].
Qed.

Lemma is_items_field (fr : ParserPipeline.fieldRef) :
  negb (ParserPipeline.is_items fr) = false -> fr = ParserPipeline.FieldOf items.
Proof. destruct fr as [[]|]; cbn; intros H; first [reflexivity | discriminate H]. Qed.

(** X6. In the cached path a pattern carries a key prefix only under
    the items field, for a value that begins with the prefix between
    brackets, and only when what follows the bracket is numeric: the
    pattern is then a comparison whose value is digits, a range whose
    bounds are digits, or a literal of one to four digits.  A regex
    entry never carries a key prefix. *)
Theorem X6_key_prefix_is_numeric tok fr pd k :
  ParserPipeline.parseSingleToken tok = Some (fr, pd) ->
  ParserPipeline.pd_keyPrefix pd = Some k ->
  fr = ParserPipeline.FieldOf items /\
  (exists rest,
      snd (ParserPipeline.splitAlias tok) = "[" ++ k ++ "]" ++ rest /\
      rest <> "") /\
  k <> "" /\
  match pd with
  | PDComparison _ _ v => Ref.all_chars JS.is_digit v = true
  | PDRange _ s e =>
      Ref.all_chars JS.is_digit s = true /\ Ref.all_chars JS.is_digit e = true
  | PDValue _ v =>
      Ref.all_chars JS.is_digit v = true /\ 1 <= String.length v <= 4
  | PDRegex _ _ _ => False
  end.
Proof.
  unfold ParserPipeline.parseSingleToken.
  set (body := snd (ParserPipeline.splitAlias tok)) in *.
  set (field := match fst (ParserPipeline.splitAlias tok) with
                | Own f0 => ParserPipeline.FieldOf f0
                | Inherited => ParserPipeline.FieldInherited
                | Absent => ParserPipeline.FieldOf
                              (ParserPipeline.determineField body)
                end).
  intros H Hk.
  repeat (case_scrutinee H; try discriminate H).
  all: inversion H; subst fr pd; clear H.
  all: cbn [ParserPipeline.pd_keyPrefix] in Hk; try discriminate Hk.
  all: inversion Hk; subst k; clear Hk.
  all: match goal with
       | Hn : (_ || _ || _) = true |- _ =>
           destruct (numeric_cases _ Hn)
             as [(g & E & D)|[(E1 & g & E2 & D1 & D2)|(E1 & E2 & E3)]]
       end.
  all: repeat match goal with
              | A : Regex.exec ?r ?x = _, B : Regex.exec ?r ?x = _ |- _ =>
                  rewrite A in B;
                  first [discriminate B | inversion B; subst; clear B]
              | A : ?t = true, B : ?t = false |- _ =>
                  rewrite A in B; discriminate B
              end.
  all: match goal with
       | Ek : Regex.exec Shape.keyPrefix_re _ = Some ?pm,
         Hi : negb (ParserPipeline.is_items _) = false |- _ =>
           destruct (keyPrefix_sound _ _ Ek) as (Kb & Kn & Kr);
           split; [exact (is_items_field _ Hi)|];
           split; [exists (Shape.group2 pm); split; [exact Kb | exact Kr]|];
           split; [exact Kn|]
       end.
  all: try (now apply pad4_digits).
  all: try (split; assumption).
  all: match goal with
       | Hi : negb (ParserPipeline.is_items ?fl) = false,
         Hg : ParserPipeline.is_items ?fl
              && negb (Regex.test ParserPipeline.digits_re ?l) = false |- _ =>
           rewrite (is_items_field _ Hi) in Hg; cbn in Hg;
           apply negb_false_iff in Hg; apply digits_re_spec in Hg as [L Dg];
           split; [exact Dg | exact L]
       end.
Qed.

Lemma X6_witness :
  ParserPipeline.parseSingleToken "items:[RC$]20<>50"
  = Some (ParserPipeline.FieldOf items, PDRange (Some "RC$") "0020" "0050") /\
  (exists rest,
      snd (ParserPipeline.splitAlias "items:[RC$]20<>50")
      = "[" ++ "RC$" ++ "]" ++ rest /\ rest <> "") /\
  Ref.all_chars JS.is_digit "0020" = true /\
  Ref.all_chars JS.is_digit "0050" = true.
Proof.
  assert (E : ParserPipeline.parseSingleToken "items:[RC$]20<>50"
              = Some (ParserPipeline.FieldOf items,
                      PDRange (Some "RC$") "0020" "0050"))
    by (vm_compute; reflexivity).
  destruct (X6_key_prefix_is_numeric _ _ _ "RC$" E eq_refl)
    as (_ & R & _ & D1 & D2).
  exact (conj E (conj R (conj D1 D2))).
Defined.

(* ------------------------------------------------------------------ *)
(** ** The patterns of a value in InstructionParser                     *)
(* ------------------------------------------------------------------ *)

Lemma extractPatterns_prefix (v : string) (p : Pattern) :
  InstructionParser.extractPatterns v = [p] ->
  keyPrefix_of p
  = match Regex.exec Shape.keyPrefix_re v with
    | Some f => Some (Shape.group1 f)
    | None => None
    end.
Proof.
  unfold InstructionParser.extractPatterns.
  destruct (Regex.exec Shape.keyPrefix_re v) as [f|] eqn:Ek.
  - destruct (keyPrefix_sound _ _ Ek) as (_ & Kn & _).
    assert (S : InstructionParser.spreadPrefix (Some (Shape.group1 f))
                = Some (Shape.group1 f)).
    { unfold InstructionParser.spreadPrefix.
      destruct (Shape.group1 f); [contradiction | reflexivity]. }
    rewrite S. intros H.
    repeat (case_scrutinee H; try discriminate H).
    all: inversion H; subst; reflexivity.
  - intros H.
    repeat (case_scrutinee H; try discriminate H).
    all: inversion H; subst; reflexivity.
Qed.

(** X7. A value gives [InstructionParser] one pattern at most.  The
    pattern carries a key prefix exactly when the value begins with a
    non-empty text between brackets and goes on after it, and the
    prefix is that text; a regex pattern is never empty. *)
Theorem X7_patterns_of_a_value (v : string) :
  (InstructionParser.extractPatterns v = [] \/
   exists p, InstructionParser.extractPatterns v = [p]) /\
  (forall p k,
      InstructionParser.extractPatterns v = [p] ->
      keyPrefix_of p = Some k ->
      k <> "" /\ exists rest, v = "[" ++ k ++ "]" ++ rest /\ rest <> "") /\
  (forall p,
      InstructionParser.extractPatterns v = [p] ->
      keyPrefix_of p = None ->
      Regex.exec Shape.keyPrefix_re v = None) /\
  (forall value k,
      InstructionParser.extractPatterns v = [RegexPattern value k] ->
      value <> "").
Proof.
  split; [apply extractPatterns_one|].
  split; [|split].
  - intros p k H Hk. rewrite (extractPatterns_prefix v p H) in Hk.
    destruct (Regex.exec Shape.keyPrefix_re v) as [f|] eqn:Ek;
      [|discriminate Hk].
    inversion Hk; subst k.
    destruct (keyPrefix_sound _ _ Ek) as (Kb & Kn & Kr).
    split; [exact Kn|]. now exists (Shape.group2 f).
  - intros p H Hk. rewrite (extractPatterns_prefix v p H) in Hk.
    destruct (Regex.exec Shape.keyPrefix_re v); [discriminate Hk | reflexivity].
  - intros value k H. unfold InstructionParser.extractPatterns in H.
    repeat (case_scrutinee H; try discriminate H).
    all: inversion H; subst.
    all: match goal with
         | T : JS.truthy ?x = true |- ?x <> "" =>
             intros E; rewrite E in T; discriminate T
         end.
Qed.

Lemma X7_witness :
  InstructionParser.extractPatterns "[GRAPVH]>50"
  = [ComparisonPattern GT "0050" (Some "GRAPVH")] /\
  ("GRAPVH" <> "" /\
   exists rest, "[GRAPVH]>50" = "[" ++ "GRAPVH" ++ "]" ++ rest /\ rest <> "").
Proof.
  assert (E : InstructionParser.extractPatterns "[GRAPVH]>50"
              = [ComparisonPattern GT "0050" (Some "GRAPVH")])
    by (vm_compute; reflexivity).
  split; [exact E|].
  destruct (X7_patterns_of_a_value "[GRAPVH]>50") as (_ & P & _).
  exact (P _ "GRAPVH" E eq_refl).
Defined.

(* ------------------------------------------------------------------ *)
(** ** The pipeline of SearchPipelineBuilder                            *)
(* ------------------------------------------------------------------ *)

Section BuilderSemantics.
Variable compare : MongoOp -> string -> string -> bool.
Variable regexMatch : string -> string -> string -> bool.
Let eval_expr := Semantics.eval_expr compare regexMatch.
Let eval_filter := Semantics.eval_filter compare regexMatch.
Let eval_pipeline := Semantics.eval_pipeline compare regexMatch.

Lemma buildFieldCondition_none (fs : ParsedFieldSet) (field : PatternField) :
  SearchPipelineBuilder.buildFieldCondition fs field = None <->
  Ref.set_size fs = 0.
Proof.
  unfold SearchPipelineBuilder.buildFieldCondition, Ref.set_size.
  destruct (include fs), (exclude fs); cbn; split; intros H;
    first [reflexivity | discriminate H].
Qed.

(** The condition of one field, when there is one, accepts the
    documents that pass the patterns of the field. *)
Lemma eval_condition (doc : Semantics.Doc) (fs : ParsedFieldSet)
      (field : PatternField) :
  match SearchPipelineBuilder.buildFieldCondition fs field with
  | Some c =>
      eval_filter doc c
      = Some (Ref.passes (fun p => eval_expr doc (Ref.compiledExpr field p)) fs)
  | None =>
      Ref.passes (fun p => eval_expr doc (Ref.compiledExpr field p)) fs = true
  end.
Proof.
  destruct (exclude fs) as [|x xs] eqn:Ex.
  - unfold SearchPipelineBuilder.buildFieldCondition, Ref.passes.
    rewrite Ex. destruct (include fs) as [|i is_]; [reflexivity|].
    rewrite clauses_all. cbn [SearchPipelineBuilder.clauses
                                SearchPipelineBuilder.nonEmpty map existsb negb].
    rewrite andb_true_r.
    rewrite <- (map_map (Ref.compiledExpr field) FExpr).
    change (FExpr (Ref.compiledExpr field i)
              :: map FExpr (map (Ref.compiledExpr field) is_))
      with (map FExpr (Ref.compiledExpr field i
                         :: map (Ref.compiledExpr field) is_)).
    unfold eval_filter, eval_expr. rewrite eval_or.
    change (Ref.compiledExpr field i :: map (Ref.compiledExpr field) is_)
      with (map (Ref.compiledExpr field) (i :: is_)).
    now rewrite existsb_map.
  - assert (Hne : exclude fs <> []) by (rewrite Ex; discriminate).
    pose proof (eval_field_condition compare regexMatch doc fs field Hne) as E.
    destruct (SearchPipelineBuilder.buildFieldCondition fs field) as [c|];
      [|discriminate E].
    cbn [option_map] in E. inversion E as [E']. unfold eval_filter.
    rewrite E'. unfold Ref.passes, eval_expr. now rewrite Ex.
Qed.

Lemma eval_searchPipeline (doc : Semantics.Doc) (r : ParsedResult) :
  eval_pipeline doc (SearchPipelineBuilder.buildSearchPipeline r)
  = Some (Ref.passes (fun p => eval_expr doc (Ref.compiledExpr keys p))
                     (r_keys r)
          && Ref.passes (fun p => eval_expr doc (Ref.compiledExpr items p))
                        (r_items r)
          && Ref.passes (fun p => eval_expr doc (Ref.compiledExpr lines p))
                        (r_lines r)
          && Ref.passes (fun p => eval_expr doc (Ref.compiledExpr brands p))
                        (r_brands r)).
Proof.
  unfold SearchPipelineBuilder.buildSearchPipeline.
  pose proof (eval_condition doc (r_keys r) keys) as K.
  pose proof (eval_condition doc (r_items r) items) as I.
  pose proof (eval_condition doc (r_lines r) lines) as L.
  pose proof (eval_condition doc (r_brands r) brands) as B.
  unfold eval_filter in *.
  destruct (SearchPipelineBuilder.buildFieldCondition (r_keys r) keys);
    destruct (SearchPipelineBuilder.buildFieldCondition (r_items r) items);
    destruct (SearchPipelineBuilder.buildFieldCondition (r_lines r) lines);
    destruct (SearchPipelineBuilder.buildFieldCondition (r_brands r) brands);
    cbn [SearchPipelineBuilder.optList app];
    unfold eval_pipeline;
    cbn [Semantics.eval_pipeline Semantics.eval_stage Semantics.eval_filter];
    rewrite ?K, ?I, ?L, ?B; cbn [option_map forallb];
    rewrite ?andb_true_r, ?andb_true_l, ?andb_assoc; reflexivity.
Qed.
End BuilderSemantics.

Lemma patterns_none (r : ParsedResult) :
  Ref.patterns_in r = 0 <->
  Ref.set_size (r_keys r) = 0 /\ Ref.set_size (r_items r) = 0 /\
  Ref.set_size (r_lines r) = 0 /\ Ref.set_size (r_brands r) = 0.
Proof. unfold Ref.patterns_in. lia. Qed.

(** X8. [buildSearchPipeline] gives no stage for a result without
    patterns and exactly one [$match] stage otherwise, whatever the
    description is.  Whenever the reading of the stage, leaf by leaf,
    has an answer for a document, the answer is whether the document
    passes the patterns of all four fields: for each field one of the
    included patterns, when there is any, and none of the excluded
    ones. *)
Theorem X8_search_pipeline :
  forall (compare : MongoOp -> string -> string -> bool)
         (regexMatch : string -> string -> string -> bool)
         (r : ParsedResult),
    (SearchPipelineBuilder.buildSearchPipeline r = [] <->
     Ref.patterns_in r = 0) /\
    List.length (SearchPipelineBuilder.buildSearchPipeline r) <= 1 /\
    (forall d,
        SearchPipelineBuilder.buildSearchPipeline (set_desc d r)
        = SearchPipelineBuilder.buildSearchPipeline r) /\
    (forall doc b,
        Semantics.eval_pipeline compare regexMatch doc
          (SearchPipelineBuilder.buildSearchPipeline r) = Some b ->
        b = Ref.passes (fun p => Semantics.eval_expr compare regexMatch doc
                                   (Ref.compiledExpr keys p)) (r_keys r)
            && Ref.passes (fun p => Semantics.eval_expr compare regexMatch doc
                                      (Ref.compiledExpr items p)) (r_items r)
            && Ref.passes (fun p => Semantics.eval_expr compare regexMatch doc
                                      (Ref.compiledExpr lines p)) (r_lines r)
            && Ref.passes (fun p => Semantics.eval_expr compare regexMatch doc
                                      (Ref.compiledExpr brands p))
                          (r_brands r)).
Proof.
  intros compare regexMatch r.
  split; [|split; [|split]].
  - pose proof (buildFieldCondition_none (r_keys r) keys) as K.
    pose proof (buildFieldCondition_none (r_items r) items) as I.
    pose proof (buildFieldCondition_none (r_lines r) lines) as L.
    pose proof (buildFieldCondition_none (r_brands r) brands) as B.
    rewrite patterns_none.
    unfold SearchPipelineBuilder.buildSearchPipeline.
    destruct (SearchPipelineBuilder.buildFieldCondition (r_keys r) keys);
      destruct (SearchPipelineBuilder.buildFieldCondition (r_items r) items);
      destruct (SearchPipelineBuilder.buildFieldCondition (r_lines r) lines);
      destruct (SearchPipelineBuilder.buildFieldCondition (r_brands r) brands);
      cbn [SearchPipelineBuilder.optList app];
      intuition discriminate.
  - unfold SearchPipelineBuilder.buildSearchPipeline.
    destruct (_ ++ _)%list; cbn; lia.
  - intros d. reflexivity.
  - intros doc b H. rewrite eval_searchPipeline in H. now injection H as <-.
Qed.

(* ------------------------------------------------------------------ *)
(** ** The two compilers on one token                                   *)
(* ------------------------------------------------------------------ *)

(** X9. For pattern data without an extracted value the two compilers
    agree.  Under keys, lines and brands [ParserPipeline] builds the
    very expression [SearchPipelineBuilder] builds for the pattern;
    under every field the two expressions accept the same documents;
    and the stage the cached path stores for one token, included or
    excluded, accepts the same documents as the pipeline
    [SearchPipelineBuilder] builds for the result that holds that one
    pattern. *)
Theorem X9_compilers_agree :
  forall (compare : MongoOp -> string -> string -> bool)
         (regexMatch : string -> string -> string -> bool)
         (f : PatternField) (pd : InstructionPatternData),
    Ref.pd_extracted pd = None ->
    (f <> items ->
     SearchPipelineBuilder.buildExpr (ParserPipeline.patternDataToPattern pd) f
     = Some (ParserPipeline.createPositiveExpr f pd)) /\
    (forall doc,
        option_map (Semantics.eval_filter compare regexMatch doc)
          (SearchPipelineBuilder.buildExpr
             (ParserPipeline.patternDataToPattern pd) f)
        = Some (Semantics.eval_filter compare regexMatch doc
                  (ParserPipeline.createPositiveExpr f pd))) /\
    (forall excl d doc,
        Semantics.eval_pipeline compare regexMatch doc
          [ParserPipeline.buildStageFromData f pd excl]
        = Semantics.eval_pipeline compare regexMatch doc
            (SearchPipelineBuilder.buildSearchPipeline
               (push f excl (ParserPipeline.patternDataToPattern pd)
                     (emptyResult d)))).
Proof.
  intros compare regexMatch f pd He.
  split; [|split].
  - intros Hf.
    destruct f; try contradiction;
      destruct pd as [[[|a k]|] o v|[[|a k]|] s e|[[|a k]|] v x|[[|a k]|] v];
      reflexivity.
  - intros doc.
    destruct f;
      destruct pd as [[[|a k]|] o v|[[|a k]|] s e|[[|a k]|] v x|[[|a k]|] v];
      cbn in He; try discriminate He; subst;
      cbn; rewrite ?andb_true_r; reflexivity.
  - intros excl d doc.
    destruct f;
      destruct pd as [[[|a k]|] o v|[[|a k]|] s e|[[|a k]|] v x|[[|a k]|] v];
      cbn in He; try discriminate He; subst;
      destruct excl; cbn; rewrite ?andb_true_r, ?orb_false_r; reflexivity.
Qed.

Lemma X9_witness :
  let doc := {| Semantics.d_line := "MEX"; Semantics.d_brand := "RC";
                Semantics.d_code := "0030" |} in
  Semantics.eval_pipeline (fun _ a b => String.eqb a b) (fun _ _ _ => true) doc
    [ParserPipeline.buildStageFromData
       items (PDRange (Some "RC$") "0020" "0050") true]
  = Semantics.eval_pipeline (fun _ a b => String.eqb a b) (fun _ _ _ => true)
      doc
      (SearchPipelineBuilder.buildSearchPipeline
         (push items true
               (ParserPipeline.patternDataToPattern
                  (PDRange (Some "RC$") "0020" "0050"))
               (emptyResult ""))).
Proof.
  intros doc.
  destruct (X9_compilers_agree (fun _ a b => String.eqb a b)
              (fun _ _ _ => true) items
              (PDRange (Some "RC$") "0020" "0050") eq_refl) as (_ & _ & S).
  exact (S true "" doc).
Defined.

(* ------------------------------------------------------------------ *)
(** ** The description of the cached path, in closed form               *)
(* ------------------------------------------------------------------ *)

Lemma join_cons (p q : string) (l : list string) :
  JS.join " " (p :: q :: l) = p ++ " " ++ JS.join " " (q :: l).
Proof. reflexivity. Qed.

Lemma join_app (l1 l2 : list string) :
  l1 <> [] -> l2 <> [] ->
  JS.join " " (l1 ++ l2) = JS.join " " l1 ++ " " ++ JS.join " " l2.
Proof.
  intros H1 H2. destruct l1 as [|p l1]; [contradiction|]. clear H1.
  revert p. induction l1 as [|q l1 IH]; intros p.
  - destruct l2 as [|r l2]; [contradiction|]. reflexivity.
  - cbn [app]. rewrite join_cons.
    change ((q :: l1) ++ l2)%list with (q :: (l1 ++ l2))%list.
    destruct (l1 ++ l2)%list eqn:E.
    + destruct l1; [destruct l2; [contradiction | discriminate E]
                   | discriminate E].
    + rewrite <- E. change (q :: (l1 ++ l2))%list with ((q :: l1) ++ l2)%list.
      rewrite (IH q), join_cons, !append_assoc. reflexivity.
Qed.

Lemma lower_join (l : list string) :
  JS.toLowerCase (JS.join " " l) = JS.join " " (map JS.toLowerCase l).
Proof.
  destruct l as [|p l]; [reflexivity|]. revert p.
  induction l as [|q l IH]; intros p; [reflexivity|].
  cbn [map]. rewrite !join_cons, !toLowerCase_app, (IH q). reflexivity.
Qed.

Lemma nonDynamic_pure (l : list string) :
  ParserPipeline.nonDynamicTokens
    (map Ref.toToken l)
    (map (fun tk => Ref.compileToken (ParserPipeline.tokenStr tk))
         (map Ref.toToken l))
  = filter (fun t => negb (Ref.compiles t)) l.
Proof.
  induction l as [|t l IH]; [reflexivity|].
  cbn [map ParserPipeline.nonDynamicTokens filter Ref.toToken
       ParserPipeline.tokenStr].
  unfold Ref.compiles at 1.
  destruct (Ref.compileToken t); cbn [negb]; now rewrite <- IH.
Qed.

Lemma Forall_solid_lower (l : list string) :
  Forall (fun x => Ref.solid x = true) l ->
  Forall (fun x => Ref.solid x = true) (map JS.toLowerCase l).
Proof.
  induction 1; cbn [map]; constructor; auto. now apply toLowerCase_solid.
Qed.

(** The description of the pure result: the parts that are no tokens,
    in lower case, then the tokens that do not compile. *)
Lemma pureResult_desc (input : string) :
  desc (ParserPipeline.parseResult (Ref.pureResult input))
  = JS.join " "
      (map JS.toLowerCase (filter Ref.staticPart (Ref.parts input))
       ++ filter (fun t => negb (Ref.compiles t))
                 (filter Ref.dynamicPart (Ref.parts input))).
Proof.
  unfold Ref.pureResult. rewrite assemble_desc, tokenizeInput_spec.
  cbn [fst snd]. rewrite nonDynamic_pure.
  set (S := filter Ref.staticPart (Ref.parts input)).
  set (N := filter (fun t => negb (Ref.compiles t))
                   (filter Ref.dynamicPart (Ref.parts input))).
  assert (HS : Forall (fun x => Ref.solid x = true) S).
  { apply Forall_forall. intros p Hp. apply filter_In in Hp as [Hp _].
    now apply (parts_solid input). }
  assert (HN : Forall (fun x => Ref.solid x = true) N).
  { apply Forall_forall. intros p Hp. apply filter_In in Hp as [Hp _].
    apply filter_In in Hp as [Hp _]. now apply (parts_solid input). }
  rewrite (trim_spaced S HS), lower_join.
  pose proof (Forall_solid_lower S HS) as HL.
  destruct (map JS.toLowerCase S) as [|p l] eqn:ES.
  - cbn [app]. change (JS.join " " []) with "". cbn [append].
    rewrite <- (append_nil_r (JS.join " " N)).
    destruct N as [|q N']; [reflexivity|].
    rewrite append_nil_r.
    change (String " " (JS.join " " (q :: N')))
      with (" " ++ JS.join " " (q :: N')).
    unfold JS.trim. rewrite trimStart_app. cbn [JS.trimStart JS.is_space].
    change (JS.is_space " ") with true. cbv iota. cbn [JS.truthy].
    apply trim_solid. now apply join_solid.
  - destruct N as [|q N'].
    + rewrite app_nil_r. change (JS.join " " []) with "".
      rewrite trim_app_space. apply trim_solid. now apply join_solid.
    + rewrite join_app by discriminate.
      apply trim_solid. rewrite <- join_app by discriminate.
      change ((p :: l) ++ q :: N')%list with (p :: (l ++ q :: N'))%list.
      apply join_solid.
      change (p :: (l ++ q :: N'))%list with ((p :: l) ++ q :: N')%list.
      apply Forall_app. split; assumption.
Qed.

(** X10. Over a cache of consistent entries, the description a request
    returns is made of the parts of the instruction that are no dynamic
    tokens, each in lower case and in their order, followed by the
    dynamic tokens that do not compile, in their own case, all joined
    by single blanks. *)
Theorem X10_description_of_a_request (store : Store) (input : string)
        (rp : ParserPipeline.ResultPipeline) (store' : Store) :
  Forall Ref.consistent store ->
  ParserPipeline.getPipelineForInstruction store (Some input) = (Ok rp, store') ->
  desc (ParserPipeline.parseResult rp)
  = JS.join " "
      (map JS.toLowerCase (filter Ref.staticPart (Ref.parts input))
       ++ filter (fun t => negb (Ref.compiles t))
                 (filter Ref.dynamicPart (Ref.parts input))).
Proof.
  intros Hc H.
  destruct (cache_transparent store input rp store' Hc H) as [-> _].
  apply pureResult_desc.
Qed.

Lemma X10_witness :
  exists rp store',
    ParserPipeline.getPipelineForInstruction
      [] (Some "Molduras  line:ABC items:ABX Rojas") = (Ok rp, store') /\
    desc (ParserPipeline.parseResult rp) = "molduras rojas items:ABX".
Proof.
  eexists. eexists. split; [vm_compute; reflexivity|].
  refine (eq_trans
            (X10_description_of_a_request
               [] "Molduras  line:ABC items:ABX Rojas" _ _ (Forall_nil _) _) _);
    vm_compute; reflexivity.
Defined.

(* ------------------------------------------------------------------ *)
(** ** The description of InstructionParser                             *)
(* ------------------------------------------------------------------ *)

Lemma trimStart_suffix (s : string) :
  exists pre, s = pre ++ JS.trimStart s.
Proof.
  induction s as [|a s IH]; [now exists ""|]. cbn [JS.trimStart].
  destruct (JS.is_space a).
  - destruct IH as [pre E]. exists (String a pre). cbn. now rewrite <- E.
  - now exists "".
Qed.

Lemma trimStart_starts (s : string) :
  JS.trimStart s = "" \/ Ref.starts_solid (JS.trimStart s) = true.
Proof.
  induction s as [|a s IH]; [now left|]. cbn [JS.trimStart].
  destruct (JS.is_space a) eqn:E; [exact IH|]. right. cbn. now rewrite E.
Qed.

Lemma starts_solid_app (s t : string) :
  s <> "" -> Ref.starts_solid (s ++ t) = Ref.starts_solid s.
Proof. destruct s; [contradiction | reflexivity]. Qed.

Lemma rev_nonempty (s : string) : s <> "" -> JS.rev s <> "".
Proof.
  destruct s as [|a s]; [contradiction|]. intros _. cbn.
  destruct (JS.rev s); discriminate.
Qed.

(** What [trim] returns is empty or has no blank at either end. *)
Lemma trim_result (s : string) :
  JS.trim s = "" \/ Ref.solid (JS.trim s) = true.
Proof.
  unfold JS.trim, JS.trimEnd.
  set (y := JS.trimStart s).
  destruct (trimStart_starts (JS.rev y)) as [E|E].
  - left. now rewrite E.
  - right. set (z := JS.trimStart (JS.rev y)) in *.
    assert (Hz : z <> "") by (intros Ez; rewrite Ez in E; discriminate E).
    destruct (trimStart_suffix (JS.rev y)) as [pre Hp]. fold z in Hp.
    assert (Hy : y = JS.rev z ++ JS.rev pre).
    { rewrite <- (rev_involutive y), Hp. apply rev_app. }
    unfold Ref.solid. rewrite rev_involutive, E, andb_true_r.
    destruct (trimStart_starts s) as [Es|Es]; fold y in Es.
    + exfalso. rewrite Es in Hy. apply rev_nonempty in Hz.
      destruct (JS.rev z); [contradiction | discriminate Hy].
    + rewrite Hy in Es. rewrite starts_solid_app in Es; [exact Es|].
      now apply rev_nonempty.
Qed.

Lemma trim_idempotent (s : string) : JS.trim (JS.trim s) = JS.trim s.
Proof.
  destruct (trim_result s) as [E|E]; [now rewrite E | now apply trim_solid].
Qed.

Lemma spaced_cons (t : string) (l : list string) :
  Ref.spaced (t :: l) = t ++ " " ++ Ref.spaced l.
Proof. reflexivity. Qed.

(** What the loop adds to the description: tokens of its input, each
    followed by a blank. *)
Lemma parseTokens_desc (n : nat) :
  forall tokens r r',
    List.length tokens <= n ->
    InstructionParser.parseTokens tokens r = Ok r' ->
    exists l,
      (forall t, In t l -> In t tokens) /\
      desc r' = desc r ++ Ref.spaced l.
Proof.
  induction n as [|n IH]; intros tokens r r' Hn H.
  - destruct tokens; [|cbn in Hn; lia]. cbn in H. inversion H; subst.
    exists []. split; [intros t []|]. now rewrite append_nil_r.
  - destruct tokens as [|token rest].
    + cbn in H. inversion H; subst.
      exists []. split; [intros t []|]. now rewrite append_nil_r.
    + cbn [List.length] in Hn.
      pose proof (parseTokens_turn token rest r) as T. cbv zeta in T.
      destruct (Ref.merged _ _ rest).
      * destruct T as (next & rest' & -> & T). rewrite T in H.
        apply IH in H as (l & Hin & E); [|cbn [List.length] in Hn; lia].
        exists l. split; [intros t Ht; right; right; now apply Hin|].
        now rewrite E, push_desc.
      * destruct T as [(f & p & _ & _ & T)|[(_ & _ & T)|[(_ & _ & T)|(_ & _ & T)]]];
          rewrite T in H; try discriminate H.
        -- apply IH in H as (l & Hin & E); [|lia].
           exists l. split; [intros t Ht; right; now apply Hin|].
           now rewrite E, push_desc.
        -- apply IH in H as (l & Hin & E); [|lia].
           exists (token :: l). split.
           ++ intros t [<-|Ht]; [now left | right; now apply Hin].
           ++ rewrite E. cbn [InstructionParser.addDesc set_desc desc].
              rewrite spaced_cons, !append_assoc. reflexivity.
        -- apply IH in H as (l & Hin & E); [|lia].
           exists l. split; [intros t Ht; right; now apply Hin | exact E].
Qed.

(** X11. The description [InstructionParser] returns is made of tokens
    of the instruction, in their own case, each followed by a blank,
    and trimmed; when the instruction has an alias prefix, so that it
    was cut into parts, it is those tokens joined by single blanks.
    Trimming it again changes nothing. *)
Theorem X11_parser_description (s : string) (r : ParsedResult) :
  InstructionParser.parse s = Ok r ->
  exists l,
    (forall t, In t l -> In t (InstructionParser.tokenize s)) /\
    desc r = JS.trim (Ref.spaced l) /\
    (Regex.test InstructionParser.prefix_re s = true ->
     desc r = JS.join " " l) /\
    JS.trim (desc r) = desc r.
Proof.
  unfold InstructionParser.parse.
  destruct (String.eqb (JS.trim s) "") eqn:Eb.
  - intros H. inversion H; subst r. exists [].
    split; [intros t []|]. repeat split.
  - unfold InstructionParser.parseInstruction.
    destruct (InstructionParser.parseTokens _ _) as [r0|e] eqn:E;
      [|discriminate].
    intros H. inversion H; subst r. clear H.
    destruct (parseTokens_desc _ _ _ _ (le_n _) E) as (l & Hin & Ed).
    cbn [desc emptyResult append] in Ed.
    exists l. cbn [set_desc desc]. rewrite Ed.
    split; [exact Hin|]. split; [reflexivity|]. split.
    + intros Hp. apply trim_spaced. apply Forall_forall. intros t Ht.
      apply Hin in Ht. unfold InstructionParser.tokenize in Ht.
      rewrite Hp in Ht. cbn [negb] in Ht. now apply (parts_solid s).
    + apply trim_idempotent.
Qed.

Lemma X11_witness :
  exists l,
    (forall t, In t l ->
       In t (InstructionParser.tokenize "Molduras line:ABC foo:Bar -x")) /\
    desc (push lines false (ValuePattern "ABC" None)
               (emptyResult "Molduras foo:Bar -x"))
    = JS.trim (Ref.spaced l) /\
    (Regex.test InstructionParser.prefix_re "Molduras line:ABC foo:Bar -x"
     = true ->
     desc (push lines false (ValuePattern "ABC" None)
                (emptyResult "Molduras foo:Bar -x"))
     = JS.join " " l) /\
    JS.trim (desc (push lines false (ValuePattern "ABC" None)
                        (emptyResult "Molduras foo:Bar -x")))
    = desc (push lines false (ValuePattern "ABC" None)
                 (emptyResult "Molduras foo:Bar -x")).
Proof.
  apply (X11_parser_description "Molduras line:ABC foo:Bar -x").
  vm_compute. reflexivity.
Defined.

(* ------------------------------------------------------------------ *)
(** ** The cached pipeline against the pipeline of its parse result     *)
(* ------------------------------------------------------------------ *)

Section CachedAgainstSearch.
Variable compare : MongoOp -> string -> string -> bool.
Variable regexMatch : string -> string -> string -> bool.
Variable doc : Semantics.Doc.

Let accepts (f : PatternField) (p : Pattern) : bool :=
  Semantics.eval_expr compare regexMatch doc (Ref.compiledExpr f p).

(** A stage the reading has an answer for reads as the expression
    [SearchPipelineBuilder] compiles for the same pattern, negated for
    an excluding entry. *)
Lemma stage_reading (f : PatternField) (pd : InstructionPatternData)
      (excl b : bool) :
  Semantics.eval_stage compare regexMatch doc
    (ParserPipeline.buildStageFromData f pd excl) = Some b ->
  b = xorb excl (accepts f (ParserPipeline.patternDataToPattern pd)).
Proof.
  unfold accepts.
  destruct f;
    destruct pd as [[[|a k]|] o v|[[|a k]|] s e|[[|a k]|] v [x|]|[[|a k]|] v];
    destruct excl; cbn; intros H; try discriminate H;
    injection H as <-;
    rewrite ?andb_true_r, ?orb_false_r; reflexivity.
Qed.

(** Every included pattern of the result accepts the document and no
    excluded one does. *)
Let settled (r : ParsedResult) : Prop :=
  forall f,
    (forall p, In p (include (field_set f r)) -> accepts f p = true) /\
    (forall p, In p (exclude (field_set f r)) -> accepts f p = false).

Lemma settled_push (f : PatternField) (excl : bool) (p : Pattern)
      (r : ParsedResult) :
  settled r -> xorb excl (accepts f p) = true -> settled (push f excl p r).
Proof.
  intros S X g. destruct (S g) as [Si Se].
  destruct f, g, excl; cbn [push field_set include exclude xorb] in *;
    split; intros q Hq;
    try (apply in_app_or in Hq as [Hq|[<-|[]]]);
    first [ now apply Si | now apply Se
          | exact X
          | now destruct (accepts _ _) ].
Qed.

Lemma settled_passes (r : ParsedResult) (f : PatternField) :
  settled r -> Ref.passes (accepts f) (field_set f r) = true.
Proof.
  intros S. destruct (S f) as [Si Se]. unfold Ref.passes.
  apply andb_true_iff. split.
  - destruct (include (field_set f r)) as [|p l]; [reflexivity|].
    cbn [existsb]. rewrite (Si p (or_introl eq_refl)). reflexivity.
  - apply negb_true_iff.
    induction (exclude (field_set f r)) as [|p l IH]; [reflexivity|].
    cbn [existsb]. rewrite (Se p (or_introl eq_refl)). cbn [orb].
    apply IH. intros q Hq. apply Se. now right.
Qed.

Lemma staged_settled (es : list Instruction) :
  Forall Ref.wellStaged es ->
  forall r,
    settled r ->
    Semantics.eval_pipeline compare regexMatch doc (map matchStage es)
    = Some true ->
    settled (fold_left Ref.pushInstruction es r).
Proof.
  induction 1 as [|i es W F IH]; intros r S H; [exact S|].
  cbn [map Semantics.eval_pipeline] in H. cbn [fold_left].
  destruct (Semantics.eval_stage compare regexMatch doc (matchStage i))
    as [a|] eqn:Ea; [|discriminate H].
  destruct (Semantics.eval_pipeline compare regexMatch doc (map matchStage es))
    as [b|] eqn:Eb; [|discriminate H].
  injection H as H. apply andb_true_iff in H as [-> ->].
  apply IH; [|reflexivity].
  unfold Ref.pushInstruction. rewrite W in Ea.
  destruct (field i) as [f|].
  - apply settled_push; [exact S|].
    apply stage_reading in Ea.
    unfold Ref.excluding in Ea. now rewrite <- Ea.
  - destruct (Ref.excluding i); discriminate Ea.
Qed.

Lemma staged_implies_search (d : string) (es : list Instruction) :
  Forall Ref.wellStaged es ->
  Semantics.eval_pipeline compare regexMatch doc (map matchStage es)
  = Some true ->
  Semantics.eval_pipeline compare regexMatch doc
    (SearchPipelineBuilder.buildSearchPipeline
       (fold_left Ref.pushInstruction es (emptyResult d)))
  = Some true.
Proof.
  intros W H. rewrite eval_searchPipeline.
  assert (S : settled (fold_left Ref.pushInstruction es
                                 (emptyResult d))).
  { apply staged_settled; [exact W| |exact H].
    intros f. destruct f; split; intros p []. }
  pose proof (settled_passes _ keys S) as K.
  pose proof (settled_passes _ items S) as I.
  pose proof (settled_passes _ lines S) as L.
  pose proof (settled_passes _ brands S) as B.
  unfold accepts in K, I, L, B. cbn [field_set] in K, I, L, B.
  now rewrite K, I, L, B.
Qed.
End CachedAgainstSearch.

Lemma compileToken_staged (t : string) (i : Instruction) :
  Ref.compileToken t = Some i -> Ref.wellStaged i.
Proof.
  unfold Ref.compileToken.
  destruct (ParserPipeline.parseSingleToken _) as [[[f|] pd]|];
    try discriminate.
  intros H. injection H as <-.
  unfold Ref.wellStaged, Ref.compiled, Ref.excluding.
  cbn [matchStage field patternData type_].
  now destruct (JS.startsWith t "-").
Qed.

Lemma parseArray_In (rs : list (option Instruction)) (i : Instruction) :
  In i (ParserPipeline.parseArray rs) -> In (Some i) rs.
Proof.
  induction rs as [|[j|] rs IH]; cbn; [tauto| |tauto].
  intros [->|H]; [now left | right; now apply IH].
Qed.

Lemma pureResult_staged (input : string) :
  Forall Ref.wellStaged
    (ParserPipeline.parseArray
       (map (fun tk => Ref.compileToken (ParserPipeline.tokenStr tk))
            (fst (ParserPipeline.tokenizeInput input)))).
Proof.
  apply Forall_forall. intros i Hi. apply parseArray_In in Hi.
  apply in_map_iff in Hi as (tk & E & _).
  now apply compileToken_staged in E.
Qed.

(** X12. For an answer got on a consistent cache, every document the
    returned pipeline accepts is also accepted by the pipeline
    [SearchPipelineBuilder] builds for the returned parse result.  The
    converse fails: the stages of the cached path are conjoined, so two
    included patterns of one field must both accept the document, while
    [SearchPipelineBuilder] asks for one of them. *)
Theorem X12_cached_pipeline_is_stricter :
  forall (compare : MongoOp -> string -> string -> bool)
         (regexMatch : string -> string -> string -> bool),
    (forall store input rp store' doc,
        Forall Ref.consistent store ->
        ParserPipeline.getPipelineForInstruction store (Some input)
        = (Ok rp, store') ->
        Semantics.eval_pipeline compare regexMatch doc
          (ParserPipeline.pipeline rp) = Some true ->
        Semantics.eval_pipeline compare regexMatch doc
          (SearchPipelineBuilder.buildSearchPipeline
             (ParserPipeline.parseResult rp)) = Some true) /\
    (forall doc,
        compare op_eq (Semantics.d_line doc) "ABC" = true ->
        compare op_eq (Semantics.d_line doc) "XYZ" = false ->
        exists rp store',
          ParserPipeline.getPipelineForInstruction [] (Some "line:ABC line:XYZ")
          = (Ok rp, store') /\
          Semantics.eval_pipeline compare regexMatch doc
            (ParserPipeline.pipeline rp) = Some false /\
          Semantics.eval_pipeline compare regexMatch doc
            (SearchPipelineBuilder.buildSearchPipeline
               (ParserPipeline.parseResult rp)) = Some true).
Proof.
  intros compare regexMatch. split.
  - intros store input rp store' doc Hc H Hp.
    apply cache_transparent in H as [-> _]; [|exact Hc].
    unfold Ref.pureResult, Ref.assemble in *.
    cbn [ParserPipeline.pipeline ParserPipeline.parseResult] in *.
    apply staged_implies_search; [apply pureResult_staged | exact Hp].
  - intros doc Ha Hx. eexists. eexists.
    split; [vm_compute; reflexivity|].
    cbn. rewrite Ha, Hx. split; reflexivity.
Qed.

Lemma X12_witness :
  let compare := fun (_ : MongoOp) (a b : string) => String.eqb a b in
  let regexMatch := fun (_ _ _ : string) => false in
  let doc := {| Semantics.d_line := "ABC"; Semantics.d_brand := "RC";
                Semantics.d_code := "0030" |} in
  Semantics.eval_pipeline compare regexMatch doc
    (SearchPipelineBuilder.buildSearchPipeline
       (ParserPipeline.parseResult (Ref.pureResult "line:ABC -items:>50")))
  = Some true.
Proof.
  intros compare regexMatch doc.
  refine (proj1 (X12_cached_pipeline_is_stricter compare regexMatch)
                [] "line:ABC -items:>50" _
                (snd (ParserPipeline.getPipelineForInstruction
                        [] (Some "line:ABC -items:>50")))
                doc _ _ _).
  - constructor.
  - vm_compute. reflexivity.
  - vm_compute. reflexivity.
Defined.

(* ------------------------------------------------------------------ *)
(** ** The field a value gets from its shape                            *)
(* ------------------------------------------------------------------ *)

Lemma items_re_length (v : string) :
  Regex.test Shape.items_re v = true -> String.length v = 10.
Proof.
  intros H. apply test_true_exec in H as [f H].
  apply exec_bol_sound in H as (rest' & c' & M & _).
  open_re M. inv_matches.
  all: reflexivity.
Qed.

(** For a value without any of the four shapes the second loop of
    [determineField] answers by the types of the patterns alone. *)
Lemma byPatternType_shapeless (v : string) (ps : list Pattern) :
  Regex.test Shape.items_re v = false ->
  Regex.test Shape.keys_re v = false ->
  Regex.test Shape.lines_re v = false ->
  Regex.test Shape.brands_re v = false ->
  InstructionParser.byPatternType ps v
  = if existsb (fun p => negb (Ref.valuePattern p)) ps
    then Some items else None.
Proof.
  intros I K L B.
  induction ps as [|[] ps IH]; cbn [InstructionParser.byPatternType existsb
                                     Ref.valuePattern negb orb];
    rewrite ?I, ?K, ?L, ?B; first [reflexivity | exact IH].
Qed.

(** X13. The field [InstructionParser.determineField] gives a value:
    keys for five or six capitals or digits, lines for three, brands
    for two, items for the shape of an item identifier; a value with
    none of these shapes gets items when one of its patterns is no
    plain value, and no field otherwise.  The shape tests of the second
    loop never decide.  Whenever a field is found it is the one
    [ParserPipeline.determineField] gives, which answers items where
    none is found. *)
Theorem X13_field_by_shape (v : string) (ps : list Pattern) :
  (InstructionParser.determineField v ps = Some keys <->
   5 <= String.length v <= 6 /\ Ref.all_chars JS.is_upper_alnum v = true) /\
  (InstructionParser.determineField v ps = Some lines <->
   String.length v = 3 /\ Ref.all_chars JS.is_upper_alnum v = true) /\
  (InstructionParser.determineField v ps = Some brands <->
   String.length v = 2 /\ Ref.all_chars JS.is_upper_alnum v = true) /\
  (InstructionParser.determineField v ps = Some items <->
   Regex.test Shape.items_re v = true \/
   (Ref.codeShaped v = false /\
    existsb (fun p => negb (Ref.valuePattern p)) ps = true)) /\
  (forall f, InstructionParser.determineField v ps = Some f ->
             ParserPipeline.determineField v = f) /\
  (InstructionParser.determineField v ps = None ->
   ParserPipeline.determineField v = items).
Proof.
  pose proof (keys_re_spec v) as K.
  pose proof (lines_re_spec v) as L.
  pose proof (brands_re_spec v) as B.
  pose proof (items_re_length v) as I.
  pose proof (shapes_codeShaped v) as C. cbn [existsb] in C.
  pose proof (byPatternType_shapeless v ps) as P.
  unfold InstructionParser.determineField, ParserPipeline.determineField,
    InstructionParser.fieldPatterns.
  cbn [InstructionParser.firstShape].
  destruct (Regex.test Shape.keys_re v) eqn:Ek;
    destruct (Regex.test Shape.items_re v) eqn:Ei;
    destruct (Regex.test Shape.lines_re v) eqn:El;
    destruct (Regex.test Shape.brands_re v) eqn:Eb;
    cbn [orb] in C;
    try (rewrite P by reflexivity; clear P;
         destruct (existsb _ ps));
    repeat split; intros; try discriminate; try congruence;
    repeat match goal with
           | H : _ /\ _ |- _ => destruct H
           | H : _ \/ _ |- _ => destruct H
           | H : true = true <-> _ |- _ => destruct (proj1 H eq_refl); clear H
           | H : false = true <-> _ |- _ =>
               assert (~ _) by (intros Q; apply H in Q; discriminate Q); clear H
           | H : true = true -> _ |- _ => specialize (H eq_refl)
           end;
    repeat match goal with
           | H : ~ (?A /\ ?B), H' : ?B |- _ =>
               assert (~ A) by (intros Q; apply H; split; assumption); clear H
           end;
    try discriminate; try congruence; try lia;
    try (exfalso; lia); auto.
Qed.

Lemma X13_witness :
  InstructionParser.determineField ">50" [ComparisonPattern GT "0050" None]
  = Some items /\
  ParserPipeline.determineField ">50" = items.
Proof.
  destruct (X13_field_by_shape ">50" [ComparisonPattern GT "0050" None])
    as (_ & _ & _ & I & A & _).
  assert (E : InstructionParser.determineField
                ">50" [ComparisonPattern GT "0050" None] = Some items)
    by (apply I; right; split; vm_compute; reflexivity).
  split; [exact E | exact (A items E)].
Defined.

(* ------------------------------------------------------------------ *)
(** ** What the tokenizer leaves out                                    *)
(* ------------------------------------------------------------------ *)

Lemma unspaced_app (s t : string) :
  Ref.unspaced (s ++ t) = Ref.unspaced s ++ Ref.unspaced t.
Proof.
  induction s as [|a s IH]; [reflexivity|]. cbn [append Ref.unspaced].
  destruct (JS.is_space a); [exact IH | cbn [append]; now rewrite IH].
Qed.

Lemma concat_cons (x : string) (l : list string) :
  String.concat "" (x :: l) = x ++ String.concat "" l.
Proof.
  destruct l; cbn [String.concat]; [now rewrite append_nil_r | reflexivity].
Qed.

Lemma match_all_unspaced input :
  forall fuel rest,
    String.length rest < fuel ->
    Ref.unspaced
      (String.concat "" (Regex.match_all_from fuel input Shape.token_re rest))
    = Ref.unspaced rest.
Proof.
  induction fuel as [|fuel IH]; intros rest Hf; [inversion Hf|].
  cbn [Regex.match_all_from].
  destruct (Regex.match_here input Shape.token_re rest) as [f|] eqn:E.
  - pose proof (token_solid _ _ _ E) as S.
    apply match_here_sound in E as [_ E].
    assert (L : String.length rest
                = String.length (Regex.matched f)
                  + String.length (Regex.after f))
      by (rewrite E at 1; apply length_append).
    assert (N : 0 < String.length (Regex.matched f))
      by (destruct (Regex.matched f); [discriminate S | cbn; lia]).
    replace (Nat.ltb (String.length (Regex.after f)) (String.length rest))
      with true by (symmetry; apply Nat.ltb_lt; lia).
    rewrite concat_cons, unspaced_app, IH by lia.
    now rewrite <- unspaced_app, <- E.
  - destruct rest as [|a rest]; [reflexivity|].
    destruct (JS.is_space a) eqn:Ha.
    + cbn [Ref.unspaced]. rewrite Ha. apply IH.
      cbn [String.length] in Hf. lia.
    + destruct (token_here_some input a rest Ha) as [f F].
      rewrite F in E. discriminate E.
Qed.

(** X14. Tokenizing drops nothing but blanks: the tokens of
    [InstructionParser.tokenize], and the matches of the token
    expression the cached path cuts its input with, put together in
    their order are the instruction without the blanks between them. *)
Theorem X14_tokenizer_drops_only_blanks (input : string) :
  Ref.unspaced (String.concat "" (InstructionParser.tokenize input))
  = Ref.unspaced input /\
  Ref.unspaced (String.concat "" (Regex.match_all Shape.token_re input))
  = Ref.unspaced input /\
  (forall t, In t (Regex.match_all Shape.token_re input) -> t <> "").
Proof.
  assert (M : Ref.unspaced
                (String.concat "" (Regex.match_all Shape.token_re input))
              = Ref.unspaced input)
    by (apply match_all_unspaced; lia).
  split; [|split; [exact M|]].
  - unfold InstructionParser.tokenize.
    destruct (negb _); [|exact M]. cbn [String.concat]. reflexivity.
  - intros t Ht. apply (parts_solid input) in Ht.
    intros ->. discriminate Ht.
Qed.


(* ------------------------------------------------------------------ *)
(** ** The stage of a bracketed prefix with a regex suffix              *)
(* ------------------------------------------------------------------ *)

(** The filter of a stage holds a [$match] of its own exactly for an
    items entry that carries an extracted value. *)
Lemma stage_nested (f : fieldRef) (pd : InstructionPatternData)
      (excl : bool) :
  Ref.hasMatchKey
    (Ref.stageFilter (ParserPipeline.buildStageFromData f pd excl)) = true <->
  f = FieldOf items /\ Ref.pd_extracted pd <> None.
Proof.
  destruct f as [[]|];
    destruct pd as [[[|a k]|] o v|[[|a k]|] s e|[[|a k]|] v [x|]|[[|a k]|] v];
    destruct excl; cbn; split; intros H;
    first [ discriminate H
          | reflexivity
          | (split; [reflexivity | discriminate])
          | (destruct H as [H _]; discriminate H)
          | (destruct H as [_ H]; now contradiction H) ].
Qed.

Lemma stage_extracted (pd : InstructionPatternData) (excl : bool)
      (e : string) :
  Ref.pd_extracted pd = Some e ->
  ParserPipeline.buildStageFromData items pd excl
  = Match (if excl
           then FNor [FMatch (FExpr (ExprRegexMatch (Path item_code) e "i"))]
           else FMatch (FExpr (ExprRegexMatch (Path item_code) e "i"))).
Proof.
  destruct pd as [k o v|k s x|k v [x|]|k v]; cbn [Ref.pd_extracted];
    intros H; try discriminate H.
  injection H as ->. destruct excl; reflexivity.
Qed.

Lemma In_parseArray (rs : list (option Instruction)) (i : Instruction) :
  In (Some i) rs -> In i (ParserPipeline.parseArray rs).
Proof.
  induction rs as [|[j|] rs IH]; cbn; [tauto| |].
  - intros [H|H]; [left; congruence | right; now apply IH].
  - intros [H|H]; [discriminate H | now apply IH].
Qed.

Lemma extracted_token (tok : string) (fr : ParserPipeline.fieldRef)
      (pd : InstructionPatternData) (e : string) :
  ParserPipeline.parseSingleToken tok = Some (fr, pd) ->
  Ref.pd_extracted pd = Some e ->
  fr = ParserPipeline.FieldOf items /\
  pd = PDRegex None tok (Some e) /\
  exists k,
    snd (ParserPipeline.splitAlias tok) = "[" ++ k ++ "]" ++ e /\
    k <> "" /\
    Regex.test ParserPipeline.regexMeta_re e = true /\
    Regex.test ParserPipeline.digits_re e = false.
Proof.
  unfold ParserPipeline.parseSingleToken.
  set (body := snd (ParserPipeline.splitAlias tok)) in *.
  set (field := match fst (ParserPipeline.splitAlias tok) with
                | Own f0 => ParserPipeline.FieldOf f0
                | Inherited => ParserPipeline.FieldInherited
                | Absent => ParserPipeline.FieldOf
                              (ParserPipeline.determineField body)
                end).
  intros H He.
  repeat (case_scrutinee H; try discriminate H).
  all: inversion H; subst fr pd; clear H.
  all: cbn [Ref.pd_extracted] in He; try discriminate He.
  all: inversion He; subst e; clear He.
  all: match goal with
       | Ek : Regex.exec Shape.keyPrefix_re _ = Some ?pm,
         Hi : negb (ParserPipeline.is_items _) = false |- _ =>
           destruct (keyPrefix_sound _ _ Ek) as (Kb & Kn & Kr);
           split; [exact (is_items_field _ Hi)|];
           split; [reflexivity|];
           exists (Shape.group1 pm);
           split; [exact Kb|]; split; [exact Kn|]
       end.
  all: match goal with
       | Hn : (_ || _ || _) = false |- _ =>
           apply orb_false_iff in Hn as [_ Hn]
       end.
  all: split; assumption.
Qed.

(** X15. The stage the cached path builds holds a [$match] key inside
    its own [$match] exactly for an entry under items that carries an
    extracted value: its filter is then the [$match] of the regex of
    the extracted value over the item code, under [$nor] for an
    excluding entry.  [parseSingleToken] gives such data to an items
    token whose body is a bracketed prefix followed by something with a
    regex metacharacter that is no number, and keeps the whole token as
    the value.  A request with such a token, when it returns, returns
    that stage in its pipeline. *)
Theorem X15_nested_match_stage :
  (forall (f : ParserPipeline.fieldRef) pd excl,
      Ref.hasMatchKey
        (Ref.stageFilter (ParserPipeline.buildStageFromData f pd excl)) = true
      <-> f = ParserPipeline.FieldOf items /\ Ref.pd_extracted pd <> None) /\
  (forall pd excl e,
      Ref.pd_extracted pd = Some e ->
      ParserPipeline.buildStageFromData items pd excl
      = Match (if excl
               then FNor [FMatch (FExpr (ExprRegexMatch (Path item_code) e "i"))]
               else FMatch (FExpr (ExprRegexMatch (Path item_code) e "i")))) /\
  (forall tok fr pd e,
      ParserPipeline.parseSingleToken tok = Some (fr, pd) ->
      Ref.pd_extracted pd = Some e ->
      fr = ParserPipeline.FieldOf items /\
      pd = PDRegex None tok (Some e) /\
      exists k,
        snd (ParserPipeline.splitAlias tok) = "[" ++ k ++ "]" ++ e /\
        k <> "" /\
        Regex.test ParserPipeline.regexMeta_re e = true /\
        Regex.test ParserPipeline.digits_re e = false) /\
  (forall store input rp store' t i,
      Forall Ref.consistent store ->
      ParserPipeline.getPipelineForInstruction store (Some input)
      = (Ok rp, store') ->
      In t (filter Ref.dynamicPart (Ref.parts input)) ->
      Ref.compileToken t = Some i ->
      field i = items ->
      Ref.pd_extracted (patternData i) <> None ->
      In (matchStage i) (ParserPipeline.pipeline rp) /\
      Ref.hasMatchKey (Ref.stageFilter (matchStage i)) = true).
Proof.
  split; [exact stage_nested|]. split; [exact stage_extracted|].
  split; [exact extracted_token|].
  intros store input rp store' t i Hc H Ht Hi Hf He.
  apply cache_transparent in H as [-> _]; [|exact Hc].
  unfold Ref.pureResult, Ref.assemble.
  cbn [ParserPipeline.pipeline]. rewrite tokenizeInput_spec. cbn [fst].
  split.
  - apply in_map. apply In_parseArray. rewrite map_map.
    apply in_map_iff. exists t. split; [exact Hi | exact Ht].
  - rewrite (compileToken_staged t i Hi). apply stage_nested.
    split; [exact Hf | exact He].
Qed.

Lemma X15_witness :
  ParserPipeline.pipeline (Ref.pureResult "Molduras -items:[ABC]^12")
  = [Match (FNor [FMatch (FExpr (ExprRegexMatch (Path item_code) "^12" "i"))])].
Proof.
  destruct X15_nested_match_stage as (_ & S & _ & _).
  refine (eq_trans _ (f_equal (fun s => [s])
                        (S (PDRegex None "items:[ABC]^12" (Some "^12")) true
                           "^12" eq_refl))).
  vm_compute. reflexivity.
Defined.

(* ------------------------------------------------------------------ *)
(** ** When InstructionParser throws                                    *)
(* ------------------------------------------------------------------ *)

Lemma aliasMap_Inherited (alias : string) :
  aliasMap alias = Inherited -> alias = "constructor".
Proof.
  unfold aliasMap. destruct (assoc alias aliasTable); [discriminate|].
  destruct (String.eqb alias "constructor") eqn:E; [|discriminate].
  intros _. now apply String.eqb_eq.
Qed.

Lemma parseTokens_throws (n : nat) :
  forall tokens r e,
    List.length tokens <= n ->
    InstructionParser.parseTokens tokens r = Throw e ->
    e = TypeError /\
    exists t,
      In t tokens /\
      fst (InstructionParser.splitAlias
             (if JS.startsWith t "-" then JS.slice1 t else t)) = Inherited /\
      InstructionParser.extractPatterns
        (snd (InstructionParser.splitAlias
                (if JS.startsWith t "-" then JS.slice1 t else t))) <> [].
Proof.
  induction n as [|n IH]; intros tokens r e Hn H.
  - destruct tokens; [discriminate H | cbn in Hn; lia].
  - destruct tokens as [|token rest]; [discriminate H|].
    cbn [List.length] in Hn.
    pose proof (parseTokens_turn token rest r) as T. cbv zeta in T.
    destruct (Ref.merged _ _ rest).
    + destruct T as (next & rest' & -> & T). rewrite T in H.
      apply IH in H as (-> & t & Hin & Ht); [|cbn [List.length] in Hn; lia].
      split; [reflexivity|]. exists t. split; [right; right; exact Hin | exact Ht].
    + destruct T as [(f & p & _ & _ & T)|[(_ & _ & T)|[(_ & _ & T)|(Hf & Hp & T)]]];
        rewrite T in H.
      1-3: apply IH in H as (-> & t & Hin & Ht); [|lia];
        (split; [reflexivity|]); exists t; (split; [right; exact Hin | exact Ht]).
      injection H as <-. split; [reflexivity|].
      exists token. split; [now left|]. split; [exact Hf | exact Hp].
Qed.

Lemma parseTokens_returns (n : nat) :
  forall tokens r,
    List.length tokens <= n ->
    (forall t, In t tokens ->
       fst (InstructionParser.splitAlias
              (if JS.startsWith t "-" then JS.slice1 t else t))
       <> Inherited) ->
    exists r', InstructionParser.parseTokens tokens r = Ok r'.
Proof.
  induction n as [|n IH]; intros tokens r Hn Hall.
  - destruct tokens; [now exists r | cbn in Hn; lia].
  - destruct tokens as [|token rest]; [now exists r|].
    cbn [List.length] in Hn.
    pose proof (parseTokens_turn token rest r) as T. cbv zeta in T.
    destruct (Ref.merged _ _ rest).
    + destruct T as (next & rest' & -> & T). rewrite T.
      apply IH; [cbn [List.length] in Hn; lia|].
      intros t Ht. apply Hall. right. now right.
    + destruct T as [(f & p & _ & _ & T)|[(_ & _ & T)|[(_ & _ & T)|(Hf & _ & _)]]];
        try rewrite T.
      1-3: apply IH; [lia|]; intros t Ht; apply Hall; now right.
      exfalso. exact (Hall token (or_introl eq_refl) Hf).
Qed.

Lemma inherited_alias (v : string) :
  fst (InstructionParser.splitAlias v) = Inherited ->
  exists alias rest,
    v = alias ++ ":" ++ rest /\ JS.toLowerCase alias = "constructor".
Proof.
  intros H. rewrite splitAlias_fst in H.
  destruct (splitAlias_found v) as (alias & rest & E & _ & _ & A).
  { rewrite H. discriminate. }
  exists alias, rest. split; [exact E|].
  apply aliasMap_Inherited. now rewrite <- A.
Qed.

(** X16. The constructor of [InstructionParser] throws in two cases
    only: its own [Error] for an argument that is no string, and a
    [TypeError] for an instruction with a token whose alias, in lower
    case, is [constructor], a name the alias table answers without
    having it as a key.  A string none of whose tokens has such an
    alias is parsed to a result. *)
Theorem X16_when_the_parser_throws (v : option string) :
  (forall e,
      InstructionParser.construct v = Throw e ->
      (v = None /\ e = NotAString) \/
      (e = TypeError /\
       exists s t alias rest,
         v = Some s /\
         In t (InstructionParser.tokenize s) /\
         (if JS.startsWith t "-" then JS.slice1 t else t)
         = alias ++ ":" ++ rest /\
         JS.toLowerCase alias = "constructor")) /\
  (v = None -> InstructionParser.construct v = Throw NotAString) /\
  (forall s,
      v = Some s ->
      (forall t, In t (InstructionParser.tokenize s) ->
         fst (InstructionParser.splitAlias
                (if JS.startsWith t "-" then JS.slice1 t else t))
         <> Inherited) ->
      exists r, InstructionParser.construct v = Ok r).
Proof.
  split; [|split].
  - intros e H. destruct v as [s|]; cbn [InstructionParser.construct] in H.
    + right. unfold InstructionParser.parse,
        InstructionParser.parseInstruction in H.
      destruct (String.eqb (JS.trim s) ""); [discriminate H|].
      destruct (InstructionParser.parseTokens _ _) as [r|e'] eqn:E;
        [discriminate H|].
      injection H as <-.
      apply (parseTokens_throws _ _ _ _ (le_n _)) in E
        as (-> & t & Hin & Hf & _).
      split; [reflexivity|].
      destruct (inherited_alias _ Hf) as (alias & rest & Ev & Ea).
      exists s, t, alias, rest. auto.
    + left. injection H as <-. auto.
  - intros ->. reflexivity.
  - intros s -> Hall. cbn [InstructionParser.construct].
    unfold InstructionParser.parse, InstructionParser.parseInstruction.
    destruct (String.eqb (JS.trim s) ""); [eauto|].
    destruct (parseTokens_returns _ (InstructionParser.tokenize s)
                (emptyResult "") (le_n _) Hall) as [r' E].
    rewrite E. eauto.
Qed.

Lemma X16_witness :
  (Some "Constructor:ABC" = @None string /\ TypeError = NotAString) \/
  (TypeError = TypeError /\
   exists s t alias rest,
     Some "Constructor:ABC" = Some s /\
     In t (InstructionParser.tokenize s) /\
     (if JS.startsWith t "-" then JS.slice1 t else t) = alias ++ ":" ++ rest /\
     JS.toLowerCase alias = "constructor").
Proof.
  apply (proj1 (X16_when_the_parser_throws (Some "Constructor:ABC")) TypeError).
  vm_compute. reflexivity.
Defined.

(* ------------------------------------------------------------------ *)
(** ** Tokens read forwards: the alias, and what the body is not       *)
(* ------------------------------------------------------------------ *)

Lemma append_cancel (a s t : string) : a ++ s = a ++ t -> s = t.
Proof.
  induction a as [|c a IH]; cbn [append]; intros H; [exact H|].
  injection H as H. now apply IH.
Qed.

Lemma fieldQuoted_quote (tok : string) (f : Regex.found) :
  Regex.exec Shape.fieldQuoted_re tok = Some f ->
  exists (q : ascii) (rest : string),
    (q = dquote \/ q = squote) /\
    tok = Shape.group1 f ++ ":" ++ String q rest /\
    Ref.all_chars JS.is_word (Shape.group1 f) = true.
Proof.
  intros E. apply exec_bol_sound in E as (rest' & c' & M & ->).
  unfold Shape.fieldQuoted_re in M. open_re M.
  inv_matches.
  all: cbn [Shape.group1 Shape.group2 Regex.group Regex.groups Nat.eqb].
  all: take_norm.
  all: eexists; eexists; refine (conj _ (conj eq_refl _));
    [first [left; reflexivity | right; reflexivity]|].
  all: cbn [Ref.all_chars];
    repeat match goal with E : JS.is_word _ = true |- _ => rewrite E; clear E end;
    assumption.
Qed.

(** The alias prefix of a token written as an alias, a colon and a
    body that is not quoted. *)
Lemma splitAlias_plain (alias body : string) :
  alias <> "" -> Ref.all_chars JS.is_word alias = true ->
  body <> "" -> Ref.all_chars JS.is_dot body = true ->
  JS.startsWith body dquote = false -> JS.startsWith body squote = false ->
  ParserPipeline.splitAlias (alias ++ ":" ++ body)
  = match aliasMap (JS.toLowerCase alias) with
    | Absent => (Absent, alias ++ ":" ++ body)
    | found => (found, body)
    end.
Proof.
  intros Ha Wa Hb Db Q1 Q2. unfold ParserPipeline.splitAlias.
  destruct (Regex.exec Shape.fieldQuoted_re (alias ++ ":" ++ body))
    as [f|] eqn:E.
  - exfalso. apply fieldQuoted_quote in E as (q & rest & Hq & E & Wg).
    pose proof (word_prefix_unique _ _ _ _ Wa Wg E) as Eg.
    rewrite <- Eg in E.
    apply append_cancel in E. cbn [append] in E. injection E as ->.
    cbn [JS.startsWith] in Q1, Q2.
    destruct Hq as [->| ->];
      [rewrite Ascii.eqb_refl in Q1; discriminate Q1
      | rewrite Ascii.eqb_refl in Q2; discriminate Q2].
  - destruct (field_re_complete alias body Ha Wa Hb Db) as [f F].
    rewrite F. apply field_sound in F as (F & Wg & _).
    pose proof (word_prefix_unique _ _ _ _ Wa Wg F) as Eg.
    rewrite <- Eg in F |- *.
    apply append_cancel in F. cbn [append] in F. injection F as <-.
    reflexivity.
Qed.

(** A token without a colon has no alias prefix. *)
Lemma splitAlias_bare (tok : string) :
  JS.includes ":" tok = false ->
  ParserPipeline.splitAlias tok = (Absent, tok).
Proof.
  intros H. unfold ParserPipeline.splitAlias.
  destruct (Regex.exec Shape.fieldQuoted_re tok) as [f|] eqn:E.
  - exfalso. apply fieldQuoted_quote in E as (q & rest & _ & E & _).
    rewrite E, includes_app in H. cbn [append JS.includes] in H.
    rewrite Ascii.eqb_refl, orb_true_r in H. discriminate H.
  - destruct (Regex.exec Shape.field_re tok) as [f|] eqn:E'; [|reflexivity].
    exfalso. apply field_sound in E' as (E' & _).
    rewrite E', includes_app in H. cbn [append JS.includes] in H.
    rewrite Ascii.eqb_refl, orb_true_r in H. discriminate H.
Qed.

Lemma bracketThenMore_start (v : string) :
  Regex.test ParserPipeline.bracketThenMore_re v = true ->
  JS.startsWith v "[" = true.
Proof.
  intros H. apply test_true_exec in H as [f H].
  apply exec_bol_sound in H as (rest' & c' & M & _).
  unfold ParserPipeline.bracketThenMore_re in M. open_re M.
  inv_matches. reflexivity.
Qed.

Lemma aliasBracket_start (tok : string) (f : Regex.found) :
  Regex.exec ParserPipeline.aliasBracket_re tok = Some f ->
  exists g rest,
    Ref.all_chars JS.is_word g = true /\
    tok = g ++ ":" ++ String "[" rest.
Proof.
  intros E. apply exec_bol_sound in E as (rest' & c' & M & _).
  unfold ParserPipeline.aliasBracket_re in M. open_re M.
  inv_matches.
  match goal with
  | |- exists g rest, _ /\ String ?x (?w ++ _) = _ =>
      exists (String x w)
  end.
  eexists. split; [|cbn [append]; reflexivity].
  cbn [Ref.all_chars].
  repeat match goal with E : JS.is_word _ = true |- _ => rewrite E; clear E end.
  assumption.
Qed.

(** What is read as a comparison begins with one of the operators. *)
Lemma comparison_start (body : string) (f : Regex.found) :
  Regex.exec ParserPipeline.comparison_re body = Some f ->
  exists op,
    ParserPipeline.operatorMap (Shape.group1 f) = Some op /\
    body = operator_text op ++ Shape.group2 f /\ Shape.group2 f <> "".
Proof.
  intros E. apply exec_bol_sound in E as (rest' & c' & M & ->).
  unfold ParserPipeline.comparison_re in M. open_re M.
  inv_matches.
  all: cbn [Shape.group1 Shape.group2 Regex.group Regex.groups Nat.eqb].
  all: take_norm.
  all: char_cases.
  all: unfold ParserPipeline.operatorMap;
    cbv [InstructionParser.operatorMap String.eqb Ascii.eqb Bool.eqb].
  all: eexists; split; [reflexivity|]; split; [reflexivity | discriminate].
Qed.

(** [parseSingleToken] on a token whose body does not begin with a
    bracket: the key prefix and the two bracket forms are out of the
    way. *)
Lemma parseSingleToken_classify (tok : string) :
  let body := snd (ParserPipeline.splitAlias tok) in
  let field := match fst (ParserPipeline.splitAlias tok) with
               | Own f => ParserPipeline.FieldOf f
               | Inherited => ParserPipeline.FieldInherited
               | Absent => ParserPipeline.FieldOf
                             (ParserPipeline.determineField body)
               end in
  JS.startsWith body "[" = false ->
  Regex.exec ParserPipeline.aliasBracket_re tok = None ->
  ParserPipeline.parseSingleToken tok
  = match Regex.exec ParserPipeline.comparison_re body with
    | Some cm =>
        match ParserPipeline.operatorMap (Shape.group1 cm) with
        | Some op =>
            Some (field, PDComparison None op (Shape.pad4 (Shape.group2 cm)))
        | None => None
        end
    | None =>
        match Regex.exec Shape.range_re body with
        | Some rm =>
            Some (field, PDRange None (Shape.pad4 (Shape.group1 rm))
                           (Shape.pad4 (Shape.group2 rm)))
        | None =>
            if Regex.test Shape.meta_re body || Regex.test Shape.dquoted_re body
               || Regex.test Shape.squoted_re body
            then Some (field, PDRegex None (Shape.stripQuotes body) None)
            else if ParserPipeline.is_keys field
                    && negb (Regex.test Shape.keys_re (Shape.stripQuotes body))
            then None
            else if ParserPipeline.is_items field
                    && negb (Regex.test ParserPipeline.digits_re
                               (Shape.stripQuotes body))
            then None
            else Some (field, PDValue None (Shape.stripQuotes body))
        end
    end.
Proof.
  intros body field Hs Ha. unfold ParserPipeline.parseSingleToken.
  fold body. fold field.
  assert (Hb : Regex.test ParserPipeline.bracketThenMore_re body = false).
  { destruct (Regex.test ParserPipeline.bracketThenMore_re body) eqn:E;
      [|reflexivity].
    apply bracketThenMore_start in E. congruence. }
  assert (Hk : Regex.exec Shape.keyPrefix_re body = None).
  { destruct (Regex.exec Shape.keyPrefix_re body) as [pm|] eqn:E;
      [|reflexivity].
    apply keyPrefix_sound in E as (E & _). rewrite E in Hs.
    cbn in Hs. discriminate Hs. }
  rewrite Hb, andb_false_r, Ha, Hk.
  destruct (ParserPipeline.is_brands_lines_keys field); reflexivity.
Qed.

Lemma aliasBracket_plain (alias body : string) :
  Ref.all_chars JS.is_word alias = true ->
  JS.startsWith body "[" = false ->
  Regex.exec ParserPipeline.aliasBracket_re (alias ++ ":" ++ body) = None.
Proof.
  intros Wa Hs.
  destruct (Regex.exec ParserPipeline.aliasBracket_re _) as [f|] eqn:E;
    [|reflexivity].
  exfalso. apply aliasBracket_start in E as (g & rest & Wg & E).
  pose proof (word_prefix_unique _ _ _ _ Wa Wg E) as Eg.
  rewrite <- Eg in E. apply append_cancel in E. cbn [append] in E.
  injection E as ->. cbn in Hs. discriminate Hs.
Qed.

Lemma aliasBracket_bare (tok : string) :
  JS.includes ":" tok = false ->
  Regex.exec ParserPipeline.aliasBracket_re tok = None.
Proof.
  intros H.
  destruct (Regex.exec ParserPipeline.aliasBracket_re tok) as [f|] eqn:E;
    [|reflexivity].
  exfalso. apply aliasBracket_start in E as (g & rest & _ & E).
  rewrite E, includes_app in H. cbn [append JS.includes] in H.
  rewrite Ascii.eqb_refl, orb_true_r in H. discriminate H.
Qed.

(** *** Literal values *)








(** *** Numeric comparisons and ranges *)

Lemma digits_facts (ds : string) :
  ds <> "" -> Ref.all_chars JS.is_digit ds = true ->
  Ref.all_chars JS.is_dot ds = true /\ JS.includes "<" ds = false /\
  JS.startsWith ds "[" = false /\ JS.startsWith ds dquote = false /\
  JS.startsWith ds squote = false /\ JS.startsWith ds "=" = false /\
  JS.includes ":" ds = false.
Proof.
  intros Hne Hd.
  split; [apply (all_chars_impl JS.is_digit); [apply digit_is_dot | exact Hd]|].
  split; [now apply digits_no_lt|].
  assert (Hc : JS.includes ":" ds = false).
  { clear Hne. induction ds as [|a ds IH]; [reflexivity|].
    cbn in Hd. apply andb_prop in Hd as [Ha Hd].
    rewrite includes_cons, (IH Hd), orb_false_r.
    destruct a as [[] [] [] [] [] [] [] []]; vm_compute in Ha |- *;
      first [discriminate Ha | reflexivity]. }
  destruct ds as [|a ds]; [contradiction|].
  cbn in Hd. apply andb_prop in Hd as [Ha _]. cbn [JS.startsWith].
  repeat split; try exact Hc;
    destruct a as [[] [] [] [] [] [] [] []]; vm_compute in Ha |- *;
    first [discriminate Ha | reflexivity].
Qed.

Lemma operator_text_start (op : ComparisonOperator) (raw : string) :
  JS.startsWith (operator_text op ++ raw) "[" = false /\
  JS.startsWith (operator_text op ++ raw) dquote = false /\
  JS.startsWith (operator_text op ++ raw) squote = false /\
  Ref.all_chars JS.is_dot (operator_text op) = true /\
  JS.includes ":" (operator_text op) = false.
Proof. destruct op; repeat split; reflexivity. Qed.

(** A numeric comparison is read with its own operator. *)
Lemma comparison_exec_op (op : ComparisonOperator) (raw : string) :
  raw <> "" -> Ref.all_chars JS.is_digit raw = true ->
  exists cm,
    Regex.exec ParserPipeline.comparison_re (operator_text op ++ raw) = Some cm /\
    ParserPipeline.operatorMap (Shape.group1 cm) = Some op /\
    Shape.group2 cm = raw.
Proof.
  intros Hne Hd.
  assert (E : exists cm,
             Regex.exec ParserPipeline.comparison_re (operator_text op ++ raw)
             = Some cm /\ Shape.group2 cm = raw).
  { destruct op; cbn [operator_text append].
    - apply (comparison_exec_num ">" raw); auto.
    - apply (comparison_exec_num "<" raw); auto.
    - apply (comparison_exec_num ">" raw); auto.
    - apply (comparison_exec_num "<" raw); auto. }
  destruct E as (cm & E & G). exists cm. split; [exact E|]. split; [|exact G].
  destruct (comparison_start _ _ E) as (op' & O & B & _).
  rewrite O. f_equal. rewrite G in B.
  assert (L : String.length (operator_text op ++ raw)
              = String.length (operator_text op' ++ raw)) by now rewrite B.
  rewrite !length_append in L.
  destruct op, op'; cbn in B, L; try reflexivity; try lia; discriminate B.
Qed.

(** The token of a numeric comparison under an alias that is found. *)
Lemma comparison_under_alias (alias raw : string) (f : PatternField)
      (op : ComparisonOperator) :
  alias <> "" -> Ref.all_chars JS.is_word alias = true ->
  aliasMap (JS.toLowerCase alias) = Own f ->
  raw <> "" -> Ref.all_chars JS.is_digit raw = true ->
  ParserPipeline.parseSingleToken (alias ++ ":" ++ operator_text op ++ raw)
  = Some (ParserPipeline.FieldOf f, PDComparison None op (Shape.pad4 raw)).
Proof.
  intros Ha Wa Hf Hne Hd.
  destruct (digits_facts raw Hne Hd) as (Dd & _).
  destruct (operator_text_start op raw) as (S1 & Q1 & Q2 & Do & _).
  assert (Hb : operator_text op ++ raw <> "") by (destruct op; discriminate).
  assert (Db : Ref.all_chars JS.is_dot (operator_text op ++ raw) = true)
    by (rewrite all_chars_app, Do, Dd; reflexivity).
  pose proof (splitAlias_plain alias _ Ha Wa Hb Db Q1 Q2) as Sp.
  rewrite Hf in Sp.
  pose proof (parseSingleToken_classify
                (alias ++ ":" ++ operator_text op ++ raw)) as P.
  cbv zeta in P. rewrite Sp in P. cbn [fst snd] in P.
  rewrite P by (first [exact S1 | now apply aliasBracket_plain]).
  destruct (comparison_exec_op op raw Hne Hd) as (cm & E & O & G).
  now rewrite E, O, G.
Qed.

(** The token of a numeric comparison on its own. *)
Lemma comparison_bare (raw : string) (op : ComparisonOperator) :
  raw <> "" -> Ref.all_chars JS.is_digit raw = true ->
  ParserPipeline.parseSingleToken (operator_text op ++ raw)
  = Some (ParserPipeline.FieldOf
            (ParserPipeline.determineField (operator_text op ++ raw)),
          PDComparison None op (Shape.pad4 raw)).
Proof.
  intros Hne Hd.
  destruct (digits_facts raw Hne Hd) as (_ & _ & _ & _ & _ & _ & Hc).
  destruct (operator_text_start op raw) as (S1 & _ & _ & _ & Co).
  assert (C : JS.includes ":" (operator_text op ++ raw) = false)
    by (rewrite includes_app, Co, Hc; reflexivity).
  pose proof (parseSingleToken_classify (operator_text op ++ raw)) as P.
  cbv zeta in P. rewrite (splitAlias_bare _ C) in P. cbn [fst snd] in P.
  rewrite P by (first [exact S1 | now apply aliasBracket_bare]).
  destruct (comparison_exec_op op raw Hne Hd) as (cm & E & O & G).
  now rewrite E, O, G.
Qed.

Lemma range_exec_bounds (a b : string) :
  a <> "" -> b <> "" ->
  Ref.all_chars JS.is_digit a = true -> Ref.all_chars JS.is_digit b = true ->
  Regex.exec ParserPipeline.comparison_re (a ++ "<>" ++ b) = None /\
  exists rm,
    Regex.exec Shape.range_re (a ++ "<>" ++ b) = Some rm /\
    Shape.pad4 (Shape.group1 rm) = Shape.pad4 a /\
    Shape.pad4 (Shape.group2 rm) = Shape.pad4 b.
Proof.
  intros Ha Hb Da Db.
  destruct (digits_facts a Ha Da) as (Dda & _).
  destruct (digits_facts b Hb Db) as (Ddb & Lb & _).
  split.
  - destruct a as [|x a]; [contradiction|]. cbn in Da.
    apply andb_prop in Da as [Dx _]. cbn [append].
    now apply comparison_exec_digit.
  - pose proof (parseRange_complete a b Ha Hb Dda Ddb Lb) as R.
    unfold InstructionParser.parseRange in R.
    destruct (Regex.exec Shape.range_re (a ++ "<>" ++ b)) as [rm|];
      [|discriminate R].
    injection R as R1 R2. eauto.
Qed.

(** The token of a numeric range under an alias that is found. *)
Lemma range_under_alias (alias a b : string) (f : PatternField) :
  alias <> "" -> Ref.all_chars JS.is_word alias = true ->
  aliasMap (JS.toLowerCase alias) = Own f ->
  a <> "" -> b <> "" ->
  Ref.all_chars JS.is_digit a = true -> Ref.all_chars JS.is_digit b = true ->
  ParserPipeline.parseSingleToken (alias ++ ":" ++ a ++ "<>" ++ b)
  = Some (ParserPipeline.FieldOf f,
          PDRange None (Shape.pad4 a) (Shape.pad4 b)).
Proof.
  intros Hal Wa Hf Ha Hb Da Db.
  destruct (digits_facts a Ha Da) as (Dda & _ & S1 & Q1 & Q2 & _).
  destruct (digits_facts b Hb Db) as (Ddb & _).
  assert (Hne : a ++ "<>" ++ b <> "") by (destruct a; [contradiction|discriminate]).
  assert (Dab : Ref.all_chars JS.is_dot (a ++ "<>" ++ b) = true).
  { rewrite !all_chars_app, Dda, Ddb. reflexivity. }
  assert (St : forall q, JS.startsWith a q = false ->
                         JS.startsWith (a ++ "<>" ++ b) q = false)
    by (intros q; destruct a; [contradiction | auto]).
  pose proof (splitAlias_plain alias _ Hal Wa Hne Dab (St _ Q1) (St _ Q2)) as Sp.
  rewrite Hf in Sp.
  pose proof (parseSingleToken_classify (alias ++ ":" ++ a ++ "<>" ++ b)) as P.
  cbv zeta in P. rewrite Sp in P. cbn [fst snd] in P.
  rewrite P by (first [exact (St _ S1) | apply aliasBracket_plain;
                                          [exact Wa | exact (St _ S1)]]).
  destruct (range_exec_bounds a b Ha Hb Da Db) as (C & rm & R & E1 & E2).
  now rewrite C, R, E1, E2.
Qed.

(** The token of a numeric range on its own. *)
Lemma range_bare (a b : string) :
  a <> "" -> b <> "" ->
  Ref.all_chars JS.is_digit a = true -> Ref.all_chars JS.is_digit b = true ->
  ParserPipeline.parseSingleToken (a ++ "<>" ++ b)
  = Some (ParserPipeline.FieldOf
            (ParserPipeline.determineField (a ++ "<>" ++ b)),
          PDRange None (Shape.pad4 a) (Shape.pad4 b)).
Proof.
  intros Ha Hb Da Db.
  destruct (digits_facts a Ha Da) as (_ & _ & S1 & _ & _ & _ & Ca).
  destruct (digits_facts b Hb Db) as (_ & _ & _ & _ & _ & _ & Cb).
  assert (C : JS.includes ":" (a ++ "<>" ++ b) = false).
  { rewrite !includes_app, Ca, Cb. reflexivity. }
  assert (St : JS.startsWith (a ++ "<>" ++ b) "[" = false)
    by (destruct a; [contradiction | exact S1]).
  pose proof (parseSingleToken_classify (a ++ "<>" ++ b)) as P.
  cbv zeta in P. rewrite (splitAlias_bare _ C) in P. cbn [fst snd] in P.
  rewrite P by (first [exact St | now apply aliasBracket_bare]).
  destruct (range_exec_bounds a b Ha Hb Da Db) as (Cm & rm & R & E1 & E2).
  now rewrite Cm, R, E1, E2.
Qed.

(** *** What a comparison or a range entry was read from *)

Lemma parseSingleToken_comparison_exact tok f kp op val :
  ParserPipeline.parseSingleToken tok = Some (f, PDComparison kp op val) ->
  exists raw,
    raw <> "" /\ val = Shape.pad4 raw /\
    snd (ParserPipeline.splitAlias tok)
    = match kp with
      | Some k => "[" ++ k ++ "]" ++ operator_text op ++ raw
      | None => operator_text op ++ raw
      end.
Proof.
  unfold ParserPipeline.parseSingleToken.
  set (body := snd (ParserPipeline.splitAlias tok)) in *.
  set (field := match fst (ParserPipeline.splitAlias tok) with
                | Own f0 => ParserPipeline.FieldOf f0
                | Inherited => ParserPipeline.FieldInherited
                | Absent => ParserPipeline.FieldOf
                              (ParserPipeline.determineField body)
                end).
  intros H.
  repeat (case_scrutinee H; try discriminate H).
  all: inversion H; subst f kp op val; clear H.
  all: match goal with
       | Ek : Regex.exec Shape.keyPrefix_re _ = Some ?pm,
         Ec : Regex.exec ParserPipeline.comparison_re (Shape.group2 ?pm)
              = Some ?cm,
         O : ParserPipeline.operatorMap _ = Some _ |- _ =>
           destruct (pipeline_comparison_sound _ _ _ Ec O) as [Hb Hn];
           destruct (keyPrefix_sound _ _ Ek) as (Hk & _);
           exists (Shape.group2 cm);
           split; [exact Hn|]; split; [reflexivity|];
           rewrite Hk at 1; now rewrite Hb
       | Ec : Regex.exec ParserPipeline.comparison_re _ = Some ?cm,
         O : ParserPipeline.operatorMap _ = Some _ |- _ =>
           destruct (pipeline_comparison_sound _ _ _ Ec O) as [Hb Hn];
           exists (Shape.group2 cm);
           split; [exact Hn|]; split; [reflexivity | exact Hb]
       end.
Qed.

Lemma parseSingleToken_range_exact tok f kp s e :
  ParserPipeline.parseSingleToken tok = Some (f, PDRange kp s e) ->
  exists a b,
    a <> "" /\ b <> "" /\ s = Shape.pad4 a /\ e = Shape.pad4 b /\
    snd (ParserPipeline.splitAlias tok)
    = match kp with
      | Some k => "[" ++ k ++ "]" ++ a ++ "<>" ++ b
      | None => a ++ "<>" ++ b
      end /\
    InstructionParser.parseRange (a ++ "<>" ++ b) = Some (s, e).
Proof.
  unfold ParserPipeline.parseSingleToken.
  set (body := snd (ParserPipeline.splitAlias tok)) in *.
  set (field := match fst (ParserPipeline.splitAlias tok) with
                | Own f0 => ParserPipeline.FieldOf f0
                | Inherited => ParserPipeline.FieldInherited
                | Absent => ParserPipeline.FieldOf
                              (ParserPipeline.determineField body)
                end).
  intros H.
  repeat (case_scrutinee H; try discriminate H).
  all: inversion H; subst f kp s e; clear H.
  all: match goal with
       | Ek : Regex.exec Shape.keyPrefix_re _ = Some ?pm,
         Ec : Regex.exec Shape.range_re (Shape.group2 ?pm) = Some ?cm |- _ =>
           destruct (range_sound _ _ Ec) as (Hb & Na & Nb);
           destruct (keyPrefix_sound _ _ Ek) as (Hk & _);
           exists (Shape.group1 cm), (Shape.group2 cm);
           split; [exact Na|]; split; [exact Nb|];
           split; [reflexivity|]; split; [reflexivity|];
           split; [rewrite Hk at 1; now rewrite Hb at 1|];
           unfold InstructionParser.parseRange; rewrite <- Hb; now rewrite Ec
       | Ec : Regex.exec Shape.range_re _ = Some ?cm |- _ =>
           destruct (range_sound _ _ Ec) as (Hb & Na & Nb);
           exists (Shape.group1 cm), (Shape.group2 cm);
           split; [exact Na|]; split; [exact Nb|];
           split; [reflexivity|]; split; [reflexivity|];
           split; [exact Hb|];
           unfold InstructionParser.parseRange; rewrite <- Hb; now rewrite Ec
       end.
Qed.

(* ------------------------------------------------------------------ *)
(** ** Zero padding, in both parsers                                    *)
(* ------------------------------------------------------------------ *)

(** C2. Every value of a comparison token and every bound of a range
    token is stored as [pad4] of the text the token carries: shorter
    than four characters it is padded on the left with ['0'] to exactly
    four, otherwise it is left as it is.  This holds for
    [InstructionParser.parseComparison] and [parseRange], which accept
    every operator followed by a value and every pair of bounds around
    the separator.  It holds for [ParserPipeline.parseSingleToken],
    whose result is what is compiled and stored: the value of a
    comparison entry is [pad4] of exactly what follows the operator in
    the body of the token (after the key prefix between brackets, when
    the entry has one), the bounds of a range entry are [pad4] of
    exactly what stands before and after the separator, as [parseRange]
    splits it; and a numeric comparison or range, on its own or under
    an alias, is read as such, with its own operator and bounds.  In
    particular [>50] gives a comparison with value [0050] and [1<>20] a
    range from [0001] to [0020]. *)
Theorem C2_zero_padding :
  (forall raw : string,
      (String.length raw < 4 ->
         Shape.pad4 raw = JS.repeat "0" (4 - String.length raw) ++ raw /\
         String.length (Shape.pad4 raw) = 4) /\
      (4 <= String.length raw -> Shape.pad4 raw = raw)) /\
  (forall (op : ComparisonOperator) (raw : string),
      raw <> "" -> Ref.all_chars JS.is_dot raw = true ->
      (op = GT \/ op = LT -> JS.startsWith raw "=" = false) ->
      InstructionParser.parseComparison (operator_text op ++ raw)
      = Some (op, Shape.pad4 raw)) /\
  (forall a b : string,
      a <> "" -> b <> "" ->
      Ref.all_chars JS.is_dot a = true -> Ref.all_chars JS.is_dot b = true ->
      JS.includes "<" b = false ->
      InstructionParser.parseRange (a ++ "<>" ++ b)
      = Some (Shape.pad4 a, Shape.pad4 b)) /\
  (forall v op val,
      InstructionParser.parseComparison v = Some (op, val) ->
      exists raw, v = operator_text op ++ raw /\ val = Shape.pad4 raw) /\
  (forall v s e,
      InstructionParser.parseRange v = Some (s, e) ->
      exists a b, v = a ++ "<>" ++ b /\ s = Shape.pad4 a /\ e = Shape.pad4 b) /\
  (forall tok f kp op val,
      ParserPipeline.parseSingleToken tok = Some (f, PDComparison kp op val) ->
      exists raw,
        raw <> "" /\ val = Shape.pad4 raw /\
        snd (ParserPipeline.splitAlias tok)
        = match kp with
          | Some k => "[" ++ k ++ "]" ++ operator_text op ++ raw
          | None => operator_text op ++ raw
          end) /\
  (forall tok f kp s e,
      ParserPipeline.parseSingleToken tok = Some (f, PDRange kp s e) ->
      exists a b,
        a <> "" /\ b <> "" /\ s = Shape.pad4 a /\ e = Shape.pad4 b /\
        snd (ParserPipeline.splitAlias tok)
        = match kp with
          | Some k => "[" ++ k ++ "]" ++ a ++ "<>" ++ b
          | None => a ++ "<>" ++ b
          end /\
        InstructionParser.parseRange (a ++ "<>" ++ b) = Some (s, e)) /\
  (forall (alias raw : string) (f : PatternField) (op : ComparisonOperator),
      alias <> "" -> Ref.all_chars JS.is_word alias = true ->
      aliasMap (JS.toLowerCase alias) = Own f ->
      raw <> "" -> Ref.all_chars JS.is_digit raw = true ->
      ParserPipeline.parseSingleToken (alias ++ ":" ++ operator_text op ++ raw)
      = Some (ParserPipeline.FieldOf f, PDComparison None op (Shape.pad4 raw))) /\
  (forall (raw : string) (op : ComparisonOperator),
      raw <> "" -> Ref.all_chars JS.is_digit raw = true ->
      ParserPipeline.parseSingleToken (operator_text op ++ raw)
      = Some (ParserPipeline.FieldOf
                (ParserPipeline.determineField (operator_text op ++ raw)),
              PDComparison None op (Shape.pad4 raw))) /\
  (forall (alias a b : string) (f : PatternField),
      alias <> "" -> Ref.all_chars JS.is_word alias = true ->
      aliasMap (JS.toLowerCase alias) = Own f ->
      a <> "" -> b <> "" ->
      Ref.all_chars JS.is_digit a = true -> Ref.all_chars JS.is_digit b = true ->
      ParserPipeline.parseSingleToken (alias ++ ":" ++ a ++ "<>" ++ b)
      = Some (ParserPipeline.FieldOf f,
              PDRange None (Shape.pad4 a) (Shape.pad4 b))) /\
  (forall a b : string,
      a <> "" -> b <> "" ->
      Ref.all_chars JS.is_digit a = true -> Ref.all_chars JS.is_digit b = true ->
      ParserPipeline.parseSingleToken (a ++ "<>" ++ b)
      = Some (ParserPipeline.FieldOf
                (ParserPipeline.determineField (a ++ "<>" ++ b)),
              PDRange None (Shape.pad4 a) (Shape.pad4 b))) /\
  InstructionParser.parse ">50"
  = Ok (push items false (ComparisonPattern GT "0050" None) (emptyResult "")) /\
  InstructionParser.parse "1<>20"
  = Ok (push items false (RangePattern "0001" "0020" None) (emptyResult "")) /\
  ParserPipeline.parseSingleToken ">50"
  = Some (ParserPipeline.FieldOf items, PDComparison None GT "0050") /\
  ParserPipeline.parseSingleToken "1<>20"
  = Some (ParserPipeline.FieldOf items, PDRange None "0001" "0020").
Proof.
  split; [exact pad4_spec|].
  split; [exact parseComparison_complete|].
  split; [exact parseRange_complete|].
  split.
  { intros v op val H.
    destruct (parseComparison_sound v op val H) as (raw & E1 & E2 & _).
    eauto. }
  split.
  { intros v s e H.
    destruct (parseRange_sound v s e H) as (a & b & E1 & E2 & E3 & _).
    eauto. }
  split; [exact parseSingleToken_comparison_exact|].
  split; [exact parseSingleToken_range_exact|].
  split; [exact comparison_under_alias|].
  split; [exact comparison_bare|].
  split; [exact range_under_alias|].
  split; [exact range_bare|].
  repeat split; vm_compute; reflexivity.
Qed.

Lemma C2_witness :
  (Shape.pad4 "50" = "0050" /\ String.length (Shape.pad4 "50") = 4) /\
  Shape.pad4 "12345" = "12345" /\
  InstructionParser.parseComparison ">=50" = Some (GTE, "0050") /\
  InstructionParser.parseRange "1<>20" = Some ("0001", "0020") /\
  (exists raw, "<7" = operator_text LT ++ raw /\ "0007" = Shape.pad4 raw) /\
  (exists a b, "1<>20" = a ++ "<>" ++ b /\
               "0001" = Shape.pad4 a /\ "0020" = Shape.pad4 b) /\
  (exists raw,
      raw <> "" /\ "0050" = Shape.pad4 raw /\
      snd (ParserPipeline.splitAlias "items:[GRAPVH]>50")
      = "[" ++ "GRAPVH" ++ "]" ++ operator_text GT ++ raw) /\
  (exists a b,
      a <> "" /\ b <> "" /\ "0007" = Shape.pad4 a /\ "15000" = Shape.pad4 b /\
      snd (ParserPipeline.splitAlias "item:7<>15000") = a ++ "<>" ++ b /\
      InstructionParser.parseRange (a ++ "<>" ++ b) = Some ("0007", "15000")) /\
  ParserPipeline.parseSingleToken ("Items" ++ ":" ++ operator_text GT ++ "12345")
  = Some (ParserPipeline.FieldOf items, PDComparison None GT "12345") /\
  ParserPipeline.parseSingleToken ("linea" ++ ":" ++ "7" ++ "<>" ++ "15")
  = Some (ParserPipeline.FieldOf lines, PDRange None "0007" "0015").
Proof.
  destruct C2_zero_padding
    as (P & CC & RC & CS & RS & PC & PR & CA & _ & RA & _).
  split; [apply (proj1 (P "50")); simpl; lia|].
  split; [apply (proj2 (P "12345")); simpl; lia|].
  split.
  { apply (CC GTE "50"); [discriminate | reflexivity |].
    intros [H|H]; discriminate H. }
  split.
  { apply (RC "1" "20"); try discriminate; reflexivity. }
  split; [apply (CS "<7" LT "0007"); vm_compute; reflexivity|].
  split; [apply (RS "1<>20" "0001" "0020"); vm_compute; reflexivity|].
  split.
  { apply (PC "items:[GRAPVH]>50" (ParserPipeline.FieldOf items)
              (Some "GRAPVH") GT "0050").
    vm_compute; reflexivity. }
  split.
  { apply (PR "item:7<>15000" (ParserPipeline.FieldOf items) None
              "0007" "15000").
    vm_compute; reflexivity. }
  split.
  { apply (CA "Items" "12345" items GT);
      first [discriminate | reflexivity]. }
  apply (RA "linea" "7" "15" lines); first [discriminate | reflexivity].
Defined.

(* ------------------------------------------------------------------ *)
(** ** The guards on literal values                                     *)
(* ------------------------------------------------------------------ *)



(** A reading of [X8_search_pipeline] at a result with two included
    lines. *)
Lemma X8_witness :
  true
  = Ref.passes (fun p => Semantics.eval_expr (fun _ a b => String.eqb a b)
                           (fun _ _ _ => false)
                           {| Semantics.d_line := "ABC"; Semantics.d_brand := "RC";
                              Semantics.d_code := "0030" |}
                           (Ref.compiledExpr keys p)) emptySet
    && Ref.passes (fun p => Semantics.eval_expr (fun _ a b => String.eqb a b)
                              (fun _ _ _ => false)
                              {| Semantics.d_line := "ABC"; Semantics.d_brand := "RC";
                                 Semantics.d_code := "0030" |}
                              (Ref.compiledExpr items p)) emptySet
    && Ref.passes (fun p => Semantics.eval_expr (fun _ a b => String.eqb a b)
                              (fun _ _ _ => false)
                              {| Semantics.d_line := "ABC"; Semantics.d_brand := "RC";
                                 Semantics.d_code := "0030" |}
                              (Ref.compiledExpr lines p))
                  {| include := [ValuePattern "XYZ" None; ValuePattern "ABC" None];
                     exclude := [] |}
    && Ref.passes (fun p => Semantics.eval_expr (fun _ a b => String.eqb a b)
                              (fun _ _ _ => false)
                              {| Semantics.d_line := "ABC"; Semantics.d_brand := "RC";
                                 Semantics.d_code := "0030" |}
                              (Ref.compiledExpr brands p)) emptySet.
Proof.
  apply (proj2 (proj2 (proj2
           (X8_search_pipeline (fun _ a b => String.eqb a b) (fun _ _ _ => false)
              (push lines false (ValuePattern "ABC" None)
                 (push lines false (ValuePattern "XYZ" None) (emptyResult "x"))))))
           {| Semantics.d_line := "ABC"; Semantics.d_brand := "RC";
              Semantics.d_code := "0030" |} true).
  vm_compute. reflexivity.
Defined.

(* ------------------------------------------------------------------ *)
(** ** A request with the alias that is no field                        *)
(* ------------------------------------------------------------------ *)

Lemma Forall2_In_l {A B : Type} (P : A -> B -> Prop) (l1 : list A)
      (l2 : list B) (a : A) :
  Forall2 P l1 l2 -> In a l1 -> exists b, In b l2 /\ P a b.
Proof.
  induction 1 as [|x y l1 l2 H F IH]; intros Hin; [destruct Hin|].
  destruct Hin as [<-|Hin].
  - exists y. split; [now left | exact H].
  - destruct (IH Hin) as (b & Hb & Pb). exists b. split; [now right | exact Pb].
Qed.

(** The last loop throws as soon as an entry has a field that is
    none. *)
Lemma collect_junk (arr : list Instruction) :
  Exists (fun i => field i = ParserPipeline.FieldInherited) arr ->
  forall r p, ParserPipeline.collect arr r p = Throw TypeError.
Proof.
  induction arr as [|i arr IH]; intros X r p; [inversion X|].
  cbn [ParserPipeline.collect].
  destruct (field i) as [f|] eqn:Ef; [|reflexivity].
  apply IH. inversion X as [? ? H|? ? H]; subst; [congruence | exact H].
Qed.

(** A task rejects with the error of the write only. *)
Lemma awaitAll_error docs tokens (l : list (Exc (option Instruction)))
      (e : error) :
  Forall2 (Ref.outcome_of docs) tokens l ->
  ParserPipeline.awaitAll l = Throw e -> e = DuplicateKey.
Proof.
  induction 1 as [|tk res tokens l H F IH]; cbn [ParserPipeline.awaitAll];
    [discriminate|].
  destruct res as [r|e'].
  - destruct (ParserPipeline.awaitAll l) as [rs|e'']; [discriminate|].
    intros E. injection E as <-. now apply IH.
  - intros E. injection E as <-. unfold Ref.outcome_of in H.
    destruct (ParserPipeline.docsMap_get docs (ParserPipeline.tokenStr tk));
      [discriminate H|].
    destruct (ParserPipeline.parseSingleToken _) as [[f pd]|];
      [|discriminate H].
    destruct H as [H|H]; [now injection H | discriminate H].
Qed.

(** A token that compiles and was not read from the cache is in the
    cache when the tasks are over. *)
Lemma parseAll_writes docs tokens tk f pd :
  In tk tokens ->
  ParserPipeline.docsMap_get docs (ParserPipeline.tokenStr tk) = None ->
  ParserPipeline.parseSingleToken
    (ParserPipeline.stripDash (ParserPipeline.tokenStr tk)) = Some (f, pd) ->
  forall store,
    InstructionModel.has (snd (ParserPipeline.parseAll docs tokens store))
                         (ParserPipeline.tokenStr tk) = true.
Proof.
  intros Hin Hd Hp. induction tokens as [|tk0 tokens IH]; [destruct Hin|].
  intros store. cbn [ParserPipeline.parseAll].
  destruct Hin as [->|Hin].
  - rewrite Hd. cbn [snd]. apply has_In.
    assert (H : In (ParserPipeline.tokenStr tk)
                   (map token
                      (snd (ParserPipeline.parseAndStoreToken store
                              (ParserPipeline.tokenStr tk)
                              (ParserPipeline.tk_exclude tk))))).
    { destruct (InstructionModel.has store (ParserPipeline.tokenStr tk)) eqn:Hh.
      - rewrite (parseAndStoreToken_duplicate _ _ _ _ _ Hp Hh). cbn [snd].
        now apply has_In.
      - rewrite (parseAndStoreToken_fresh _ _ _ _ _ Hp Hh). cbn [snd].
        rewrite map_app. apply in_or_app. right. now left. }
    apply in_map_iff in H as (d & Ht & Hd'). apply in_map_iff.
    exists d. split; [exact Ht | now apply parseAll_keeps].
  - destruct (ParserPipeline.docsMap_get docs (ParserPipeline.tokenStr tk0));
      cbn [snd]; now apply IH.
Qed.

(** X17. A request one of whose dynamic parts resolves, through the
    alias [constructor], to the value that is no field, and is not yet
    in the cache, never returns: it throws, a [TypeError] from its last
    loop unless a write was refused before as a duplicate, and it
    leaves an entry under that part in the cache. *)
Theorem X17_inherited_alias_request (store : Store) (input part : string)
        (pd : InstructionPatternData) :
  In part (filter Ref.dynamicPart (Ref.parts input)) ->
  ParserPipeline.parseSingleToken (ParserPipeline.stripDash part)
  = Some (ParserPipeline.FieldInherited, pd) ->
  InstructionModel.has store part = false ->
  (exists e,
      fst (ParserPipeline.getPipelineForInstruction store (Some input))
      = Throw e /\ (e = TypeError \/ e = DuplicateKey)) /\
  InstructionModel.has
    (snd (ParserPipeline.getPipelineForInstruction store (Some input))) part
  = true.
Proof.
  intros Hin Hp Hh.
  assert (Hb : JS.truthy (JS.trim input) = true).
  { apply filter_In in Hin as [Hin _]. now apply (parts_nonblank input part). }
  rewrite getPipeline_unfold by exact Hb. cbv zeta.
  set (tokens := fst (ParserPipeline.tokenizeInput input)).
  set (docs := InstructionModel.find store
                 (map ParserPipeline.tokenStr tokens)).
  assert (Ht : In (Ref.toToken part) tokens).
  { subst tokens. rewrite tokenizeInput_spec. cbn [fst]. now apply in_map. }
  assert (Hd : ParserPipeline.docsMap_get docs part = None)
    by (now apply docsMap_get_cold).
  pose proof (parseAll_writes docs tokens (Ref.toToken part) _ pd Ht Hd Hp store)
    as W. cbn [Ref.toToken ParserPipeline.tokenStr] in W.
  pose proof (parseAll_outcomes docs tokens store) as F.
  destruct (ParserPipeline.awaitAll
              (fst (ParserPipeline.parseAll docs tokens store)))
    as [results|e] eqn:E; cbn [fst snd].
  - split; [|exact W]. exists TypeError. split; [|now left].
    unfold ParserPipeline.finish. apply collect_junk.
    rewrite (awaitAll_ok _ _ E) in F.
    destruct (Forall2_In_l _ _ _ _ F Ht) as (r & Hr & O).
    apply in_map_iff in Hr as (r0 & <- & Hr0).
    unfold Ref.outcome_of in O.
    cbn [Ref.toToken ParserPipeline.tokenStr ParserPipeline.tk_exclude] in O.
    rewrite Hd, Hp in O. destruct O as [O|O]; [discriminate O|].
    injection O as ->. apply Exists_exists.
    eexists. split; [apply In_parseArray; exact Hr0 | reflexivity].
  - split; [|exact W]. exists e. split; [reflexivity|]. right.
    now apply (awaitAll_error docs tokens _ e F).
Qed.

Lemma X17_witness :
  (exists e,
      fst (ParserPipeline.getPipelineForInstruction
             [] (Some "line:ABC constructor:x")) = Throw e /\
      (e = TypeError \/ e = DuplicateKey)) /\
  InstructionModel.has
    (snd (ParserPipeline.getPipelineForInstruction
            [] (Some "line:ABC constructor:x"))) "constructor:x" = true.
Proof.
  apply (X17_inherited_alias_request [] "line:ABC constructor:x"
           "constructor:x" (PDValue None "x")).
  - vm_compute. right. left. reflexivity.
  - vm_compute. reflexivity.
  - reflexivity.
Defined.

(** The condition of [X4_request_returns] on the cache is needed: an
    entry under a part of the instruction whose field is none stops
    the request. *)
Lemma cached_junk_stops_request :
  ParserPipeline.getPipelineForInstruction
    [Ref.compiled "line:ABC" false ParserPipeline.FieldInherited
                  (PDValue None "ABC")]
    (Some "line:ABC")
  = (Throw TypeError,
     [Ref.compiled "line:ABC" false ParserPipeline.FieldInherited
                   (PDValue None "ABC")]).
Proof. vm_compute. reflexivity. Qed.
